(* ===== verification/_CoqProject ===== *)
-Q . S2P
Prelude.v
Endian.v
Intset.v
Dict.v
DictFacts.v
DictScan.v
DictProps.v
Util.v
UtilFacts.v
Glob.v
Localtime.v
Evict.v
Lzf.v
LzfFacts.v
Adlist.v
AdlistFacts.v
Cmd.v
Bitops.v
BitopsFacts.v
BitfieldProps.v
CmdFacts.v
BitopProps.v
BitCmdProps.v
Zskiplist.v
ZskiplistFacts.v
ZskiplistOps.v
ZskiplistSeq.v
ZskiplistRange.v
ZskiplistProps.v
Ziplist.v
ZiplistFacts.v
ZiplistCascade.v
ZiplistBody.v
ZiplistOps.v
ZiplistWalk.v
ZiplistProps.v
ZiplistValid.v
Crc.v
CrcFacts.v
CrcProps.v
Listpack.v
ListpackFacts.v
ListpackOps.v
ListpackProps.v
ListpackValid.v
Sds.v
SdsFacts.v
SdsOps.v
SdsCat.v
SdsFmt.v
SdsSplit.v
SdsQuote.v
SdsProps.v
