(* ===== verification/Prelude.v ===== *)
(** * Redis data structures and commands, verified

    ** The program

    The repository holds a Redis 6.2.5 server ([src/redis/src]) with its bundled
    libraries, and a handful of PHP scripts that move web server logs into a
    database. This development is about the server's data structures and the
    commands that work directly on them. A command finds a value in the
    keyspace, a hash table; the value is text, an integer, or a collection in
    one of several encodings; eviction samples the keyspace for keys to drop;
    compressed strings and numbers are stored as text; serialized structures are
    little endian whatever the host.

    ** Conventions

    A C integer is a [Z] kept in the range of its type: [wrap] and [swrap] (with
    [u8] ... [u64], [i8] ... [i64]) are the conversions, written out wherever the
    code relies on them or could overflow. A block of memory is the list of its
    bytes, or a finite map from addresses to structures where the code links
    nodes by pointers; pointers are indices or addresses. Fallible code is in the
    option monad: [None] is what C leaves undefined or aborts on, that is a read
    or write outside a block, a NULL or freed pointer, a failed assertion, so a
    theorem that says an operation returns [Some] also says that it is memory
    safe. An error the code reports is a value. Allocation gives its block as an
    argument; random numbers, clocks, hash functions and the byte order of the
    host are arguments or classes with their laws.

    A loop that is not structural takes fuel. The amount is part of the model
    where the code has a bound at hand (the length of a list, the bytes left of a
    buffer, the width of a word) and each theorem on the loop shows that it is
    enough: the result is [Some], never "if it returns".

    ** The files

    - [Prelude]: machine integers, buffers, little endian encodings, lists, the
      tactics [zlen], [dlia], [case_if], [rewrite_if_true] and the hint databases.
    - [Endian] ([endianconv.c], [endianconv.h]): reversal of bytes, the class
      [Host] of byte orders.
    - [Intset] ([intset.c]): sorted arrays of 16, 32 or 64-bit integers in one
      block. Adding (with the upgrade of the width), removing and finding refine
      the operations on finite sets of integers; the validation of a block from
      outside accepts exactly the blocks that represent a set; the block is the
      same on hosts of both byte orders; what happens when the 32-bit size wraps.
    - [Dict] ([dict.c], [dict.h]), [DictFacts], [DictScan], [DictProps]: hash tables
      with incremental rehashing. Lookups, additions, replacements and deletions
      act on the collection of entries wherever the rehashing is; rehashing
      keeps the collection and finishes; the stateless scan, with the table
      resized or rehashed between calls, returns every element that stays, and
      ends.
    - [Util] ([util.c]), [UtilFacts], [Glob]: decimal conversions, which accept
      and produce exactly the canonical decimal of every 64-bit integer, and glob
      matching against a declarative matching relation.
    - [Localtime] ([localtime.c]): conversion of times against a calendar defined
      by the rule for leap years, the lengths of the months and the next day.
    - [Evict] ([evict.c]): clocks, frequency counters and the pool of candidates
      with its recycled key buffers, against a sorted list of the best
      candidates.
    - [Lzf] ([lzf_c.c], [lzf_d.c]), [LzfFacts]: decompression inverts compression
      whatever the initial hash table, is safe on any input and reports its two
      errors exactly, against a description of the format.
    - [Adlist] ([adlist.c]), [AdlistFacts]: doubly linked lists on a heap against
      sequences; iteration with deletion of the current node.
    - [Cmd] ([object.c], [db.c]), [CmdFacts]: string objects, the keyspace and
      replies, as the bit commands use them.
    - [Bitops] ([bitops.c]), [BitopsFacts], [BitfieldProps], [BitopProps],
      [BitCmdProps]: population count and bit search by words, bit fields of any
      width and position with their overflow rules, and the commands SETBIT,
      GETBIT, BITOP, BITCOUNT, BITPOS and BITFIELD, against sequences of bits.
    - [Zskiplist] ([t_zset.c], [server.h]), [ZskiplistFacts], [ZskiplistOps],
      [ZskiplistSeq], [ZskiplistRange], [ZskiplistProps]: the skip lists of sorted
      sets. Insertion, deletion, change of a score, deletion of ranges, ranks and
      range lookups against a sorted sequence of scores and elements; every
      forward pointer and span is a function of the entries that follow.
    - [Ziplist] ([ziplist.c]), [ZiplistFacts], [ZiplistCascade], [ZiplistBody],
      [ZiplistOps], [ZiplistWalk], [ZiplistProps], [ZiplistValid]: lists of strings
      and integers in one block. Pushing, inserting, replacing, deleting and
      merging refine the operations on lists of strings, through the cascading
      updates of the previous-length fields; indexing from both ends, stepping,
      searching and counting read that list; the validation of a block from
      outside is safe on any bytes and accepts exactly the blocks described by
      [valid_block].
    - [Listpack] ([listpack.c]), [ListpackFacts], [ListpackOps], [ListpackProps],
      [ListpackValid]: lists of strings and integers in one block, with lengths
      written to be read backwards. Appending, inserting, replacing and deleting
      refine the operations on lists of strings whatever the allocator gives;
      seeking and stepping from both ends read that list; what the validation of
      a block accepts, and that it is safe on any bytes.
    - [Sds] ([sds.c], [sds.h]), [SdsFacts], [SdsOps], [SdsCat], [SdsFmt], [SdsSplit],
      [SdsQuote], [SdsProps]: dynamic strings, a header of one of five types and
      the text in one block. Creating, appending, copying, growing, shrinking,
      cutting and trimming refine the operations on byte strings whatever the
      allocator gives; formats and templates give the text they describe;
      splitting and joining, quoting and reading arguments are inverse; the size
      check of [sdsMakeRoomFor] that is made after the size has wrapped.
    - [Crc] ([crc64.c], [crcspeed.c], [crc16.c], [keyHashSlot] of [cluster.c]),
      [CrcFacts], [CrcProps]: the checksum by eight tables is the one bit by bit,
      on hosts of both byte orders and at any alignment, and detects every change
      within eight bytes; the hash slot of a key is the checksum of its tag.

    ** How the theorems fit together

    Each component has a representation predicate between its memory and an
    abstract value (a finite set, a collection of entries, a sequence, a
    sequence of bits), lemmas that every operation preserves it and does on the
    abstract value what it should, and theorems that state this for the
    operations a client calls. The numbered theorems (C1, C2, ...) are the
    claims; the ones after them whose names end in [_witness] apply them to
    concrete inputs.

    ** Bounds

    Skip lists hold fewer than [2 ^ 32] elements, the range of the 32-bit ranks
    of an insertion. Intsets fit their 32-bit size, and a theorem says what
    happens past it. The size of a ziplist is stored in 32 bits: [room] leaves
    space below that for the new entry and for four bytes in every entry that
    has to grow, twice. Its loops run with the length of the block as fuel, as
    every entry takes at least two bytes. The size of a listpack is stored in 32
    bits too, and the code refuses what does not fit; but an element within five
    bytes of that length is encoded with a length that has wrapped, and the
    theorem on listpacks says what comes of it. The loops on listpacks run with
    the length of the block as fuel, and the one that reads a backward length
    ends after five bytes. An iteration of the decompressor reads at least one
    byte, so that the length of its input is enough fuel. Strings are shorter
    than [2 ^ 60] bytes, far above what the server accepts. Times convert
    correctly up to [2 ^ 55] seconds, where the year still fits an int.

    ** Not modelled

    Networking, the event loop, persistence, replication, cluster, Sentinel,
    modules and scripting are input and output or distributed protocols around
    these structures. Quicklists, zipmaps, radix trees, streams and HyperLogLog are
    encodings not translated; of the sorted sets the ziplist encoding and the
    commands are left out, of ziplists printing and the choice of several random
    pairs, of the checksums the 16-bit table routines that nothing calls. Releasing
    memory ([lpFree], [sdsfree]) has no effect in the model. Scores are used
    through their order only: parsing and printing of doubles is the C library's.
    The bundled libraries and the PHP scripts are not modelled. *)

From stdpp Require Import base list gmap numbers option sorting.
From Stdlib Require Import ZArith Lia Bool.

Local Open Scope Z_scope.

(** ** Tactics *)

(** Turn boolean comparisons of the code into propositions. *)
Ltac bool_to_prop :=
  repeat match goal with
  | H : (_ && _)%bool = true |- _ => apply andb_true_iff in H; destruct H
  | H : (_ || _)%bool = false |- _ => apply orb_false_iff in H; destruct H
  | H : negb _ = true |- _ => apply negb_true_iff in H
  | H : negb _ = false |- _ => apply negb_false_iff in H
  | H : (_ <=? _)%Z = true |- _ => apply Z.leb_le in H
  | H : (_ <=? _)%Z = false |- _ => apply Z.leb_gt in H
  | H : (_ <? _)%Z = true |- _ => apply Z.ltb_lt in H
  | H : (_ <? _)%Z = false |- _ => apply Z.ltb_ge in H
  | H : (_ =? _)%Z = true |- _ => apply Z.eqb_eq in H
  | H : (_ =? _)%Z = false |- _ => apply Z.eqb_neq in H
  end.

(** Case analysis on the condition of the first [if] of the goal. *)
Ltac case_if :=
  match goal with
  | |- context [if ?c then _ else _] =>
      let E := fresh "E" in destruct c eqn:E; bool_to_prop
  end.

(** Case analysis on the condition of the first [if] of a hypothesis. *)
Ltac case_if_in H :=
  match type of H with
  | context [if ?c then _ else _] =>
      let E := fresh "E" in destruct c eqn:E; bool_to_prop
  end.

(** Linear arithmetic with division and remainder by constants. *)
Ltac dlia := Z.div_mod_to_equations; lia.

(** Decide an [if] whose condition follows by linear arithmetic. *)
Ltac rewrite_if_true :=
  match goal with
  | |- context [if ?c then _ else _] =>
      let E := fresh in assert (c = true) as E by lia; rewrite E; clear E
  end.
Ltac rewrite_if_false :=
  match goal with
  | |- context [if ?c then _ else _] =>
      let E := fresh in assert (c = false) as E by lia; rewrite E; clear E
  end.

(** ** Machine integers

    [wrap w z] is the value of an unsigned [w]-bit integer after storing [z]
    in it; [swrap w z] the value of a two's complement one. *)

Definition wrap (w z : Z) : Z := z mod 2 ^ w.
Definition swrap (w z : Z) : Z := (z + 2 ^ (w - 1)) mod 2 ^ w - 2 ^ (w - 1).

Abbreviation u8 := (wrap 8).
Abbreviation u16 := (wrap 16).
Abbreviation u32 := (wrap 32).
Abbreviation u64 := (wrap 64).
Abbreviation i8 := (swrap 8).
Abbreviation i16 := (swrap 16).
Abbreviation i32 := (swrap 32).
Abbreviation i64 := (swrap 64).

Definition INT16_MIN : Z := - 2 ^ 15.
Definition INT16_MAX : Z := 2 ^ 15 - 1.
Definition INT32_MIN : Z := - 2 ^ 31.
Definition INT32_MAX : Z := 2 ^ 31 - 1.
Definition LLONG_MIN : Z := - 2 ^ 63.
Definition LLONG_MAX : Z := 2 ^ 63 - 1.
Definition ULLONG_MAX : Z := 2 ^ 64 - 1.

Lemma pow2_half w : 0 < w -> 2 ^ w = 2 * 2 ^ (w - 1).
Proof.
  intros. rewrite <- Z.pow_succ_r by lia. f_equal; lia.
Qed.

Lemma wrap_range w z : 0 <= w -> 0 <= wrap w z < 2 ^ w.
Proof. intros; apply Z.mod_pos_bound; lia. Qed.

Lemma wrap_small w z : 0 <= z < 2 ^ w -> wrap w z = z.
Proof. intros; unfold wrap; apply Z.mod_small; lia. Qed.

Lemma wrap_wrap w z : 0 <= w -> wrap w (wrap w z) = wrap w z.
Proof. intros; apply wrap_small, wrap_range; lia. Qed.

Lemma swrap_range w z : 0 < w -> - 2 ^ (w - 1) <= swrap w z < 2 ^ (w - 1).
Proof.
  intros Hw; unfold swrap.
  pose proof (Z.mod_pos_bound (z + 2 ^ (w - 1)) (2 ^ w) ltac:(lia)) as H.
  rewrite (pow2_half w Hw) in H at 3. lia.
Qed.

Lemma swrap_small w z : 0 < w -> - 2 ^ (w - 1) <= z < 2 ^ (w - 1) -> swrap w z = z.
Proof.
  intros Hw Hz; unfold swrap. rewrite Z.mod_small; [lia|].
  rewrite (pow2_half w Hw). lia.
Qed.

Lemma wrap_congr w a b : 0 <= w -> (exists k, a = b + k * 2 ^ w) -> wrap w a = wrap w b.
Proof. intros Hw [k ->]; unfold wrap. apply Z_mod_plus_full. Qed.

Lemma swrap_congr w a b : 0 <= w -> (exists k, a = b + k * 2 ^ w) -> swrap w a = swrap w b.
Proof.
  intros Hw [k ->]; unfold swrap. f_equal.
  replace (b + k * 2 ^ w + 2 ^ (w - 1)) with (b + 2 ^ (w - 1) + k * 2 ^ w) by lia.
  apply Z_mod_plus_full.
Qed.

Lemma wrap_eq w z : 0 <= w -> exists k, wrap w z = z + k * 2 ^ w.
Proof.
  intros; exists (- (z / 2 ^ w)); unfold wrap.
  pose proof (Z.div_mod z (2 ^ w) ltac:(lia)); lia.
Qed.

Lemma swrap_eq w z : 0 <= w -> exists k, swrap w z = z + k * 2 ^ w.
Proof.
  intros; exists (- ((z + 2 ^ (w - 1)) / 2 ^ w)); unfold swrap.
  pose proof (Z.div_mod (z + 2 ^ (w - 1)) (2 ^ w) ltac:(lia)); lia.
Qed.

Lemma swrap_wrap w z : 0 <= w -> swrap w (wrap w z) = swrap w z.
Proof. intros; apply swrap_congr; [lia|]. by apply wrap_eq. Qed.

Lemma wrap_swrap w z : 0 <= w -> wrap w (swrap w z) = wrap w z.
Proof. intros; apply wrap_congr; [lia|]. by apply swrap_eq. Qed.

Lemma wrap_add_l w a b : 0 <= w -> wrap w (wrap w a + b) = wrap w (a + b).
Proof.
  intros; apply wrap_congr; [lia|]. destruct (wrap_eq w a) as [k Hk]; [lia|].
  exists k; lia.
Qed.

(** The same at the widths of the C types. *)
Lemma u32_small z : 0 <= z < 2 ^ 32 -> u32 z = z.
Proof. apply wrap_small. Qed.
Lemma u64_small z : 0 <= z < 2 ^ 64 -> u64 z = z.
Proof. apply wrap_small. Qed.
Lemma i32_small z : - 2 ^ 31 <= z < 2 ^ 31 -> i32 z = z.
Proof. exact (swrap_small 32 z eq_refl). Qed.
Lemma i64_small z : - 2 ^ 63 <= z < 2 ^ 63 -> i64 z = z.
Proof. exact (swrap_small 64 z eq_refl). Qed.

(** ** Byte buffers

    A C buffer is the list of its bytes. An access outside the buffer is
    undefined behaviour in C: here it has no result. *)

Abbreviation byte := Z (only parsing).

Definition is_byte (b : Z) : Prop := 0 <= b < 256.

#[export] Instance is_byte_dec b : Decision (is_byte b).
Proof. unfold is_byte. apply _. Defined.

(** Length as an integer. *)
Definition zlen {A} (l : list A) : Z := Z.of_nat (length l).

(** The byte at an offset. *)
Definition byte_at (l : list byte) (p : Z) : option byte :=
  if 0 <=? p then l !! Z.to_nat p else None.

Definition buf_read (l : list byte) (off n : Z) : option (list byte) :=
  if (0 <=? off) && (0 <=? n) && (off + n <=? zlen l)
  then Some (take (Z.to_nat n) (drop (Z.to_nat off) l)) else None.

Definition buf_write (l : list byte) (off : Z) (bs : list byte) : option (list byte) :=
  if (0 <=? off) && (off + zlen bs <=? zlen l)
  then Some (take (Z.to_nat off) l ++ bs ++ drop (Z.to_nat off + length bs) l)
  else None.

(** [memmove(l+dst, l+src, n)] *)
Definition buf_move (l : list byte) (dst src n : Z) : option (list byte) :=
  bs ← buf_read l src n; buf_write l dst bs.

Lemma zlen_nonneg {A} (l : list A) : 0 <= zlen l.
Proof. unfold zlen; lia. Qed.
Lemma zlen_nil {A} : zlen (@nil A) = 0.
Proof. reflexivity. Qed.
Lemma zlen_cons {A} (x : A) l : zlen (x :: l) = 1 + zlen l.
Proof. unfold zlen; simpl; lia. Qed.
Lemma zlen_app {A} (l k : list A) : zlen (l ++ k) = zlen l + zlen k.
Proof. unfold zlen; rewrite length_app; lia. Qed.
Lemma zlen_to_nat {A} (l : list A) : Z.to_nat (zlen l) = length l.
Proof. unfold zlen; lia. Qed.

Create HintDb redis.
Create Rewrite HintDb zlen.
#[export] Hint Rewrite @zlen_nil @zlen_cons @zlen_app : zlen.
#[export] Hint Resolve zlen_nonneg : redis.

(** Arithmetic about lengths: normalize them and use that they are
    nonnegative. *)
Ltac pose_zlen l :=
  lazymatch goal with
  | _ : 0 <= zlen l |- _ => fail
  | _ => pose proof (zlen_nonneg l)
  end.
Ltac zlen :=
  autorewrite with zlen in *;
  repeat match goal with
  | |- context [zlen ?l] => pose_zlen l
  | H : context [zlen ?l] |- _ => pose_zlen l
  end; lia.

Lemma byte_at_app a x c : byte_at (a ++ x :: c) (zlen a) = Some x.
Proof. unfold byte_at, zlen. rewrite (proj2 (Z.leb_le 0 _)) by lia. rewrite Nat2Z.id. by apply list_lookup_middle. Qed.

Lemma byte_at_local a b c i x : byte_at b i = Some x -> byte_at (a ++ b ++ c) (zlen a + i) = Some x.
Proof.
  unfold byte_at, zlen. intros E. case_if_in E; [|done]. rewrite (proj2 (Z.leb_le 0 _)) by lia.
  rewrite lookup_app_r by lia. replace (Z.to_nat (Z.of_nat (length a) + i) - length a)%nat with (Z.to_nat i) by lia.
  apply lookup_app_l_Some. done.
Qed.

Lemma buf_read_app a b c off n :
  off = zlen a -> n = zlen b -> buf_read (a ++ b ++ c) off n = Some b.
Proof.
  intros -> ->; unfold buf_read.
  pose proof (zlen_nonneg a); pose proof (zlen_nonneg b); pose proof (zlen_nonneg c).
  rewrite !zlen_app. rewrite_if_true.
  by rewrite !zlen_to_nat, drop_app_length, take_app_length.
Qed.

Lemma buf_write_app a b b' c off :
  off = zlen a -> length b' = length b ->
  buf_write (a ++ b ++ c) off b' = Some (a ++ b' ++ c).
Proof.
  intros -> Hl; unfold buf_write.
  pose proof (zlen_nonneg a); pose proof (zlen_nonneg c).
  assert (zlen b' = zlen b) as Hz by (unfold zlen; lia).
  rewrite !zlen_app. rewrite_if_true.
  rewrite zlen_to_nat, take_app_length, Hl.
  rewrite <- length_app, (app_assoc a b c), (drop_app_length (a ++ b)). done.
Qed.

Lemma buf_move_up a s g d :
  exists b, zlen b = zlen g /\ buf_move (a ++ s ++ g ++ d) (zlen a + zlen g) (zlen a) (zlen s) = Some (a ++ b ++ s ++ d).
Proof.
  unfold buf_move. rewrite buf_read_app by done. cbn [mbind option_bind].
  exists (take (length g) (s ++ g)). split; [unfold zlen; rewrite length_take, length_app; lia|].
  rewrite (app_assoc s g d), <- (take_drop (length g) (s ++ g)) at 1. rewrite <- (app_assoc _ _ d), (app_assoc a).
  rewrite buf_write_app; [by rewrite <- app_assoc|unfold zlen; rewrite !length_app, length_take, length_app; lia|].
  rewrite length_drop, length_app. lia.
Qed.

Lemma buf_move_down a g s d :
  exists b, zlen b = zlen g /\ buf_move (a ++ g ++ s ++ d) (zlen a) (zlen a + zlen g) (zlen s) = Some (a ++ s ++ b ++ d).
Proof.
  unfold buf_move. rewrite (app_assoc a g), buf_read_app by zlen. cbn [mbind option_bind]. rewrite <- (app_assoc a g).
  exists (drop (length s) (g ++ s)). split; [unfold zlen; rewrite length_drop, length_app; lia|].
  rewrite (app_assoc g s d), <- (take_drop (length s) (g ++ s)) at 1. rewrite <- (app_assoc _ _ d).
  rewrite buf_write_app; [done|done|]. rewrite length_take, length_app. lia.
Qed.

Lemma buf_read_Some l off n bs :
  buf_read l off n = Some bs ->
  exists a c, l = a ++ bs ++ c /\ off = zlen a /\ n = zlen bs.
Proof.
  unfold buf_read. intros H. case_if_in H; [|done]. simplify_eq.
  exists (take (Z.to_nat off) l), (drop (Z.to_nat n) (drop (Z.to_nat off) l)).
  unfold zlen in *. rewrite !length_take, !length_drop, !take_drop. repeat split; lia.
Qed.

Lemma buf_write_length l off bs l' : buf_write l off bs = Some l' -> length l' = length l.
Proof.
  unfold buf_write. intros H. case_if_in H; [|done]. simplify_eq.
  unfold zlen in *. rewrite !length_app, length_take, length_drop. lia.
Qed.

(** [zrealloc]: the common prefix is kept; the bytes a larger block gains are
    unspecified ([fill]). *)
Definition realloc (fill : nat -> byte) (l : list byte) (n : Z) : list byte :=
  take (Z.to_nat n) l ++
  map fill (seq (length l) (Z.to_nat n - length l)).

Lemma realloc_length fill l n : 0 <= n -> zlen (realloc fill l n) = n.
Proof.
  intros; unfold realloc, zlen.
  rewrite length_app, length_map, length_seq, length_take. lia.
Qed.

Lemma realloc_grow fill l n :
  zlen l <= n -> exists junk, realloc fill l n = l ++ junk /\ zlen junk = n - zlen l.
Proof.
  intros H; unfold realloc. rewrite take_ge by (unfold zlen in *; lia).
  eexists; split; [done|]. unfold zlen in *. rewrite length_map, length_seq. lia.
Qed.

Lemma realloc_shrink fill l k n : n = zlen l -> realloc fill (l ++ k) n = l.
Proof.
  intros ->; unfold realloc, zlen. rewrite length_app.
  replace (Z.to_nat (Z.of_nat (length l)) - (length l + length k))%nat with 0%nat by lia.
  simpl. rewrite app_nil_r, Nat2Z.id. apply take_app_length.
Qed.

(** ** Little endian encodings *)

Fixpoint le_split (n : nat) (z : Z) : list byte :=
  match n with
  | O => []
  | S n' => z mod 256 :: le_split n' (z / 256)
  end.

Fixpoint le_join (l : list byte) : Z :=
  match l with
  | [] => 0
  | b :: l' => b + 256 * le_join l'
  end.

Lemma le_split_length n z : length (le_split n z) = n.
Proof. revert z; induction n; intros; simpl; auto. Qed.

Lemma le_split_bytes n z : Forall is_byte (le_split n z).
Proof.
  revert z; induction n; intros; simpl; constructor; auto.
  apply Z.mod_pos_bound; lia.
Qed.

Lemma pow256_succ n : 256 ^ Z.of_nat (S n) = 256 * 256 ^ Z.of_nat n.
Proof. rewrite Nat2Z.inj_succ, Z.pow_succ_r by lia. done. Qed.

Lemma le_join_split n z : le_join (le_split n z) = z mod 256 ^ Z.of_nat n.
Proof.
  revert z; induction n as [|n IH]; intros z; [simpl; by rewrite Z.mod_1_r|].
  cbn [le_split le_join]. rewrite IH, pow256_succ, Z.rem_mul_r; lia.
Qed.

Lemma le_join_range l : Forall is_byte l -> 0 <= le_join l < 256 ^ zlen l.
Proof.
  unfold zlen; induction 1 as [|b l Hb _ IH]; [simpl; lia|].
  cbn [le_join length]. rewrite pow256_succ. unfold is_byte in Hb. lia.
Qed.

Lemma le_split_join l : Forall is_byte l -> le_split (length l) (le_join l) = l.
Proof.
  induction 1 as [|b l Hb _ IH]; simpl; [done|].
  unfold is_byte in Hb.
  replace (b + 256 * le_join l) with (b + le_join l * 256) by lia.
  rewrite Z_mod_plus_full, Z.mod_small, Z_div_plus_full, Z.div_small by lia.
  by rewrite Z.add_0_l, IH.
Qed.

Lemma le_split_mod n z : le_split n (z mod 256 ^ Z.of_nat n) = le_split n z.
Proof.
  rewrite <- le_join_split. rewrite <- (le_split_length n z) at 1.
  apply le_split_join, le_split_bytes.
Qed.

(** ** Sorted lists *)


Lemma StronglySorted_app_2 {A} (R : relation A) l k :
  StronglySorted R l -> StronglySorted R k ->
  (forall x y, x ∈ l -> y ∈ k -> R x y) -> StronglySorted R (l ++ k).
Proof.
  induction 1 as [|a l Hl IH Ha]; intros Hk Hlk; simpl; [done|].
  constructor.
  - apply IH; [done|]. intros; apply Hlk; [by right|done].
  - apply Forall_app; split; [done|]. apply Forall_forall.
    intros y Hy. apply Hlk; [left|done].
Qed.

Lemma StronglySorted_lookup_lt {A} (R : relation A) l i j x y :
  StronglySorted R l -> l !! i = Some x -> l !! j = Some y -> (i < j)%nat -> R x y.
Proof.
  intros Hs Hi Hj Hij. rewrite <- (take_drop (S i) l) in Hs.
  eapply StronglySorted_app_1_elem_of; [exact Hs|..]; apply list_elem_of_lookup.
  - exists i. rewrite lookup_take_lt by lia. done.
  - exists (j - S i)%nat. rewrite lookup_drop. by replace (S i + (j - S i))%nat with j by lia.
Qed.

(** ** Lists of lists *)

Lemma concat_insert {A} (t : list (list A)) i c :
  t !! i = Some c ->
  exists l1 l2, concat t = l1 ++ c ++ l2 /\
    forall c', concat (<[i := c']> t) = l1 ++ c' ++ l2.
Proof.
  revert i; induction t as [|x t IH]; intros [|i] Hi; [done..| |].
  - cbn in Hi. simplify_eq. by exists [], (concat t).
  - destruct (IH i Hi) as (l1 & l2 & E & Hc). exists (x ++ l1), l2.
    cbn. rewrite E. split; [by rewrite <- app_assoc|].
    intros c'. by rewrite Hc, <- app_assoc.
Qed.

Lemma elem_of_concat {A} (t : list (list A)) x :
  x ∈ concat t <-> exists i c, t !! i = Some c /\ (x ∈ c).
Proof.
  split.
  - induction t as [|c t IH]; cbn; [by intros ?%elem_of_nil|].
    intros [Hx|Hx]%elem_of_app; [by exists 0%nat, c|].
    destruct (IH Hx) as (i & c' & ? & ?). by exists (S i), c'.
  - intros (i & c & Hi & Hx). destruct (concat_insert t i c Hi) as (l1 & l2 & -> & _).
    rewrite !elem_of_app. tauto.
Qed.

Lemma concat_all_nil {A} (t : list (list A)) : Forall (fun c => c = []) t -> concat t = [].
Proof. induction 1 as [|? t -> _ IH]; done. Qed.

Lemma concat_replicate_nil {A} n : concat (replicate n (@nil A)) = [].
Proof. induction n; done. Qed.

(** ** Bits *)

Lemma testbit_split a b n i :
  0 <= n -> 0 <= i -> 0 <= b < 2 ^ n ->
  Z.testbit (a * 2 ^ n + b) i = if i <? n then Z.testbit b i else Z.testbit a (i - n).
Proof.
  intros Hn Hi Hb. case_if.
  - rewrite <- (Z.mod_pow2_bits_low (a * 2 ^ n + b) n i) by lia.
    rewrite Z.add_comm, Z.mod_add, Z.mod_small by lia. done.
  - replace i with (i - n + n) at 1 by lia. rewrite <- Z.div_pow2_bits by lia.
    rewrite Z.div_add_l, (Z.div_small b) by lia. f_equal. lia.
Qed.

Lemma testbit_ones n i : 0 <= n -> 0 <= i -> Z.testbit (2 ^ n - 1) i = (i <? n).
Proof.
  intros. change (2 ^ n - 1) with (Z.pred (2 ^ n)). rewrite <- Z.ones_equiv, Z.testbit_ones by lia.
  destruct (Z.leb_spec 0 i); [done|lia].
Qed.

(** Two words are equal when their bits are. *)
Lemma word_ext n a b :
  0 <= n -> 0 <= a < 2 ^ n -> 0 <= b < 2 ^ n ->
  (forall i, 0 <= i < n -> Z.testbit a i = Z.testbit b i) -> a = b.
Proof.
  intros Hn Ha Hb H. apply Z.bits_inj'. intros i Hi.
  destruct (Z.lt_ge_cases i n); [by apply H|].
  rewrite <- (Z.mod_small a (2 ^ n)), <- (Z.mod_small b (2 ^ n)) by lia.
  by rewrite !Z.mod_pow2_bits_high by lia.
Qed.
