(* ===== verification/Endian.v ===== *)
(** * Endian conversion ([endianconv.c], [endianconv.h])

    Serialized structures are little endian on every host. The byte order of
    the host is a parameter ([Host]); the [...ifbe] macros reverse bytes only
    on a big endian host. *)

From stdpp Require Import base list option.
From Stdlib Require Import ZArith Lia Bool.
From S2P Require Import Prelude.

Local Open Scope Z_scope.

Class Host := { big_endian : bool }.

(** The swap [t = x[i]; x[i] = x[j]; x[j] = t]. *)
Definition swap_bytes (i j : nat) (x : list byte) : option (list byte) :=
  t ← x !! i; u ← x !! j; Some (<[j := t]> (<[i := u]> x)).

Definition memrev16 (x : list byte) : option (list byte) :=
  swap_bytes 0 1 x.

Definition memrev32 (x : list byte) : option (list byte) :=
  x ← swap_bytes 0 3 x;
  swap_bytes 1 2 x.

Definition memrev64 (x : list byte) : option (list byte) :=
  x ← swap_bytes 0 7 x;
  x ← swap_bytes 1 6 x;
  x ← swap_bytes 2 5 x;
  swap_bytes 3 4 x.

Section Host.
Context `{Host}.

(** The bytes of an [n]-byte integer object in the memory of the host, and the
    unsigned value such bytes have. *)
Definition native_store (n : nat) (v : Z) : list byte :=
  if big_endian then rev (le_split n v) else le_split n v.
Definition native_load (bs : list byte) : Z :=
  le_join (if big_endian then rev bs else bs).

Definition intrev16 (v : Z) : option Z :=
  bs ← memrev16 (native_store 2 v); Some (native_load bs).
Definition intrev32 (v : Z) : option Z :=
  bs ← memrev32 (native_store 4 v); Some (native_load bs).
Definition intrev64 (v : Z) : option Z :=
  bs ← memrev64 (native_store 8 v); Some (native_load bs).

Definition memrev16ifbe (x : list byte) := if big_endian then memrev16 x else Some x.
Definition memrev32ifbe (x : list byte) := if big_endian then memrev32 x else Some x.
Definition memrev64ifbe (x : list byte) := if big_endian then memrev64 x else Some x.

Definition intrev16ifbe (v : Z) : Z :=
  if big_endian then default 0 (intrev16 v) else v.
Definition intrev32ifbe (v : Z) : Z :=
  if big_endian then default 0 (intrev32 v) else v.
Definition intrev64ifbe (v : Z) : Z :=
  if big_endian then default 0 (intrev64 v) else v.

(** Network byte order is big endian. *)
Definition htonu64 (v : Z) : Z :=
  if big_endian then v else default 0 (intrev64 v).
Definition ntohu64 (v : Z) : Z :=
  if big_endian then v else default 0 (intrev64 v).

(** ** The [memrev] functions reverse their bytes *)

Lemma memrev16_rev x : length x = 2%nat -> memrev16 x = Some (rev x).
Proof. intros; do 2 (destruct x as [|? x]; try done); by destruct x. Qed.

Lemma memrev32_rev x : length x = 4%nat -> memrev32 x = Some (rev x).
Proof. intros; do 4 (destruct x as [|? x]; try done); by destruct x. Qed.

Lemma memrev64_rev x : length x = 8%nat -> memrev64 x = Some (rev x).
Proof. intros; do 8 (destruct x as [|? x]; try done); by destruct x. Qed.

Lemma native_store_length n v : length (native_store n v) = n.
Proof. unfold native_store; case_if; rewrite ?length_rev; apply le_split_length. Qed.

Lemma native_load_store n v : native_load (native_store n v) = v mod 256 ^ Z.of_nat n.
Proof.
  unfold native_load, native_store. case_if; rewrite ?rev_involutive; apply le_join_split.
Qed.

(** Storing an integer and reversing it on a big endian host leaves its little
    endian bytes in memory. *)
Lemma memrev16ifbe_store v : memrev16ifbe (native_store 2 v) = Some (le_split 2 v).
Proof.
  unfold memrev16ifbe, native_store; case_if; [|done].
  rewrite memrev16_rev, rev_involutive; [done|]. by rewrite length_rev.
Qed.
Lemma memrev32ifbe_store v : memrev32ifbe (native_store 4 v) = Some (le_split 4 v).
Proof.
  unfold memrev32ifbe, native_store; case_if; [|done].
  rewrite memrev32_rev, rev_involutive; [done|]. by rewrite length_rev.
Qed.
Lemma memrev64ifbe_store v : memrev64ifbe (native_store 8 v) = Some (le_split 8 v).
Proof.
  unfold memrev64ifbe, native_store; case_if; [|done].
  rewrite memrev64_rev, rev_involutive; [done|]. by rewrite length_rev.
Qed.

(** Loading little endian bytes after the conversion. *)
Lemma native_load_ifbe (rv : list byte -> option (list byte)) bs n :
  (forall x, length x = n -> rv x = Some (rev x)) -> length bs = n ->
  exists bs', (if big_endian then rv bs else Some bs) = Some bs' /\
              native_load bs' = le_join bs.
Proof.
  intros Hrv Hl. unfold native_load. case_if.
  - exists (rev bs); rewrite Hrv, rev_involutive; done.
  - by exists bs.
Qed.

Lemma intrev32_spec v :
  intrev32 v = Some (le_join (rev (le_split 4 v))).
Proof.
  unfold intrev32. rewrite memrev32_rev by apply native_store_length. simpl.
  unfold native_load, native_store. case_if; by rewrite ?rev_involutive.
Qed.

Lemma intrev64_spec v :
  intrev64 v = Some (le_join (rev (le_split 8 v))).
Proof.
  unfold intrev64. rewrite memrev64_rev by apply native_store_length. simpl.
  unfold native_load, native_store. case_if; by rewrite ?rev_involutive.
Qed.

(** Reversing the [n] bytes of an integer twice gives the integer back. *)
Lemma byte_reverse_involutive n v :
  le_join (rev (le_split n (le_join (rev (le_split n v))))) = v mod 256 ^ Z.of_nat n.
Proof.
  rewrite <- (le_split_length n v) at 1. rewrite <- length_rev.
  rewrite le_split_join by (apply Forall_rev, le_split_bytes).
  rewrite rev_involutive. apply le_join_split.
Qed.

Lemma intrev32ifbe_involutive v : 0 <= v < 2 ^ 32 -> intrev32ifbe (intrev32ifbe v) = v.
Proof.
  intros; unfold intrev32ifbe; case_if; [|done].
  rewrite !intrev32_spec; cbn [from_option id].
  rewrite byte_reverse_involutive. by apply Z.mod_small.
Qed.

Lemma intrev64_involutive v w :
  0 <= v < 2 ^ 64 -> intrev64 v = Some w -> intrev64 w = Some v.
Proof.
  intros Hv. rewrite !intrev64_spec. intros E. apply (inj Some) in E. subst w.
  rewrite byte_reverse_involutive. by rewrite Z.mod_small.
Qed.

Lemma intrev32ifbe_range v : 0 <= v < 2 ^ 32 -> 0 <= intrev32ifbe v < 2 ^ 32.
Proof.
  intros; unfold intrev32ifbe; case_if; [|done].
  rewrite intrev32_spec; cbn [from_option id].
  pose proof (le_join_range (rev (le_split 4 v))) as R.
  unfold zlen in R. rewrite length_rev, le_split_length in R.
  apply R, Forall_rev, le_split_bytes.
Qed.

(** A header field holding [intrev32ifbe v] has the little endian bytes of
    [v] in memory, on both kinds of host. *)
Lemma native_store_intrev32ifbe v : native_store 4 (intrev32ifbe v) = le_split 4 v.
Proof.
  unfold native_store, intrev32ifbe; case_if; [|done].
  rewrite intrev32_spec; cbn [from_option id].
  assert (length (rev (le_split 4 v)) = 4%nat) as Hl by (by rewrite length_rev).
  rewrite <- Hl at 1.
  rewrite le_split_join, rev_involutive; [done|]. apply Forall_rev, le_split_bytes.
Qed.

Lemma intrev16_spec v : intrev16 v = Some (le_join (rev (le_split 2 v))).
Proof.
  unfold intrev16. rewrite memrev16_rev by apply native_store_length. simpl.
  unfold native_load, native_store. case_if; by rewrite ?rev_involutive.
Qed.

Lemma native_store_intrev16ifbe v : native_store 2 (intrev16ifbe v) = le_split 2 v.
Proof.
  unfold native_store, intrev16ifbe; case_if; [|done].
  rewrite intrev16_spec; cbn [from_option id].
  assert (length (rev (le_split 2 v)) = 2%nat) as Hl by (by rewrite length_rev).
  rewrite <- Hl at 1.
  rewrite le_split_join, rev_involutive; [done|]. apply Forall_rev, le_split_bytes.
Qed.

Lemma intrev16ifbe_native_load bs :
  Forall is_byte bs -> length bs = 2%nat -> intrev16ifbe (native_load bs) = le_join bs.
Proof.
  intros Hb Hl. unfold intrev16ifbe, native_load; case_if; [|done].
  rewrite intrev16_spec; cbn [from_option id]. f_equal.
  assert (length (rev bs) = 2%nat) as Hl' by (by rewrite length_rev).
  rewrite <- Hl' at 1.
  rewrite le_split_join, rev_involutive; [done|]. by apply Forall_rev.
Qed.

Lemma intrev32ifbe_native_load bs :
  Forall is_byte bs -> length bs = 4%nat -> intrev32ifbe (native_load bs) = le_join bs.
Proof.
  intros Hb Hl. unfold intrev32ifbe, native_load; case_if; [|done].
  rewrite intrev32_spec; cbn [from_option id]. f_equal.
  assert (length (rev bs) = 4%nat) as Hl' by (by rewrite length_rev).
  rewrite <- Hl' at 1.
  rewrite le_split_join, rev_involutive; [done|]. by apply Forall_rev.
Qed.

End Host.
