(* ===== verification/Intset.v ===== *)
(** * Sorted integer sets ([intset.c], [intset.h])

    An intset is one heap block: a header with the encoding (the width of the
    elements in bytes) and the number of elements, followed by the elements in
    increasing order, little endian. The model keeps the block byte by byte:
    every read and write of [contents] is checked against the block's size, so
    an operation that has a result made no access outside the block.

    The theorems relate the block to the finite set of integers it stands
    for. *)

From stdpp Require Import base list option sorting gmap.
From Stdlib Require Import ZArith Lia Bool.
From S2P Require Import Prelude Endian.

Local Open Scope Z_scope.

(** ** The structure and its operations *)

(** [encoding] and [length] are the values of the fields as the host reads
    them; the code converts them with [intrev32ifbe]. *)
Record intset := mk_intset {
  encoding : Z;
  length_ : Z;
  contents : list byte;
}.

Definition INTSET_ENC_INT16 : Z := 2.
Definition INTSET_ENC_INT32 : Z := 4.
Definition INTSET_ENC_INT64 : Z := 8.

Definition sizeof_intset : Z := 8.

Definition _intsetValueEncoding (v : Z) : Z :=
  if (v <? INT32_MIN) || (INT32_MAX <? v) then INTSET_ENC_INT64
  else if (v <? INT16_MIN) || (INT16_MAX <? v) then INTSET_ENC_INT32
  else INTSET_ENC_INT16.

Section Intset.
Context `{Host}.
(** Contents of the memory [zrealloc] adds to a block. *)
Context (fill : nat -> byte).

Definition _intsetGetEncoded (s : intset) (pos enc : Z) : option Z :=
  if enc =? INTSET_ENC_INT64 then
    bs ← buf_read (contents s) (pos * 8) 8;
    bs ← memrev64ifbe bs;
    Some (i64 (native_load bs))
  else if enc =? INTSET_ENC_INT32 then
    bs ← buf_read (contents s) (pos * 4) 4;
    bs ← memrev32ifbe bs;
    Some (i32 (native_load bs))
  else
    bs ← buf_read (contents s) (pos * 2) 2;
    bs ← memrev16ifbe bs;
    Some (i16 (native_load bs)).

Definition _intsetGet (s : intset) (pos : Z) : option Z :=
  _intsetGetEncoded s pos (u8 (intrev32ifbe (encoding s))).

(** [((intN_t* )contents)[pos] = value; memrevNifbe(((intN_t* )contents)+pos)] *)
Definition store_rev (n : nat) (rv : list byte -> option (list byte))
    (l : list byte) (pos value : Z) : option (list byte) :=
  l ← buf_write l (pos * Z.of_nat n) (native_store n value);
  bs ← buf_read l (pos * Z.of_nat n) (Z.of_nat n);
  bs ← rv bs;
  buf_write l (pos * Z.of_nat n) bs.

Definition set_contents (s : intset) (l : list byte) : intset :=
  mk_intset (encoding s) (length_ s) l.

Definition _intsetSet (s : intset) (pos value : Z) : option intset :=
  let enc := intrev32ifbe (encoding s) in
  if enc =? INTSET_ENC_INT64 then
    set_contents s <$> store_rev 8 memrev64ifbe (contents s) pos value
  else if enc =? INTSET_ENC_INT32 then
    set_contents s <$> store_rev 4 memrev32ifbe (contents s) pos value
  else
    set_contents s <$> store_rev 2 memrev16ifbe (contents s) pos value.

Definition intsetNew : intset :=
  mk_intset (intrev32ifbe INTSET_ENC_INT16) 0 [].

(** The size is computed in 32 bits. *)
Definition intsetResize (s : intset) (len : Z) : intset :=
  let size := u32 (len * intrev32ifbe (encoding s)) in
  set_contents s (realloc fill (contents s) size).

(** The binary search loop; [fuel] bounds the iterations. Its result is the
    last [(min, mid, cur)]. *)
Fixpoint intsetSearch_loop (fuel : nat) (s : intset) (value min max mid cur : Z)
    : option (Z * Z * Z) :=
  match fuel with
  | O => None
  | S fuel' =>
      if min <=? max then
        let mid := i32 (Z.shiftr (u32 (u32 min + u32 max)) 1) in
        cur ← _intsetGet s mid;
        if cur <? value then intsetSearch_loop fuel' s value (i32 (mid + 1)) max mid cur
        else if value <? cur then intsetSearch_loop fuel' s value min (i32 (mid - 1)) mid cur
        else Some (min, mid, cur)
      else Some (min, mid, cur)
  end.

(** The result is the return value and [*pos]. *)
Definition intsetSearch (s : intset) (value : Z) : option (bool * Z) :=
  let max := i32 (u32 (intrev32ifbe (length_ s) - 1)) in
  if intrev32ifbe (length_ s) =? 0 then Some (false, 0)
  else
    last ← _intsetGet s max;
    if last <? value then Some (false, intrev32ifbe (length_ s))
    else
      first ← _intsetGet s 0;
      if value <? first then Some (false, 0)
      else
        '(min, mid, cur) ←
          intsetSearch_loop (S (Z.to_nat (intrev32ifbe (length_ s)))) s value 0 max (-1) (-1);
        if value =? cur then Some (true, u32 mid) else Some (false, u32 min).

(** [while(length--) _intsetSet(is,length+prepend,...)] *)
Fixpoint upgrade_loop (n : nat) (s : intset) (curenc prepend : Z) : option intset :=
  match n with
  | O => Some s
  | S n' =>
      v ← _intsetGetEncoded s (Z.of_nat n') curenc;
      s ← _intsetSet s (Z.of_nat n' + prepend) v;
      upgrade_loop n' s curenc prepend
  end.

Definition intsetUpgradeAndAdd (s : intset) (value : Z) : option intset :=
  let curenc := u8 (intrev32ifbe (encoding s)) in
  let newenc := _intsetValueEncoding value in
  let length := i32 (intrev32ifbe (length_ s)) in
  let prepend := if value <? 0 then 1 else 0 in
  let s := mk_intset (intrev32ifbe newenc) (length_ s) (contents s) in
  let s := intsetResize s (u32 (intrev32ifbe (length_ s) + 1)) in
  if length <? 0 then None else
  s ← upgrade_loop (Z.to_nat length) s curenc prepend;
  s ← (if prepend =? 1 then _intsetSet s 0 value
        else _intsetSet s (i32 (intrev32ifbe (length_ s))) value);
  Some (mk_intset (encoding s) (intrev32ifbe (u32 (intrev32ifbe (length_ s) + 1)))
          (contents s)).

Definition intsetMoveTail (s : intset) (from to : Z) : option intset :=
  let bytes := u32 (intrev32ifbe (length_ s) - from) in
  let enc := intrev32ifbe (encoding s) in
  if enc =? INTSET_ENC_INT64 then
    set_contents s <$> buf_move (contents s) (to * 8) (from * 8) (u32 (bytes * 8))
  else if enc =? INTSET_ENC_INT32 then
    set_contents s <$> buf_move (contents s) (to * 4) (from * 4) (u32 (bytes * 4))
  else
    set_contents s <$> buf_move (contents s) (to * 2) (from * 2) (u32 (bytes * 2)).

(** The result is the new block and [*success]. *)
Definition intsetAdd (s : intset) (value : Z) : option (intset * bool) :=
  let valenc := _intsetValueEncoding value in
  if intrev32ifbe (encoding s) <? valenc then
    s ← intsetUpgradeAndAdd s value; Some (s, true)
  else
    '(found, pos) ← intsetSearch s value;
    if (found : bool) then Some (s, false)
    else
      let s := intsetResize s (u32 (intrev32ifbe (length_ s) + 1)) in
      s ← (if pos <? intrev32ifbe (length_ s)
            then intsetMoveTail s pos (u32 (pos + 1)) else Some s);
      s ← _intsetSet s (i32 pos) value;
      Some (mk_intset (encoding s)
              (intrev32ifbe (u32 (intrev32ifbe (length_ s) + 1))) (contents s), true).

Definition intsetRemove (s : intset) (value : Z) : option (intset * bool) :=
  let valenc := _intsetValueEncoding value in
  if valenc <=? intrev32ifbe (encoding s) then
    '(found, pos) ← intsetSearch s value;
    if (found : bool) then
      let len := intrev32ifbe (length_ s) in
      s ← (if pos <? u32 (len - 1)
            then intsetMoveTail s (u32 (pos + 1)) pos else Some s);
      let s := intsetResize s (u32 (len - 1)) in
      Some (mk_intset (encoding s) (intrev32ifbe (u32 (len - 1))) (contents s), true)
    else Some (s, false)
  else Some (s, false).

Definition intsetFind (s : intset) (value : Z) : option bool :=
  let valenc := _intsetValueEncoding value in
  if valenc <=? intrev32ifbe (encoding s)
  then '(found, _) ← intsetSearch s value; Some found
  else Some false.

(** [rand] is the value [rand()] returned; [assert(len)] has no result when it
    fails. *)
Definition intsetRandom (s : intset) (rand : Z) : option Z :=
  let len := intrev32ifbe (length_ s) in
  if len =? 0 then None
  else _intsetGet s (i32 (u32 rand mod len)).

(** [Some (Some v)]: returned 1 with [*value = v]; [Some None]: returned 0. *)
Definition intsetGet (s : intset) (pos : Z) : option (option Z) :=
  if pos <? intrev32ifbe (length_ s) then v ← _intsetGet s (i32 pos); Some (Some v)
  else Some None.

Definition intsetLen (s : intset) : Z := intrev32ifbe (length_ s).

Definition intsetBlobLen (s : intset) : Z :=
  u64 (sizeof_intset + intrev32ifbe (length_ s) * intrev32ifbe (encoding s)).

(** The [for] loop of the deep check, over [n] remaining positions from [i]. *)
Fixpoint validate_loop (n : nat) (s : intset) (i prev : Z) : option bool :=
  match n with
  | O => Some true
  | S n' =>
      cur ← _intsetGet s (i32 i);
      if cur <=? prev then Some false
      else validate_loop n' s (i + 1) cur
  end.

(** The bytes of a block, and the block a buffer is read as. *)
Definition intset_blob (s : intset) : list byte :=
  native_store 4 (encoding s) ++ native_store 4 (length_ s) ++ contents s.

Definition intset_of_bytes (p : list byte) : option intset :=
  e ← buf_read p 0 4;
  n ← buf_read p 4 4;
  Some (mk_intset (native_load e) (native_load n) (drop 8 p)).

Definition intsetValidateIntegrity (p : list byte) (size : Z) (deep : bool) : option bool :=
  if size <? sizeof_intset then Some false else
  s ← intset_of_bytes p;
  let enc := intrev32ifbe (encoding s) in
  if negb ((enc =? INTSET_ENC_INT64) || (enc =? INTSET_ENC_INT32) || (enc =? INTSET_ENC_INT16))
  then Some false
  else
    let record_size := enc in
    let count := intrev32ifbe (length_ s) in
    if negb (u64 (sizeof_intset + count * record_size) =? size) then Some false
    else if count =? 0 then Some false
    else if negb deep then Some true
    else
      prev ← _intsetGet s 0;
      validate_loop (Z.to_nat (count - 1)) s 1 prev.

End Intset.

(** ** Representation *)

Definition valid_enc (e : Z) : Prop := e = 2 \/ e = 4 \/ e = 8.

(** [v] is representable in [e] bytes. *)
Definition fits (e v : Z) : Prop := - 2 ^ (8 * e - 1) <= v < 2 ^ (8 * e - 1).

(** The serialization of one element, and of all. *)
Definition enc (e v : Z) : list byte := le_split (Z.to_nat e) v.
Definition encs (e : Z) (vs : list Z) : list byte := concat (map (enc e) vs).

Section Representation.
Context `{Host}.

(** The block [s] holds the elements [vs] with [e] bytes each. *)
Record repr (s : intset) (e : Z) (vs : list Z) : Prop := {
  repr_enc : intrev32ifbe (encoding s) = e;
  repr_valid : valid_enc e;
  repr_len : intrev32ifbe (length_ s) = zlen vs;
  repr_contents : contents s = encs e vs;
  repr_fits : Forall (fits e) vs;
  repr_sorted : StronglySorted Z.lt vs;
  repr_enc_u32 : 0 <= encoding s < 2 ^ 32;
  repr_len_u32 : 0 <= length_ s < 2 ^ 32;
}.

(** The finite set of integers a block stands for; the bound keeps the size of
    the block within the 32 bits the code computes it in. *)
Definition intset_repr (s : intset) (X : gset Z) : Prop :=
  exists e vs, repr s e vs /\ X = list_to_set vs /\ zlen vs < 2 ^ 29.

End Representation.

Lemma enc_length e v : valid_enc e -> zlen (enc e v) = e.
Proof. intros [-> | [-> | ->]]; reflexivity. Qed.

Lemma encs_app e vs ws : encs e (vs ++ ws) = encs e vs ++ encs e ws.
Proof. unfold encs. by rewrite map_app, concat_app. Qed.

Lemma encs_cons e v vs : encs e (v :: vs) = enc e v ++ encs e vs.
Proof. done. Qed.

Lemma encs_length e vs : valid_enc e -> zlen (encs e vs) = zlen vs * e.
Proof.
  intros He; induction vs as [|v vs IH]; [done|].
  rewrite encs_cons, zlen_app, zlen_cons, enc_length by done. lia.
Qed.

Lemma encs_bytes e vs : Forall is_byte (encs e vs).
Proof.
  induction vs as [|v vs IH]; [constructor|].
  rewrite encs_cons. apply Forall_app; split; [apply le_split_bytes|done].
Qed.

Ltac unfold_bounds :=
  unfold LLONG_MIN, LLONG_MAX, INT32_MIN, INT32_MAX, INT16_MIN, INT16_MAX,
    INTSET_ENC_INT16, INTSET_ENC_INT32, INTSET_ENC_INT64 in *.

(** Every value fits the encoding chosen for it. *)
Lemma fits_value_encoding v : LLONG_MIN <= v <= LLONG_MAX -> fits (_intsetValueEncoding v) v.
Proof.
  unfold _intsetValueEncoding, fits; unfold_bounds; intros.
  repeat case_if; cbn; lia.
Qed.

Lemma value_encoding_valid v : valid_enc (_intsetValueEncoding v).
Proof. unfold _intsetValueEncoding, valid_enc; unfold_bounds; repeat case_if; lia. Qed.

(** A value fits an encoding exactly when its own encoding is not larger. *)
Lemma fits_iff e v :
  valid_enc e -> LLONG_MIN <= v <= LLONG_MAX ->
  fits e v <-> _intsetValueEncoding v <= e.
Proof.
  unfold _intsetValueEncoding, fits; unfold_bounds.
  intros [-> | [-> | ->]] ?; repeat case_if; cbn; lia.
Qed.

Lemma fits_mono e e' v : valid_enc e -> valid_enc e' -> e <= e' -> fits e v -> fits e' v.
Proof.
  unfold fits; intros [-> | [-> | ->]] [-> | [-> | ->]] ?; cbn; lia.
Qed.

Lemma fits_llong e v : valid_enc e -> fits e v -> LLONG_MIN <= v <= LLONG_MAX.
Proof. unfold fits; unfold_bounds; intros [-> | [-> | ->]]; cbn; lia. Qed.

(** Decoding the little endian bytes of a value that fits gives the value. *)
Lemma decode_enc e v : valid_enc e -> fits e v -> swrap (8 * e) (le_join (enc e v)) = v.
Proof.
  unfold fits, enc; intros He Hv. rewrite le_join_split.
  transitivity (swrap (8 * e) v).
  - replace (256 ^ Z.of_nat (Z.to_nat e)) with (2 ^ (8 * e))
      by (destruct He as [-> | [-> | ->]]; reflexivity).
    change (v mod 2 ^ (8 * e)) with (wrap (8 * e) v).
    apply swrap_wrap. destruct He; lia.
  - apply swrap_small; [|done]. destruct He; lia.
Qed.

(** ** Access to one element *)

Section Access.
Context `{Host}.

Lemma getEncoded_spec s pos e v a c :
  valid_enc e -> fits e v ->
  contents s = a ++ enc e v ++ c -> pos * e = zlen a ->
  _intsetGetEncoded s pos e = Some v.
Proof.
  intros He Hv Hc Hp. unfold _intsetGetEncoded. rewrite Hc.
  pose proof (decode_enc e v He Hv) as D.
  pose proof (enc_length e v He) as L.
  assert (length (enc e v) = Z.to_nat e) as Ln by apply le_split_length.
  destruct He as [-> | [-> | ->]]; cbn [Z.eqb Pos.eqb INTSET_ENC_INT64 INTSET_ENC_INT32].
  - rewrite (buf_read_app a (enc 2 v) c) by lia. cbn [mbind option_bind].
    unfold memrev16ifbe.
    destruct (native_load_ifbe memrev16 (enc 2 v) 2 memrev16_rev) as (bs & -> & E); [done|].
    cbn [mbind option_bind]. rewrite E. f_equal. exact D.
  - rewrite (buf_read_app a (enc 4 v) c) by lia. cbn [mbind option_bind].
    unfold memrev32ifbe.
    destruct (native_load_ifbe memrev32 (enc 4 v) 4 memrev32_rev) as (bs & -> & E); [done|].
    cbn [mbind option_bind]. rewrite E. f_equal. exact D.
  - rewrite (buf_read_app a (enc 8 v) c) by lia. cbn [mbind option_bind].
    unfold memrev64ifbe.
    destruct (native_load_ifbe memrev64 (enc 8 v) 8 memrev64_rev) as (bs & -> & E); [done|].
    cbn [mbind option_bind]. rewrite E. f_equal. exact D.
Qed.

Lemma store_rev_spec n rv l pos v a b c :
  rv (native_store n v) = Some (le_split n v) ->
  l = a ++ b ++ c -> pos * Z.of_nat n = zlen a -> length b = n ->
  store_rev n rv l pos v = Some (a ++ le_split n v ++ c).
Proof.
  intros Hrv -> Hp Hb. unfold store_rev.
  rewrite (buf_write_app a b (native_store n v) c)
    by (done || by rewrite native_store_length). simpl.
  rewrite (buf_read_app a (native_store n v) c)
    by (done || (unfold zlen; by rewrite native_store_length)). simpl.
  rewrite Hrv. simpl. apply buf_write_app; [done|].
  by rewrite native_store_length, le_split_length.
Qed.

Lemma intsetSet_spec s pos v e a b c :
  intrev32ifbe (encoding s) = e -> valid_enc e ->
  contents s = a ++ b ++ c -> pos * e = zlen a -> zlen b = e ->
  _intsetSet s pos v = Some (set_contents s (a ++ enc e v ++ c)).
Proof.
  intros Hs He Hc Hp Hb. unfold _intsetSet. rewrite Hs.
  unfold zlen in Hb.
  destruct He as [-> | [-> | ->]]; cbn [Z.eqb Pos.eqb INTSET_ENC_INT64 INTSET_ENC_INT32].
  - erewrite (store_rev_spec 2) by (apply memrev16ifbe_store || eassumption || lia). done.
  - erewrite (store_rev_spec 4) by (apply memrev32ifbe_store || eassumption || lia). done.
  - erewrite (store_rev_spec 8) by (apply memrev64ifbe_store || eassumption || lia). done.
Qed.

Lemma valid_enc_u8 e : valid_enc e -> u8 e = e.
Proof. by intros [->|[->| ->]]. Qed.

Lemma repr_get s e vs i v :
  repr s e vs -> vs !! i = Some v -> _intsetGet s (Z.of_nat i) = Some v.
Proof.
  intros R Hi. unfold _intsetGet. rewrite (repr_enc _ _ _ R).
  pose proof (repr_valid _ _ _ R) as He. rewrite (valid_enc_u8 e He).
  pose proof (Forall_lookup_1 _ _ _ _ (repr_fits _ _ _ R) Hi) as Hf.
  eapply getEncoded_spec; [done|done|..].
  - rewrite (repr_contents _ _ _ R), <- (take_drop_middle vs i v Hi) at 1.
    by rewrite encs_app, encs_cons.
  - rewrite encs_length by done. unfold zlen. rewrite length_take.
    apply lookup_lt_Some in Hi. f_equal; lia.
Qed.

End Access.

(** ** Binary search *)

Section Search.
Context `{Host}.

(** [mid] lies between [min] and [max], and is computed without overflow. *)
Lemma mid_bounds min max :
  0 <= min <= max -> max < 2 ^ 31 - 1 ->
  i32 (Z.shiftr (u32 (u32 min + u32 max)) 1) = (min + max) / 2.
Proof.
  intros. rewrite (u32_small min), (u32_small max), u32_small by lia.
  rewrite Z.shiftr_div_pow2 by lia. change (2 ^ 1) with 2.
  apply i32_small; dlia.
Qed.

(** The loop terminates within its fuel with either the position of the value
    or the position that separates smaller from larger elements. *)
Lemma search_loop_spec s e vs value fuel min max mid cur :
  repr s e vs -> zlen vs < 2 ^ 31 ->
  0 <= min -> max < zlen vs -> min <= max + 1 ->
  (forall i x, vs !! i = Some x -> Z.of_nat i < min -> x < value) ->
  (forall i x, vs !! i = Some x -> max < Z.of_nat i -> value < x) ->
  (min > max -> cur <> value) ->
  max - min + 1 < Z.of_nat fuel ->
  exists min' mid' cur',
    intsetSearch_loop fuel s value min max mid cur = Some (min', mid', cur') /\
    ((cur' = value /\ 0 <= mid' /\ vs !! Z.to_nat mid' = Some value) \/
     (cur' <> value /\ 0 <= min' <= zlen vs /\
      (forall i x, vs !! i = Some x -> Z.of_nat i < min' -> x < value) /\
      (forall i x, vs !! i = Some x -> min' <= Z.of_nat i -> value < x))).
Proof.
  intros R Hlen. revert min max mid cur.
  induction fuel as [|fuel IH]; intros min max mid cur Hmin Hmax Hmm Hlo Hhi Hcur Hf; [lia|].
  cbn [intsetSearch_loop]. case_if.
  - rewrite mid_bounds by lia.
    set (m := (min + max) / 2).
    assert (min <= m <= max) as Hm by (unfold m; dlia).
    destruct (lookup_lt_is_Some_2 vs (Z.to_nat m)) as [x Hx]; [unfold zlen in *; lia|].
    rewrite <- (Z2Nat.id m) by lia. rewrite (repr_get s e vs _ x) by done.
    rewrite (Z2Nat.id m) by lia. cbn [mbind option_bind].
    assert (forall i y, vs !! i = Some y -> Z.of_nat i < m -> y < x) as Hlt.
    { intros i y Hi Him. eapply StronglySorted_lookup_lt; [apply (repr_sorted _ _ _ R)|done..|lia]. }
    assert (forall i y, vs !! i = Some y -> m < Z.of_nat i -> x < y) as Hgt.
    { intros i y Hi Him. eapply StronglySorted_lookup_lt; [apply (repr_sorted _ _ _ R)|done..|lia]. }
    repeat case_if.
    + rewrite (i32_small (m + 1)) by lia.
      apply IH; try lia; [|done].
      intros i y Hi Him. destruct (decide (Z.of_nat i = m)) as [Hi'|].
      * replace i with (Z.to_nat m) in Hi by lia. simplify_eq. done.
      * specialize (Hlt i y Hi). lia.
    + rewrite (i32_small (m - 1)) by lia.
      apply IH; try lia; [done|].
      intros i y Hi Him. destruct (decide (Z.of_nat i = m)) as [Hi'|].
      * replace i with (Z.to_nat m) in Hi by lia. simplify_eq. done.
      * specialize (Hgt i y Hi). lia.
    + exists min, m, x. split; [done|]. left. replace x with value in * by lia. repeat split; [lia|done].
  - exists min, mid, cur. split; [done|]. right.
    repeat split; [apply Hcur; lia|lia|lia|done|]. intros i x Hi Him. apply (Hhi i x Hi). lia.
Qed.

(** Where [value] is, or where it belongs. *)
Definition search_result (vs : list Z) (value : Z) (r : bool * Z) : Prop :=
  exists a c,
    (vs = a ++ value :: c /\ r = (true, zlen a)) \/
    (vs = a ++ c /\ r = (false, zlen a) /\
     Forall (fun x => x < value) a /\ Forall (fun x => value < x) c).

Lemma search_split vs value k :
  0 <= k <= zlen vs ->
  (forall i x, vs !! i = Some x -> Z.of_nat i < k -> x < value) ->
  (forall i x, vs !! i = Some x -> k <= Z.of_nat i -> value < x) ->
  search_result vs value (false, k).
Proof.
  intros Hk Hlo Hhi. exists (take (Z.to_nat k) vs), (drop (Z.to_nat k) vs). right.
  rewrite take_drop. repeat split.
  - unfold zlen in *. rewrite length_take. f_equal; lia.
  - apply Forall_lookup. intros i x [Hx Hi]%lookup_take_Some. eapply Hlo; [done|lia].
  - apply Forall_lookup. intros i x Hx. rewrite lookup_drop in Hx. eapply Hhi; [done|lia].
Qed.

Lemma intsetSearch_spec s e vs value :
  repr s e vs -> zlen vs < 2 ^ 31 ->
  exists r, intsetSearch s value = Some r /\ search_result vs value r.
Proof.
  intros R Hlen. unfold intsetSearch. rewrite (repr_len _ _ _ R).
  pose proof (zlen_nonneg vs). case_if.
  { exists (false, 0). split; [done|]. exists [], vs. right.
    destruct vs; [repeat split; constructor|zlen]. }
  rewrite u32_small, i32_small by lia.
  destruct (lookup_lt_is_Some_2 vs (length vs - 1)) as [z Hz]; [unfold zlen in *; lia|].
  destruct (lookup_lt_is_Some_2 vs 0) as [x Hx]; [unfold zlen in *; lia|].
  replace (zlen vs - 1) with (Z.of_nat (length vs - 1)) by (unfold zlen in *; lia).
  rewrite (repr_get s e vs _ z) by done. cbn [mbind option_bind].
  pose proof (repr_sorted _ _ _ R) as Hs. case_if.
  { exists (false, zlen vs). split; [done|]. apply search_split; [lia|..].
    - intros i y Hi _. destruct (decide (i = length vs - 1)%nat) as [->|]; [by simplify_eq|].
      apply Z.lt_trans with z; [|done].
      eapply StronglySorted_lookup_lt; [done..|]. apply lookup_lt_Some in Hi. lia.
    - intros i y Hi ?. apply lookup_lt_Some in Hi. unfold zlen in *; lia. }
  change 0 with (Z.of_nat 0) at 1. rewrite (repr_get s e vs 0 x) by done. cbn [mbind option_bind].
  case_if.
  { exists (false, 0). split; [done|]. apply search_split; [lia|lia|].
    intros [|i] y Hi _; [by simplify_eq|]. apply Z.lt_trans with x; [done|].
    eapply StronglySorted_lookup_lt; [done..|lia]. }
  destruct (search_loop_spec s e vs value (S (Z.to_nat (zlen vs))) 0
              (Z.of_nat (length vs - 1)) (-1) (-1))
    as (min' & mid' & cur' & -> & Hres); [done|done|lia|unfold zlen in *; lia|lia|lia| |lia
    |unfold zlen in *; lia|].
  { intros i y Hi ?. apply lookup_lt_Some in Hi. lia. }
  cbn [mbind option_bind]. destruct Hres as [(-> & ? & Hm)|(Hne & Hr & Hlo & Hhi)].
  - rewrite Z.eqb_refl. eexists; split; [done|].
    exists (take (Z.to_nat mid') vs), (drop (S (Z.to_nat mid')) vs). left.
    rewrite take_drop_middle by done. split; [done|].
    pose proof (lookup_lt_Some _ _ _ Hm).
    rewrite u32_small by (unfold zlen in *; lia).
    f_equal. unfold zlen. rewrite length_take. lia.
  - rewrite_if_false. eexists; split; [done|].
    rewrite u32_small by lia. by apply search_split.
Qed.

End Search.

(** ** Moving the tail *)

Section Move.
Context `{Host}.

(** Shifting [c] by [k] bytes over the [k] bytes [j] that follow it. *)
Lemma buf_move_right a c j k :
  zlen j = k ->
  exists b, zlen b = k /\
    buf_move (a ++ c ++ j) (zlen a + k) (zlen a) (zlen c) = Some (a ++ b ++ c).
Proof.
  intros Hj. unfold buf_move.
  rewrite (buf_read_app a c j) by done. cbn [mbind option_bind].
  set (b := take (Z.to_nat k) (c ++ j)). set (r := drop (Z.to_nat k) (c ++ j)).
  assert (zlen b = k) as Hb.
  { unfold b, zlen in *. rewrite length_take, length_app. lia. }
  exists b. split; [done|].
  replace (a ++ c ++ j) with ((a ++ b) ++ r ++ [])
    by (unfold b, r; by rewrite app_nil_r, <- app_assoc, take_drop).
  rewrite (buf_write_app (a ++ b) r c []).
  - by rewrite app_nil_r, <- app_assoc.
  - zlen.
  - unfold r. rewrite length_drop, length_app. unfold zlen in *. lia.
Qed.

(** Shifting [c] down over [v]. *)
Lemma buf_move_left a v c :
  exists j, zlen j = zlen v /\
    buf_move (a ++ v ++ c) (zlen a) (zlen a + zlen v) (zlen c) = Some (a ++ c ++ j).
Proof.
  unfold buf_move.
  assert (buf_read (a ++ v ++ c) (zlen a + zlen v) (zlen c) = Some c) as ->.
  { replace (a ++ v ++ c) with ((a ++ v) ++ c ++ []) by (by rewrite app_nil_r, <- app_assoc).
    apply buf_read_app; zlen. }
  cbn [mbind option_bind].
  set (b := take (length c) (v ++ c)). set (r := drop (length c) (v ++ c)).
  exists r. split.
  { unfold r, zlen. rewrite length_drop, length_app. lia. }
  replace (a ++ v ++ c) with (a ++ b ++ r) by (unfold b, r; by rewrite take_drop).
  apply buf_write_app; [done|]. unfold b. rewrite length_take, length_app. lia.
Qed.

Lemma moveTail_eq s e from to :
  intrev32ifbe (encoding s) = e -> valid_enc e ->
  intsetMoveTail s from to =
  set_contents s <$> buf_move (contents s) (to * e) (from * e)
                       (u32 (u32 (intrev32ifbe (length_ s) - from) * e)).
Proof. intros Hs He. unfold intsetMoveTail. rewrite Hs. destruct He as [-> | [-> | ->]]; done. Qed.

End Move.

(** ** Upgrading the encoding *)

Section Upgrade.
Context `{Host} (fill : nat -> byte).

(** Elements are moved back to front into their wider slots: the elements
    [us] still wait in the old encoding, [ws] are already in place. *)
Lemma upgrade_loop_spec s cur new us ws junk tail prepend :
  intrev32ifbe (encoding s) = new -> valid_enc cur -> valid_enc new -> cur <= new ->
  0 <= prepend -> Forall (fits cur) us ->
  contents s = encs cur us ++ junk ++ encs new ws ++ tail ->
  zlen (encs cur us ++ junk) = (zlen us + prepend) * new ->
  exists junk', zlen junk' = prepend * new /\
    upgrade_loop (length us) s cur prepend =
    Some (set_contents s (junk' ++ encs new (us ++ ws) ++ tail)).
Proof.
  intros Hs Hcur Hnew Hle Hp. revert s ws junk Hs.
  induction us as [|v us IH] using rev_ind; intros s ws junk Hs Hfit Hc Hl.
  { exists junk. split; [zlen|]. cbn. destruct s; simpl in *. by rewrite Hc. }
  apply Forall_app in Hfit as [Hfit [Hv _]%Forall_cons].
  rewrite length_app, Nat.add_comm. cbn [length plus upgrade_loop].
  assert (encs cur [v] = enc cur v) as Hone by (unfold encs; cbn; by rewrite app_nil_r).
  rewrite encs_app, Hone in Hc, Hl.
  rewrite (getEncoded_spec s _ cur v (encs cur us) (junk ++ encs new ws ++ tail)); [|done|done| |].
  2: { by rewrite Hc, <- !app_assoc. }
  2: { by rewrite encs_length. }
  cbn [mbind option_bind].
  set (R := enc cur v ++ junk).
  set (k := (zlen us + prepend) * new - zlen us * cur).
  assert (0 < new) by (destruct Hnew as [->|[->| ->]]; lia).
  assert (0 <= k) by (unfold k; pose proof (zlen_nonneg us); destruct Hcur as [->|[->| ->]], Hnew as [->|[->| ->]]; lia).
  assert (zlen R = k + new) as HR.
  { unfold R, k. rewrite !zlen_app in Hl. rewrite zlen_app, (encs_length cur us) in * by done.
    change (zlen [v]) with 1 in Hl. lia. }
  assert (exists R1 R2, R = R1 ++ R2 /\ zlen R1 = k /\ zlen R2 = new) as (R1 & R2 & HRs & HR1 & HR2).
  { exists (take (Z.to_nat k) R), (drop (Z.to_nat k) R). rewrite take_drop.
    unfold zlen in *. rewrite length_take, length_drop. repeat split; lia. }
  rewrite (intsetSet_spec s _ v new (encs cur us ++ R1) R2 (encs new ws ++ tail)); [|done|done| | |done].
  2: { rewrite Hc. rewrite <- !app_assoc. f_equal. rewrite !app_assoc. by rewrite <- HRs. }
  2: { rewrite zlen_app, encs_length, HR1 by done. unfold k; unfold zlen. ring. }
  cbn [mbind option_bind].
  edestruct (IH (set_contents s ((encs cur us ++ R1) ++ enc new v ++ encs new ws ++ tail))
               (v :: ws) R1) as (junk' & Hj & E); [done|done| | |].
  { cbn. by rewrite <- !app_assoc. }
  { rewrite zlen_app, encs_length, HR1 by done. unfold k. lia. }
  exists junk'. split; [done|]. rewrite E. f_equal. unfold set_contents; cbn. f_equal.
  by rewrite <- app_assoc.
Qed.

End Upgrade.

(** ** Insertion *)

Section Add.
Context `{Host} (fill : nat -> byte).

Lemma valid_enc_u32 e : valid_enc e -> 0 < e <= 8.
Proof. intros [->|[->| ->]]; lia. Qed.

(** Growing by one slot, when the size does not overflow 32 bits. *)
Lemma intsetResize_grow s e n :
  intrev32ifbe (encoding s) = e -> valid_enc e -> 0 <= n < 2 ^ 29 ->
  zlen (contents s) <= n * e ->
  exists junk, zlen junk = n * e - zlen (contents s) /\
    intsetResize fill s n = set_contents s (contents s ++ junk).
Proof.
  intros Hs He Hn Hl. pose proof (valid_enc_u32 e He). unfold intsetResize. rewrite Hs.
  rewrite u32_small by nia.
  destruct (realloc_grow fill (contents s) (n * e) Hl) as (junk & -> & Hj). by exists junk.
Qed.

Lemma set_length_repr s e vs n :
  intrev32ifbe (encoding s) = e -> valid_enc e -> contents s = encs e vs ->
  Forall (fits e) vs -> StronglySorted Z.lt vs -> n = zlen vs -> zlen vs < 2 ^ 32 ->
  0 <= encoding s < 2 ^ 32 ->
  repr (mk_intset (encoding s) (intrev32ifbe (u32 n)) (contents s)) e vs.
Proof.
  intros ????? -> ??. split; try done; cbn.
  - rewrite u32_small by zlen. apply intrev32ifbe_involutive. zlen.
  - apply intrev32ifbe_range, wrap_range. lia.
Qed.

Lemma sorted_insert a c v :
  StronglySorted Z.lt (a ++ c) -> Forall (fun x => x < v) a -> Forall (fun x => v < x) c ->
  StronglySorted Z.lt (a ++ v :: c).
Proof.
  intros Hs Ha Hc. apply StronglySorted_app_2.
  - by eapply StronglySorted_app_1_l.
  - constructor; [by eapply StronglySorted_app_1_r|done].
  - intros x y Hx Hy. rewrite Forall_forall in Ha, Hc.
    apply elem_of_cons in Hy as [->|Hy]; [by apply Ha|].
    apply Z.lt_trans with v; auto.
Qed.

(** A value that needs a wider encoding is smaller or larger than all
    elements, according to its sign. *)
Lemma out_of_range_extreme e v vs :
  valid_enc e -> LLONG_MIN <= v <= LLONG_MAX -> e < _intsetValueEncoding v ->
  Forall (fits e) vs ->
  Forall (fun x => if v <? 0 then v < x else x < v) vs.
Proof.
  intros He Hr Hv Hf. eapply Forall_impl; [exact Hf|]. intros x Hx.
  assert (~ fits e v) as Hn by (rewrite fits_iff by done; lia).
  unfold fits in *. case_if; lia.
Qed.

Lemma intsetUpgradeAndAdd_spec s e vs v :
  repr s e vs -> LLONG_MIN <= v <= LLONG_MAX -> e < _intsetValueEncoding v ->
  zlen vs + 1 < 2 ^ 29 ->
  exists s', intsetUpgradeAndAdd fill s v = Some s' /\
    repr s' (_intsetValueEncoding v) (if v <? 0 then v :: vs else vs ++ [v]).
Proof.
  intros R Hv Hlt Hlen. unfold intsetUpgradeAndAdd.
  cbv zeta; cbn [encoding length_ contents].
  pose proof (repr_valid _ _ _ R) as He. pose proof (repr_fits _ _ _ R) as Hf.
  pose proof (value_encoding_valid v) as Hn. pose proof (valid_enc_u32 _ He).
  pose proof (valid_enc_u32 _ Hn). pose proof (zlen_nonneg vs).
  set (new := _intsetValueEncoding v) in *.
  rewrite (repr_enc _ _ _ R). unfold u8 at 1. rewrite (wrap_small 8 e) by lia.
  rewrite i32_small by (rewrite (repr_len _ _ _ R); lia).
  rewrite (repr_len _ _ _ R). rewrite (u32_small (zlen vs + 1)) by lia.
  assert (intrev32ifbe (intrev32ifbe new) = new) as Hrev by (apply intrev32ifbe_involutive; lia).
  destruct (intsetResize_grow (mk_intset (intrev32ifbe new) (length_ s) (contents s)) new (zlen vs + 1))
    as (junk & Hj & ->); [done|done|lia| |].
  { cbn. rewrite (repr_contents _ _ _ R), encs_length by done. nia. }
  cbn in Hj. cbn [contents]. rewrite (repr_contents _ _ _ R), encs_length in * by done.
  rewrite_if_false.
  set (prepend := if v <? 0 then 1 else 0).
  assert (0 <= prepend <= 1) by (unfold prepend; case_if; lia).
  set (k := (zlen vs + prepend) * new - zlen vs * e). assert (0 <= k) by (unfold k; nia).
  assert (exists j1 j2, junk = j1 ++ j2 /\ zlen j1 = k /\ zlen j2 = (1 - prepend) * new)
    as (j1 & j2 & -> & Hj1 & Hj2).
  { exists (take (Z.to_nat k) junk), (drop (Z.to_nat k) junk). rewrite take_drop.
    unfold zlen in *. rewrite length_take, length_drop.
    assert (Z.of_nat (length junk) = k + (1 - prepend) * new) by (unfold k, zlen; lia).
    repeat split; nia. }
  rewrite zlen_to_nat. unfold set_contents; cbn [encoding length_ contents].
  edestruct (upgrade_loop_spec
     (mk_intset (intrev32ifbe new) (length_ s) (encs e vs ++ j1 ++ j2))
     e new vs [] j1 j2 prepend) as (junk' & Hj' & ->); try done; [lia|lia| |].
  { rewrite zlen_app, encs_length, Hj1 by done. unfold k. lia. }
  rewrite app_nil_r. cbn [mbind option_bind].
  pose proof (out_of_range_extreme e v vs He Hv Hlt Hf) as Hext.
  assert (Forall (fits new) vs) as Hf'.
  { eapply Forall_impl; [exact Hf|]. intros x. apply fits_mono; [done..|lia]. }
  pose proof (fits_value_encoding v Hv) as Hfv. fold new in Hfv.
  unfold prepend in *. destruct (v <? 0) eqn:Hneg; cbn [Z.eqb Pos.eqb].
  - assert (j2 = []) as -> by (destruct j2; [done|zlen]).
    rewrite !app_nil_r.
    rewrite (intsetSet_spec _ 0 v new [] junk' (encs new vs)); [|done|done|done|done|lia].
    cbn. eexists; split; [done|]. rewrite (repr_len _ _ _ R).
    apply (set_length_repr (mk_intset (intrev32ifbe new) 0 (enc new v ++ encs new vs)));
      try done; [by constructor| |zlen|zlen|apply intrev32ifbe_range; lia].
    constructor; [apply (repr_sorted _ _ _ R)|]. done.
  - assert (junk' = []) as -> by (destruct junk'; [done|zlen]).
    cbn [contents set_contents encoding length_ app].
    rewrite (repr_len _ _ _ R), i32_small by lia.
    rewrite (intsetSet_spec _ (zlen vs) v new (encs new vs) j2 []); [|done|done| | |lia].
    2: { by rewrite app_nil_r. }
    2: { by rewrite encs_length. }
    cbn. eexists; split; [done|]. rewrite (repr_len _ _ _ R), app_nil_r.
    apply (set_length_repr (mk_intset (intrev32ifbe new) 0 (encs new vs ++ enc new v)));
      try done;
      [|by apply Forall_app_2, Forall_singleton| |zlen|zlen|apply intrev32ifbe_range; lia].
    + cbn. rewrite encs_app. unfold encs at 3. cbn. by rewrite app_nil_r.
    + apply sorted_insert; [by rewrite app_nil_r; apply (repr_sorted _ _ _ R)|done|done].
Qed.

Lemma intsetAdd_list s e vs v :
  repr s e vs -> LLONG_MIN <= v <= LLONG_MAX -> zlen vs + 1 < 2 ^ 29 ->
  ((v ∈ vs) /\ intsetAdd fill s v = Some (s, false)) \/
  ((v ∉ vs) /\ exists s' a c, intsetAdd fill s v = Some (s', true) /\
     vs = a ++ c /\ repr s' (Z.max e (_intsetValueEncoding v)) (a ++ v :: c)).
Proof.
  intros R Hv Hlen. unfold intsetAdd. rewrite (repr_enc _ _ _ R).
  pose proof (repr_valid _ _ _ R) as He. pose proof (valid_enc_u32 _ He).
  pose proof (repr_fits _ _ _ R) as Hf. case_if.
  { right.
    pose proof (out_of_range_extreme e v vs He Hv E Hf) as Hext.
    split.
    { intros Hin. rewrite Forall_forall in Hext. specialize (Hext v Hin). destruct (v <? 0); lia. }
    destruct (intsetUpgradeAndAdd_spec s e vs v) as (s' & -> & R'); [done..|].
    cbn [mbind option_bind]. rewrite Z.max_r by lia. destruct (v <? 0).
    - by exists s', [], vs.
    - exists s', vs, []. by rewrite app_nil_r. }
  destruct (intsetSearch_spec s e vs v R) as (r & -> & (a & c & Hr)); [zlen|].
  destruct Hr as [(-> & ->)|(-> & -> & Ha & Hc)]; cbn [mbind option_bind].
  { left. split; [|done]. apply elem_of_app; right; left. }
  right. split.
  { rewrite Forall_forall in Ha, Hc. intros [Hin|Hin]%elem_of_app.
    - specialize (Ha v Hin). lia.
    - specialize (Hc v Hin). lia. }
  assert (fits e v) as Hfv by (apply fits_iff; [done|done|lia]).
  pose proof (zlen_nonneg a). pose proof (zlen_nonneg c). rewrite zlen_app in Hlen.
  rewrite (repr_len _ _ _ R), zlen_app. rewrite (u32_small (_ + 1)) by lia.
  destruct (intsetResize_grow s e (zlen a + zlen c + 1)) as (junk & Hj & ->);
    [apply R|done|lia| |].
  { rewrite (repr_contents _ _ _ R), encs_length, zlen_app by done. lia. }
  rewrite (repr_contents _ _ _ R), encs_length, zlen_app in Hj by done.
  cbn [length_ set_contents]. rewrite (repr_len _ _ _ R), zlen_app.
  set (s1 := set_contents s (contents s ++ junk)).
  assert (exists b, zlen b = e /\
    (if zlen a <? zlen a + zlen c then intsetMoveTail s1 (zlen a) (u32 (zlen a + 1)) else Some s1)
    = Some (set_contents s (encs e a ++ b ++ encs e c))) as (b & Hb & ->).
  { case_if.
    - rewrite (moveTail_eq s1 e) by (done || apply R). cbn [contents set_contents s1 length_].
      rewrite (repr_len _ _ _ R), zlen_app, (repr_contents _ _ _ R), encs_app.
      rewrite (u32_small (zlen a + 1)), (u32_small (_ - _)) by lia.
      rewrite u32_small by nia.
      destruct (buf_move_right (encs e a) (encs e c) junk e) as (b & Hb & Hm); [lia|].
      exists b. split; [done|]. rewrite !encs_length in Hm by done.
      rewrite <- app_assoc.
      replace ((zlen a + 1) * e) with (zlen a * e + e) by lia.
      replace ((zlen a + zlen c - zlen a) * e) with (zlen c * e) by lia.
      by rewrite Hm.
    - assert (c = []) as -> by (destruct c; [done|zlen]).
      exists junk. split; [rewrite zlen_nil in *; lia|].
      unfold s1. rewrite (repr_contents _ _ _ R), app_nil_r. cbn. by rewrite app_nil_r. }
  cbn [mbind option_bind]. rewrite i32_small by lia.
  rewrite (intsetSet_spec _ (zlen a) v e (encs e a) b (encs e c));
    [|apply R|done|done|by rewrite encs_length|done].
  cbn [mbind option_bind].
  eexists _, a, c. split; [done|]. split; [done|].
  rewrite Z.max_l by lia. cbn. rewrite (repr_len _ _ _ R), zlen_app.
  apply (set_length_repr (mk_intset (encoding s) 0 _)); try done; [apply R| | | |zlen|zlen|apply R].
  - cbn. by rewrite encs_app, encs_cons.
  - apply Forall_app in Hf as [? ?]. apply Forall_app; split; [done|by constructor].
  - apply sorted_insert; [apply (repr_sorted _ _ _ R)|done|done].
Qed.

End Add.

(** ** Removal, lookup and validation *)

Section Remove.
Context `{Host} (fill : nat -> byte).

Lemma sorted_not_elem a c v :
  StronglySorted Z.lt (a ++ v :: c) -> v ∉ a ++ c.
Proof.
  intros Hs [Hin|Hin]%elem_of_app.
  - assert (v < v); [|lia]. eapply StronglySorted_app_1_elem_of; [exact Hs|done|left].
  - apply StronglySorted_app_1_r, StronglySorted_inv in Hs as [_ Hs].
    rewrite Forall_forall in Hs. specialize (Hs v Hin). lia.
Qed.

Lemma intsetRemove_list s e vs v :
  repr s e vs -> LLONG_MIN <= v <= LLONG_MAX -> zlen vs < 2 ^ 29 ->
  ((v ∉ vs) /\ intsetRemove fill s v = Some (s, false)) \/
  (exists s' a c, intsetRemove fill s v = Some (s', true) /\
     vs = a ++ v :: c /\ repr s' e (a ++ c)).
Proof.
  intros R Hv Hlen. unfold intsetRemove. rewrite (repr_enc _ _ _ R).
  pose proof (repr_valid _ _ _ R) as He. pose proof (valid_enc_u32 _ He).
  pose proof (repr_fits _ _ _ R) as Hf. case_if.
  2: { left. split; [|done]. intros Hin. rewrite Forall_forall in Hf.
       specialize (Hf v Hin). apply fits_iff in Hf; [lia|done|done]. }
  destruct (intsetSearch_spec s e vs v R) as (r & -> & (a & c & Hr)); [zlen|].
  destruct Hr as [(-> & ->)|(-> & -> & Ha & Hc)]; cbn [mbind option_bind].
  2: { left. split; [|done]. rewrite Forall_forall in Ha, Hc. intros [Hin|Hin]%elem_of_app.
       - specialize (Ha v Hin). lia.
       - specialize (Hc v Hin). lia. }
  right. pose proof (zlen_nonneg a). pose proof (zlen_nonneg c).
  rewrite zlen_app, zlen_cons in Hlen.
  rewrite (repr_len _ _ _ R), zlen_app, zlen_cons.
  rewrite (u32_small (zlen a + (1 + zlen c) - 1)) by lia.
  assert (exists j, zlen j = e /\
    (if zlen a <? zlen a + (1 + zlen c) - 1 then intsetMoveTail s (u32 (zlen a + 1)) (zlen a)
     else Some s) = Some (set_contents s (encs e (a ++ c) ++ j))) as (j & Hj & ->).
  { case_if.
    - rewrite (moveTail_eq s e) by (done || apply R).
      rewrite (repr_len _ _ _ R), zlen_app, zlen_cons, (repr_contents _ _ _ R), !encs_app, encs_cons.
      rewrite (u32_small (zlen a + 1)), (u32_small (_ - _)) by lia. rewrite u32_small by nia.
      destruct (buf_move_left (encs e a) (enc e v) (encs e c)) as (j & Hj & Hm).
      exists j. rewrite enc_length in Hj, Hm by done. split; [done|].
      rewrite !encs_length in Hm by done.
      replace ((zlen a + 1) * e) with (zlen a * e + e) by lia.
      replace ((zlen a + (1 + zlen c) - (zlen a + 1)) * e) with (zlen c * e) by lia.
      rewrite Hm. by rewrite <- app_assoc.
    - assert (c = []) as -> by (destruct c; [done|zlen]).
      exists (enc e v). split; [by apply enc_length|]. destruct s; cbn in *.
      unfold set_contents; cbn. repeat f_equal.
      rewrite app_nil_r. pose proof (repr_contents _ _ _ R) as Hc. cbn in Hc.
      rewrite Hc, encs_app. unfold encs at 2. cbn. by rewrite app_nil_r. }
  cbn [mbind option_bind].
  eexists _, a, c. split; [done|]. split; [done|].
  unfold intsetResize; cbn [encoding length_ contents set_contents].
  rewrite (repr_enc _ _ _ R), u32_small by nia.
  rewrite realloc_shrink by (rewrite encs_length, zlen_app by done; lia).
  rewrite <- (u32_small (zlen a + (1 + zlen c) - 1)) by lia.
  pose proof (repr_sorted _ _ _ R) as Hs.
  apply (set_length_repr (mk_intset (encoding s) 0 _)); try done; [apply R| | |zlen|zlen|apply R].
  - rewrite Forall_app, Forall_cons in Hf. apply Forall_app. tauto.
  - apply StronglySorted_app_2; [by eapply StronglySorted_app_1_l| |].
    + apply StronglySorted_app_1_r, StronglySorted_inv in Hs. tauto.
    + intros x y Hx Hy. eapply StronglySorted_app_1_elem_of; [exact Hs|done|by right].
Qed.

Lemma intsetFind_list s e vs v :
  repr s e vs -> LLONG_MIN <= v <= LLONG_MAX -> zlen vs < 2 ^ 29 ->
  intsetFind s v = Some (bool_decide (v ∈ vs)).
Proof.
  intros R Hv Hlen. unfold intsetFind. rewrite (repr_enc _ _ _ R).
  pose proof (repr_valid _ _ _ R) as He. pose proof (repr_fits _ _ _ R) as Hf. case_if.
  - destruct (intsetSearch_spec s e vs v R) as (r & -> & (a & c & Hr)); [zlen|].
    destruct Hr as [(-> & ->)|(-> & -> & Ha & Hc)]; cbn [mbind option_bind]; f_equal; symmetry.
    + apply bool_decide_eq_true_2, elem_of_app. right; left.
    + apply bool_decide_eq_false_2. rewrite Forall_forall in Ha, Hc. intros [Hin|Hin]%elem_of_app.
      * specialize (Ha v Hin). lia.
      * specialize (Hc v Hin). lia.
  - f_equal; symmetry. apply bool_decide_eq_false_2. intros Hin. rewrite Forall_forall in Hf.
    specialize (Hf v Hin). apply fits_iff in Hf; [lia|done|done].
Qed.

(** The deep check passes exactly on increasing sequences. *)
Lemma validate_loop_spec s e vs i prev :
  intrev32ifbe (encoding s) = e -> valid_enc e -> contents s = encs e vs ->
  Forall (fits e) vs -> zlen vs < 2 ^ 31 ->
  vs !! i = Some prev ->
  validate_loop (length vs - S i) s (Z.of_nat (S i)) prev =
  Some (bool_decide (StronglySorted Z.lt (prev :: drop (S i) vs))).
Proof.
  intros Hs He Hc Hf Hlen. remember (length vs - S i)%nat as n eqn:Hn.
  revert i prev Hn. induction n as [|n IH]; intros i prev Hn Hi; cbn [validate_loop].
  - rewrite drop_ge by lia. by rewrite bool_decide_eq_true_2 by repeat constructor.
  - destruct (lookup_lt_is_Some_2 vs (S i)) as [x Hx]; [lia|].
    rewrite i32_small by (apply lookup_lt_Some in Hx; unfold zlen in *; lia).
    unfold _intsetGet. rewrite Hs, (valid_enc_u8 e He).
    assert (_intsetGetEncoded s (Z.of_nat (S i)) e = Some x) as ->.
    { eapply getEncoded_spec; [done|by eapply Forall_lookup_1| |].
      - rewrite Hc, <- (take_drop_middle vs (S i) x Hx) at 1. by rewrite encs_app, encs_cons.
      - rewrite encs_length by done. unfold zlen. rewrite length_take.
        apply lookup_lt_Some in Hx. f_equal; lia. }
    cbn [mbind option_bind]. rewrite (drop_S vs x (S i)) by done. case_if.
    + f_equal; symmetry. apply bool_decide_eq_false_2.
      intros [_ Ha]%StronglySorted_inv. inversion Ha. lia.
    + replace (Z.of_nat (S i) + 1) with (Z.of_nat (S (S i))) by lia.
      rewrite (IH (S i) x) by (done || lia). f_equal. apply bool_decide_ext.
      split; intros Hst; [|by apply StronglySorted_inv in Hst as [? _]].
      constructor; [done|]. constructor; [done|].
      apply StronglySorted_inv in Hst as [_ Hst]. eapply Forall_impl; [exact Hst|].
      intros y Hy; cbn in Hy; lia.
Qed.

(** Any buffer of the right size is the serialization of some values. *)
Lemma decode_all e l n :
  valid_enc e -> Forall is_byte l -> zlen l = Z.of_nat n * e ->
  exists vs, length vs = n /\ l = encs e vs /\ Forall (fits e) vs.
Proof.
  intros He. revert l; induction n as [|n IH]; intros l Hb Hl.
  { exists []. destruct l; [done|zlen]. }
  pose proof (valid_enc_u32 _ He).
  rewrite <- (take_drop (Z.to_nat e) l) in Hb. apply Forall_app in Hb as [Hb1 Hb2].
  destruct (IH (drop (Z.to_nat e) l)) as (vs & Hn & Hd & Hf); [done| |].
  { unfold zlen in *. rewrite length_drop. nia. }
  assert (length (take (Z.to_nat e) l) = Z.to_nat e) as Ht.
  { rewrite length_take. unfold zlen in *. nia. }
  set (v := swrap (8 * e) (le_join (take (Z.to_nat e) l))).
  assert (enc e v = take (Z.to_nat e) l) as Hv.
  { unfold enc, v. rewrite <- le_split_mod.
    replace (256 ^ Z.of_nat (Z.to_nat e)) with (2 ^ (8 * e))
      by (destruct He as [->|[->| ->]]; reflexivity).
    change (swrap (8 * e) (le_join (take (Z.to_nat e) l)) mod 2 ^ (8 * e))
      with (wrap (8 * e) (swrap (8 * e) (le_join (take (Z.to_nat e) l)))).
    rewrite wrap_swrap by lia. unfold wrap.
    replace (2 ^ (8 * e)) with (256 ^ Z.of_nat (Z.to_nat e))
      by (destruct He as [->|[->| ->]]; reflexivity).
    rewrite le_split_mod. rewrite <- Ht at 1. by apply le_split_join. }
  exists (v :: vs). repeat split.
  - cbn; by rewrite Hn.
  - rewrite encs_cons, Hv, <- Hd. by rewrite take_drop.
  - constructor; [|done]. unfold fits, v. apply swrap_range. lia.
Qed.

End Remove.

(** ** Sequences of operations *)

Inductive intset_op := IAdd (v : Z) | IRemove (v : Z).

Definition intset_op_value (o : intset_op) : Z :=
  match o with IAdd v | IRemove v => v end.

Section Run.
Context `{Host} (fill : nat -> byte).

Fixpoint intset_run (ops : list intset_op) (s : intset) : option intset :=
  match ops with
  | [] => Some s
  | IAdd v :: ops => '(s, _) ← intsetAdd fill s v; intset_run ops s
  | IRemove v :: ops => '(s, _) ← intsetRemove fill s v; intset_run ops s
  end.

End Run.

Lemma sorted_NoDup vs : StronglySorted Z.lt vs -> NoDup vs.
Proof.
  induction 1 as [|x vs _ IH Hx]; constructor; [|done].
  intros Hin. rewrite Forall_forall in Hx. specialize (Hx x Hin). lia.
Qed.

Lemma sorted_split_unique a c a' c' (v : Z) :
  StronglySorted Z.lt (a ++ v :: c) -> StronglySorted Z.lt (a' ++ v :: c') ->
  a ++ c = a' ++ c' -> a ++ v :: c = a' ++ v :: c'.
Proof.
  intros H1 H2 E. assert (AntiSymm (=) Z.lt) by (intros ?? ??; lia).
  apply (StronglySorted_unique Z.lt); [done..|].
  by rewrite <- !Permutation_middle, E.
Qed.

Lemma sorted_delete_unique a c a' c' (v : Z) :
  StronglySorted Z.lt (a ++ v :: c) -> a ++ v :: c = a' ++ v :: c' -> a ++ c = a' ++ c'.
Proof.
  intros Hs E. apply (sorted_NoDup (a ++ v :: c)) in Hs as Hn.
  assert (AntiSymm (=) Z.lt) by (intros ?? ??; lia).
  assert (forall b d, StronglySorted Z.lt (b ++ v :: d) -> StronglySorted Z.lt (b ++ d)) as Hdel.
  { intros b d Hb. apply StronglySorted_app_2; [by eapply StronglySorted_app_1_l| |].
    - by apply StronglySorted_app_1_r, StronglySorted_inv in Hb as [? _].
    - intros x y Hx Hy. eapply StronglySorted_app_1_elem_of; [exact Hb|done|by right]. }
  apply (StronglySorted_unique Z.lt); [by apply Hdel|apply Hdel; by rewrite <- E|].
  apply (Permutation_cons_inv (a:=v)). by rewrite !Permutation_middle, E.
Qed.

Section Blob.
Context `{Host}.

Lemma intset_blob_repr s e vs :
  repr s e vs ->
  intset_blob s = le_split 4 e ++ le_split 4 (zlen vs) ++ encs e vs.
Proof.
  intros R. unfold intset_blob.
  rewrite <- (intrev32ifbe_involutive (encoding s)) by apply R.
  rewrite <- (intrev32ifbe_involutive (length_ s)) by apply R.
  by rewrite !native_store_intrev32ifbe, (repr_enc _ _ _ R), (repr_len _ _ _ R),
    (repr_contents _ _ _ R).
Qed.

Lemma intset_blob_length s : zlen (intset_blob s) = 8 + zlen (contents s).
Proof.
  unfold intset_blob. rewrite !zlen_app. unfold zlen. rewrite !native_store_length. lia.
Qed.

Lemma native_store_load n bs :
  Forall is_byte bs -> length bs = n -> native_store n (native_load bs) = bs.
Proof.
  intros Hb <-. unfold native_store, native_load. case_if.
  - rewrite <- (length_rev bs), le_split_join, rev_involutive; [done|]. by apply Forall_rev.
  - by apply le_split_join.
Qed.

Lemma intset_blob_inj s s' :
  0 <= encoding s < 2 ^ 32 -> 0 <= length_ s < 2 ^ 32 ->
  0 <= encoding s' < 2 ^ 32 -> 0 <= length_ s' < 2 ^ 32 ->
  intset_blob s = intset_blob s' -> s = s'.
Proof.
  unfold intset_blob. intros He Hl He' Hl' E.
  apply app_inj_1 in E as [E1 E]; [|by rewrite !native_store_length].
  apply app_inj_1 in E as [E2 E3]; [|by rewrite !native_store_length].
  apply (f_equal native_load) in E1, E2. rewrite !native_load_store in E1, E2.
  rewrite !Z.mod_small in E1, E2 by done. destruct s, s'; cbn in *; congruence.
Qed.

Lemma intset_of_bytes_spec p :
  Forall is_byte p -> 8 <= zlen p ->
  exists s, intset_of_bytes p = Some s /\ p = intset_blob s /\
    0 <= encoding s < 2 ^ 32 /\ 0 <= length_ s < 2 ^ 32 /\ Forall is_byte (contents s).
Proof.
  intros Hb Hl.
  assert (exists h1 h2 c, p = h1 ++ h2 ++ c /\ length h1 = 4%nat /\ length h2 = 4%nat)
    as (h1 & h2 & c & -> & H1 & H2).
  { exists (take 4 p), (take 4 (drop 4 p)), (drop 4 (drop 4 p)).
    rewrite !take_drop, !length_take, length_drop. unfold zlen in Hl. repeat split; lia. }
  rewrite !Forall_app in Hb. destruct Hb as (Hb1 & Hb2 & Hb3).
  exists (mk_intset (native_load h1) (native_load h2) c). unfold intset_of_bytes.
  change (buf_read (h1 ++ h2 ++ c) 0 4) with (buf_read ([] ++ h1 ++ h2 ++ c) 0 4).
  rewrite (buf_read_app [] h1 (h2 ++ c) 0 4) by (done || (unfold zlen; by rewrite H1)).
  cbn [mbind option_bind].
  rewrite (buf_read_app h1 h2 c) by (unfold zlen; rewrite ?H1, ?H2; done).
  cbn [mbind option_bind].
  assert (forall h, Forall is_byte h -> length h = 4%nat -> 0 <= native_load h < 2 ^ 32) as Hr.
  { intros h Hh Hn. rewrite <- (native_store_load 4 h), native_load_store by done.
    apply Z.mod_pos_bound. done. }
  repeat split; cbn; try done; try by apply Hr.
  - repeat f_equal. rewrite app_assoc, drop_app_length'; [done|]. rewrite length_app. lia.
  - unfold intset_blob; cbn. by rewrite !native_store_load.
Qed.

Lemma encs_inj e vs ws :
  valid_enc e -> Forall (fits e) vs -> Forall (fits e) ws -> encs e vs = encs e ws -> vs = ws.
Proof.
  intros He Hv. revert ws. induction Hv as [|v vs Hv _ IH]; intros ws Hw E.
  - destruct ws as [|w ws]; [done|]. apply (f_equal zlen) in E.
    rewrite !encs_length in E by done. pose proof (valid_enc_u32 e He). zlen.
  - destruct Hw as [|w ws Hw Hws].
    { apply (f_equal zlen) in E. rewrite !encs_length in E by done.
      pose proof (valid_enc_u32 e He). zlen. }
    rewrite !encs_cons in E. apply app_inj_1 in E as [E1 E2].
    + f_equal; [|by apply IH]. rewrite <- (decode_enc e v), <- (decode_enc e w) by done.
      by rewrite E1.
    + unfold enc. by rewrite !le_split_length.
Qed.

Lemma intset_repr_size s e vs :
  repr s e vs -> Z.of_nat (size (list_to_set vs : gset Z)) = zlen vs.
Proof.
  intros R. rewrite size_list_to_set; [done|]. apply sorted_NoDup, (repr_sorted _ _ _ R).
Qed.

Lemma intsetNew_repr : repr intsetNew INTSET_ENC_INT16 [].
Proof.
  split; [by apply intrev32ifbe_involutive|by left| |done|constructor|constructor
    |by apply intrev32ifbe_range|done].
  cbn. unfold intrev32ifbe. case_if; [|done]. by rewrite intrev32_spec.
Qed.

End Blob.

(** ** Theorems *)

Section Theorems.
Context `{Host} (fill : nat -> byte).

Lemma list_to_set_insert (a c : list Z) v :
  list_to_set (a ++ v :: c) = ({[v]} ∪ list_to_set (a ++ c) : gset Z).
Proof. set_solver. Qed.

Lemma list_to_set_remove (a c : list Z) v :
  v ∉ a ++ c -> list_to_set (a ++ c) = (list_to_set (a ++ v :: c) ∖ {[v]} : gset Z).
Proof. set_solver. Qed.

Lemma list_to_set_absorb (vs : list Z) v :
  v ∈ vs -> {[v]} ∪ list_to_set vs = (list_to_set vs : gset Z).
Proof. set_solver. Qed.

Lemma list_to_set_remove_absent (vs : list Z) v :
  v ∉ vs -> (list_to_set vs : gset Z) = list_to_set vs ∖ {[v]}.
Proof. set_solver. Qed.

(** C8. Insertion refines the union with a singleton: on a block that
    stands for [X], [intsetAdd] returns a block for [{[v]} ∪ X], and reports
    success exactly when [v] was not in [X]. Every access stayed inside the
    block, also while the encoding is upgraded. *)
Theorem intsetAdd_refines s X v :
  intset_repr s X -> LLONG_MIN <= v <= LLONG_MAX -> Z.of_nat (size X) + 1 < 2 ^ 29 ->
  exists s', intsetAdd fill s v = Some (s', bool_decide (v ∉ X)) /\
             intset_repr s' ({[v]} ∪ X).
Proof.
  intros (e & vs & R & -> & Hlen) Hv Hn. rewrite (intset_repr_size s e vs R) in Hn.
  destruct (intsetAdd_list fill s e vs v R Hv Hn) as [(Hin & ->)|(Hni & s' & a & c & -> & -> & R')].
  - exists s. rewrite bool_decide_eq_false_2 by (rewrite elem_of_list_to_set; tauto).
    split; [done|]. exists e, vs. by rewrite list_to_set_absorb.
  - exists s'. rewrite bool_decide_eq_true_2 by (by rewrite elem_of_list_to_set).
    split; [done|]. eexists _, (a ++ v :: c). split; [done|].
    split; [by rewrite list_to_set_insert|zlen].
Qed.

(** C34. Removal refines set difference, and reports success exactly when
    the value was in the set. *)
Theorem intsetRemove_refines s X v :
  intset_repr s X -> LLONG_MIN <= v <= LLONG_MAX ->
  exists s', intsetRemove fill s v = Some (s', bool_decide (v ∈ X)) /\
             intset_repr s' (X ∖ {[v]}).
Proof.
  intros (e & vs & R & -> & Hlen) Hv.
  destruct (intsetRemove_list fill s e vs v R Hv Hlen) as [(Hni & ->)|(s' & a & c & -> & -> & R')].
  - exists s. rewrite bool_decide_eq_false_2 by (by rewrite elem_of_list_to_set).
    split; [done|]. exists e, vs. by rewrite <- list_to_set_remove_absent.
  - exists s'. rewrite bool_decide_eq_true_2
      by (apply elem_of_list_to_set, elem_of_app; right; left).
    split; [done|]. eexists _, (a ++ c). split; [done|].
    split; [symmetry; apply list_to_set_remove, sorted_not_elem, (repr_sorted _ _ _ R)|zlen].
Qed.

(** The binary search terminates and decides membership. *)
Theorem intsetFind_refines s X v :
  intset_repr s X -> LLONG_MIN <= v <= LLONG_MAX ->
  intsetFind s v = Some (bool_decide (v ∈ X)).
Proof.
  intros (e & vs & R & -> & Hlen) Hv. rewrite (intsetFind_list s e vs v) by done.
  f_equal. apply bool_decide_ext. by rewrite elem_of_list_to_set.
Qed.

(** C26. Validation of an untrusted payload: the deep check reads only
    bytes of the payload, and accepts it exactly when it is the serialization
    of a non-empty, strictly increasing sequence of integers. *)
Theorem intsetValidateIntegrity_correct p :
  Forall is_byte p -> zlen p < 2 ^ 31 ->
  exists b, intsetValidateIntegrity p (zlen p) true = Some b /\
    (b = true <-> exists s e vs, vs <> [] /\ repr s e vs /\ p = intset_blob s).
Proof.
  intros Hb Hlen. unfold intsetValidateIntegrity, sizeof_intset. case_if.
  { exists false. split; [done|]. split; [done|]. intros (s & e & vs & _ & _ & ->).
    pose proof (intset_blob_length s) as L. zlen. }
  destruct (intset_of_bytes_spec p) as (s & -> & -> & He & Hl & Hc); [done|lia|].
  cbn [mbind option_bind]. rewrite intset_blob_length in *.
  assert (forall b : bool,
    (b = true <-> exists e vs, vs <> [] /\ repr s e vs) ->
    exists b', Some b = Some b' /\
    (b' = true <-> exists s' e vs, vs <> [] /\ repr s' e vs /\ intset_blob s = intset_blob s')) as Hred.
  { intros b Hbb. exists b. split; [done|]. rewrite Hbb. split.
    - intros (e & vs & ? & ?). by exists s, e, vs.
    - intros (s' & e & vs & ? & R & Eb). exists e, vs. split; [done|].
      rewrite (intset_blob_inj s s'); [done| | | | |done]; done || apply R. }
  pose proof (zlen_nonneg (contents s)).
  pose proof (intrev32ifbe_range _ Hl) as Hl'.
  destruct (negb (_ || _ || _)) eqn:Ev.
  { apply Hred. split; [done|]. intros (e & vs & _ & R).
    rewrite (repr_enc _ _ _ R) in Ev. destruct (repr_valid _ _ _ R) as [->|[->| ->]]; done. }
  set (e := intrev32ifbe (encoding s)) in *.
  assert (valid_enc e) as Hve by (unfold valid_enc; unfold_bounds; lia). clear Ev.
  pose proof (valid_enc_u32 e Hve). rewrite u64_small by nia. case_if.
  { apply Hred. split; [done|]. intros (e' & vs & _ & R).
    pose proof (repr_enc _ _ _ R) as <-. fold e in R.
    rewrite (repr_len _ _ _ R), (repr_contents _ _ _ R), encs_length in E0 by done. lia. }
  case_if.
  { apply Hred. split; [done|]. intros (e' & vs & Hne & R).
    rewrite (repr_len _ _ _ R) in E1. destruct vs; [done|zlen]. }
  destruct (decode_all e (contents s) (Z.to_nat (intrev32ifbe (length_ s)))) as (ws & Hn & Hws & Hf);
    [done|done|lia|].
  destruct (lookup_lt_is_Some_2 ws 0) as [x Hx]; [lia|].
  assert (_intsetGet s 0 = Some x) as ->.
  { unfold _intsetGet. fold e. rewrite (valid_enc_u8 e Hve). apply (getEncoded_spec s 0 e x [] (encs e (drop 1 ws))); try done.
    - by eapply Forall_lookup_1.
    - rewrite Hws. destruct ws; [done|]. cbn in Hx. by simplify_eq. }
  cbn [mbind option_bind negb].
  pose proof (validate_loop_spec s e ws 0 x eq_refl Hve Hws Hf) as V.
  replace (length ws - 1)%nat with (Z.to_nat (intrev32ifbe (length_ s) - 1)) in V by lia.
  change (Z.of_nat 1) with 1 in V. rewrite V; [|unfold zlen; nia|done]. apply Hred.
  rewrite bool_decide_eq_true. rewrite <- (drop_S ws x 0), drop_0 by done. split.
  - intros Hs. exists e, ws. split; [by destruct ws|].
    split; try done. unfold zlen; lia.
  - intros (e' & vs & _ & R). pose proof (repr_enc _ _ _ R) as <-. fold e in R.
    rewrite (encs_inj e ws vs); [apply R|done|done|apply R|].
    by rewrite <- Hws, (repr_contents _ _ _ R).
Qed.

End Theorems.

Section Portable.
Context (h1 h2 : Host) (fill1 fill2 : nat -> byte).

Definition same_blob (s1 s2 : intset) (e : Z) (vs : list Z) : Prop :=
  @repr h1 s1 e vs /\ @repr h2 s2 e vs.

Lemma same_blob_add s1 s2 e vs v :
  same_blob s1 s2 e vs -> LLONG_MIN <= v <= LLONG_MAX -> zlen vs + 1 < 2 ^ 29 ->
  exists s1' s2' b e' vs', @intsetAdd h1 fill1 s1 v = Some (s1', b) /\
    @intsetAdd h2 fill2 s2 v = Some (s2', b) /\
    same_blob s1' s2' e' vs' /\ zlen vs' <= zlen vs + 1.
Proof.
  intros [R1 R2] Hv Hl.
  destruct (@intsetAdd_list h1 fill1 s1 e vs v R1 Hv Hl)
    as [(Hin & E1)|(Hni & s1' & a & c & E1 & -> & R1')];
  destruct (@intsetAdd_list h2 fill2 s2 e _ v R2 Hv Hl)
    as [(Hin2 & E2)|(Hni2 & s2' & a' & c' & E2 & Eq & R2')]; try done.
  - exists s1, s2, false, e, vs. split_and!; try done. lia.
  - eexists s1', s2', true, _, (a ++ v :: c). split_and!; [done..| |zlen]. split; [done|].
    rewrite (sorted_split_unique a c a' c' v); [exact R2'|apply R1'|apply R2'|done].
Qed.

Lemma same_blob_remove s1 s2 e vs v :
  same_blob s1 s2 e vs -> LLONG_MIN <= v <= LLONG_MAX -> zlen vs < 2 ^ 29 ->
  exists s1' s2' b e' vs', @intsetRemove h1 fill1 s1 v = Some (s1', b) /\
    @intsetRemove h2 fill2 s2 v = Some (s2', b) /\
    same_blob s1' s2' e' vs' /\ zlen vs' <= zlen vs + 1.
Proof.
  intros [R1 R2] Hv Hl.
  destruct (@intsetRemove_list h1 fill1 s1 e vs v R1 Hv Hl)
    as [(Hni & E1)|(s1' & a & c & E1 & -> & R1')];
  destruct (@intsetRemove_list h2 fill2 s2 e _ v R2 Hv Hl)
    as [(Hni2 & E2)|(s2' & a' & c' & E2 & Eq & R2')].
  - exists s1, s2, false, e, vs. split_and!; try done. lia.
  - destruct Hni. rewrite Eq. apply elem_of_app; right; left.
  - destruct Hni2. apply elem_of_app; right; left.
  - exists s1', s2', true, e, (a ++ c). split_and!; [done..| |zlen]. split; [done|].
    rewrite (sorted_delete_unique a c a' c' v); [exact R2'|apply R1|done].
Qed.

Lemma same_blob_run ops s1 s2 e vs :
  same_blob s1 s2 e vs -> Forall (fun o => LLONG_MIN <= intset_op_value o <= LLONG_MAX) ops ->
  zlen vs + zlen ops < 2 ^ 29 ->
  exists s1' s2' e' vs', @intset_run h1 fill1 ops s1 = Some s1' /\
    @intset_run h2 fill2 ops s2 = Some s2' /\ same_blob s1' s2' e' vs'.
Proof.
  intros R Ho. revert s1 s2 e vs R.
  induction Ho as [|o ops Hv _ IH]; intros s1 s2 e vs R Hl.
  { by exists s1, s2, e, vs. }
  rewrite zlen_cons in Hl. destruct o as [v|v]; cbn [intset_run intset_op_value] in *.
  - destruct (same_blob_add s1 s2 e vs v R Hv) as (s1' & s2' & b & e' & vs' & -> & -> & R' & Hl');
      [zlen|]. cbn [mbind option_bind]. apply (IH s1' s2' e' vs' R'). lia.
  - destruct (same_blob_remove s1 s2 e vs v R Hv) as (s1' & s2' & b & e' & vs' & -> & -> & R' & Hl');
      [zlen|]. cbn [mbind option_bind]. apply (IH s1' s2' e' vs' R'). lia.
Qed.

(** The same insertions and removals on two hosts of either byte
    order, with any contents of fresh memory, leave the same bytes. *)
Theorem intset_portable ops :
  Forall (fun o => LLONG_MIN <= intset_op_value o <= LLONG_MAX) ops -> zlen ops < 2 ^ 29 ->
  exists s1 s2, @intset_run h1 fill1 ops (@intsetNew h1) = Some s1 /\
    @intset_run h2 fill2 ops (@intsetNew h2) = Some s2 /\
    @intset_blob h1 s1 = @intset_blob h2 s2.
Proof.
  intros Ho Hl.
  destruct (same_blob_run ops (@intsetNew h1) (@intsetNew h2) INTSET_ENC_INT16 [])
    as (s1 & s2 & e & vs & E1 & E2 & R1 & R2); [split; apply intsetNew_repr|done|by zlen|].
  exists s1, s2. repeat split; [done..|].
  by rewrite (@intset_blob_repr h1 s1 e vs R1), (@intset_blob_repr h2 s2 e vs R2).
Qed.

End Portable.

(** ** The 32-bit size computation overflows *)

Section Overflow.
Context `{Host} (fill : nat -> byte).

Lemma buf_write_nil off bs : bs <> [] -> buf_write [] off bs = None.
Proof.
  intros. unfold buf_write.
  destruct bs; [done|]. case_if; [zlen|done].
Qed.

Lemma buf_move_nil dst src n : 0 < n -> buf_move [] dst src n = None.
Proof. intros. unfold buf_move, buf_read. case_if; [zlen|done]. Qed.

(** C40. The size of the block is computed in 32 bits. With 2^29 - 1
    elements of 8 bytes, inserting one more makes the size wrap to 0: the block
    is shrunk to nothing and the insertion leaves it. *)
Theorem intsetAdd_overflow s vs v :
  repr s INTSET_ENC_INT64 vs -> zlen vs = 2 ^ 29 - 1 ->
  LLONG_MIN <= v <= LLONG_MAX -> v ∉ vs ->
  intsetAdd fill s v = None.
Proof.
  intros R Hl Hv Hni. unfold intsetAdd. rewrite (repr_enc _ _ _ R).
  assert (_intsetValueEncoding v <= INTSET_ENC_INT64) as Hle
    by (unfold _intsetValueEncoding; unfold_bounds; repeat case_if; lia).
  rewrite_if_false.
  destruct (intsetSearch_spec s _ vs v R) as (r & -> & (a & c & Hr)); [lia|].
  destruct Hr as [(-> & ->)|(-> & -> & Ha & Hc)]; cbn [mbind option_bind].
  { destruct Hni. apply elem_of_app; right; left. }
  rewrite (repr_len _ _ _ R), Hl. unfold intsetResize. rewrite (repr_enc _ _ _ R).
  change (u32 (u32 (2 ^ 29 - 1 + 1) * INTSET_ENC_INT64)) with 0.
  change (realloc fill (contents s) 0) with (@nil Z). cbn [length_ set_contents].
  rewrite (repr_len _ _ _ R). rewrite zlen_app in *.
  pose proof (zlen_nonneg a). pose proof (zlen_nonneg c). case_if.
  - rewrite (moveTail_eq _ INTSET_ENC_INT64) by (apply R). cbn [contents set_contents length_].
    rewrite (repr_len _ _ _ R), zlen_app. unfold INTSET_ENC_INT64.
    rewrite (u32_small (zlen a + zlen c - zlen a)), (u32_small (_ * 8)) by lia.
    by rewrite buf_move_nil by lia.
  - cbn [mbind option_bind]. unfold _intsetSet. cbn [encoding set_contents contents].
    rewrite (repr_enc _ _ _ R). cbn [Z.eqb Pos.eqb INTSET_ENC_INT64].
    unfold store_rev. rewrite buf_write_nil; [done|].
    intros E0%(f_equal length). by rewrite native_store_length in E0.
Qed.

End Overflow.

(** ** Witnesses *)

Definition le_host : Host := {| big_endian := false |}.
Definition be_host : Host := {| big_endian := true |}.

(** The set {-3, 5, 300} with 16-bit elements. *)
Definition demo_intset : intset := mk_intset 2 3 [253; 255; 5; 0; 44; 1].

Lemma demo_repr : @repr le_host demo_intset 2 [-3; 5; 300].
Proof.
  split; try done; try reflexivity; [by left|..].
  - repeat constructor; unfold fits; cbn; lia.
  - repeat constructor; lia.
Qed.

Lemma demo_intset_repr : @intset_repr le_host demo_intset {[-3; 5; 300]}.
Proof. exists 2, [-3; 5; 300]. split; [apply demo_repr|]. by vm_compute. Qed.

Lemma intsetAdd_refines_witness :
  exists s', @intsetAdd le_host (fun _ => 170) demo_intset 70000 = Some (s', true) /\
             @intset_repr le_host s' ({[70000]} ∪ {[-3; 5; 300]}).
Proof.
  apply (@intsetAdd_refines le_host (fun _ => 170) demo_intset {[-3; 5; 300]} 70000
           demo_intset_repr); by vm_compute.
Defined.

Lemma intsetRemove_refines_witness :
  exists s', @intsetRemove le_host (fun _ => 170) demo_intset 5 = Some (s', true) /\
             @intset_repr le_host s' ({[-3; 5; 300]} ∖ {[5]}).
Proof.
  apply (@intsetRemove_refines le_host (fun _ => 170) demo_intset {[-3; 5; 300]} 5
           demo_intset_repr); by vm_compute.
Defined.

Lemma intsetFind_refines_witness : @intsetFind le_host demo_intset 300 = Some true.
Proof.
  apply (@intsetFind_refines le_host demo_intset {[-3; 5; 300]} 300 demo_intset_repr); by vm_compute.
Defined.

(** A payload with two elements in decreasing order is rejected. *)
Lemma intsetValidateIntegrity_correct_witness :
  exists b, @intsetValidateIntegrity le_host [2; 0; 0; 0; 2; 0; 0; 0; 9; 0; 8; 0] 12 true = Some b /\
    (b = true <-> exists s e vs, vs <> [] /\ @repr le_host s e vs /\
       [2; 0; 0; 0; 2; 0; 0; 0; 9; 0; 8; 0] = @intset_blob le_host s).
Proof.
  apply (@intsetValidateIntegrity_correct le_host [2; 0; 0; 0; 2; 0; 0; 0; 9; 0; 8; 0]);
    [|by vm_compute]. repeat constructor; by vm_compute.
Defined.

Lemma intset_portable_witness :
  exists s1 s2,
    @intset_run le_host (fun _ => 1) [IAdd 5; IAdd (-70000); IRemove 5] (@intsetNew le_host) = Some s1 /\
    @intset_run be_host (fun _ => 2) [IAdd 5; IAdd (-70000); IRemove 5] (@intsetNew be_host) = Some s2 /\
    @intset_blob le_host s1 = @intset_blob be_host s2.
Proof.
  apply (intset_portable le_host be_host (fun _ => 1) (fun _ => 2)); [|by vm_compute].
  repeat constructor; by vm_compute.
Defined.

Lemma seqZ_sorted m n : StronglySorted Z.lt (seqZ m n).
Proof.
  destruct (decide (0 <= n)); [|by rewrite seqZ_nil by lia; constructor].
  revert m. pattern n. apply natlike_ind; [intros; rewrite seqZ_nil by lia; constructor| |done].
  intros k Hk IH m. rewrite seqZ_cons by lia. constructor.
  - replace (Z.pred (Z.succ k)) with k by lia. apply IH.
  - apply Forall_forall. intros x Hx%elem_of_seqZ. lia.
Qed.

Lemma big_repr n :
  0 <= n < 2 ^ 32 -> @repr le_host (mk_intset 8 n (encs 8 (seqZ 0 n))) 8 (seqZ 0 n).
Proof.
  intros Hn. split; try done; [by right; right| | |apply seqZ_sorted].
  - cbn. unfold zlen. rewrite length_seqZ. lia.
  - apply Forall_forall. intros x Hx%elem_of_seqZ. unfold fits; cbn; lia.
Qed.

Lemma intsetAdd_overflow_witness :
  @intsetAdd le_host (fun _ => 0)
    (mk_intset 8 (2 ^ 29 - 1) (encs 8 (seqZ 0 (2 ^ 29 - 1)))) (-1) = None.
Proof.
  apply (@intsetAdd_overflow le_host (fun _ => 0) _ (seqZ 0 (2 ^ 29 - 1)) (-1)).
  - apply big_repr. lia.
  - unfold zlen. rewrite length_seqZ. lia.
  - unfold LLONG_MIN, LLONG_MAX. lia.
  - rewrite elem_of_seqZ. lia.
Defined.
