(* ===== verification/Dict.v ===== *)
(** * Hash tables with incremental rehashing ([dict.c], [dict.h])

    A dictionary has two tables: while it is rehashing, each operation moves a
    few buckets from the first to the second. A table is an array of chains; a
    chain is the list of its entries in [next] order. Entries carry their
    address, so that a pointer to an entry ([dictAddRaw], [dictUnlink],
    iterators) can be told from another entry with the same contents. The
    addresses [zmalloc] returns, the random numbers and the clock are arguments.
    A NULL dereference, an index outside a table or a failed [assert] has no
    result. *)

From stdpp Require Import base list option gmap.
From Stdlib Require Import ZArith Lia Bool.
From S2P Require Import Prelude.

Local Open Scope Z_scope.

Abbreviation loc := positive (only parsing).

Definition DICT_OK : Z := 0.
Definition DICT_ERR : Z := 1.
Definition DICT_HT_INITIAL_SIZE : Z := 4.
Definition LONG_MAX : Z := 2 ^ 63 - 1.

(** [v] is unset until the caller of [dictAddRaw] stores a value. *)
Record dictEntry {K V : Type} := mk_entry {
  e_ptr : loc;
  e_key : K;
  e_val : option V;
}.
Arguments dictEntry : clear implicits.
Arguments mk_entry {K V} _ _ _.

(** Equality of values of [K] is equality of key pointers; [keyCompare] compares
    what they point to. The ratio passed to [expandAllowed] is the quotient of a
    pair. *)
Record dictType {K V : Type} := mk_type {
  hashFunction : K -> Z;
  keyDup : option (K -> K);
  valDup : option (V -> V);
  keyCompare : option (K -> K -> bool);
  keyDestructor : bool;
  valDestructor : bool;
  expandAllowed : option (Z -> Z * Z -> bool);
}.
Arguments dictType : clear implicits.

Record dictht {K V : Type} := mk_ht {
  table : option (list (list (dictEntry K V)));
  ht_size : Z;
  sizemask : Z;
  used : Z;
}.
Arguments dictht : clear implicits.
Arguments mk_ht {K V} _ _ _ _.

Record dict {K V : Type} := mk_dict {
  ht0 : dictht K V;
  ht1 : dictht K V;
  rehashidx : Z;
  pauserehash : Z;
}.
Arguments dict : clear implicits.
Arguments mk_dict {K V} _ _ _ _.

(** Calls of the destructors of the type and of the callback of [dictEmpty]. *)
Inductive dict_event {K V : Type} :=
| FreeKey (k : K)
| FreeVal (v : option V)
| ClearCallback.
Arguments dict_event : clear implicits.

(** Calls made by [dictScan]: [bucketfn] on a bucket of one of the tables, [fn]
    on an entry. *)
Inductive scan_event {K V : Type} :=
| ScanBucket (table : nat) (idx : Z)
| ScanEntry (e : dictEntry K V).
Arguments scan_event : clear implicits.

(** [_dictNextPower]: the loop doubles [i] until it is large enough. *)
Fixpoint nextPower_loop (fuel : nat) (i size : Z) : option Z :=
  match fuel with
  | O => None
  | S fuel' => if size <=? i then Some i else nextPower_loop fuel' (u64 (i * 2)) size
  end.

Definition _dictNextPower (size : Z) : option Z :=
  if LONG_MAX <=? size then Some (u64 (LONG_MAX + 1))
  else nextPower_loop 64 DICT_HT_INITIAL_SIZE size.

(** [rev]: reverse the bits of a 64-bit word, [s] from 32 down to 1. *)
Definition not64 (v : Z) : Z := u64 (Z.lnot v).

Fixpoint rev_loop (fuel : nat) (s mask v : Z) : Z :=
  match fuel with
  | O => v
  | S fuel' =>
      let s := Z.shiftr s 1 in
      if 0 <? s then
        let mask := Z.lxor mask (u64 (Z.shiftl mask s)) in
        let v := Z.lor (Z.land (Z.shiftr v s) mask)
                       (Z.land (u64 (Z.shiftl v s)) (not64 mask)) in
        rev_loop fuel' s mask v
      else v
  end.

Definition rev (v : Z) : Z := rev_loop 7 64 (not64 0) v.

Section Dict.
Context {K V : Type} `{!EqDecision K}.
Context (ty : dictType K V).

Implicit Types (d : dict K V) (e : dictEntry K V) (k : K).

(** ** Macros of dict.h *)

Definition dictIsRehashing d : bool := negb (rehashidx d =? -1).
Definition dictSize d : Z := u64 (used (ht0 d) + used (ht1 d)).
Definition dictSlots d : Z := u64 (ht_size (ht0 d) + ht_size (ht1 d)).
Definition dictHashKey k : Z := hashFunction ty k.
Definition dictCompareKeys k1 k2 : bool :=
  match keyCompare ty with
  | Some f => f k1 k2
  | None => bool_decide (k1 = k2)
  end.
Definition dictPauseRehashing d : dict K V :=
  mk_dict (ht0 d) (ht1 d) (rehashidx d) (i16 (pauserehash d + 1)).
Definition dictResumeRehashing d : dict K V :=
  mk_dict (ht0 d) (ht1 d) (rehashidx d) (i16 (pauserehash d - 1)).
Definition dictSetKey k : K :=
  match keyDup ty with Some f => f k | None => k end.
Definition dictSetVal (v : V) : option V :=
  match valDup ty with Some f => Some (f v) | None => Some v end.
Definition dictFreeKey e : list (dict_event K V) :=
  if keyDestructor ty then [FreeKey (e_key e)] else [].
Definition dictFreeVal e : list (dict_event K V) :=
  if valDestructor ty then [FreeVal (e_val e)] else [].

(** [key==he->key || dictCompareKeys(d, key, he->key)] *)
Definition keys_match k1 k2 : bool := bool_decide (k1 = k2) || dictCompareKeys k1 k2.
Definition key_match k e : bool := keys_match k (e_key e).

Definition ht d (table : nat) : dictht K V :=
  match table with O => ht0 d | _ => ht1 d end.

Definition set_ht d (table : nat) (h : dictht K V) : dict K V :=
  match table with
  | O => mk_dict h (ht1 d) (rehashidx d) (pauserehash d)
  | _ => mk_dict (ht0 d) h (rehashidx d) (pauserehash d)
  end.

Definition set_rehashidx d (i : Z) : dict K V :=
  mk_dict (ht0 d) (ht1 d) i (pauserehash d).

(** [table[idx]], undefined on a NULL table or outside it. *)
Definition bucket (h : dictht K V) (idx : Z) : option (list (dictEntry K V)) :=
  t ← table h; if 0 <=? idx then t !! Z.to_nat idx else None.

Definition set_bucket (h : dictht K V) (idx : Z) (c : list (dictEntry K V)) : dictht K V :=
  mk_ht (match table h with
         | Some t => Some (<[Z.to_nat idx := c]> t)
         | None => None
         end) (ht_size h) (sizemask h) (used h).

Definition set_used (h : dictht K V) (n : Z) : dictht K V :=
  mk_ht (table h) (ht_size h) (sizemask h) n.

(** ** Creation and resizing *)

Definition _dictReset : dictht K V := mk_ht None 0 0 0.

Definition _dictInit : dict K V := mk_dict _dictReset _dictReset (-1) 0.

Definition dictCreate : dict K V := _dictInit.

(** [trycalloc = None] stands for [malloc_failed == NULL]; [Some ok] for a
    caller that tolerates a failing allocation, [ok] telling whether it
    succeeded. Result: the dictionary, the status and [*malloc_failed]. *)
Definition _dictExpand d (size : Z) (trycalloc : option bool) : option (dict K V * Z * bool) :=
  if dictIsRehashing d || (size <? used (ht0 d)) then Some (d, DICT_ERR, false)
  else
    realsize ← _dictNextPower size;
    if realsize =? ht_size (ht0 d) then Some (d, DICT_ERR, false)
    else if bool_decide (trycalloc = Some false) then Some (d, DICT_ERR, true)
    else
      let n := mk_ht (Some (replicate (Z.to_nat (u64 (realsize * 8) / 8)) []))
                     realsize (u64 (realsize - 1)) 0 in
      match table (ht0 d) with
      | None => Some (set_ht d 0 n, DICT_OK, false)
      | Some _ => Some (set_rehashidx (set_ht d 1 n) 0, DICT_OK, false)
      end.

Definition dictExpand d (size : Z) : option (dict K V * Z) :=
  '(d, r, _) ← _dictExpand d size None; Some (d, r).

Definition dictTryExpand d (size : Z) (ok : bool) : option (dict K V * Z) :=
  '(d, _, malloc_failed) ← _dictExpand d size (Some ok);
  Some (d, if (malloc_failed : bool) then DICT_ERR else DICT_OK).

(** [can_resize] is the global [dict_can_resize]. *)
Definition dictResize (can_resize : bool) d : option (dict K V * Z) :=
  if negb can_resize || dictIsRehashing d then Some (d, DICT_ERR)
  else
    let minimal := used (ht0 d) in
    let minimal := if minimal <? DICT_HT_INITIAL_SIZE then DICT_HT_INITIAL_SIZE else minimal in
    dictExpand d minimal.

Definition dict_force_resize_ratio : Z := 5.

Definition dictTypeExpandAllowed d : option bool :=
  match expandAllowed ty with
  | None => Some true
  | Some f =>
      p ← _dictNextPower (u64 (used (ht0 d) + 1));
      Some (f (u64 (p * 8)) (used (ht0 d), ht_size (ht0 d)))
  end.

Definition _dictExpandIfNeeded (can_resize : bool) d : option (dict K V * Z) :=
  if dictIsRehashing d then Some (d, DICT_OK)
  else if ht_size (ht0 d) =? 0 then dictExpand d DICT_HT_INITIAL_SIZE
  else if (ht_size (ht0 d) <=? used (ht0 d)) &&
          (can_resize || (dict_force_resize_ratio <? used (ht0 d) / ht_size (ht0 d))) then
    allowed ← dictTypeExpandAllowed d;
    if (allowed : bool) then dictExpand d (u64 (used (ht0 d) + 1)) else Some (d, DICT_OK)
  else Some (d, DICT_OK).

(** ** Incremental rehashing *)

(** The loop over empty buckets, from [rehashidx] on. *)
Inductive skip_result :=
| SkipStop (idx : Z)
| SkipFound (idx empty_visits : Z) (de : list (dictEntry K V)).

Fixpoint rehash_skip (t : list (list (dictEntry K V))) (idx empty_visits : Z)
    : option skip_result :=
  match t with
  | [] => None
  | [] :: t' =>
      if empty_visits - 1 =? 0 then Some (SkipStop (idx + 1))
      else rehash_skip t' (idx + 1) (empty_visits - 1)
  | de :: _ => Some (SkipFound idx empty_visits de)
  end.

(** The loop that moves the entries of one chain to the second table. *)
Fixpoint rehash_move (de : list (dictEntry K V)) d : option (dict K V) :=
  match de with
  | [] => Some d
  | e :: nextde =>
      let h := Z.land (dictHashKey (e_key e)) (sizemask (ht1 d)) in
      old ← bucket (ht1 d) h;
      let h1 := set_bucket (ht1 d) h (e :: old) in
      let h0 := set_used (ht0 d) (u64 (used (ht0 d) - 1)) in
      let h1 := set_used h1 (u64 (used h1 + 1)) in
      rehash_move nextde (mk_dict h0 h1 (rehashidx d) (pauserehash d))
  end.

(** The main loop: the flag tells whether it returned 1 early. *)
Fixpoint rehash_loop (n : nat) (empty_visits : Z) d : option (dict K V * bool) :=
  match n with
  | O => Some (d, false)
  | S n' =>
      if used (ht0 d) =? 0 then Some (d, false)
      else if negb (u64 (rehashidx d) <? ht_size (ht0 d)) then None
      else
        t ← table (ht0 d);
        r ← rehash_skip (drop (Z.to_nat (rehashidx d)) t) (rehashidx d) empty_visits;
        match r with
        | SkipStop idx => Some (set_rehashidx d idx, true)
        | SkipFound idx empty_visits de =>
            d ← rehash_move de (set_rehashidx d idx);
            let h0 := set_bucket (ht0 d) (rehashidx d) [] in
            rehash_loop n' empty_visits (mk_dict h0 (ht1 d) (rehashidx d + 1) (pauserehash d))
        end
  end.

Definition dictRehash d (n : nat) : option (dict K V * Z) :=
  let empty_visits := i32 (Z.of_nat n * 10) in
  if negb (dictIsRehashing d) then Some (d, 0)
  else
    '(d, early) ← rehash_loop n empty_visits d;
    if (early : bool) then Some (d, 1)
    else if used (ht0 d) =? 0 then
      Some (mk_dict (ht1 d) _dictReset (-1) (pauserehash d), 0)
    else Some (d, 1).

(** [clock] lists the readings of the clock after each round. *)
Fixpoint rehash_ms_loop (clock : list Z) d (start ms rehashes : Z) : option (dict K V * Z) :=
  '(d, more) ← dictRehash d 100;
  if more =? 0 then Some (d, rehashes)
  else
    match clock with
    | [] => None
    | now :: clock' =>
        if ms <? now - start then Some (d, rehashes + 100)
        else rehash_ms_loop clock' d start ms (rehashes + 100)
    end.

Definition dictRehashMilliseconds (start : Z) (clock : list Z) d (ms : Z) : option (dict K V * Z) :=
  if 0 <? pauserehash d then Some (d, 0) else rehash_ms_loop clock d start ms 0.

Definition _dictRehashStep d : option (dict K V) :=
  if pauserehash d =? 0 then '(d, _) ← dictRehash d 1; Some d else Some d.

(** [if (dictIsRehashing(d)) _dictRehashStep(d);] *)
Definition rehash_step_if d : option (dict K V) :=
  if dictIsRehashing d then _dictRehashStep d else Some d.

(** ** Lookup *)

(** The first entry of a chain with a matching key. *)
Fixpoint find_entry k (he : list (dictEntry K V)) : option (dictEntry K V) :=
  match he with
  | [] => None
  | e :: next => if key_match k e then Some e else find_entry k next
  end.

(** The loop over the tables shared by [dictFind] and [_dictKeyIndex]. *)
Definition find_tables k d (h : Z) : option (option (dictEntry K V)) :=
  c0 ← bucket (ht0 d) (Z.land h (sizemask (ht0 d)));
  match find_entry k c0 with
  | Some e => Some (Some e)
  | None =>
      if negb (dictIsRehashing d) then Some None
      else c1 ← bucket (ht1 d) (Z.land h (sizemask (ht1 d))); Some (find_entry k c1)
  end.

Definition dictFind d k : option (dict K V * option (dictEntry K V)) :=
  if dictSize d =? 0 then Some (d, None)
  else
    d ← rehash_step_if d;
    r ← find_tables k d (dictHashKey k);
    Some (d, r).

(** [Some None] is the NULL result. *)
Definition dictFetchValue d k : option (dict K V * option (option V)) :=
  '(d, he) ← dictFind d k; Some (d, option_map e_val he).

(** Result: the index (-1 if the key exists or the table could not be
    expanded) and [*existing]. *)
Definition _dictKeyIndex (can_resize : bool) d k (hash : Z)
    : option (dict K V * Z * option (dictEntry K V)) :=
  '(d, st) ← _dictExpandIfNeeded can_resize d;
  if st =? DICT_ERR then Some (d, -1, None)
  else
    r ← find_tables k d hash;
    match r with
    | Some he => Some (d, -1, Some he)
    | None =>
        let idx := if dictIsRehashing d then Z.land hash (sizemask (ht1 d))
                   else Z.land hash (sizemask (ht0 d)) in
        Some (d, idx, None)
    end.

(** ** Insertion *)

(** [p] is the address of the new entry, if one is allocated. Result: the
    pointer returned and [*existing]. *)
Definition dictAddRaw (can_resize : bool) (p : loc) d k
    : option (dict K V * option loc * option (dictEntry K V)) :=
  d ← rehash_step_if d;
  '(d, index, existing) ← _dictKeyIndex can_resize d k (dictHashKey k);
  if index =? -1 then Some (d, None, existing)
  else
    let t := if dictIsRehashing d then 1%nat else 0%nat in
    old ← bucket (ht d t) index;
    let entry := mk_entry p (dictSetKey k) None in
    let h := set_bucket (ht d t) index (entry :: old) in
    let h := set_used h (u64 (used h + 1)) in
    Some (set_ht d t h, Some p, existing).

(** Store a value through a pointer to an entry. *)
Definition store_chain (p : loc) (v : option V) (c : list (dictEntry K V)) :=
  map (fun e => if bool_decide (e_ptr e = p) then mk_entry (e_ptr e) (e_key e) v else e) c.

Definition store_ht (p : loc) (v : option V) (h : dictht K V) : dictht K V :=
  mk_ht (map (store_chain p v) <$> table h) (ht_size h) (sizemask h) (used h).

Definition store_val d (p : loc) (v : option V) : dict K V :=
  mk_dict (store_ht p v (ht0 d)) (store_ht p v (ht1 d)) (rehashidx d) (pauserehash d).

Definition dictAdd (can_resize : bool) (p : loc) d k (v : V) : option (dict K V * Z) :=
  '(d, entry, _) ← dictAddRaw can_resize p d k;
  match entry with
  | None => Some (d, DICT_ERR)
  | Some q => Some (store_val d q (dictSetVal v), DICT_OK)
  end.

(** The old value is freed after the new one is stored; [existing] is
    dereferenced even when it is NULL. *)
Definition dictReplace (can_resize : bool) (p : loc) d k (v : V)
    : option (dict K V * Z * list (dict_event K V)) :=
  '(d, entry, existing) ← dictAddRaw can_resize p d k;
  match entry with
  | Some q => Some (store_val d q (dictSetVal v), 1, [])
  | None =>
      auxentry ← existing;
      Some (store_val d (e_ptr auxentry) (dictSetVal v), 0, dictFreeVal auxentry)
  end.

Definition dictAddOrFind (can_resize : bool) (p : loc) d k : option (dict K V * option loc) :=
  '(d, entry, existing) ← dictAddRaw can_resize p d k;
  Some (d, match entry with Some q => Some q | None => option_map e_ptr existing end).

(** ** Deletion *)

(** Unlink the first matching entry of a chain. *)
Fixpoint unlink_entry k (he : list (dictEntry K V))
    : option (dictEntry K V * list (dictEntry K V)) :=
  match he with
  | [] => None
  | e :: next =>
      if key_match k e then Some (e, next)
      else '(x, next) ← unlink_entry k next; Some (x, e :: next)
  end.

(** One iteration of the loop over the tables. *)
Definition delete_in d (t : nat) k (h : Z) : option (option (dict K V * dictEntry K V)) :=
  let idx := Z.land h (sizemask (ht d t)) in
  c ← bucket (ht d t) idx;
  match unlink_entry k c with
  | Some (he, c') =>
      let n := set_bucket (ht d t) idx c' in
      Some (Some (set_ht d t (set_used n (u64 (used n - 1))), he))
  | None => Some None
  end.

Definition dictGenericDelete d k (nofree : bool)
    : option (dict K V * option (dictEntry K V) * list (dict_event K V)) :=
  if (used (ht0 d) =? 0) && (used (ht1 d) =? 0) then Some (d, None, [])
  else
    d ← rehash_step_if d;
    let h := dictHashKey k in
    let freed he := if nofree then [] else dictFreeKey he ++ dictFreeVal he in
    r0 ← delete_in d 0 k h;
    match r0 with
    | Some (d, he) => Some (d, Some he, freed he)
    | None =>
        if negb (dictIsRehashing d) then Some (d, None, [])
        else
          r1 ← delete_in d 1 k h;
          match r1 with
          | Some (d, he) => Some (d, Some he, freed he)
          | None => Some (d, None, [])
          end
    end.

Definition dictDelete d k : option (dict K V * Z * list (dict_event K V)) :=
  '(d, he, ev) ← dictGenericDelete d k false;
  Some (d, match he with Some _ => DICT_OK | None => DICT_ERR end, ev).

Definition dictUnlink d k : option (dict K V * option (dictEntry K V)) :=
  '(d, he, _) ← dictGenericDelete d k true; Some (d, he).

Definition dictFreeUnlinkedEntry (he : option (dictEntry K V)) : list (dict_event K V) :=
  match he with
  | None => []
  | Some he => dictFreeKey he ++ dictFreeVal he
  end.

(** The loop of [_dictClear] over the buckets from [i] on, while entries
    remain; [callback] tells whether a callback was given. *)
Fixpoint clear_loop (callback : bool) (t : list (list (dictEntry K V))) (i n : Z)
    : list (dict_event K V) :=
  match t with
  | [] => []
  | c :: t' =>
      if 0 <? n then
        (if callback && (Z.land i 65535 =? 0) then [ClearCallback] else []) ++
        concat (map (fun he => dictFreeKey he ++ dictFreeVal he) c) ++
        clear_loop callback t' (i + 1) (u64 (n - zlen c))
      else []
  end.

Definition _dictClear (callback : bool) (h : dictht K V) : dictht K V * list (dict_event K V) :=
  (_dictReset, clear_loop callback (default [] (table h)) 0 (used h)).

Definition dictRelease d : list (dict_event K V) :=
  snd (_dictClear false (ht0 d)) ++ snd (_dictClear false (ht1 d)).

Definition dictEmpty (callback : bool) d : dict K V * list (dict_event K V) :=
  let '(h0, ev0) := _dictClear callback (ht0 d) in
  let '(h1, ev1) := _dictClear callback (ht1 d) in
  (mk_dict h0 h1 (-1) 0, ev0 ++ ev1).

(** ** Scan *)

(** Advance the cursor: increment the reversed cursor, with the bits outside
    the mask set. *)
Definition scan_next (v m : Z) : Z :=
  let v := Z.lor v (not64 m) in
  let v := rev v in
  let v := u64 (v + 1) in
  rev v.

(** Emit the bucket at the cursor. *)
Definition emit_bucket (bucketfn : bool) d (t : nat) (idx : Z) : option (list (scan_event K V)) :=
  c ← bucket (ht d t) idx;
  Some ((if bucketfn then [ScanBucket t idx] else []) ++ map ScanEntry c).

(** The [do ... while] loop over the buckets of the larger table. *)
Fixpoint scan_expand (fuel : nat) (bucketfn : bool) d (t1 : nat) (m0 m1 v : Z)
    (out : list (scan_event K V)) : option (Z * list (scan_event K V)) :=
  match fuel with
  | O => None
  | S fuel' =>
      ev ← emit_bucket bucketfn d t1 (Z.land v m1);
      let out := out ++ ev in
      let v := scan_next v m1 in
      if Z.land v (Z.lxor m0 m1) =? 0 then Some (v, out)
      else scan_expand fuel' bucketfn d t1 m0 m1 v out
  end.

(** Result: the next cursor and the calls made, in order. *)
Definition dictScan (bucketfn : bool) d (v : Z) : option (dict K V * Z * list (scan_event K V)) :=
  if dictSize d =? 0 then Some (d, 0, [])
  else
    let d := dictPauseRehashing d in
    if negb (dictIsRehashing d) then
      let m0 := sizemask (ht0 d) in
      ev ← emit_bucket bucketfn d 0 (Z.land v m0);
      Some (dictResumeRehashing d, scan_next v m0, ev)
    else
      let '(t0, t1) := if ht_size (ht1 d) <? ht_size (ht0 d) then (1%nat, 0%nat)
                       else (0%nat, 1%nat) in
      let m0 := sizemask (ht d t0) in
      let m1 := sizemask (ht d t1) in
      ev ← emit_bucket bucketfn d t0 (Z.land v m0);
      '(v, out) ← scan_expand (Z.to_nat (ht_size (ht d t1))) bucketfn d t1 m0 m1 v ev;
      Some (dictResumeRehashing d, v, out).

End Dict.
