(* ===== verification/DictFacts.v ===== *)
(** * Hash tables: invariant and correctness of the operations

    The abstract state of a dictionary is its collection of entries, up to
    order: no two of them have matching keys. Every operation preserves the
    invariant [dict_wf] and acts on the collection as its name says, whether or
    not a rehashing step moves entries between the tables on the way. *)

From stdpp Require Import base list option gmap.
From Stdlib Require Import ZArith Lia Bool.
From S2P Require Import Prelude Dict.

Local Open Scope Z_scope.

(** ** What a [dictType] promises to the dictionary *)

Class DictTypeOk {K V : Type} `{!EqDecision K} (ty : dictType K V) : Prop := {
  keys_match_sym k1 k2 : keys_match ty k1 k2 = true -> keys_match ty k2 k1 = true;
  keys_match_trans k1 k2 k3 :
    keys_match ty k1 k2 = true -> keys_match ty k2 k3 = true -> keys_match ty k1 k3 = true;
  hash_compat k1 k2 : keys_match ty k1 k2 = true -> hashFunction ty k1 = hashFunction ty k2;
  hash_range k : 0 <= hashFunction ty k < 2 ^ 64;
  dup_match k : keys_match ty k (dictSetKey ty k) = true;
}.

Section Facts.
Context {K V : Type} `{!EqDecision K} (ty : dictType K V) `{!DictTypeOk ty}.

Implicit Types (d : dict K V) (e : dictEntry K V) (k : K).
Implicit Types (h : dictht K V) (t : list (list (dictEntry K V))).

(** ** Invariant *)

Definition ht_entries h : list (dictEntry K V) := concat (default [] (table h)).

(** All entries. *)
Definition entries d : list (dictEntry K V) := ht_entries (ht0 d) ++ ht_entries (ht1 d).

(** Every entry is in the bucket of its hash. *)
Definition placed (mask : Z) t : Prop :=
  forall i c e, t !! i = Some c -> e ∈ c -> Z.land (dictHashKey ty (e_key e)) mask = Z.of_nat i.

Inductive ht_wf : dictht K V -> Prop :=
| ht_wf_null : ht_wf _dictReset
| ht_wf_table t n :
    2 <= n <= 60 -> zlen t = 2 ^ n -> placed (2 ^ n - 1) t ->
    ht_wf (mk_ht (Some t) (2 ^ n) (2 ^ n - 1) (zlen (concat t))).

Record dict_wf d : Prop := {
  wf_ht0 : ht_wf (ht0 d);
  wf_ht1 : ht_wf (ht1 d);
  wf_idle : rehashidx d = -1 -> ht1 d = _dictReset;
  wf_rehash : rehashidx d <> -1 ->
    0 <= rehashidx d <= ht_size (ht0 d) /\
    exists t0 t1, table (ht0 d) = Some t0 /\ table (ht1 d) = Some t1 /\
      Forall (fun c => c = []) (take (Z.to_nat (rehashidx d)) t0);
  wf_ptrs : NoDup (map e_ptr (entries d));
  wf_keys : forall e1 e2, e1 ∈ entries d -> e2 ∈ entries d ->
    keys_match ty (e_key e1) (e_key e2) = true -> e1 = e2;
  wf_bound : zlen (entries d) < 2 ^ 60;
}.

(** [e] is the entry of [k] in [d]. *)
Definition has_entry d k e : Prop := (e ∈ entries d) /\ key_match ty k e = true.
Definition no_entry d k : Prop := forall e, e ∈ entries d -> key_match ty k e = false.

(** ** Tables *)

Lemma keys_match_refl k : keys_match ty k k = true.
Proof. unfold keys_match. by rewrite bool_decide_eq_true_2. Qed.

Lemma ht_wf_used h : ht_wf h -> used h = zlen (ht_entries h).
Proof. by destruct 1. Qed.

Lemma land_mask hash n : 0 <= n -> Z.land hash (2 ^ n - 1) = hash mod 2 ^ n.
Proof.
  intros. rewrite <- Z.land_ones by done. f_equal. rewrite Z.ones_equiv. lia.
Qed.

Lemma pow2_bounds n : 2 <= n <= 60 -> 4 <= 2 ^ n <= 2 ^ 60.
Proof.
  intros. change 4 with (2 ^ 2). split; apply Z.pow_le_mono_r; lia.
Qed.

Lemma bucket_hash h hash t :
  ht_wf h -> table h = Some t ->
  exists c, t !! Z.to_nat (Z.land hash (sizemask h)) = Some c /\
    bucket h (Z.land hash (sizemask h)) = Some c /\ 0 <= Z.land hash (sizemask h).
Proof.
  intros Hw Ht. destruct Hw as [|t' n Hn Hl Hp]; [done|]. cbn in *. simplify_eq.
  rewrite land_mask by lia. pose proof (Z.mod_pos_bound hash (2 ^ n) ltac:(lia)).
  destruct (lookup_lt_is_Some_2 t (Z.to_nat (hash mod 2 ^ n))) as [c Hc]; [unfold zlen in *; lia|].
  exists c. split; [done|]. unfold bucket; cbn. rewrite_if_true. split; [done|lia].
Qed.

Lemma elem_of_ht_entries h t e :
  ht_wf h -> table h = Some t ->
  e ∈ ht_entries h <->
  exists c, t !! Z.to_nat (Z.land (dictHashKey ty (e_key e)) (sizemask h)) = Some c /\ (e ∈ c).
Proof.
  intros Hw Ht. unfold ht_entries. rewrite Ht. cbn. rewrite elem_of_concat. split.
  - intros (i & c & Hi & He). exists c. destruct Hw as [|t' n Hn Hl Hp]; [done|].
    cbn in *. simplify_eq. rewrite (Hp i c e) by done. by rewrite Nat2Z.id.
  - intros (c & Hi & He). by eexists _, c.
Qed.

(** Replacing one bucket. *)
Lemma set_bucket_wf h t hash c c' :
  ht_wf h -> table h = Some t ->
  t !! Z.to_nat (Z.land hash (sizemask h)) = Some c ->
  Forall (fun e => dictHashKey ty (e_key e) = hash \/ e ∈ c) c' ->
  ht_wf (set_used (set_bucket h (Z.land hash (sizemask h)) c')
           (used h - zlen c + zlen c')) /\
  exists l1 l2, ht_entries h = l1 ++ c ++ l2 /\
    forall n, ht_entries (set_used (set_bucket h (Z.land hash (sizemask h)) c') n) = l1 ++ c' ++ l2.
Proof.
  intros Hw Ht Hc Hc'. destruct Hw as [|t' n Hn Hl Hp]; [done|]. cbn in *. simplify_eq.
  destruct (concat_insert t _ c Hc) as (l1 & l2 & E & Hins). split.
  - unfold set_used, set_bucket; cbn.
    replace (zlen (concat t) - zlen c + zlen c')
      with (zlen (concat (<[Z.to_nat (Z.land hash (2 ^ n - 1)) := c']> t)))
      by (rewrite Hins, E; zlen).
    constructor; [done|unfold zlen in *; by rewrite length_insert|].
    intros i x e Hi He. rewrite land_mask in * by lia.
    pose proof (Z.mod_pos_bound hash (2 ^ n) ltac:(lia)).
    apply list_lookup_insert_Some in Hi as [(<- & <- & _)|(_ & Hi)].
    + rewrite Forall_forall in Hc'. destruct (Hc' e He) as [<-|Hin].
      * lia.
      * pose proof (Hp _ c e Hc Hin) as Hpe. rewrite land_mask in Hpe by lia. lia.
    + pose proof (Hp i x e Hi He) as Hpe. by rewrite land_mask in Hpe by lia.
  - exists l1, l2. split; [done|]. intros m. unfold ht_entries; cbn. apply Hins.
Qed.

(** ** Rehashing *)

Lemma rehash_move_spec de d t1 :
  ht_wf (ht1 d) -> table (ht1 d) = Some t1 ->
  zlen de <= used (ht0 d) < 2 ^ 64 -> used (ht1 d) + zlen de < 2 ^ 64 ->
  exists h1' t1', rehash_move ty de d =
      Some (mk_dict (set_used (ht0 d) (used (ht0 d) - zlen de)) h1' (rehashidx d) (pauserehash d)) /\
    ht_wf h1' /\ table h1' = Some t1' /\ ht_size h1' = ht_size (ht1 d) /\
    ht_entries h1' ≡ₚ de ++ ht_entries (ht1 d).
Proof.
  revert d t1; induction de as [|e de IH]; intros d t1 Hw Ht H0 H1; cbn [rehash_move].
  { exists (ht1 d), t1. split_and!; [|done..]. destruct d as [[???] ???]; cbn.
    rewrite zlen_nil, Z.sub_0_r. done. }
  rewrite zlen_cons in *. pose proof (zlen_nonneg de).
  destruct (bucket_hash (ht1 d) (dictHashKey ty (e_key e)) t1 Hw Ht) as (c & Hc & -> & _).
  cbn [mbind option_bind].
  destruct (set_bucket_wf (ht1 d) t1 _ c (e :: c) Hw Ht Hc) as (Hw' & l1 & l2 & E1 & E2).
  { constructor; [by left|]. apply Forall_forall. by right. }
  pose proof (ht_wf_used _ Hw) as Hu. pose proof (zlen_nonneg (ht_entries (ht1 d))).
  cbn [used set_bucket].
  rewrite (u64_small (used (ht0 d) - 1)), (u64_small (used (ht1 d) + 1)) by lia.
  replace (used (ht1 d) + 1) with (used (ht1 d) - zlen c + zlen (e :: c)) by zlen.
  match goal with |- context [rehash_move ty de ?x] => destruct (IH x
      (<[Z.to_nat (Z.land (dictHashKey ty (e_key e)) (sizemask (ht1 d))) := e :: c]> t1))
    as (h1' & t1' & E & Hwf & Ht' & Hs & Hp) end;
    [exact Hw'|cbn; by rewrite Ht|cbn; lia|cbn; zlen|].
  rewrite E. cbn [ht0 ht1 rehashidx pauserehash] in *. exists h1', t1'. split_and!; [|done|done|done|].
  - cbn. do 3 f_equal. lia.
  - rewrite Hp, E2, E1. cbn. by rewrite <- !Permutation_middle.
Qed.

(** Skipping empty buckets: the scan stops at a bucket with entries before the
    end of the table. *)
Lemma rehash_skip_spec t idx ev :
  concat t <> [] ->
  (exists j, (j < length t)%nat /\ Forall (fun c => c = []) (take (S j) t) /\
     rehash_skip t idx ev = Some (SkipStop (idx + Z.of_nat j + 1))) \/
  (exists j ev' de, t !! j = Some de /\ de <> [] /\ Forall (fun c => c = []) (take j t) /\
     rehash_skip t idx ev = Some (SkipFound (idx + Z.of_nat j) ev' de)).
Proof.
  revert idx ev; induction t as [|c t IH]; intros idx ev Hne; [done|].
  destruct c as [|e c]; cbn [rehash_skip].
  - case_if.
    + left. exists 0%nat. cbn. split; [lia|]. split; [by repeat constructor|].
      do 2 f_equal. lia.
    + destruct (IH (idx + 1) (ev - 1) Hne) as [(j & Hj & Hf & ->)|(j & ev' & de & Hj & Hde & Hf & ->)].
      * left. exists (S j). cbn. split; [lia|]. split; [by constructor|]. do 2 f_equal. lia.
      * right. exists (S j), ev', de. cbn. split_and!; [done|done|by constructor|].
        do 2 f_equal. lia.
  - right. exists 0%nat, ev, (e :: c). split_and!; [done|done|constructor|]. do 2 f_equal. lia.
Qed.

(** [d'] holds the entries of [d], perhaps in other places. *)
Definition same_entries d d' : Prop := dict_wf d' /\ entries d' ≡ₚ entries d.

Lemma dict_wf_perm d d' :
  dict_wf d -> entries d' ≡ₚ entries d ->
  ht_wf (ht0 d') -> ht_wf (ht1 d') ->
  (rehashidx d' = -1 -> ht1 d' = _dictReset) ->
  (rehashidx d' <> -1 ->
    0 <= rehashidx d' <= ht_size (ht0 d') /\
    exists t0 t1, table (ht0 d') = Some t0 /\ table (ht1 d') = Some t1 /\
      Forall (fun c => c = []) (take (Z.to_nat (rehashidx d')) t0)) ->
  same_entries d d'.
Proof.
  intros W P W0 W1 Hi Hr. split; [|done]. split; try done.
  - rewrite P. apply W.
  - intros e1 e2. rewrite P. apply W.
  - unfold zlen. rewrite P. apply W.
Qed.

Lemma ht_size_table h t : ht_wf h -> table h = Some t -> ht_size h = zlen t.
Proof. by intros [|] ?; cbn in *; simplify_eq. Qed.

Lemma same_entries_trans d1 d2 d3 :
  same_entries d1 d2 -> same_entries d2 d3 -> same_entries d1 d3.
Proof. intros [? P1] [? P2]. split; [done|]. by rewrite P2. Qed.

Lemma take_all_nil t i j :
  Forall (fun c => c = []) (take i t) ->
  Forall (fun c => c = []) (take j (drop i t)) ->
  Forall (fun c : list (dictEntry K V) => c = []) (take (i + j) t).
Proof. intros H1 H2. rewrite <- take_take_drop. by apply Forall_app. Qed.

Lemma used_zero_iff h : ht_wf h -> used h = 0 <-> ht_entries h = [].
Proof.
  intros W. rewrite (ht_wf_used h W). unfold zlen. split; [|by intros ->].
  intros H. apply nil_length_inv. lia.
Qed.

(** Moving the bucket found at [rehashidx + j]. *)
Lemma rehash_bucket_spec d t0 t1 j de :
  dict_wf d -> rehashidx d <> -1 ->
  table (ht0 d) = Some t0 -> table (ht1 d) = Some t1 ->
  drop (Z.to_nat (rehashidx d)) t0 !! j = Some de -> de <> [] ->
  Forall (fun c => c = []) (take j (drop (Z.to_nat (rehashidx d)) t0)) ->
  exists d1, rehash_move ty de (set_rehashidx d (rehashidx d + Z.of_nat j)) = Some d1 /\
    rehashidx d1 = rehashidx d + Z.of_nat j /\
    let d2 := mk_dict (set_bucket (ht0 d1) (rehashidx d1) []) (ht1 d1) (rehashidx d1 + 1)
                (pauserehash d1) in
    same_entries d d2 /\
    ht_size (ht0 d2) = ht_size (ht0 d) /\ ht_size (ht1 d2) = ht_size (ht1 d) /\
    pauserehash d2 = pauserehash d.
Proof.
  intros W Hr Ht0 Ht1 Hj Hde Hf.
  pose proof (wf_ht0 _ W) as W0. pose proof (wf_ht1 _ W) as W1.
  destruct (wf_rehash _ W) as (Hidx & t0' & t1' & Ht0' & _ & Hnil); [done|]. simplify_eq.
  rewrite lookup_drop in Hj.
  set (i := (Z.to_nat (rehashidx d) + j)%nat) in *.
  assert (Hi : rehashidx d + Z.of_nat j = Z.of_nat i) by lia. rewrite Hi.
  pose proof (ht_size_table _ _ W0 Ht0) as Hsz.
  pose proof (lookup_lt_Some _ _ _ Hj) as Hlt.
  destruct de as [|e de'] eqn:Ede; [done|]. rewrite <- Ede in *. clear Hde.
  assert (Z.land (dictHashKey ty (e_key e)) (sizemask (ht0 d)) = Z.of_nat i) as Hhash.
  { destruct W0 as [|t n Hn Hl Hp]; [done|]. cbn in *. simplify_eq.
    apply (Hp i (e :: de') e); [done|left]. }
  destruct (set_bucket_wf (ht0 d) t0 (dictHashKey ty (e_key e)) de [] W0 Ht0)
    as (W0' & l1 & l2 & E1 & E2); [by rewrite Hhash, Nat2Z.id|constructor|].
  rewrite Hhash in W0', E2.
  pose proof (wf_bound _ W) as Hb. unfold entries in Hb.
  pose proof (ht_wf_used _ W0) as U0. pose proof (ht_wf_used _ W1) as U1.
  destruct (rehash_move_spec de (set_rehashidx d (Z.of_nat i)) t1)
    as (h1' & t2 & Em & Wm & Htm & Hsm & Pm); cbn; [done|done|..].
  { rewrite U0, E1. rewrite E1 in Hb. zlen. }
  { rewrite U1. rewrite E1 in Hb. zlen. }
  eexists; split; [exact Em|]. cbn [ht0 ht1 rehashidx pauserehash set_rehashidx].
  split; [done|]. split_and!; [|done|done|done].
  change (set_bucket (set_used (ht0 d) (used (ht0 d) - zlen de)) (Z.of_nat i) [])
    with (set_used (set_bucket (ht0 d) (Z.of_nat i) []) (used (ht0 d) - zlen de)).
  rewrite zlen_nil, Z.add_0_r in W0'.
  apply dict_wf_perm; cbn [ht0 ht1 rehashidx pauserehash]; try done; [|lia|].
  - unfold entries; cbn [ht0 ht1]. rewrite E2, Pm, E1; cbn [app ht1 set_rehashidx].
    rewrite <- !app_assoc. rewrite (Permutation_app_swap_app l2 de). done.
  - cbn. intros _. split; [rewrite Hsz; unfold zlen; lia|].
    exists (<[i := []]> t0), t2. rewrite Ht0, Nat2Z.id. split_and!; [done|done|].
    replace (Z.to_nat (Z.of_nat i + 1)) with (S i) by lia.
    rewrite (take_S_r _ _ []) by (apply list_lookup_insert_eq; lia).
    apply Forall_app; split; [|by repeat constructor].
    rewrite take_insert_ge by lia. by apply take_all_nil.
Qed.

Lemma rehash_loop_spec n ev d :
  dict_wf d -> dictIsRehashing d = true ->
  exists d' early, rehash_loop ty n ev d = Some (d', early) /\
    same_entries d d' /\ dictIsRehashing d' = true /\
    ht_size (ht0 d') = ht_size (ht0 d) /\ ht_size (ht1 d') = ht_size (ht1 d) /\
    pauserehash d' = pauserehash d /\
    rehashidx d <= rehashidx d' /\
    (n <> 0%nat -> used (ht0 d) <> 0 -> rehashidx d < rehashidx d').
Proof.
  unfold dictIsRehashing. revert ev d. induction n as [|n IH]; intros ev d W Hr; cbn [rehash_loop].
  { exists d, false. split_and!; done. }
  pose proof (wf_ht0 _ W) as W0. pose proof (wf_ht1 _ W) as W1.
  case_if. { exists d, false. split_and!; done || lia. }
  bool_to_prop. destruct (wf_rehash _ W) as (Hidx & t0 & t1 & Ht0 & Ht1 & Hnil); [lia|].
  assert (concat (drop (Z.to_nat (rehashidx d)) t0) <> []) as Hne.
  { intros Hd. rewrite used_zero_iff in E by done. apply E.
    unfold ht_entries. rewrite Ht0. cbn.
    rewrite <- (take_drop (Z.to_nat (rehashidx d)) t0), concat_app, Hd, (concat_all_nil _ Hnil). done. }
  pose proof (ht_size_table _ _ W0 Ht0) as Hsz.
  assert (Z.to_nat (rehashidx d) < length t0)%nat.
  { destruct (decide (Z.to_nat (rehashidx d) < length t0)%nat); [done|].
    rewrite drop_ge in Hne by lia. done. }
  assert (zlen t0 <= 2 ^ 60).
  { rewrite <- Hsz. destruct W0 as [|t m Hm]; [done|]. cbn. by apply pow2_bounds. }
  rewrite u64_small by (unfold zlen in *; lia).
  replace (negb (rehashidx d <? ht_size (ht0 d))) with false by (rewrite Hsz; unfold zlen; lia).
  rewrite Ht0. cbn [mbind option_bind].
  destruct (rehash_skip_spec _ (rehashidx d) ev Hne)
    as [(j & Hj & Hf & ->)|(j & ev' & de & Hj & Hde & Hf & ->)]; cbn [mbind option_bind].
  - exists (set_rehashidx d (rehashidx d + Z.of_nat j + 1)), true.
    rewrite length_drop in Hj.
    split_and!; cbn; try done; try lia.
    apply dict_wf_perm; cbn; try done; [lia|]. intros _. split; [unfold zlen in *; lia|].
    exists t0, t1. split_and!; [done..|].
    replace (Z.to_nat (rehashidx d + Z.of_nat j + 1)) with (Z.to_nat (rehashidx d) + S j)%nat by lia.
    by apply take_all_nil.
  - destruct (rehash_bucket_spec d t0 t1 j de) as (d1 & -> & Hi1 & S2 & Hs0 & Hs1 & Hp1);
      [done|lia|done..|]. cbn [mbind option_bind].
    destruct (IH ev' (mk_dict (set_bucket (ht0 d1) (rehashidx d1) []) (ht1 d1) (rehashidx d1 + 1)
                (pauserehash d1))) as (d' & early & -> & S' & Hr' & Hs0' & Hs1' & Hp' & Hle & _);
      [apply S2|cbn; lia|].
    exists d', early. cbn in Hle.
    split_and!; [done|by eapply same_entries_trans|done|congruence|congruence|congruence|lia|lia].
Qed.

Lemma same_entries_refl d : dict_wf d -> same_entries d d.
Proof. by split. Qed.

Lemma dictRehash_spec d n :
  dict_wf d ->
  exists d', dictRehash ty d n = Some (d', if dictIsRehashing d' then 1 else 0) /\
    same_entries d d' /\ pauserehash d' = pauserehash d /\
    (dictIsRehashing d' = true ->
       dictIsRehashing d = true /\ ht_size (ht0 d') = ht_size (ht0 d) /\
       ht_size (ht1 d') = ht_size (ht1 d) /\ (n <> 0%nat -> rehashidx d < rehashidx d')).
Proof.
  intros W. unfold dictRehash. destruct (dictIsRehashing d) eqn:Hr; cbn [negb].
  2: { exists d. rewrite Hr. split_and!; try done. }
  destruct (rehash_loop_spec n (i32 (Z.of_nat n * 10)) d W Hr)
    as (d' & early & E & S' & Hr' & H0 & H1 & Hp & Hle & Hlt). rewrite E. cbn [mbind option_bind].
  assert (n <> 0%nat -> used (ht0 d) = 0 -> d' = d /\ early = false) as Hz.
  { intros Hn Hu. destruct n; [done|]. cbn [rehash_loop] in E. rewrite Hu, Z.eqb_refl in E. by simplify_eq. }
  destruct early.
  { exists d'. rewrite Hr'. split_and!; try done. intros _. split_and!; try done.
    intros Hn. apply Hlt; [done|]. intros Hu. by destruct (Hz Hn Hu) as [_ ?]. }
  case_if.
  - exists (mk_dict (ht1 d') _dictReset (-1) (pauserehash d')). split; [done|]. split_and!; [|done|done].
    eapply same_entries_trans; [done|]. destruct S' as [W' _].
    apply used_zero_iff in E0; [|apply W']. apply dict_wf_perm; cbn; try done.
    + unfold entries; cbn. by rewrite E0, app_nil_r.
    + apply W'.
    + constructor.
  - exists d'. rewrite Hr'. split_and!; try done. intros _. split_and!; try done.
    intros Hn. apply Hlt; [done|]. intros Hu. destruct (Hz Hn Hu) as [-> _]. done.
Qed.

(** Rehashing finishes: repeated single steps on a dictionary reach the state
    with one table in at most one more step than the old table has buckets. *)
Fixpoint rehash_steps (m : nat) d : option (dict K V) :=
  match m with
  | O => Some d
  | S m' => '(d, _) ← dictRehash ty d 1; rehash_steps m' d
  end.

Lemma rehash_steps_spec m d :
  dict_wf d ->
  exists d', rehash_steps m d = Some d' /\ same_entries d d' /\
    (dictIsRehashing d' = true -> dictIsRehashing d = true /\
       ht_size (ht0 d') = ht_size (ht0 d) /\ rehashidx d + Z.of_nat m <= rehashidx d').
Proof.
  revert d; induction m as [|m IH]; intros d W; cbn [rehash_steps].
  { exists d. split_and!; [done|done..|]. intros; split_and!; [done..|lia]. }
  destruct (dictRehash_spec d 1 W) as (d1 & -> & S1 & _ & Hr1). cbn [mbind option_bind].
  destruct (IH d1) as (d2 & -> & S2 & Hr2); [apply S1|].
  exists d2. split_and!; [done|by eapply same_entries_trans..|].
  intros Hr. destruct (Hr2 Hr) as (Hrd1 & Hsz & Hidx). destruct (Hr1 Hrd1) as (? & Hsz1 & _ & Hidx1).
  split_and!; [done|congruence|]. specialize (Hidx1 ltac:(done)). lia.
Qed.

Lemma rehash_step_if_spec d :
  dict_wf d ->
  exists d', rehash_step_if ty d = Some d' /\ same_entries d d' /\ pauserehash d' = pauserehash d.
Proof.
  intros W. unfold rehash_step_if, _dictRehashStep.
  repeat case_if; try (exists d; split_and!; done).
  destruct (dictRehash_spec d 1 W) as (d1 & -> & S1 & Hp & _). by exists d1.
Qed.

(** ** Lookup *)

Lemma find_entry_Some k c e : find_entry ty k c = Some e -> (e ∈ c) /\ key_match ty k e = true.
Proof.
  induction c as [|x c IH]; cbn; [done|]. case_if.
  - intros; simplify_eq. split; [left|done].
  - intros H. destruct (IH H). split; [by right|done].
Qed.

Lemma find_entry_None k c : find_entry ty k c = None -> forall e, e ∈ c -> key_match ty k e = false.
Proof.
  induction c as [|x c IH]; cbn; [by intros _ e ?%elem_of_nil|]. case_if; [done|].
  intros H e [->|He]%elem_of_cons; [done|]. by apply IH.
Qed.

Lemma key_match_hash k e : key_match ty k e = true -> dictHashKey ty k = dictHashKey ty (e_key e).
Proof. apply hash_compat. Qed.

(** A table whose bucket for [k] has no match has no match at all. *)
Lemma bucket_no_match h t k c :
  ht_wf h -> table h = Some t ->
  t !! Z.to_nat (Z.land (dictHashKey ty k) (sizemask h)) = Some c ->
  (forall e, e ∈ c -> key_match ty k e = false) ->
  forall e, e ∈ ht_entries h -> key_match ty k e = false.
Proof.
  intros W Ht Hc Hn e He. destruct (key_match ty k e) eqn:Hm; [|done].
  apply (elem_of_ht_entries h t) in He as (c' & Hc' & He); [|done..].
  rewrite <- (key_match_hash k e Hm) in Hc'. simplify_eq. specialize (Hn e He). congruence.
Qed.

Lemma bucket_elem h t k c e :
  table h = Some t -> t !! Z.to_nat (Z.land (dictHashKey ty k) (sizemask h)) = Some c ->
  e ∈ c -> e ∈ ht_entries h.
Proof.
  intros Ht Hc He. unfold ht_entries. rewrite Ht. cbn. apply elem_of_concat. by eexists _, c.
Qed.

Lemma find_tables_spec d k t0 :
  dict_wf d -> table (ht0 d) = Some t0 ->
  exists r, find_tables ty k d (dictHashKey ty k) = Some r /\
    match r with Some e => has_entry d k e | None => no_entry d k end.
Proof.
  intros W Ht0. unfold find_tables.
  destruct (bucket_hash (ht0 d) (dictHashKey ty k) t0 (wf_ht0 _ W) Ht0) as (c0 & Hc0 & -> & _).
  cbn [mbind option_bind]. destruct (find_entry ty k c0) as [e|] eqn:F0.
  { exists (Some e). split; [done|]. apply find_entry_Some in F0 as [He Hm]. split; [|done].
    apply elem_of_app; left. by eapply bucket_elem. }
  pose proof (bucket_no_match _ _ _ _ (wf_ht0 _ W) Ht0 Hc0 (find_entry_None _ _ F0)) as N0.
  unfold dictIsRehashing. case_if; bool_to_prop.
  { exists None. split; [done|]. intros e [He|He]%elem_of_app; [by apply N0|].
    rewrite (wf_idle _ W) in He by done. by apply elem_of_nil in He. }
  destruct (wf_rehash _ W) as (_ & _ & t1 & _ & Ht1 & _); [done|].
  destruct (bucket_hash (ht1 d) (dictHashKey ty k) t1 (wf_ht1 _ W) Ht1) as (c1 & Hc1 & -> & _).
  cbn [mbind option_bind]. eexists; split; [done|].
  destruct (find_entry ty k c1) as [e|] eqn:F1.
  - apply find_entry_Some in F1 as [He Hm]. split; [|done].
    apply elem_of_app; right. by eapply bucket_elem.
  - intros e [He|He]%elem_of_app; [by apply N0|].
    by apply (bucket_no_match _ _ _ _ (wf_ht1 _ W) Ht1 Hc1 (find_entry_None _ _ F1)).
Qed.

Lemma dictSize_spec d : dict_wf d -> dictSize d = zlen (entries d).
Proof.
  intros W. unfold dictSize. rewrite (ht_wf_used _ (wf_ht0 _ W)), (ht_wf_used _ (wf_ht1 _ W)).
  rewrite <- zlen_app. apply u64_small. pose proof (wf_bound _ W). unfold entries in *. zlen.
Qed.

Lemma entries_table d : dict_wf d -> entries d <> [] -> exists t0, table (ht0 d) = Some t0.
Proof.
  intros W Hne. destruct (decide (rehashidx d = -1)) as [Hi|Hi].
  - unfold entries in Hne. rewrite (wf_idle _ W Hi) in Hne.
    destruct (table (ht0 d)) eqn:Ht; [by eexists|]. unfold ht_entries in Hne. rewrite Ht in Hne. done.
  - destruct (wf_rehash _ W Hi) as (_ & t0 & _ & ? & _). by exists t0.
Qed.

Lemma same_entries_has d d' k e : same_entries d d' -> has_entry d' k e <-> has_entry d k e.
Proof. intros [_ P]. unfold has_entry. by rewrite P. Qed.

Lemma same_entries_no d d' k : same_entries d d' -> no_entry d' k <-> no_entry d k.
Proof. intros [_ P]. unfold no_entry. by setoid_rewrite P. Qed.

Lemma dictFind_spec d k :
  dict_wf d ->
  exists d' r, dictFind ty d k = Some (d', r) /\ same_entries d d' /\
    match r with Some e => has_entry d k e | None => no_entry d k end.
Proof.
  intros W. unfold dictFind. rewrite (dictSize_spec d W). case_if.
  { exists d, None. split_and!; try done. intros e He.
    destruct (entries d); [by apply elem_of_nil in He|zlen]. }
  destruct (rehash_step_if_spec d W) as (d1 & -> & S1 & _). cbn [mbind option_bind].
  destruct (entries_table d1) as [t0 Ht0]; [apply S1| |].
  { intros Hn. destruct S1 as [_ P]. rewrite Hn in P. apply Permutation_nil_l in P.
    rewrite <- P in E. done. }
  destruct (find_tables_spec d1 k t0) as (r & -> & Hr); [apply S1|done|].
  cbn [mbind option_bind]. exists d1, r. split_and!; [done|done|].
  destruct r; [by apply (same_entries_has _ _ _ _ S1)|by apply (same_entries_no _ _ _ S1)].
Qed.

(** ** Expansion *)

Lemma nextPower_loop_spec fuel m size :
  2 <= m <= 63 -> size <= 2 ^ 63 -> 63 - m < Z.of_nat fuel -> (m = 2 \/ 2 ^ (m - 1) < size) ->
  exists n, m <= n <= 63 /\ nextPower_loop fuel (2 ^ m) size = Some (2 ^ n) /\
    size <= 2 ^ n /\ (n = 2 \/ 2 ^ (n - 1) < size).
Proof.
  revert m; induction fuel as [|fuel IH]; intros m Hm Hs Hf Hmin; [lia|].
  cbn [nextPower_loop]. case_if.
  { exists m. split_and!; try done; lia. }
  assert (m <> 63) by (intros ->; lia).
  replace (2 ^ m * 2) with (2 ^ (m + 1)) by (rewrite Z.pow_add_r by lia; lia).
  rewrite u64_small by (split; [apply Z.pow_nonneg; lia|apply Z.pow_lt_mono_r; lia]).
  destruct (IH (m + 1)) as (n & Hn & -> & H1 & H2); [lia|lia|lia| |].
  { right. by replace (m + 1 - 1) with m by lia. }
  exists n. split_and!; try done; lia.
Qed.

Lemma dictNextPower_spec size :
  0 <= size <= 2 ^ 63 ->
  exists n, 2 <= n <= 63 /\ _dictNextPower size = Some (2 ^ n) /\
    size <= 2 ^ n /\ (n = 2 \/ 2 ^ (n - 1) < size).
Proof.
  intros Hs. unfold _dictNextPower, LONG_MAX. case_if.
  - exists 63. split_and!; try done; lia.
  - destruct (nextPower_loop_spec 64 2 size) as (n & ? & ? & ? & ?); try lia. by exists n.
Qed.

Lemma dictNextPower_small size :
  0 <= size <= 2 ^ 60 -> exists n, 2 <= n <= 60 /\ _dictNextPower size = Some (2 ^ n) /\ size <= 2 ^ n.
Proof.
  intros Hs. destruct (dictNextPower_spec size) as (n & Hn & E & Hle & Hmin); [lia|].
  exists n. split_and!; try done; try lia.
  destruct Hmin as [->|Hlt]; [lia|]. assert (n - 1 < 60); [|lia].
  apply (Z.pow_lt_mono_r_iff 2); lia.
Qed.

Lemma new_table_wf n :
  2 <= n <= 60 ->
  ht_wf (mk_ht (Some (replicate (Z.to_nat (u64 (2 ^ n * 8) / 8)) [])) (2 ^ n) (u64 (2 ^ n - 1)) 0).
Proof.
  intros Hn. pose proof (pow2_bounds n Hn). rewrite !u64_small by lia. rewrite Z.div_mul by lia.
  replace 0 with (zlen (concat (replicate (Z.to_nat (2 ^ n)) (@nil (dictEntry K V)))))
    by (by rewrite concat_replicate_nil).
  constructor; [done| |].
  - unfold zlen. rewrite length_replicate. lia.
  - intros i c e [-> _]%lookup_replicate ?%elem_of_nil. done.
Qed.

(** A successful expansion installs an empty table; nothing else changes. *)
Lemma dictExpand_spec d size :
  dict_wf d -> 0 <= size <= 2 ^ 60 ->
  exists d' r, dictExpand d size = Some (d', r) /\ same_entries d d' /\
    (r = DICT_ERR -> d' = d /\
       (dictIsRehashing d = true \/ size < used (ht0 d) \/
        _dictNextPower size = Some (ht_size (ht0 d)))) /\
    (r <> DICT_ERR -> r = DICT_OK /\ exists t0, table (ht0 d') = Some t0).
Proof.
  intros W Hs. unfold dictExpand, _dictExpand.
  destruct (dictIsRehashing d || (size <? used (ht0 d))) eqn:Hc.
  { exists d, DICT_ERR. cbn. split_and!; try done. intros _. split; [done|].
    apply orb_true_iff in Hc as [?|?]; bool_to_prop; tauto. }
  apply orb_false_iff in Hc as [Hr _]. unfold dictIsRehashing in Hr. bool_to_prop.
  destruct (dictNextPower_small size Hs) as (n & Hn & -> & Hle). cbn [mbind option_bind].
  case_if.
  { exists d, DICT_ERR. cbn. split_and!; try done. intros _. split; [done|].
    right; right. by rewrite E. }
  rewrite bool_decide_eq_false_2 by done.
  pose proof (new_table_wf n Hn) as Wn. pose proof (wf_idle _ W Hr) as Hidle.
  destruct (table (ht0 d)) as [t0|] eqn:Ht0; cbn [mbind option_bind];
    eexists _, DICT_OK; (split; [reflexivity|]).
  - split_and!; [|done|by intros; eauto].
    apply dict_wf_perm; cbn; try done; [|apply W|].
    + unfold entries; cbn. rewrite Hidle. unfold ht_entries at 2; cbn.
      by rewrite concat_replicate_nil.
    + intros _. pose proof (ht_size_table _ _ (wf_ht0 _ W) Ht0). split; [zlen|].
      eexists t0, _. split_and!; [done|done|constructor].
  - split_and!; [|done|by intros; eauto].
    apply dict_wf_perm; cbn; try done.
    + unfold entries; cbn. rewrite Hidle. unfold ht_entries; cbn.
      by rewrite Ht0, concat_replicate_nil.
    + by rewrite Hidle; constructor.
Qed.

Lemma dictExpandIfNeeded_spec cr d :
  dict_wf d ->
  exists d' t0, _dictExpandIfNeeded ty cr d = Some (d', DICT_OK) /\ same_entries d d' /\
    table (ht0 d') = Some t0.
Proof.
  intros W. unfold _dictExpandIfNeeded. destruct (dictIsRehashing d) eqn:Hr.
  { destruct (wf_rehash _ W) as (_ & t0 & _ & Ht0 & _);
      [unfold dictIsRehashing in Hr; bool_to_prop; done|]. exists d, t0. split_and!; done. }
  pose proof (wf_ht0 _ W) as W0. case_if.
  { assert (ht_entries (ht0 d) = []) as Hn.
    { destruct W0 as [|t n Hn]; [done|]. cbn in E. pose proof (pow2_bounds n Hn). lia. }
    apply (used_zero_iff _ W0) in Hn.
    destruct (dictExpand_spec d DICT_HT_INITIAL_SIZE W) as (d' & r & -> & S' & He & Ho);
      [unfold DICT_HT_INITIAL_SIZE; lia|].
    destruct (decide (r = DICT_ERR)) as [Hre|Hne].
    - destruct (He Hre) as [_ [?|[Hx|Hx]]]; [congruence|unfold DICT_HT_INITIAL_SIZE in Hx; lia|].
      rewrite E in Hx. by vm_compute in Hx.
    - destruct (Ho Hne) as [-> [t0 Ht0]]. exists d', t0. split_and!; try done; apply S'. }
  assert (exists t0, table (ht0 d) = Some t0) as [t0 Ht0].
  { destruct W0; [done|]. by eexists. }
  assert (forall b : bool, exists d' t0',
    (if b then dictExpand d (u64 (used (ht0 d) + 1)) else Some (d, DICT_OK)) = Some (d', DICT_OK) /\
    (same_entries d d') /\ table (ht0 d') = Some t0' \/ ht_size (ht0 d) > used (ht0 d)) as Hexp.
  { intros [|]; [|exists d, t0; left; split_and!; done].
    destruct (decide (ht_size (ht0 d) <= used (ht0 d))) as [Hge|]; [|exists d, t0; right; lia].
    pose proof (ht_wf_used _ W0) as Hu. pose proof (wf_bound _ W) as Hb. unfold entries in Hb.
    rewrite zlen_app in Hb. pose proof (zlen_nonneg (ht_entries (ht1 d))).
    pose proof (zlen_nonneg (ht_entries (ht0 d))).
    rewrite u64_small by lia.
    destruct (dictExpand_spec d (used (ht0 d) + 1) W) as (d' & r & -> & S' & He & Ho); [lia|].
    destruct (decide (r = DICT_ERR)) as [Hre|Hne].
    - destruct (He Hre) as [_ [?|[Hx|Hx]]]; [congruence|lia|].
      destruct (dictNextPower_small (used (ht0 d) + 1)) as (n & _ & En & Hle); [lia|].
      rewrite En in Hx. simplify_eq. lia.
    - destruct (Ho Hne) as [-> [t0' Ht0']]. exists d', t0'. left. split_and!; try done; apply S'. }
  case_if; [|exists d, t0; split_and!; done].
  unfold dictTypeExpandAllowed. destruct (expandAllowed ty) as [f|]; cbn [mbind option_bind].
  2: { destruct (Hexp true) as (d' & t0' & [(? & ? & ?)|?]); [by exists d', t0'|lia]. }
  pose proof (ht_wf_used _ W0) as Hu. pose proof (wf_bound _ W) as Hb. unfold entries in Hb.
  rewrite zlen_app in Hb. pose proof (zlen_nonneg (ht_entries (ht1 d))).
  pose proof (zlen_nonneg (ht_entries (ht0 d))).
  rewrite (u64_small (used (ht0 d) + 1)) in * by lia.
  destruct (dictNextPower_small (used (ht0 d) + 1)) as (n & _ & -> & _); [lia|].
  cbn [mbind option_bind].
  destruct (Hexp (f (u64 (2 ^ n * 8)) (used (ht0 d), ht_size (ht0 d))))
    as (d' & t0' & [(? & ? & ?)|?]); [by exists d', t0'|lia].
Qed.

(** ** Insertion *)

Lemma dictKeyIndex_spec cr d k :
  dict_wf d ->
  exists d' r, _dictKeyIndex ty cr d k (dictHashKey ty k) = Some (d', r.1, r.2) /\
    same_entries d d' /\
    match r.2 with
    | Some e => r.1 = -1 /\ has_entry d k e
    | None => no_entry d k /\ exists t,
        let h := ht d' (if dictIsRehashing d' then 1 else 0)%nat in
        table h = Some t /\ r.1 = Z.land (dictHashKey ty k) (sizemask h) /\ 0 <= r.1
    end.
Proof.
  intros W. unfold _dictKeyIndex.
  destruct (dictExpandIfNeeded_spec cr d W) as (d1 & t0 & -> & S1 & Ht0).
  cbn [mbind option_bind Z.eqb Pos.eqb DICT_OK DICT_ERR].
  destruct (find_tables_spec d1 k t0) as (r & -> & Hr); [apply S1|done|]. cbn [mbind option_bind].
  destruct r as [e|].
  { exists d1, (-1, Some e). split_and!; try done. split; [done|].
    by apply (same_entries_has _ _ _ _ S1). }
  exists d1. eexists (_, None). split_and!; [done|done|]. cbn [snd fst].
  split; [by apply (same_entries_no _ _ _ S1)|].
  pose proof (proj1 S1) as W1. destruct (dictIsRehashing d1) eqn:Hr1; cbn [ht].
  - destruct (wf_rehash _ W1) as (_ & _ & t1 & _ & Ht1 & _);
      [unfold dictIsRehashing in Hr1; bool_to_prop; done|].
    exists t1. split_and!; [done|done|].
    destruct (bucket_hash _ (dictHashKey ty k) _ (wf_ht1 _ W1) Ht1) as (? & _ & _ & ?). done.
  - exists t0. split_and!; [done|done|].
    destruct (bucket_hash _ (dictHashKey ty k) _ (wf_ht0 _ W1) Ht0) as (? & _ & _ & ?). done.
Qed.

(** What the invariant says of the collection of entries alone. *)
Definition entries_ok (es : list (dictEntry K V)) : Prop :=
  NoDup (map e_ptr es) /\
  (forall e1 e2, e1 ∈ es -> e2 ∈ es -> keys_match ty (e_key e1) (e_key e2) = true -> e1 = e2) /\
  zlen es < 2 ^ 60.

Lemma wf_entries_ok d : dict_wf d -> entries_ok (entries d).
Proof. intros W. split_and!; apply W. Qed.

Lemma entries_ok_perm es es' : es' ≡ₚ es -> entries_ok es -> entries_ok es'.
Proof.
  intros P (H1 & H2 & H3). split_and!.
  - by rewrite P.
  - intros e1 e2. rewrite P. apply H2.
  - unfold zlen. by rewrite P.
Qed.

(** Replacing the bucket of [hash] in table [tid]. *)
Lemma update_bucket d (tid : nat) t hash c c' :
  dict_wf d -> table (ht d tid) = Some t ->
  t !! Z.to_nat (Z.land hash (sizemask (ht d tid))) = Some c ->
  Forall (fun e => dictHashKey ty (e_key e) = hash \/ e ∈ c) c' ->
  (dictIsRehashing d = true -> tid = 0%nat -> c = [] -> c' = []) ->
  let n := used (ht d tid) - zlen c + zlen c' in
  let d' := set_ht d tid (set_used (set_bucket (ht d tid) (Z.land hash (sizemask (ht d tid))) c') n) in
  exists l1 l2, entries d = l1 ++ c ++ l2 /\ entries d' = l1 ++ c' ++ l2 /\
    (entries_ok (entries d') -> dict_wf d').
Proof.
  intros W Ht Hc Hc' Hreh n d'.
  assert (ht_wf (ht d tid)) as Wt by (destruct tid; apply W).
  destruct (set_bucket_wf (ht d tid) t hash c c' Wt Ht Hc Hc') as (W' & l1 & l2 & E1 & E2).
  destruct (bucket_hash _ hash _ Wt Ht) as (_ & _ & _ & Hpos).
  destruct tid as [|tid]; cbn [ht set_ht] in *.
  - exists l1, (l2 ++ ht_entries (ht1 d)). split_and!.
    + unfold entries. by rewrite E1, <- !app_assoc.
    + unfold entries; cbn [d' ht0 ht1]. by rewrite E2, <- !app_assoc.
    + intros (? & ? & ?). split; cbn [d' ht0 ht1 rehashidx]; try done; try apply W.
      intros Hr. destruct (wf_rehash _ W Hr) as (Hidx & t0 & t1 & Ht0 & Ht1 & Hnil).
      split; [done|]. cbn. rewrite Ht in Ht0 |- *. simplify_eq.
      eexists _, t1. split_and!; [done|done|].
      destruct (decide (Z.to_nat (Z.land hash (sizemask (ht0 d))) < Z.to_nat (rehashidx d))%nat).
      * assert (c = []) as Hcn.
        { rewrite Forall_forall in Hnil. apply Hnil, list_elem_of_lookup.
          eexists. rewrite lookup_take_lt by done. exact Hc. }
        rewrite Hreh; [|unfold dictIsRehashing; lia|done|done].
        rewrite Hcn in Hc. by rewrite list_insert_id.
      * by rewrite take_insert_ge by lia.
  - exists (ht_entries (ht0 d) ++ l1), l2. split_and!.
    + unfold entries. by rewrite E1, <- !app_assoc.
    + unfold entries; cbn [d' ht0 ht1]. by rewrite E2, <- !app_assoc.
    + intros (? & ? & ?). split; cbn [d' ht0 ht1 rehashidx]; try done; try apply W.
      * intros Hr. rewrite (wf_idle _ W Hr) in Ht. done.
      * intros Hr. destruct (wf_rehash _ W Hr) as (Hidx & t0 & t1 & Ht0 & Ht1 & Hnil).
        split; [done|]. cbn. rewrite Ht. by eexists t0, _.
Qed.

Lemma dictAddRaw_spec cr p d k :
  dict_wf d -> p ∉ map e_ptr (entries d) -> zlen (entries d) + 1 < 2 ^ 60 ->
  (exists d' e, dictAddRaw ty cr p d k = Some (d', None, Some e) /\
     same_entries d d' /\ has_entry d k e) \/
  (exists d', dictAddRaw ty cr p d k = Some (d', Some p, None) /\
     dict_wf d' /\ no_entry d k /\ entries d' ≡ₚ mk_entry p (dictSetKey ty k) None :: entries d).
Proof.
  intros W Hp Hb. unfold dictAddRaw.
  destruct (rehash_step_if_spec d W) as (d1 & -> & S1 & _). cbn [mbind option_bind].
  destruct (dictKeyIndex_spec cr d1 k) as (d2 & [idx ex] & -> & S2 & Hr); [apply S1|].
  cbn [mbind option_bind fst snd] in *.
  pose proof (same_entries_trans _ _ _ S1 S2) as S12.
  destruct ex as [e|].
  { left. destruct Hr as [-> He]. exists d2, e. split_and!; [done|done|].
    by apply (same_entries_has _ _ _ _ S1). }
  right. destruct Hr as (Hno & t & Ht & -> & Hpos). rewrite_if_false.
  set (tid := (if dictIsRehashing d2 then 1 else 0)%nat) in *.
  assert (ht_wf (ht d2 tid)) as Wt by (destruct tid; apply S12).
  destruct (bucket_hash _ (dictHashKey ty k) _ Wt Ht) as (c & Hc & -> & _).
  cbn [mbind option_bind].
  set (e := mk_entry p (dictSetKey ty k) None).
  destruct (update_bucket d2 tid t (dictHashKey ty k) c (e :: c)) as (l1 & l2 & E1 & E2 & Hwf);
    [apply S12|done|done| | |].
  { constructor; [left; symmetry; apply hash_compat, dup_match|]. apply Forall_forall. by right. }
  { intros Hr Ht0. unfold tid in Ht0. by rewrite Hr in Ht0. }
  assert (zlen (entries d2) = zlen (entries d)) as Hl by (unfold zlen; by rewrite (proj2 S12)).
  assert (u64 (used (ht d2 tid) + 1) = used (ht d2 tid) - zlen c + zlen (e :: c)) as Hu.
  { rewrite u64_small; [zlen|]. rewrite (ht_wf_used _ Wt).
    assert (zlen (ht_entries (ht d2 tid)) <= zlen (entries d2)) by (unfold entries; clearbody tid; destruct tid; cbn [ht]; zlen).
    pose proof (zlen_nonneg (ht_entries (ht d2 tid))). lia. }
  cbn [used set_bucket]. rewrite Hu. eexists; split; [done|].
  assert (l1 ++ (e :: c) ++ l2 ≡ₚ e :: entries d) as P.
  { rewrite <- (proj2 S12), E1. cbn. symmetry. apply Permutation_middle. }
  rewrite E2. split_and!; [|by apply (same_entries_no _ _ _ S1)|done].
  apply Hwf. rewrite E2. eapply entries_ok_perm; [exact P|].
  destruct (wf_entries_ok _ W) as (H1 & H2 & H3). apply (same_entries_no _ _ _ S1) in Hno.
  split_and!; [by constructor| |zlen].
  intros e1 e2 [->|He1]%elem_of_cons [->|He2]%elem_of_cons Hm; [done|..|by apply H2].
  - specialize (Hno e2 He2). unfold key_match in Hno.
    rewrite (keys_match_trans k (dictSetKey ty k) (e_key e2)) in Hno; [done|apply dup_match|done].
  - specialize (Hno e1 He1). unfold key_match in Hno. apply keys_match_sym in Hm.
    rewrite (keys_match_trans k (dictSetKey ty k) (e_key e1)) in Hno; [done|apply dup_match|done].
Qed.

(** ** Storing a value through a pointer *)

Definition upd (p : positive) (v : option V) e : dictEntry K V :=
  if bool_decide (e_ptr e = p) then mk_entry (e_ptr e) (e_key e) v else e.

Lemma upd_key p v e : e_key (upd p v e) = e_key e.
Proof. unfold upd. by case_bool_decide. Qed.
Lemma upd_ptr p v e : e_ptr (upd p v e) = e_ptr e.
Proof. unfold upd. by case_bool_decide. Qed.

Lemma store_ht_entries p v h : ht_entries (store_ht p v h) = map (upd p v) (ht_entries h).
Proof.
  unfold ht_entries, store_ht; cbn. destruct (table h) as [t|]; cbn; [|done].
  by rewrite concat_map.
Qed.

Lemma store_val_entries p v d : entries (store_val d p v) = map (upd p v) (entries d).
Proof. unfold entries. by rewrite map_app, <- !store_ht_entries. Qed.

Lemma store_ht_wf p v h : ht_wf h -> ht_wf (store_ht p v h).
Proof.
  intros [|t n Hn Hl Hp]; [constructor|]. unfold store_ht; cbn.
  replace (zlen (concat t)) with (zlen (concat (map (store_chain p v) t))).
  2: { change (store_chain p v) with (map (upd p v)). rewrite <- concat_map.
       unfold zlen. by rewrite length_map. }
  constructor; [done|unfold zlen in *; by rewrite length_map|].
  intros i c e Hi He. rewrite list_lookup_fmap in Hi.
  destruct (t !! i) as [c0|] eqn:Hc0; cbn in Hi; simplify_eq.
  apply list_elem_of_fmap in He as (e0 & -> & He0).
  change (Z.land (dictHashKey ty (e_key (upd p v e0))) (2 ^ n - 1) = Z.of_nat i).
  rewrite upd_key. by apply (Hp i c0).
Qed.

Lemma store_val_wf p v d : dict_wf d -> dict_wf (store_val d p v).
Proof.
  intros W. split; try (by cbn; apply store_ht_wf, W).
  - intros Hr. cbn in *. by rewrite (wf_idle _ W Hr).
  - intros Hr. destruct (wf_rehash _ W Hr) as (Hidx & t0 & t1 & Ht0 & Ht1 & Hnil). cbn.
    split; [done|]. rewrite Ht0, Ht1. cbn. eexists _, _. split_and!; [done|done|].
    rewrite <- fmap_take. apply Forall_fmap. eapply Forall_impl; [exact Hnil|].
    intros c ->. done.
  - rewrite store_val_entries, map_map.
    rewrite (map_ext _ e_ptr) by apply upd_ptr. apply W.
  - rewrite store_val_entries. intros e1 e2.
    intros (x1 & -> & H1)%list_elem_of_fmap (x2 & -> & H2)%list_elem_of_fmap.
    rewrite !upd_key. intros Hm. by rewrite (wf_keys _ W x1 x2).
  - rewrite store_val_entries. unfold zlen. rewrite length_map. apply W.
Qed.

Lemma map_upd_other p v (es : list (dictEntry K V)) :
  p ∉ map e_ptr es -> map (upd p v) es = es.
Proof.
  intros Hp. rewrite <- (map_id es) at 2. apply map_ext_in. intros e He.
  unfold upd. rewrite bool_decide_eq_false_2; [done|].
  intros <-. apply Hp. apply list_elem_of_In. by apply in_map.
Qed.

Lemma dictAdd_spec cr p d k v :
  dict_wf d -> p ∉ map e_ptr (entries d) -> zlen (entries d) + 1 < 2 ^ 60 ->
  (exists d' e, dictAdd ty cr p d k v = Some (d', DICT_ERR) /\ same_entries d d' /\ has_entry d k e) \/
  (exists d', dictAdd ty cr p d k v = Some (d', DICT_OK) /\ no_entry d k /\ dict_wf d' /\
     entries d' ≡ₚ mk_entry p (dictSetKey ty k) (dictSetVal ty v) :: entries d).
Proof.
  intros W Hp Hb. unfold dictAdd.
  destruct (dictAddRaw_spec cr p d k W Hp Hb) as [(d' & e & -> & S' & He)|(d' & -> & W' & Hn & P)].
  - left. by exists d', e.
  - right. cbn [mbind option_bind]. eexists; split; [done|]. split_and!; [done|by apply store_val_wf|].
    rewrite store_val_entries, P. cbn. rewrite map_upd_other by done.
    unfold upd at 1. cbn. by rewrite bool_decide_eq_true_2.
Qed.

Lemma dictReplace_spec cr p d k v :
  dict_wf d -> p ∉ map e_ptr (entries d) -> zlen (entries d) + 1 < 2 ^ 60 ->
  (exists d' e es, dictReplace ty cr p d k v = Some (d', 0, dictFreeVal ty e) /\
     has_entry d k e /\ dict_wf d' /\ entries d ≡ₚ e :: es /\
     entries d' ≡ₚ mk_entry (e_ptr e) (e_key e) (dictSetVal ty v) :: es) \/
  (exists d', dictReplace ty cr p d k v = Some (d', 1, []) /\ no_entry d k /\ dict_wf d' /\
     entries d' ≡ₚ mk_entry p (dictSetKey ty k) (dictSetVal ty v) :: entries d).
Proof.
  intros W Hp Hb. unfold dictReplace.
  destruct (dictAddRaw_spec cr p d k W Hp Hb) as [(d' & e & -> & S' & He)|(d' & -> & W' & Hn & P)];
    cbn [mbind option_bind].
  - left. pose proof (proj1 He) as Hin. apply elem_of_Permutation in Hin as (es & P).
    eexists _, e, es. split; [done|]. split_and!; [done|apply store_val_wf, S'|done|].
    rewrite store_val_entries, (proj2 S'), P. cbn.
    pose proof (wf_ptrs _ W) as Hnd. rewrite P in Hnd. cbn in Hnd. apply NoDup_cons in Hnd as [Hni _].
    rewrite map_upd_other by done. unfold upd at 1. by rewrite bool_decide_eq_true_2.
  - right. eexists; split; [done|]. split_and!; [done|by apply store_val_wf|].
    rewrite store_val_entries, P. cbn. rewrite map_upd_other by done.
    unfold upd at 1. cbn. by rewrite bool_decide_eq_true_2.
Qed.

(** ** Deletion *)

Lemma unlink_entry_spec k c :
  match unlink_entry ty k c with
  | Some (e, c') => key_match ty k e = true /\ exists a b, c = a ++ e :: b /\ c' = a ++ b
  | None => forall e, e ∈ c -> key_match ty k e = false
  end.
Proof.
  induction c as [|x c IH]; cbn; [by intros e ?%elem_of_nil|].
  destruct (key_match ty k x) eqn:Hx.
  { split; [done|]. by exists [], c. }
  destruct (unlink_entry ty k c) as [[e c']|]; cbn.
  - destruct IH as (Hm & a & b & -> & ->). split; [done|]. by exists (x :: a), b.
  - intros e [->|He]%elem_of_cons; [done|by apply IH].
Qed.

Lemma delete_in_spec d (tid : nat) t k :
  dict_wf d -> table (ht d tid) = Some t ->
  (exists d' e, delete_in ty d tid k (dictHashKey ty k) = Some (Some (d', e)) /\
     has_entry d k e /\ dict_wf d' /\ e :: entries d' ≡ₚ entries d) \/
  (delete_in ty d tid k (dictHashKey ty k) = Some None /\
     forall e, e ∈ ht_entries (ht d tid) -> key_match ty k e = false).
Proof.
  intros W Ht. unfold delete_in.
  assert (ht_wf (ht d tid)) as Wt by (destruct tid; apply W).
  destruct (bucket_hash _ (dictHashKey ty k) _ Wt Ht) as (c & Hc & -> & _).
  cbn [mbind option_bind]. pose proof (unlink_entry_spec k c) as Hu.
  destruct (unlink_entry ty k c) as [[e c']|].
  2: { right. split; [done|]. by eapply bucket_no_match. }
  destruct Hu as (Hm & a & b & -> & ->). left.
  destruct (update_bucket d tid t (dictHashKey ty k) (a ++ e :: b) (a ++ b))
    as (l1 & l2 & E1 & E2 & Hwf); [done..| | |].
  { apply Forall_forall. intros x Hx. right. set_solver. }
  { intros _ _ ?%(f_equal length). rewrite length_app in *. cbn in *. lia. }
  assert (e :: l1 ++ (a ++ b) ++ l2 ≡ₚ entries d) as P.
  { rewrite E1. rewrite <- !app_assoc. cbn. by rewrite <- !Permutation_middle. }
  assert (has_entry d k e) as Hhas.
  { split; [|done]. rewrite <- P. left. }
  assert (u64 (used (ht d tid) - 1) = used (ht d tid) - zlen (a ++ e :: b) + zlen (a ++ b)) as Hus.
  { rewrite u64_small; [zlen|]. rewrite (ht_wf_used _ Wt).
    assert (e ∈ ht_entries (ht d tid)) as Hin.
    { eapply bucket_elem; [exact Ht|exact Hc|]. apply elem_of_app; right; left. }
    pose proof (wf_bound _ W).
    assert (zlen (ht_entries (ht d tid)) <= zlen (entries d))
      by (unfold entries; destruct tid; cbn [ht]; zlen).
    destruct (ht_entries (ht d tid)); [by apply elem_of_nil in Hin|zlen]. }
  cbn [used set_bucket]. rewrite Hus. eexists _, e. split; [done|]. split_and!; [done| |by rewrite E2].
  apply Hwf. rewrite E2. destruct (wf_entries_ok _ W) as (H1 & H2 & H3).
  rewrite <- P in H1. cbn in H1. apply NoDup_cons in H1 as [_ H1].
  split_and!; [done| |].
  - intros e1 e2 He1 He2. apply H2; rewrite <- P; by right.
  - assert (zlen (entries d) = 1 + zlen (l1 ++ (a ++ b) ++ l2)); [|lia].
    rewrite <- zlen_cons with (x := e). unfold zlen. by rewrite P.
Qed.

Lemma dictGenericDelete_spec d k nofree :
  dict_wf d ->
  (exists d' e, dictGenericDelete ty d k nofree =
     Some (d', Some e, if nofree then [] else dictFreeKey ty e ++ dictFreeVal ty e) /\
     has_entry d k e /\ dict_wf d' /\ e :: entries d' ≡ₚ entries d) \/
  (exists d', dictGenericDelete ty d k nofree = Some (d', None, []) /\
     no_entry d k /\ same_entries d d').
Proof.
  intros W. unfold dictGenericDelete.
  pose proof (wf_ht0 _ W) as W0. pose proof (wf_ht1 _ W) as W1.
  destruct (entries d) as [|x es] eqn:Hes.
  { right. exists d. unfold entries in Hes. apply app_nil in Hes as [H0 H1].
    apply (used_zero_iff _ W0) in H0. apply (used_zero_iff _ W1) in H1. rewrite H0, H1.
    cbn. split_and!; try done. intros e He.
    unfold entries in He. rewrite (proj1 (used_zero_iff _ W0) H0), (proj1 (used_zero_iff _ W1) H1) in He.
    by apply elem_of_nil in He. }
  destruct (_ && _)%bool eqn:E.
  { apply andb_true_iff in E as [E0%Z.eqb_eq E1%Z.eqb_eq].
    apply (used_zero_iff _ W0) in E0. apply (used_zero_iff _ W1) in E1.
    unfold entries in Hes. by rewrite E0, E1 in Hes. }
  rewrite <- Hes. clear E.
  destruct (rehash_step_if_spec d W) as (d1 & -> & S1 & _). cbn [mbind option_bind].
  destruct (entries_table d1) as [t0 Ht0]; [apply S1| |].
  { intros Hn. destruct S1 as [_ P]. rewrite Hn, Hes in P. by apply Permutation_nil_l in P. }
  destruct (delete_in_spec d1 0 t0 k) as [(d2 & e & -> & He & W2 & P2)|(-> & N0)]; [apply S1|done|..];
    cbn [mbind option_bind].
  { left. exists d2, e. split_and!; [done|by apply (same_entries_has _ _ _ _ S1)|done|].
    by rewrite P2, (proj2 S1). }
  cbn [ht] in N0. pose proof (proj1 S1) as Wd1.
  unfold dictIsRehashing. case_if; bool_to_prop.
  { right. exists d1. split_and!; try done. apply (same_entries_no _ _ _ S1).
    intros e [He|He]%elem_of_app; [by apply N0|].
    rewrite (wf_idle _ Wd1) in He by done. by apply elem_of_nil in He. }
  destruct (wf_rehash _ Wd1) as (_ & _ & t1 & _ & Ht1 & _); [done|].
  destruct (delete_in_spec d1 1 t1 k) as [(d2 & e & -> & He & W2 & P2)|(-> & N1)]; [done|done|..];
    cbn [mbind option_bind].
  { left. exists d2, e. split_and!; [done|by apply (same_entries_has _ _ _ _ S1)|done|].
    by rewrite P2, (proj2 S1). }
  right. exists d1. split_and!; try done. apply (same_entries_no _ _ _ S1).
  intros e [He|He]%elem_of_app; [by apply N0|by apply N1].
Qed.

End Facts.
