(* ===== verification/DictScan.v ===== *)
(** * Hash tables: the stateless scan

    [dictScan] keeps nothing but a cursor between two calls, and the table may
    be resized or be in the middle of a rehashing at each of them. The proof
    follows the idea of the algorithm: in the order of the reversed bits, a
    bucket of a table of [2 ^ k] buckets is an interval of [2 ^ (64 - k)]
    hashes, whatever [k], and a call moves the cursor to the end of the interval
    it is in. *)

From stdpp Require Import base list option gmap.
From Stdlib Require Import ZArith Lia Bool.
From S2P Require Import Prelude Dict DictFacts.

Local Open Scope Z_scope.

(** ** [rev] reverses the 64 bits *)

Definition rev_step (s mask v : Z) : Z :=
  Z.lor (Z.land (Z.shiftr v s) mask) (Z.land (u64 (Z.shiftl v s)) (not64 mask)).

(** The masks of the successive rounds: bit [i] is set iff [i] has not bit [s]. *)
Definition mask_ok (s mask : Z) : bool :=
  forallb (fun i => Bool.eqb (Z.testbit mask (Z.of_nat i)) (Z.land (Z.of_nat i) s =? 0) &&
                    (Z.lxor (Z.of_nat i) s =? if Z.land (Z.of_nat i) s =? 0
                                              then Z.of_nat i + s else Z.of_nat i - s))
    (seq 0 64).

Lemma forallb_seq64 (f : nat -> bool) i :
  forallb f (seq 0 64) = true -> 0 <= i < 64 -> f (Z.to_nat i) = true.
Proof.
  intros H Hi. rewrite forallb_forall in H. apply H. apply in_seq. lia.
Qed.

Lemma not64_testbit m i : 0 <= i < 64 -> Z.testbit (not64 m) i = negb (Z.testbit m i).
Proof.
  intros. unfold not64, wrap. rewrite Z.mod_pow2_bits_low by lia. apply Z.lnot_spec; lia.
Qed.

Lemma rev_step_testbit s mask v i :
  mask_ok s mask = true -> 0 < s -> 0 <= i < 64 ->
  Z.testbit (rev_step s mask v) i = Z.testbit v (Z.lxor i s).
Proof.
  intros Hm Hs Hi. pose proof (forallb_seq64 _ i Hm Hi) as H. cbn beta in H.
  rewrite Z2Nat.id in H by lia. apply andb_true_iff in H as [H1%Bool.eqb_prop H2%Z.eqb_eq].
  unfold rev_step. rewrite Z.lor_spec, !Z.land_spec, not64_testbit, H1, H2 by lia.
  rewrite Z.shiftr_spec by lia.
  unfold wrap. rewrite Z.mod_pow2_bits_low, Z.shiftl_spec by lia.
  destruct (Z.land i s =? 0); cbn; rewrite ?andb_true_r, ?andb_false_r, ?orb_false_r; done.
Qed.

Lemma rev_loop_step fuel s mask v s' mask' :
  Z.shiftr s 1 = s' -> 0 <? s' = true -> Z.lxor mask (u64 (Z.shiftl mask s')) = mask' ->
  rev_loop (S fuel) s mask v = rev_loop fuel s' mask' (rev_step s' mask' v).
Proof. intros <- H <-. cbn [rev_loop]. by rewrite H. Qed.

(** The masks the loop computes. *)
Definition rev_masks : list (Z * Z) :=
  [(32, 0x00000000ffffffff); (16, 0x0000ffff0000ffff); (8, 0x00ff00ff00ff00ff); (4, 0x0f0f0f0f0f0f0f0f); (2, 0x3333333333333333); (1, 0x5555555555555555)].

Lemma rev_masks_ok : forallb (fun '(s, m) => mask_ok s m && (0 <=? m) && (m <? 2 ^ 64)) rev_masks = true.
Proof. vm_compute. reflexivity. Qed.

Lemma rev_unfold v : rev v = foldl (fun v '(s, m) => rev_step s m v) v rev_masks.
Proof.
  unfold rev, rev_masks; cbn [foldl].
  rewrite (rev_loop_step 6 64 (not64 0) _ 32 0x00000000ffffffff) by (vm_compute; reflexivity).
  rewrite (rev_loop_step 5 32 0x00000000ffffffff _ 16 0x0000ffff0000ffff) by (vm_compute; reflexivity).
  rewrite (rev_loop_step 4 16 0x0000ffff0000ffff _ 8 0x00ff00ff00ff00ff) by (vm_compute; reflexivity).
  rewrite (rev_loop_step 3 8 0x00ff00ff00ff00ff _ 4 0x0f0f0f0f0f0f0f0f) by (vm_compute; reflexivity).
  rewrite (rev_loop_step 2 4 0x0f0f0f0f0f0f0f0f _ 2 0x3333333333333333) by (vm_compute; reflexivity).
  rewrite (rev_loop_step 1 2 0x3333333333333333 _ 1 0x5555555555555555) by (vm_compute; reflexivity).
  reflexivity.
Qed.

Lemma rev_testbit v i : 0 <= i < 64 -> Z.testbit (rev v) i = Z.testbit v (63 - i).
Proof.
  intros Hi. rewrite rev_unfold. pose proof rev_masks_ok as H. unfold rev_masks in *.
  cbn [forallb foldl] in *. bool_to_prop.
  assert (forall s m w j, mask_ok s m = true -> 0 < s < 64 -> 0 <= j < 64 ->
    Z.testbit (rev_step s m w) j = Z.testbit w (Z.lxor j s) /\ 0 <= Z.lxor j s < 64) as Hstep.
  { intros s m w j Hm Hs Hj. split; [by apply rev_step_testbit; [..|lia|]|].
    split; [apply Z.lxor_nonneg; lia|].
    assert (0 <= Z.lxor j s) by (apply Z.lxor_nonneg; lia).
    destruct (Z.eq_dec (Z.lxor j s) 0) as [->|]; [lia|].
    change 64 with (2 ^ 6). apply Z.log2_lt_pow2; [lia|].
    eapply Z.le_lt_trans; [apply Z.log2_lxor; lia|].
    apply Z.max_lub_lt; [|apply Z.log2_lt_pow2; lia].
    destruct (Z.eq_dec j 0) as [->|]; [cbn; lia|apply Z.log2_lt_pow2; lia]. }
  repeat (match goal with
  | |- context [Z.testbit (rev_step ?s ?m ?w) ?j] =>
      destruct (Hstep s m w j) as [-> ?]; [done|lia|lia|]
  end).
  f_equal. pose proof (forallb_seq64 (fun i =>
    Z.lxor (Z.lxor (Z.lxor (Z.lxor (Z.lxor (Z.lxor (Z.of_nat i) 1) 2) 4) 8) 16) 32 =?
    63 - Z.of_nat i) i ltac:(vm_compute; reflexivity) Hi) as H'.
  cbn beta in H'. rewrite Z2Nat.id in H' by lia. by apply Z.eqb_eq.
Qed.

Lemma rev_step_range s mask v :
  0 <= s -> 0 <= mask < 2 ^ 64 -> 0 <= rev_step s mask v < 2 ^ 64.
Proof.
  intros. unfold rev_step. rewrite <- (Z.mod_small mask (2 ^ 64)) by lia.
  rewrite <- !Z.land_ones, Z.land_assoc by lia.
  unfold not64, wrap. rewrite <- !Z.land_ones by lia.
  rewrite Z.land_assoc, <- Z.land_lor_distr_l, Z.land_ones by lia.
  apply Z.mod_pos_bound. lia.
Qed.

Lemma rev_range v : 0 <= rev v < 2 ^ 64.
Proof.
  rewrite rev_unfold. unfold rev_masks. cbn [foldl]. apply rev_step_range; lia.
Qed.

Local Opaque rev.

Lemma rev_rev v : 0 <= v < 2 ^ 64 -> rev (rev v) = v.
Proof.
  intros Hv. apply (word_ext 64); [lia|apply rev_range|done|].
  intros i Hi. rewrite !rev_testbit by lia. f_equal. lia.
Qed.

(** ** Buckets are intervals of the reversed order *)

Lemma same_bucket_rev k h v :
  0 <= k <= 64 ->
  Z.land h (2 ^ k - 1) = Z.land v (2 ^ k - 1) <->
  rev h / 2 ^ (64 - k) = rev v / 2 ^ (64 - k).
Proof.
  intros Hk. rewrite !land_mask by lia.
  assert (forall x i, 0 <= i < k -> Z.testbit (x mod 2 ^ k) i = Z.testbit (rev x / 2 ^ (64 - k)) (k - 1 - i)) as HA.
  { intros x i Hi. rewrite Z.mod_pow2_bits_low, Z.div_pow2_bits, rev_testbit by lia. f_equal. lia. }
  assert (forall x, 0 <= rev x / 2 ^ (64 - k) < 2 ^ k) as HR.
  { intros x. pose proof (rev_range x). split; [apply Z.div_pos; lia|].
    apply Z.div_lt_upper_bound; [lia|]. rewrite <- Z.pow_add_r by lia.
    replace (64 - k + k) with 64 by lia. lia. }
  split; intros E; apply (word_ext k); try lia; try apply HR; try (apply Z.mod_pos_bound; lia).
  - intros i Hi. replace i with (k - 1 - (k - 1 - i)) by lia.
    rewrite <- !HA by lia. by rewrite E.
  - intros i Hi. rewrite !HA by lia. by rewrite E.
Qed.

(** The end of the interval of [2 ^ (64 - k)] hashes that contains [r]. *)
Definition interval_end (k r : Z) : Z := (r / 2 ^ (64 - k) + 1) * 2 ^ (64 - k).

Lemma rev_lor_mask v k :
  0 <= v -> 0 <= k <= 64 ->
  rev (Z.lor v (not64 (2 ^ k - 1))) = rev v / 2 ^ (64 - k) * 2 ^ (64 - k) + (2 ^ (64 - k) - 1).
Proof.
  intros Hv Hk. pose proof (rev_range v).
  assert (2 ^ 64 = 2 ^ k * 2 ^ (64 - k)) as E64.
  { rewrite <- Z.pow_add_r by lia. f_equal. lia. }
  assert (0 <= rev v / 2 ^ (64 - k) < 2 ^ k) as Hq.
  { split; [apply Z.div_pos; lia|]. apply Z.div_lt_upper_bound; lia. }
  apply (word_ext 64); [lia|apply rev_range|nia|].
  intros i Hi. rewrite testbit_split, rev_testbit, Z.lor_spec, not64_testbit by lia.
  rewrite !testbit_ones by lia.
  destruct (Z.ltb_spec i (64 - k)), (Z.ltb_spec (63 - i) k); try lia; cbn [negb].
  rewrite orb_false_r, Z.div_pow2_bits, rev_testbit by lia. f_equal. lia.
Qed.

Lemma rev_scan_next v k :
  0 <= v -> 0 <= k <= 64 -> rev (scan_next v (2 ^ k - 1)) = u64 (interval_end k (rev v)).
Proof.
  intros Hv Hk. unfold scan_next. rewrite rev_rev by (apply wrap_range; lia).
  rewrite rev_lor_mask by done. f_equal. unfold interval_end. lia.
Qed.

Lemma scan_next_range v m : 0 <= scan_next v m < 2 ^ 64.
Proof. apply rev_range. Qed.

(** The condition on which the loop over the larger table ends. *)
Lemma land_masks_rev v k0 k1 :
  0 <= v -> 0 <= k0 <= k1 -> k1 <= 64 -> rev v mod 2 ^ (64 - k1) = 0 ->
  Z.land v (Z.lxor (2 ^ k0 - 1) (2 ^ k1 - 1)) = 0 <-> rev v mod 2 ^ (64 - k0) = 0.
Proof.
  intros Hv Hk0 Hk1 Hlow.
  assert (forall j, 0 <= j < 64 - k1 -> Z.testbit (rev v) j = false) as Hl.
  { intros j Hj. rewrite <- (Z.mod_pow2_bits_low _ (64 - k1)) by lia.
    by rewrite Hlow, Z.testbit_0_l. }
  split; intros H.
  - apply (word_ext (64 - k0)); [lia|apply Z.mod_pos_bound; lia|lia|].
    intros i Hi. rewrite Z.testbit_0_l, Z.mod_pow2_bits_low by lia.
    destruct (Z.lt_ge_cases i (64 - k1)); [apply Hl; lia|].
    rewrite rev_testbit by lia. apply (f_equal (fun x => Z.testbit x (63 - i))) in H.
    rewrite Z.land_spec, Z.lxor_spec, !testbit_ones, Z.testbit_0_l in H by lia.
    destruct (Z.ltb_spec (63 - i) k0), (Z.ltb_spec (63 - i) k1); try lia.
    by rewrite andb_true_r in H.
  - apply Z.bits_inj'. intros i Hi. rewrite Z.land_spec, Z.lxor_spec, !testbit_ones, Z.testbit_0_l by lia.
    destruct (Z.ltb_spec i k0), (Z.ltb_spec i k1); try lia; cbn; rewrite ?andb_false_r; try done.
    apply (f_equal (fun x => Z.testbit x (63 - i))) in H.
    rewrite Z.mod_pow2_bits_low, rev_testbit, Z.testbit_0_l in H by lia.
    rewrite andb_true_r. rewrite <- H. f_equal. lia.
Qed.

(** ** One call *)

(** Arithmetic of nested intervals: stepping by [2 ^ (64 - k1)] inside an
    interval of [2 ^ (64 - k0)]. *)
Lemma interval_step k0 k1 r :
  0 <= k0 <= k1 -> k1 <= 64 -> 0 <= r < 2 ^ 64 ->
  interval_end k1 r <= interval_end k0 r <= 2 ^ 64 /\ r < interval_end k1 r /\
  interval_end k1 r mod 2 ^ (64 - k1) = 0 /\
  (interval_end k1 r < interval_end k0 r ->
   interval_end k1 r / 2 ^ (64 - k0) = r / 2 ^ (64 - k0) /\
   interval_end k1 r mod 2 ^ (64 - k0) <> 0) /\
  interval_end k0 r mod 2 ^ (64 - k0) = 0.
Proof.
  intros Hk0 Hk1 Hr. unfold interval_end.
  set (A := 2 ^ (64 - k1)). set (n := 2 ^ (k1 - k0)). set (m := 2 ^ k0).
  assert (2 ^ (64 - k0) = A * n) as ->.
  { unfold A, n. rewrite <- Z.pow_add_r by lia. f_equal. lia. }
  assert (2 ^ 64 = A * n * m) as E64.
  { unfold A, n, m. rewrite <- !Z.pow_add_r by lia. f_equal. lia. }
  assert (0 < A) by (unfold A; lia). assert (0 < n) by (unfold n; lia).
  assert (0 < m) by (unfold m; lia). rewrite E64 in Hr. rewrite E64. clear E64.
  rewrite <- Z.div_div by lia.
  set (q := r / A). set (Q := q / n).
  assert (r = A * q + r mod A) by (apply Z.div_mod; lia).
  pose proof (Z.mod_pos_bound r A ltac:(lia)).
  assert (q = n * Q + q mod n) as Eq by (apply Z.div_mod; lia).
  pose proof (Z.mod_pos_bound q n ltac:(lia)).
  assert (Q < m) by (apply Z.div_lt_upper_bound, Z.div_lt_upper_bound; lia).
  assert (q + 1 <= (Q + 1) * n) by lia.
  split_and!; [|nia|lia| |intros Hlt; split|].
  - replace ((Q + 1) * (A * n)) with ((Q + 1) * n * A) by lia. by apply Z.mul_le_mono_nonneg_r; [lia|].
  - rewrite Z.mod_mul; lia.
  - symmetry. apply (Z.div_unique _ _ _ ((q mod n + 1) * A)); [|nia]. left. nia.
  - rewrite Z.mul_comm, Z.mul_mod_distr_l by lia.
    enough ((q + 1) mod n = q mod n + 1) by nia.
    symmetry. apply (Z.mod_unique _ _ Q); [left|]; nia.
  - rewrite Z.mod_mul; lia.
Qed.

Lemma interval_end_end k r : k <= 64 -> interval_end k (interval_end k r) = interval_end k r + 2 ^ (64 - k).
Proof. intros. unfold interval_end. rewrite Z.div_mul by lia. lia. Qed.

Section Scan.
Context {K V : Type} `{!EqDecision K} (ty : dictType K V) `{!DictTypeOk ty}.

Implicit Types (d : dict K V) (e : dictEntry K V).
Implicit Types (out : list (scan_event K V)).

(** The place of an entry in the reversed order. *)
Definition pos e : Z := rev (dictHashKey ty (e_key e)).

(** [out] contains the entries of [es] placed in the interval, and no other
    entries than those of [es]. *)
Definition covers (es : list (dictEntry K V)) (lo hi : Z) out : Prop :=
  (forall e, e ∈ es -> lo <= pos e < hi -> ScanEntry e ∈ out) /\
  (forall e, ScanEntry e ∈ out -> e ∈ es).

Lemma covers_app es es' lo hi out out' :
  covers es lo hi out -> covers es' lo hi out' -> covers (es ++ es') lo hi (out ++ out').
Proof. intros [H1 H2] [H3 H4]. split; set_solver. Qed.

Lemma covers_comm es es' lo hi out :
  covers (es ++ es') lo hi out -> covers (es' ++ es) lo hi out.
Proof. intros [H1 H2]. split; set_solver. Qed.

Lemma covers_concat es lo mid hi out out' :
  covers es lo mid out -> covers es mid hi out' -> covers es lo hi (out ++ out').
Proof.
  intros [H1 H2] [H3 H4]. split; [|set_solver].
  intros e He Hp. destruct (Z.lt_ge_cases (pos e) mid); set_solver by lia.
Qed.

Lemma covers_narrow es lo lo' hi out : lo <= lo' -> covers es lo hi out -> covers es lo' hi out.
Proof. intros ? [H1 H2]. split; [|done]. intros e He Hp. apply H1; [done|lia]. Qed.

(** A table with its mask. *)
Lemma ht_wf_mask h t :
  ht_wf ty h -> table h = Some t ->
  exists k, 2 <= k <= 60 /\ ht_size h = 2 ^ k /\ sizemask h = 2 ^ k - 1.
Proof. intros [|t' n Hn Hl Hp] Ht; [done|]. by exists n. Qed.

Lemma emit_bucket_spec bf d tid t v k :
  ht_wf ty (ht d tid) -> table (ht d tid) = Some t ->
  2 <= k <= 60 -> sizemask (ht d tid) = 2 ^ k - 1 ->
  exists ev, emit_bucket bf d tid (Z.land v (2 ^ k - 1)) = Some ev /\
    covers (ht_entries (ht d tid)) (rev v) (interval_end k (rev v)) ev.
Proof.
  intros W Ht Hk Hm. unfold emit_bucket.
  destruct (bucket_hash ty _ v _ W Ht) as (c & Hc & Hb & _). rewrite Hm in Hc, Hb. rewrite Hb.
  cbn [mbind option_bind]. eexists. split; [done|].
  assert (forall x, ScanEntry x ∈ (if bf then [ScanBucket tid (Z.land v (2 ^ k - 1))] else []) ++
            map ScanEntry c <-> x ∈ c) as Hev.
  { intros x. rewrite elem_of_app, list_elem_of_fmap. destruct bf; set_solver. }
  split; intros e; rewrite Hev.
  - intros He Hp. apply (elem_of_ht_entries ty _ _ _ W Ht) in He as (c' & Hc' & He).
    rewrite Hm in Hc'. rewrite (proj2 (same_bucket_rev k _ v ltac:(lia))) in Hc'.
    { by simplify_eq. }
    fold (pos e). unfold interval_end in Hp. pose proof (rev_range v).
    apply Z.le_antisymm; [|apply Z.div_le_mono; lia].
    apply Z.lt_succ_r. apply Z.div_lt_upper_bound; lia.
  - intros He. unfold ht_entries. rewrite Ht. cbn. apply elem_of_concat. eauto.
Qed.

Lemma scan_expand_spec bf d tid t k0 k1 :
  ht_wf ty (ht d tid) -> table (ht d tid) = Some t ->
  2 <= k0 <= k1 -> k1 <= 60 -> sizemask (ht d tid) = 2 ^ k1 - 1 ->
  forall fuel v out, 0 <= v < 2 ^ 64 ->
  interval_end k0 (rev v) - interval_end k1 (rev v) < Z.of_nat fuel * 2 ^ (64 - k1) ->
  exists v' out', scan_expand fuel bf d tid (2 ^ k0 - 1) (2 ^ k1 - 1) v out = Some (v', out ++ out') /\
    0 <= v' < 2 ^ 64 /\ rev v' = u64 (interval_end k0 (rev v)) /\
    covers (ht_entries (ht d tid)) (rev v) (interval_end k0 (rev v)) out'.
Proof.
  intros W Ht Hk0 Hk1 Hm. induction fuel as [|fuel IH]; intros v out Hv Hf.
  { pose proof (rev_range v).
    destruct (interval_step k0 k1 (rev v)) as (? & ? & _); [lia..|]. lia. }
  cbn [scan_expand].
  destruct (emit_bucket_spec bf d tid t v k1) as (ev & -> & Hev); [done|done|lia|done|].
  cbn [mbind option_bind]. pose proof (rev_range v).
  destruct (interval_step k0 k1 (rev v)) as (He1 & He2 & He3 & He4 & He5); [lia..|].
  set (v2 := scan_next v (2 ^ k1 - 1)).
  assert (rev v2 = u64 (interval_end k1 (rev v))) as Hr2 by (apply rev_scan_next; lia).
  assert (0 <= v2 < 2 ^ 64) as Hv2 by apply scan_next_range.
  assert (rev v2 mod 2 ^ (64 - k1) = 0) as Hlow.
  { rewrite Hr2. unfold wrap. rewrite <- He3.
    symmetry. apply Znumtheory.Zmod_div_mod; [lia|lia|]. exists (2 ^ k1).
    rewrite <- Z.pow_add_r by lia. f_equal. lia. }
  pose proof (land_masks_rev v2 k0 k1 ltac:(lia) ltac:(lia) ltac:(lia) Hlow) as Hend.
  destruct (Z.eq_dec (interval_end k1 (rev v)) (interval_end k0 (rev v))) as [Eq|Ne].
  - rewrite (proj2 (Z.eqb_eq _ _)).
    { exists v2, ev. split_and!; [done|lia|lia|by rewrite Hr2, Eq|by rewrite <- Eq]. }
    apply Hend. rewrite Hr2, Eq. unfold wrap. rewrite <- He5.
    symmetry. apply Znumtheory.Zmod_div_mod; [lia|lia|]. exists (2 ^ k0).
    rewrite <- Z.pow_add_r by lia. f_equal. lia.
  - destruct He4 as [He4 He6]; [lia|].
    rewrite (wrap_small 64) in Hr2 by lia.
    rewrite (proj2 (Z.eqb_neq _ _)) by (rewrite Hend, Hr2; done).
    assert (interval_end k0 (rev v2) = interval_end k0 (rev v)) as E0.
    { unfold interval_end at 1 2. by rewrite Hr2, He4. }
    destruct (IH v2 (out ++ ev)) as (v' & out' & -> & Hv' & Hr' & Hc').
    { done. } { rewrite E0, Hr2, interval_end_end by lia. lia. }
    exists v', (ev ++ out'). rewrite app_assoc. split_and!; [done|lia|lia|by rewrite Hr', E0|].
    rewrite E0 in Hc'. rewrite Hr2 in Hc'. by eapply covers_concat.
Qed.

(** The two tables during a rehashing: [a] is the smaller one. *)
Lemma scan_tables_spec bf d a b ta tb ka kb v :
  table (ht d a) = Some ta -> table (ht d b) = Some tb ->
  ht_wf ty (ht d a) -> ht_wf ty (ht d b) ->
  sizemask (ht d a) = 2 ^ ka - 1 -> sizemask (ht d b) = 2 ^ kb - 1 -> ht_size (ht d b) = 2 ^ kb ->
  2 <= ka <= kb -> kb <= 60 -> 0 <= v < 2 ^ 64 ->
  exists ev v' out,
    emit_bucket bf d a (Z.land v (sizemask (ht d a))) = Some ev /\
    scan_expand (Z.to_nat (ht_size (ht d b))) bf d b (sizemask (ht d a)) (sizemask (ht d b)) v ev =
      Some (v', out) /\
    0 <= v' < 2 ^ 64 /\ rev v' = u64 (interval_end ka (rev v)) /\
    covers (ht_entries (ht d a) ++ ht_entries (ht d b)) (rev v) (interval_end ka (rev v)) out.
Proof.
  intros Hta Htb Wa Wb Hma Hmb Hsb Hk Hkb Hv. rewrite Hma, Hmb, Hsb.
  destruct (emit_bucket_spec bf d a ta v ka) as (ev & -> & Hev); [done|done|lia|done|].
  destruct (scan_expand_spec bf d b tb ka kb)
    with (fuel := Z.to_nat (2 ^ kb)) (v := v) (out := ev)
    as (v' & out' & Hse & Hv' & Hr' & Hc'); [done|done|lia|lia|done|done| |].
  { pose proof (rev_range v). destruct (interval_step ka kb (rev v)) as (? & ? & _); [lia..|].
    rewrite Z2Nat.id, <- Z.pow_add_r by lia. replace (kb + (64 - kb)) with 64 by lia. lia. }
  eexists _, _, _. split; [done|]. split_and!; [exact Hse|lia|lia|done|by apply covers_app].
Qed.

(** What a call does: nothing on an empty dictionary, else cover the interval
    from the cursor to the end of the bucket of the smaller table. *)
Lemma dictScan_spec bf d v :
  dict_wf ty d -> 0 <= v < 2 ^ 64 ->
  exists d' v' out, dictScan bf d v = Some (d', v', out) /\ 0 <= v' < 2 ^ 64 /\
    entries d' = entries d /\
    ((entries d = [] /\ v' = 0 /\ out = []) \/
     exists k, 2 <= k <= 60 /\ 2 ^ k <= ht_size (ht0 d) /\
       rev v' = u64 (interval_end k (rev v)) /\
       covers (entries d) (rev v) (interval_end k (rev v)) out).
Proof.
  intros W Hv. unfold dictScan. rewrite (dictSize_spec ty d W). case_if.
  { exists d, 0, []. split_and!; try done. left. split_and!; try done.
    destruct (entries d); [done|]. revert E. zlen. }
  destruct (entries_table ty d W) as [t0 Ht0]; [intros Hn; by rewrite Hn in E|]. clear E.
  pose proof (wf_ht0 _ _ W) as W0. pose proof (wf_ht1 _ _ W) as W1.
  destruct (ht_wf_mask _ _ W0 Ht0) as (k0 & Hk0 & Hs0 & Hm0).
  change (dictIsRehashing (dictPauseRehashing d)) with (dictIsRehashing d).
  unfold dictIsRehashing. case_if; bool_to_prop.
  { change (sizemask (ht0 (dictPauseRehashing d))) with (sizemask (ht0 d)). rewrite Hm0.
    destruct (emit_bucket_spec bf (dictPauseRehashing d) 0 t0 v k0) as (ev & -> & Hev); [done..|].
    cbn [mbind option_bind]. eexists _, _, ev. split; [done|]. split_and!; [apply scan_next_range..|done|].
    right. exists k0. split_and!; [lia..|apply rev_scan_next; lia|].
    cbn in Hev. unfold entries. rewrite (wf_idle _ _ W) by done.
    change (ht_entries _dictReset) with (@nil (dictEntry K V)). by rewrite app_nil_r. }
  destruct (wf_rehash _ _ W E) as (_ & _ & t1 & _ & Ht1 & _).
  destruct (ht_wf_mask _ _ W1 Ht1) as (k1 & Hk1 & Hs1 & Hm1).
  change (ht_size (ht1 (dictPauseRehashing d))) with (ht_size (ht1 d)).
  change (ht_size (ht0 (dictPauseRehashing d))) with (ht_size (ht0 d)).
  case_if.
  - destruct (scan_tables_spec bf (dictPauseRehashing d) 1 0 t1 t0 k1 k0 v)
      as (ev & v' & out & H1 & H2 & Hv' & Hr & Hc); try done.
    { rewrite Hs0, Hs1 in E0. apply Z.pow_lt_mono_r_iff in E0; lia. } { lia. }
    rewrite H1. cbn [mbind option_bind]. rewrite H2. eexists _, _, _. split; [done|]. split_and!; [lia|lia|done|]. right. exists k1.
    split_and!; [lia|lia|lia|done|by apply covers_comm].
  - destruct (scan_tables_spec bf (dictPauseRehashing d) 0 1 t0 t1 k0 k1 v)
      as (ev & v' & out & H1 & H2 & Hv' & Hr & Hc); try done.
    { rewrite Hs0, Hs1 in E0. apply Z.pow_le_mono_r_iff in E0; lia. } { lia. }
    rewrite H1. cbn [mbind option_bind]. rewrite H2. eexists _, _, _. split; [done|]. split_and!; [lia|lia|done|]. right. exists k0.
    split_and!; [lia|lia|lia|done|done].
Qed.

(** ** A whole iteration

    A client calls [dictScan] from the cursor 0 until it gets 0 back; [ds] are
    the states of the dictionary it meets, call after call. *)
Fixpoint scan_session (bf : bool) (ds : list (dict K V)) (v : Z) : option (list (scan_event K V)) :=
  match ds with
  | [] => None
  | d :: ds' =>
      '(_, v', out) ← dictScan bf d v;
      if v' =? 0 then Some out
      else outs ← scan_session bf ds' v'; Some (out ++ outs)
  end.

Lemma rev_0 : rev 0 = 0.
Proof. vm_compute. reflexivity. Qed.

Lemma scan_session_covers bf ds v out k :
  Forall (dict_wf ty) ds -> 0 <= v < 2 ^ 64 ->
  Forall (fun d => exists e, has_entry ty d k e) ds ->
  rev v <= rev (dictHashKey ty k) ->
  scan_session bf ds v = Some out ->
  exists e, (ScanEntry e ∈ out) /\ key_match ty k e = true.
Proof.
  intros W. revert v out. induction W as [|d ds Wd W IH]; intros v out Hv Hk Hle; [done|].
  apply Forall_cons in Hk as [(e & He & Hm) Hk]. cbn [scan_session].
  destruct (dictScan_spec bf d v Wd Hv)
    as (d' & v' & ev & -> & Hv' & _ & [(Hn & _)|(n & Hn & _ & Hr & Hc)]).
  { rewrite Hn in He. by apply elem_of_nil in He. }
  cbn [mbind option_bind]. intros Hs.
  assert (pos e = rev (dictHashKey ty k)) as Hpos.
  { unfold pos. by rewrite (key_match_hash ty k e). }
  destruct (Z.lt_ge_cases (pos e) (interval_end n (rev v))) as [Hlt|Hge].
  { exists e. split; [|done]. assert (ScanEntry e ∈ ev) by (apply Hc; [done|lia]).
    case_if_in Hs; [by simplify_eq|]. destruct (scan_session bf ds v'); cbn in Hs; set_solver. }
  pose proof (rev_range v). pose proof (rev_range (dictHashKey ty k)).
  destruct (interval_step n n (rev v)) as (_ & ? & _); [lia..|].
  rewrite u64_small in Hr by lia. case_if_in Hs.
  { subst v'. rewrite rev_0 in Hr. lia. }
  destruct (scan_session bf ds v') as [outs|] eqn:Hs'; cbn in Hs; [|done]. simplify_eq.
  destruct (IH v' outs) as (e' & He' & Hm'); [done|done|lia|done|].
  exists e'. split; [|done]. apply elem_of_app. by right.
Qed.

Lemma scan_session_terminates bf ds v n :
  2 <= n <= 60 -> Forall (fun d => dict_wf ty d /\ ht_size (ht0 d) <= 2 ^ n) ds ->
  0 <= v < 2 ^ 64 -> rev v mod 2 ^ (64 - n) = 0 ->
  2 ^ 64 - rev v <= zlen ds * 2 ^ (64 - n) ->
  exists out, scan_session bf ds v = Some out.
Proof.
  intros Hn W. revert v. induction W as [|d ds [Wd Hsz] W IH]; intros v Hv Hm Hlen.
  { pose proof (rev_range v). change (zlen []) with 0 in Hlen. lia. }
  cbn [scan_session].
  destruct (dictScan_spec bf d v Wd Hv)
    as (d' & v' & ev & -> & Hv' & _ & [(_ & -> & _)|(k & Hk & Hk2 & Hr & Hc)]).
  { by eexists. }
  cbn [mbind option_bind]. case_if; [by eexists|].
  assert (k <= n) by (apply (Z.pow_le_mono_r_iff 2); lia).
  pose proof (rev_range v).
  destruct (interval_step k n (rev v)) as (H1 & H2 & H3 & _ & H5); [lia..|].
  assert (interval_end n (rev v) = rev v + 2 ^ (64 - n)) as Hen.
  { unfold interval_end. pose proof (Z.div_mod (rev v) (2 ^ (64 - n)) ltac:(lia)). lia. }
  assert (interval_end k (rev v) < 2 ^ 64) as Hlt.
  { destruct (Z.eq_dec (interval_end k (rev v)) (2 ^ 64)) as [E64|]; [|lia].
    rewrite E64 in Hr. change (u64 (2 ^ 64)) with 0 in Hr.
    apply (f_equal rev) in Hr. rewrite rev_rev, rev_0 in Hr by done. done. }
  rewrite u64_small in Hr by lia.
  destruct (IH v') as [out ->]; [done| | |by eexists].
  - rewrite Hr. unfold interval_end.
    replace (2 ^ (64 - k)) with (2 ^ (n - k) * 2 ^ (64 - n)) at 2
      by (rewrite <- Z.pow_add_r by lia; f_equal; lia).
    rewrite Z.mul_assoc. apply Z.mod_mul. lia.
  - rewrite Hr. revert Hlen. rewrite zlen_cons. nia.
Qed.

End Scan.
