(* ===== verification/DictProps.v ===== *)
(** * Hash tables: the theorems

    What a client of [dict.c] relies on, stated of the operations of [Dict], and
    a dictionary of integer keys on which the statements are instantiated. *)

From stdpp Require Import base list option gmap.
From Stdlib Require Import ZArith Lia Bool.
From S2P Require Import Prelude Dict DictFacts DictScan.

Local Open Scope Z_scope.

(** ** A concrete dictionary

    Keys are integers hashed to themselves, in the middle of a rehashing from 4
    to 8 buckets. *)

Definition int_type : dictType Z Z :=
  mk_type Z Z (fun k => k mod 2 ^ 64) None None None false true None.

#[export] Instance int_type_ok : DictTypeOk int_type.
Proof.
  assert (forall a b, keys_match int_type a b = true <-> a = b) as H.
  { intros a b. unfold keys_match, dictCompareKeys; cbn.
    rewrite orb_diag. apply bool_decide_eq_true. }
  split.
  - intros a b. rewrite !H. congruence.
  - intros a b c. rewrite !H. congruence.
  - intros a b. rewrite H. congruence.
  - intros k. cbn. apply Z.mod_pos_bound. lia.
  - intros k. by rewrite H.
Qed.

(** Insert bindings one after the other, at increasing addresses. *)
Fixpoint dict_of (p : positive) (d : dict Z Z) (kvs : list (Z * Z)) : option (dict Z Z) :=
  match kvs with
  | [] => Some d
  | (k, v) :: kvs' => '(d, _) ← dictAdd int_type true p d k v; dict_of (Pos.succ p) d kvs'
  end.

Lemma dictCreate_wf {K V} `{!EqDecision K} (ty : dictType K V) : dict_wf ty dictCreate.
Proof.
  split; try constructor; try done.
  - intros e1 e2 ?%elem_of_nil. done.
Qed.

Lemma dict_of_wf kvs p d d' :
  dict_wf int_type d -> (forall q, q ∈ map e_ptr (entries d) -> (q < p)%positive) ->
  zlen (entries d) + zlen kvs < 2 ^ 60 -> dict_of p d kvs = Some d' -> dict_wf int_type d'.
Proof.
  revert p d; induction kvs as [|[k v] kvs IH]; intros p d W Hp Hz; cbn [dict_of].
  { congruence. }
  rewrite zlen_cons in Hz. pose proof (Zle_0_nat (length kvs)) as Hpos. fold (zlen kvs) in Hpos.
  destruct (dictAdd_spec int_type true p d k v W) as [(d1 & e & -> & [W1 P] & _)|(d1 & -> & _ & W1 & P)].
  { intros Hin%Hp. lia. } { lia. }
  - cbn [mbind option_bind]. apply IH; [done| |].
    + intros q. rewrite P. intros ?%Hp. lia.
    + unfold zlen in *. rewrite P. lia.
  - cbn [mbind option_bind]. apply IH; [done| |].
    + intros q. rewrite P. cbn. intros [->|?%Hp]%elem_of_cons; lia.
    + unfold zlen in *. rewrite P. cbn. lia.
Qed.

(** A dictionary under rehashing, with 1..5 bound to their tens. *)
Definition demo : dict Z Z :=
  Eval vm_compute in
    default dictCreate (dict_of 1 dictCreate [(1, 10); (5, 50); (9, 90); (2, 20); (3, 30)]).

Lemma demo_wf : dict_wf int_type demo.
Proof.
  apply (dict_of_wf [(1, 10); (5, 50); (9, 90); (2, 20); (3, 30)] 1 dictCreate).
  - apply dictCreate_wf.
  - intros q ?%elem_of_nil. done.
  - vm_compute. reflexivity.
  - vm_compute. reflexivity.
Qed.

Lemma demo_fresh : (9%positive : positive) ∉ map e_ptr (entries demo).
Proof. vm_compute. intros H. repeat (inversion H as [|? ? ? H']; subst; clear H; rename H' into H). Qed.

Section Props.
Context {K V : Type} `{!EqDecision K} (ty : dictType K V) `{!DictTypeOk ty}.

(** C5. Stateless iteration. A client calls [dictScan] from cursor 0 until it
    gets cursor 0 back; between two calls the dictionary may be changed in any
    way, resized up or down and rehashed. Every key that is in the dictionary at
    each call is returned at least once. *)
Theorem dictScan_complete bf (ds : list (dict K V)) (k : K) out :
  Forall (dict_wf ty) ds ->
  Forall (fun d => exists e, has_entry ty d k e) ds ->
  scan_session bf ds 0 = Some out ->
  exists e, (ScanEntry e ∈ out) /\ key_match ty k e = true.
Proof.
  intros W Hk Hs. apply (scan_session_covers ty bf ds 0 out k); try done.
  rewrite rev_0. apply rev_range.
Qed.

(** C27. The iteration ends: if the tables met by the successive calls never have
    more than [2 ^ n] buckets, the cursor is back to 0 after at most [2 ^ n]
    calls, and no call fails. *)
Theorem dictScan_terminates bf (ds : list (dict K V)) n :
  2 <= n <= 60 -> Forall (fun d => dict_wf ty d /\ ht_size (ht0 d) <= 2 ^ n) ds ->
  2 ^ n <= zlen ds -> exists out, scan_session bf ds 0 = Some out.
Proof.
  intros Hn W Hlen. eapply (scan_session_terminates ty bf ds 0 n); rewrite ?rev_0; try done.
  replace (2 ^ 64) with (2 ^ n * 2 ^ (64 - n)) by (rewrite <- Z.pow_add_r by lia; f_equal; lia).
  nia.
Qed.

(** Lookup: [dictFind] always returns, leaves the collection of entries
    as it was even when it moves some of them to the new table, and finds an
    entry exactly when one has the key. *)
Theorem dictFind_correct (d : dict K V) k :
  dict_wf ty d ->
  exists d' r, dictFind ty d k = Some (d', r) /\ dict_wf ty d' /\ entries d' ≡ₚ entries d /\
    forall e, r = Some e <-> (e ∈ entries d) /\ key_match ty k e = true.
Proof.
  intros W. destruct (dictFind_spec ty d k W) as (d' & r & -> & [W' P] & Hr).
  exists d', r. split_and!; [done..|]. intros e. split.
  - intros ->. apply Hr.
  - intros [He Hm]. destruct r as [e'|]; [|by rewrite (Hr e He) in Hm].
    f_equal. destruct Hr as [He' Hm']. apply (wf_keys _ _ W); try done.
    eapply keys_match_trans; [|exact Hm]. by apply keys_match_sym.
Qed.

(** C29. Insertion: [dictAdd] of a fresh entry fails and changes nothing when
    the key is there, else adds exactly one entry; the invariant is kept through
    the expansion and the rehashing step the call may do. *)
Theorem dictAdd_correct cr p (d : dict K V) k v :
  dict_wf ty d -> p ∉ map e_ptr (entries d) -> zlen (entries d) + 1 < 2 ^ 60 ->
  exists d' r, dictAdd ty cr p d k v = Some (d', r) /\ dict_wf ty d' /\
    ((r = DICT_ERR /\ (exists e, has_entry ty d k e) /\ entries d' ≡ₚ entries d) \/
     (r = DICT_OK /\ no_entry ty d k /\
      entries d' ≡ₚ mk_entry p (dictSetKey ty k) (dictSetVal ty v) :: entries d)).
Proof.
  intros W Hp Hz.
  destruct (dictAdd_spec ty cr p d k v W Hp Hz) as [(d1 & e & -> & [W1 P] & He)|(d1 & -> & Hn & W1 & P)].
  - exists d1, DICT_ERR. split_and!; [done..|]. left. eauto.
  - exists d1, DICT_OK. split_and!; [done..|]. by right.
Qed.

(** Replacement: [dictReplace] overwrites the value of the entry with the
    key, keeping the key and the address and freeing the old value only, or adds
    an entry and returns 1 when there was none. *)
Theorem dictReplace_correct cr p (d : dict K V) k v :
  dict_wf ty d -> p ∉ map e_ptr (entries d) -> zlen (entries d) + 1 < 2 ^ 60 ->
  (exists d' e es, dictReplace ty cr p d k v = Some (d', 0, dictFreeVal ty e) /\
     has_entry ty d k e /\ dict_wf ty d' /\ entries d ≡ₚ e :: es /\
     entries d' ≡ₚ mk_entry (e_ptr e) (e_key e) (dictSetVal ty v) :: es) \/
  (exists d', dictReplace ty cr p d k v = Some (d', 1, []) /\ no_entry ty d k /\ dict_wf ty d' /\
     entries d' ≡ₚ mk_entry p (dictSetKey ty k) (dictSetVal ty v) :: entries d).
Proof. apply dictReplace_spec; done. Qed.

(** C30. Deletion: [dictDelete] removes exactly the entry of the key, from
    whichever table it is in, and frees its key and value once; it fails and
    changes nothing when there is none. *)
Theorem dictDelete_correct (d : dict K V) k :
  dict_wf ty d ->
  exists d' r ev, dictDelete ty d k = Some (d', r, ev) /\ dict_wf ty d' /\
    ((r = DICT_OK /\ exists e, has_entry ty d k e /\ e :: entries d' ≡ₚ entries d /\
        ev = dictFreeKey ty e ++ dictFreeVal ty e) \/
     (r = DICT_ERR /\ no_entry ty d k /\ entries d' ≡ₚ entries d /\ ev = [])).
Proof.
  intros W. unfold dictDelete.
  destruct (dictGenericDelete_spec ty d k false W) as [(d' & e & -> & He & W' & P)|(d' & -> & Hn & [W' P])];
    cbn [mbind option_bind]; eexists _, _, _; (split; [done|]); split; [done| |done|].
  - left. eauto.
  - by right.
Qed.

(** C28. Incremental rehashing: [dictRehash] never loses, duplicates or copies
    an entry, keeps the invariant, never trips its assertion, and returns 0
    exactly when the rehashing is over. *)
Theorem dictRehash_correct (d : dict K V) n :
  dict_wf ty d ->
  exists d' r, dictRehash ty d n = Some (d', r) /\ dict_wf ty d' /\ entries d' ≡ₚ entries d /\
    (r = 0 <-> dictIsRehashing d' = false).
Proof.
  intros W. destruct (dictRehash_spec ty d n W) as (d' & -> & [W' P] & _).
  eexists d', _. split_and!; [done..|]. by destruct (dictIsRehashing d').
Qed.

(** C31. Rehashing makes progress: after one more step than the old table has
    buckets the dictionary has a single table again, with the same entries. *)
Theorem dictRehash_finishes (d : dict K V) :
  dict_wf ty d ->
  exists d', rehash_steps ty (S (Z.to_nat (ht_size (ht0 d)))) d = Some d' /\
    dictIsRehashing d' = false /\ dict_wf ty d' /\ entries d' ≡ₚ entries d.
Proof.
  intros W. destruct (rehash_steps_spec ty (S (Z.to_nat (ht_size (ht0 d)))) d W)
    as (d' & -> & [W' P] & Hr).
  exists d'. split_and!; try done. destruct (dictIsRehashing d') eqn:Hd'; [|done].
  destruct (Hr eq_refl) as (Hd & Hsz & Hidx).
  unfold dictIsRehashing in Hd, Hd'. bool_to_prop.
  destruct (wf_rehash _ _ W') as ([_ Hle] & _); [done|].
  destruct (wf_rehash _ _ W) as ([Hge _] & _); [done|]. lia.
Qed.

End Props.

(** ** The statements on the concrete dictionary *)

Lemma dictScan_complete_witness :
  exists e : dictEntry Z Z,
    (ScanEntry e ∈ default [] (scan_session false (replicate 8 demo) 0)) /\
    key_match int_type 9 e = true.
Proof.
  apply (dictScan_complete int_type false (replicate 8 demo)).
  - apply Forall_replicate, demo_wf.
  - apply Forall_replicate. exists (mk_entry 3 9 (Some 90)). split; [|vm_compute; reflexivity].
    vm_compute. repeat first [apply list_elem_of_here | apply list_elem_of_further].
  - vm_compute. reflexivity.
Defined.

Lemma dictScan_terminates_witness :
  exists out, scan_session (K:=Z) (V:=Z) true (replicate 8 demo) 0 = Some out.
Proof.
  apply (dictScan_terminates int_type true (replicate 8 demo) 3).
  - lia.
  - apply Forall_replicate. split; [exact demo_wf|vm_compute; discriminate].
  - vm_compute. discriminate.
Defined.

Lemma dictFind_correct_witness :
  exists d' r, dictFind int_type demo 5 = Some (d', r) /\ dict_wf int_type d' /\
    entries d' ≡ₚ entries demo /\
    forall e, r = Some e <-> (e ∈ entries demo) /\ key_match int_type 5 e = true.
Proof. apply (dictFind_correct int_type demo 5 demo_wf). Defined.

Lemma dictAdd_correct_witness :
  exists d' r, dictAdd int_type true 9 demo 7 70 = Some (d', r) /\ dict_wf int_type d' /\
    ((r = DICT_ERR /\ (exists e, has_entry int_type demo 7 e) /\ entries d' ≡ₚ entries demo) \/
     (r = DICT_OK /\ no_entry int_type demo 7 /\
      entries d' ≡ₚ mk_entry 9 7 (Some 70) :: entries demo)).
Proof.
  apply (dictAdd_correct int_type true 9 demo 7 70 demo_wf demo_fresh). vm_compute. reflexivity.
Defined.

Lemma dictReplace_correct_witness :
  (exists d' e es, dictReplace int_type true 9 demo 5 51 = Some (d', 0, dictFreeVal int_type e) /\
     has_entry int_type demo 5 e /\ dict_wf int_type d' /\ entries demo ≡ₚ e :: es /\
     entries d' ≡ₚ mk_entry (e_ptr e) (e_key e) (Some 51) :: es) \/
  (exists d', dictReplace int_type true 9 demo 5 51 = Some (d', 1, []) /\ no_entry int_type demo 5 /\
     dict_wf int_type d' /\ entries d' ≡ₚ mk_entry 9 5 (Some 51) :: entries demo).
Proof.
  apply (dictReplace_correct int_type true 9 demo 5 51 demo_wf demo_fresh). vm_compute. reflexivity.
Defined.

Lemma dictDelete_correct_witness :
  exists d' r ev, dictDelete int_type demo 2 = Some (d', r, ev) /\ dict_wf int_type d' /\
    ((r = DICT_OK /\ exists e, has_entry int_type demo 2 e /\ e :: entries d' ≡ₚ entries demo /\
        ev = dictFreeKey int_type e ++ dictFreeVal int_type e) \/
     (r = DICT_ERR /\ no_entry int_type demo 2 /\ entries d' ≡ₚ entries demo /\ ev = [])).
Proof. apply (dictDelete_correct int_type demo 2 demo_wf). Defined.

Lemma dictRehash_correct_witness :
  exists d' r, dictRehash int_type demo 1 = Some (d', r) /\ dict_wf int_type d' /\
    entries d' ≡ₚ entries demo /\ (r = 0 <-> dictIsRehashing d' = false).
Proof. apply (dictRehash_correct int_type demo 1 demo_wf). Defined.

Lemma dictRehash_finishes_witness :
  exists d', rehash_steps int_type (S (Z.to_nat (ht_size (ht0 demo)))) demo = Some d' /\
    dictIsRehashing d' = false /\ dict_wf int_type d' /\ entries d' ≡ₚ entries demo.
Proof. apply (dictRehash_finishes int_type demo demo_wf). Defined.
