(* ===== verification/Util.v ===== *)
(** * Numbers and patterns as text ([util.c])

    Decimal conversions ([digits10], [ll2string], [string2ll], ...), glob
    matching ([stringmatchlen]), sizes with units ([memtoll]) and the small
    buffer functions. A C string is the list of its characters without the
    terminator; reading at its length gives the terminator 0. Characters are
    values of the signed type [char]. *)

From stdpp Require Import base list option.
From Stdlib Require Import ZArith Lia Bool.
From S2P Require Import Prelude.

Local Open Scope Z_scope.

Abbreviation c_star := 42 (only parsing).
Abbreviation c_minus := 45 (only parsing).
Abbreviation c_0 := 48 (only parsing).
Abbreviation c_1 := 49 (only parsing).
Abbreviation c_9 := 57 (only parsing).
Abbreviation c_question := 63 (only parsing).
Abbreviation c_lbracket := 91 (only parsing).
Abbreviation c_backslash := 92 (only parsing).
Abbreviation c_rbracket := 93 (only parsing).
Abbreviation c_caret := 94 (only parsing).

(** ** The C library *)

Definition tolower (c : Z) : Z := if (65 <=? c) && (c <=? 90) then c + 32 else c.
Definition isdigit (c : Z) : bool := (c_0 <=? c) && (c <=? c_9).

(** [s[i]] of a terminated string. *)
Definition at_ (s : list Z) (i : nat) : Z := default 0 (s !! i).

Definition strcasecmp_eq (a b : list Z) : bool :=
  bool_decide (map tolower a = map tolower b).

Definition isspace (c : Z) : bool := (c =? 32) || ((9 <=? c) && (c <=? 13)).

Fixpoint skip_spaces (s : list Z) : list Z :=
  match s with
  | c :: s' => if isspace c then skip_spaces s' else s
  | [] => []
  end.

(** The digits at the start of a string, as a number, and the rest. *)
Fixpoint scan_digits (s : list Z) (v : Z) : Z * list Z :=
  match s with
  | c :: s' => if isdigit c then scan_digits s' (v * 10 + (c - c_0)) else (v, s)
  | [] => (v, [])
  end.

(** [strtoll(s, &endptr, 10)]: the value, clamped to the range of [long long],
    and the text at [endptr] (all of [s] if nothing was converted, [None] in the
    first component). *)
Definition strtoll (s : list Z) : option Z * list Z :=
  let s1 := skip_spaces s in
  let neg := at_ s1 0 =? c_minus in
  let s2 := if neg || (at_ s1 0 =? 43) then tail s1 else s1 in
  if isdigit (at_ s2 0) then
    let '(v, rest) := scan_digits s2 0 in
    let v := if (neg : bool) then - v else v in
    (Some (Z.max LLONG_MIN (Z.min LLONG_MAX v)), rest)
  else (None, s).

(** ** Glob-style patterns *)

(** The loop over a character class: the flag says whether a member matched;
    the result is the pattern after the class. *)
Fixpoint class_loop (fuel : nat) (p : list Z) (c : Z) (nocase : bool) (m : bool) : bool * list Z :=
  match fuel with
  | O => (m, p)
  | S fuel' =>
      if (at_ p 0 =? c_backslash) && (2 <=? zlen p) then
        class_loop fuel' (drop 2 p) c nocase (if at_ p 1 =? c then true else m)
      else if at_ p 0 =? c_rbracket then (m, drop 1 p)
      else if zlen p =? 0 then (m, p)
      else if (3 <=? zlen p) && (at_ p 1 =? c_minus) then
        let start := at_ p 0 in
        let stop := at_ p 2 in
        let '(start, stop) := if stop <? start then (stop, start) else (start, stop) in
        let '(start, stop, c') :=
          if nocase then (tolower start, tolower stop, tolower c) else (start, stop, c) in
        class_loop fuel' (drop 3 p) c nocase (if (start <=? c') && (c' <=? stop) then true else m)
      else
        let eq := if negb nocase then at_ p 0 =? c else tolower (at_ p 0) =? tolower c in
        class_loop fuel' (drop 1 p) c nocase (if eq then true else m)
  end.

Fixpoint skip_stars (p : list Z) : list Z :=
  match p with
  | c :: p' => if c =? c_star then skip_stars p' else p
  | [] => []
  end.

(** Compare one character, outside classes. *)
Definition char_eq (nocase : bool) (a b : Z) : bool :=
  if negb nocase then a =? b else tolower a =? tolower b.

(** After a character of the string was consumed. *)
Definition match_rest (rec : list Z -> list Z -> bool) (p s : list Z) : bool :=
  match s with
  | [] => match skip_stars p with [] => true | _ => false end
  | _ => rec p s
  end.

(** The loop over the string of the '*' case. *)
Fixpoint star_loop (rec : list Z -> list Z -> bool) (p s : list Z) : bool :=
  match s with
  | [] => false
  | _ :: s' => rec p s || star_loop rec p s'
  end.

(** Each iteration of the outer loop and each recursive call consumes a
    character of the pattern: fuel for its length and one more is enough. *)
Fixpoint match_loop (fuel : nat) (p s : list Z) (nocase : bool) : bool :=
  match fuel with
  | O => false
  | S fuel' =>
      let rec p s := match_loop fuel' p s nocase in
      match p, s with
      | pc :: p', sc :: s' =>
          if pc =? c_star then
            match skip_stars p' with
            | [] => true
            | p'' => star_loop rec p'' s
            end
          else if pc =? c_question then match_rest rec p' s'
          else if pc =? c_lbracket then
            let neg := at_ p' 0 =? c_caret in
            let p1 := if (neg : bool) then drop 1 p' else p' in
            let '(m, p2) := class_loop (S (length p1)) p1 sc nocase false in
            let m := if (neg : bool) then negb m else m in
            if negb m then false else match_rest rec p2 s'
          else
            let p1 := if (pc =? c_backslash) && (2 <=? zlen p) then p' else p in
            if char_eq nocase (at_ p1 0) sc then match_rest rec (drop 1 p1) s' else false
      | [], [] => true
      | _, _ => false
      end
  end.

Definition stringmatchlen (p s : list Z) (nocase : bool) : bool :=
  match_loop (S (length p)) p s nocase.

(** [strlen] stops at the first zero. *)
Fixpoint c_str (s : list Z) : list Z :=
  match s with
  | [] => []
  | c :: s' => if c =? 0 then [] else c :: c_str s'
  end.

Definition stringmatch (p s : list Z) (nocase : bool) : bool :=
  stringmatchlen (c_str p) (c_str s) nocase.

(** ** Numbers to text *)

Fixpoint digits10_rec (fuel : nat) (v : Z) : Z :=
  if v <? 10 then 1
  else if v <? 100 then 2
  else if v <? 1000 then 3
  else if v <? 1000000000000 then
    if v <? 100000000 then
      if v <? 1000000 then
        if v <? 10000 then 4 else 5 + Z.b2z (100000 <=? v)
      else 7 + Z.b2z (10000000 <=? v)
    else if v <? 10000000000 then 9 + Z.b2z (1000000000 <=? v)
    else 11 + Z.b2z (100000000000 <=? v)
  else
    match fuel with
    | O => 0
    | S fuel' => 12 + digits10_rec fuel' (v / 1000000000000)
    end.

(** A 64-bit value has at most one level of recursion. *)
Definition digits10 (v : Z) : Z := digits10_rec 1 v.

Definition sdigits10 (v : Z) : Z :=
  if v <? 0 then
    let uv := if negb (v =? LLONG_MIN) then u64 (- v) else u64 (LLONG_MAX + 1) in
    digits10 uv + 1
  else digits10 v.

(** The table of the two-digit numbers. *)
Definition digits_table : list Z :=
  Eval vm_compute in
    concat (map (fun i => [48 + Z.of_nat i / 10; 48 + Z.of_nat i mod 10]) (seq 0 100)).

Fixpoint ll2string_loop (fuel : nat) (dst : list Z) (next value : Z) : option (list Z * Z * Z) :=
  match fuel with
  | O => None
  | S fuel' =>
      if 100 <=? value then
        let i := value mod 100 * 2 in
        let value := value / 100 in
        d1 ← buf_read digits_table (i + 1) 1;
        d0 ← buf_read digits_table i 1;
        dst ← buf_write dst next d1;
        dst ← buf_write dst (next - 1) d0;
        ll2string_loop fuel' dst (next - 2) value
      else Some (dst, next, value)
  end.

(** The last one or two digits. *)
Definition ll2string_last (dst : list Z) (next value : Z) : option (list Z) :=
  if value <? 10 then buf_write dst next [48 + value]
  else
    let i := value * 2 in
    d1 ← buf_read digits_table (i + 1) 1;
    d0 ← buf_read digits_table i 1;
    dst ← buf_write dst next d1;
    buf_write dst (next - 1) d0.

(** Result: the buffer and the number of characters; no result if a write
    falls outside the buffer. [dstlen] is the size the caller gives. *)
Definition ll2string (dst : list Z) (dstlen svalue : Z) : option (list Z * Z) :=
  let '(value, negative) :=
    if svalue <? 0 then
      (if negb (svalue =? LLONG_MIN) then u64 (- svalue) else u64 (LLONG_MAX + 1), 1)
    else (svalue, 0) in
  let len := u32 (digits10 value + negative) in
  if dstlen <=? len then Some (dst, 0)
  else
    dst ← buf_write dst len [0];
    '(dst, next, value) ← ll2string_loop 11 dst (len - 1) value;
    dst ← ll2string_last dst next value;
    dst ← (if negative =? 1 then buf_write dst 0 [c_minus] else Some dst);
    Some (dst, len).

(** ** Text to numbers *)

(** The loop over the digits after the first: [None] on overflow, else the
    value and what is left. *)
Fixpoint string2ll_loop (s : list Z) (v : Z) : option (Z * list Z) :=
  match s with
  | c :: s' =>
      if (c_0 <=? c) && (c <=? c_9) then
        if ULLONG_MAX / 10 <? v then None
        else
          let v := u64 (v * 10) in
          if u64 (ULLONG_MAX - (c - c_0)) <? v then None
          else string2ll_loop s' (u64 (v + (c - c_0)))
      else Some (v, s)
  | [] => Some (v, [])
  end.

(** [None] stands for the result 0. *)
Definition string2ll (s : list Z) : option Z :=
  match s with
  | [] => None
  | c :: _ =>
      if (zlen s =? 1) && (c =? c_0) then Some 0
      else
        let negative := c =? c_minus in
        let p := if (negative : bool) then drop 1 s else s in
        match p with
        | [] => None
        | d :: p' =>
            if (c_1 <=? d) && (d <=? c_9) then
              '(v, rest) ← string2ll_loop p' (u64 (d - c_0));
              match rest with
              | _ :: _ => None
              | [] =>
                  if (negative : bool) then
                    if u64 (u64 (- (LLONG_MIN + 1)) + 1) <? v then None
                    else Some (i64 (u64 (- v)))
                  else if LLONG_MAX <? v then None
                  else Some (i64 v)
              end
            else None
        end
  end.

Definition string2l (s : list Z) : option Z :=
  llval ← string2ll s;
  if (llval <? LLONG_MIN) || (LLONG_MAX <? llval) then None else Some llval.

(** [strtoull], as documented: unlike [strtoll] a minus sign negates the value
    modulo [2 ^ 64]; the flag is ERANGE. *)
Definition strtoull (s : list Z) : option (Z * bool) * list Z :=
  let s1 := skip_spaces s in
  let neg := at_ s1 0 =? c_minus in
  let s2 := if neg || (at_ s1 0 =? 43) then tail s1 else s1 in
  if isdigit (at_ s2 0) then
    let '(v, rest) := scan_digits s2 0 in
    if ULLONG_MAX <? v then (Some (ULLONG_MAX, true), rest)
    else (Some (if (neg : bool) then u64 (- v) else v, false), rest)
  else (None, s).

(** [einval]: whether [strtoull] sets EINVAL when there is no number. *)
Definition string2ull (einval : bool) (s : list Z) : option Z :=
  match string2ll s with
  | Some ll => if ll <? 0 then None else Some ll
  | None =>
      let '(r, rest) := strtoull s in
      let '(value, err) := match r with
                           | Some (v, erange) => (v, erange)
                           | None => (0, einval)
                           end in
      if err || negb (negb (at_ s 0 =? 0) && (at_ rest 0 =? 0)) then None else Some value
  end.

(** ** Sizes with units *)

Definition unit_of (u : list Z) : option Z :=
  if (at_ u 0 =? 0) || strcasecmp_eq u [98] then Some 1
  else if strcasecmp_eq u [107] then Some 1000
  else if strcasecmp_eq u [107; 98] then Some 1024
  else if strcasecmp_eq u [109] then Some (1000 * 1000)
  else if strcasecmp_eq u [109; 98] then Some (1024 * 1024)
  else if strcasecmp_eq u [103] then Some (1000 * 1000 * 1000)
  else if strcasecmp_eq u [103; 98] then Some (1024 * 1024 * 1024)
  else None.

Fixpoint skip_digits (s : list Z) : list Z :=
  match s with
  | c :: s' => if isdigit c then skip_digits s' else s
  | [] => []
  end.

(** Result: the value and [*err]; no result if the product overflows. *)
Definition memtoll (einval : bool) (p : list Z) : option (Z * bool) :=
  let u := skip_digits (if at_ p 0 =? c_minus then drop 1 p else p) in
  match unit_of u with
  | None => Some (0, true)
  | Some mul =>
      let digits := u32 (zlen p - zlen u) in
      if 128 <=? digits then Some (0, true)
      else
        let buf := take (Z.to_nat digits) p in
        let '(r, endptr) := strtoll buf in
        if (bool_decide (r = None) && einval) || negb (at_ endptr 0 =? 0) then Some (0, true)
        else
          let val := default 0 r in
          if (LLONG_MIN <=? val * mul) && (val * mul <=? LLONG_MAX) then Some (val * mul, false)
          else None
  end.

(** ** Buffers *)

(** The index of the first character of [s] that is in [chars]. *)
Fixpoint mempbrk (s chars : list Z) : option nat :=
  match s with
  | [] => None
  | c :: s' => if existsb (Z.eqb c) chars then Some O else option_map S (mempbrk s' chars)
  end.

Fixpoint map_char (c : Z) (from to : list Z) : Z :=
  match from, to with
  | f :: from', t :: to' => if c =? f then t else map_char c from' to'
  | _, _ => c
  end.

Definition memmapchars (s from to : list Z) : list Z := map (fun c => map_char c from to) s.
