(* ===== verification/UtilFacts.v ===== *)
(** * Correctness of the conversions and of glob matching

    The decimal conversions are compared with a reference printer that works
    one digit at a time, and [stringmatchlen] with a matching relation on parsed
    patterns. *)

From stdpp Require Import base list option.
From Stdlib Require Import ZArith Lia Bool.
From S2P Require Import Prelude Util.

Local Open Scope Z_scope.

(** ** Reference printer *)

Fixpoint dec_rec (fuel : nat) (v : Z) : list Z :=
  if v <? 10 then [48 + v]
  else match fuel with
       | O => []
       | S fuel' => dec_rec fuel' (v / 10) ++ [48 + v mod 10]
       end.

(** The canonical decimal text of a 64-bit number. *)
Definition decimal (v : Z) : list Z :=
  if v <? 0 then c_minus :: dec_rec 19 (- v) else dec_rec 19 v.

(** The last [k] digits. *)
Fixpoint dec_k (k : nat) (v : Z) : list Z :=
  match k with
  | O => []
  | S k' => dec_k k' (v / 10) ++ [48 + v mod 10]
  end.

(** [v] has exactly [k] decimal digits. *)
Definition has_digits (k v : Z) : Prop :=
  0 <= v < 10 ^ k /\ (k = 1 \/ 10 ^ (k - 1) <= v) /\ 1 <= k.

Lemma dec_k_length k v : length (dec_k k v) = k.
Proof. revert v; induction k; intros; cbn; [done|]. rewrite length_app, IHk. cbn. lia. Qed.

Lemma pow10_succ k : 0 <= k -> 10 ^ (k + 1) = 10 * 10 ^ k.
Proof. intros. rewrite Z.pow_add_r by lia. lia. Qed.

Lemma has_digits_div k v : has_digits (k + 1) v -> 1 <= k -> has_digits k (v / 10).
Proof.
  intros (Hv & Hk & _) Hk1. rewrite pow10_succ in Hv by lia.
  split_and!; [apply Z.div_pos; lia|apply Z.div_lt_upper_bound; lia| |lia].
  right. apply Z.div_le_lower_bound; [lia|]. replace (k + 1 - 1) with (k - 1 + 1) in Hk by lia.
  rewrite pow10_succ in Hk by lia. lia.
Qed.

Lemma has_digits_1 v : has_digits 1 v <-> 0 <= v < 10.
Proof. unfold has_digits. change (10 ^ 1) with 10. lia. Qed.

Lemma has_digits_ge k v : 1 < k -> has_digits k v -> 10 <= v.
Proof.
  intros Hk (_ & [?|H] & _); [lia|]. etransitivity; [|exact H].
  apply (Z.pow_le_mono_r 10 1 (k - 1)); lia.
Qed.

Lemma dec_rec_k fuel k v :
  has_digits (Z.of_nat (S k)) v -> (k <= fuel)%nat -> dec_rec fuel v = dec_k (S k) v.
Proof.
  revert k v; induction fuel as [|fuel IH]; intros k v Hv Hk.
  - assert (k = 0)%nat as -> by lia. apply has_digits_1 in Hv. cbn.
    rewrite_if_true. by rewrite Z.mod_small by lia.
  - destruct k as [|k].
    + apply has_digits_1 in Hv. cbn. rewrite_if_true. by rewrite Z.mod_small by lia.
    + pose proof (has_digits_ge (Z.of_nat (S (S k))) v ltac:(lia) Hv). cbn [dec_rec]. rewrite_if_false.
      rewrite (IH k); [done| |lia]. apply has_digits_div; [|lia].
      by replace (Z.of_nat (S k) + 1) with (Z.of_nat (S (S k))) by lia.
Qed.

Lemma has_digits_unique k k' v : has_digits k v -> has_digits k' v -> k = k'.
Proof.
  assert (forall a b, has_digits a v -> has_digits b v -> ~ a < b) as H.
  { intros a b (Ha & _ & Ha1) (_ & [->|Hb] & Hb1) Hab; [lia|].
    assert (10 ^ a <= 10 ^ (b - 1)) by (apply Z.pow_le_mono_r; lia). lia. }
  intros H1 H2. pose proof (H _ _ H1 H2). pose proof (H _ _ H2 H1). lia.
Qed.

(** ** [digits10] *)

(** Evaluate the powers of ten with closed exponents. *)
Ltac pow10 :=
  repeat match goal with
  | |- context [10 ^ ?e] =>
      lazymatch e with context [digits10_rec] => fail | _ => idtac end;
      let x := eval vm_compute in (10 ^ e) in change (10 ^ e) with x
  end.

Lemma digits10_rec_spec fuel v :
  0 <= v < 10 ^ (12 * (Z.of_nat fuel + 1)) ->
  has_digits (digits10_rec fuel v) v /\ digits10_rec fuel v <= 12 * (Z.of_nat fuel + 1).
Proof.
  revert v; induction fuel as [|fuel IH]; intros v Hv; cbn [digits10_rec];
    repeat case_if; unfold has_digits; unfold Z.b2z; repeat case_if; cbn [Z.add Pos.add Pos.succ].
  all: try solve [pow10; lia].
  destruct (IH (v / 1000000000000)) as ((H1 & H2 & H3) & H4).
  { split; [apply Z.div_pos; lia|]. apply Z.div_lt_upper_bound; [lia|].
    change 1000000000000 with (10 ^ 12). rewrite <- Z.pow_add_r by lia.
    replace (12 + 12 * (Z.of_nat fuel + 1)) with (12 * (Z.of_nat (S fuel) + 1)) by lia. lia. }
  set (w := v / 1000000000000) in *. set (d := digits10_rec fuel w) in *.
  assert (v = 1000000000000 * w + v mod 1000000000000) by (apply Z.div_mod; lia).
  pose proof (Z.mod_pos_bound v 1000000000000 ltac:(lia)).
  assert (10 ^ (12 + d) = 1000000000000 * 10 ^ d) as -> by (rewrite Z.pow_add_r by lia; done).
  split_and!; [lia|lia| |lia|lia]. right.
  destruct H2 as [->|H2].
  - change (10 ^ (12 + 1 - 1)) with 1000000000000. lia.
  - replace (12 + d - 1) with (12 + (d - 1)) by lia. rewrite Z.pow_add_r by lia.
    change (10 ^ 12) with 1000000000000. lia.
Qed.

Lemma digits10_spec v :
  0 <= v < 2 ^ 64 -> has_digits (digits10 v) v /\ digits10 v <= 20.
Proof.
  intros Hv. destruct (digits10_rec_spec 1 v) as [H1 H2].
  { change (10 ^ (12 * (Z.of_nat 1 + 1))) with 1000000000000000000000000. lia. }
  split; [done|]. fold (digits10 v) in *.
  destruct H1 as (_ & [->|H] & _); [lia|].
  assert (digits10 v - 1 < 20); [|lia]. apply (Z.pow_lt_mono_r_iff 10); [lia..|].
  change (10 ^ 20) with 100000000000000000000. lia.
Qed.

(** ** [ll2string] *)

Lemma digits_table_spec j :
  0 <= j < 100 ->
  buf_read digits_table (j * 2 + 1) 1 = Some [48 + j mod 10] /\
  buf_read digits_table (j * 2) 1 = Some [48 + j / 10].
Proof.
  intros Hj.
  assert (forallb (fun i => let j := Z.of_nat i in
    bool_decide (buf_read digits_table (j * 2 + 1) 1 = Some [48 + j mod 10]) &&
    bool_decide (buf_read digits_table (j * 2) 1 = Some [48 + j / 10])) (seq 0 100) = true) as H
    by (vm_compute; reflexivity).
  rewrite forallb_forall in H. specialize (H (Z.to_nat j)). cbv zeta in H.
  rewrite Z2Nat.id in H by lia. apply andb_true_iff in H; [|apply in_seq; lia].
  destruct H as [H1%bool_decide_eq_true H2%bool_decide_eq_true]. done.
Qed.

Lemma write_2_digits pre j0 j1 suf next j :
  0 <= j < 100 -> next = zlen pre + 1 ->
  (d1 ← buf_read digits_table (j * 2 + 1) 1;
   d0 ← buf_read digits_table (j * 2) 1;
   dst ← buf_write (pre ++ [j0; j1] ++ suf) next d1;
   buf_write dst (next - 1) d0) = Some (pre ++ [48 + j / 10; 48 + j mod 10] ++ suf).
Proof.
  intros Hj ->. destruct (digits_table_spec j Hj) as [-> ->]. cbn [mbind option_bind].
  replace (pre ++ [j0; j1] ++ suf) with ((pre ++ [j0]) ++ [j1] ++ suf) by (by rewrite <- app_assoc).
  rewrite (buf_write_app (pre ++ [j0]) [j1] [48 + j mod 10] suf) by (zlen || done).
  cbn [mbind option_bind]. rewrite <- app_assoc. 
  change ([j0] ++ [48 + j mod 10] ++ suf) with ([j0] ++ (48 + j mod 10 :: suf)).
  rewrite (buf_write_app pre [j0] [48 + j / 10]) by (zlen || done). done.
Qed.

Lemma dec_k_2 k v :
  dec_k (S (S k)) v = dec_k k (v / 100) ++ [48 + v mod 100 / 10; 48 + (v mod 100) mod 10].
Proof.
  cbn [dec_k]. rewrite <- !app_assoc. cbn [app]. rewrite Z.div_div by lia. change (10 * 10) with 100.
  do 2 f_equal; [|f_equal]; dlia.
Qed.

Lemma write_digits fuel k pre junk suf value next :
  has_digits (Z.of_nat k) value -> (k <= 2 * fuel)%nat -> length junk = k ->
  next = zlen pre + Z.of_nat k - 1 ->
  ('(dst, next, value) ← ll2string_loop fuel (pre ++ junk ++ suf) next value;
   ll2string_last dst next value) = Some (pre ++ dec_k k value ++ suf).
Proof.
  revert k junk suf value next; induction fuel as [|fuel IH]; intros k junk suf value next Hv Hk Hj ->.
  { destruct Hv as (_ & _ & ?). lia. }
  cbn [ll2string_loop]. case_if.
  - assert (3 <= k)%nat as Hk3.
    { destruct Hv as (Hv & _). destruct (Nat.le_gt_cases 3 k); [done|].
      assert (10 ^ Z.of_nat k <= 10 ^ 2) by (apply Z.pow_le_mono_r; lia). lia. }
    assert (exists junk' j0 j1, junk = junk' ++ [j0; j1]) as (junk' & j0 & j1 & ->).
    { destruct junk as [|j1 l _] using rev_ind; [cbn in Hj; lia|]. rewrite length_app in Hj; cbn in Hj.
      destruct l as [|j0 l _] using rev_ind; [cbn in Hj; lia|]. exists l, j0, j1. by rewrite <- app_assoc. }
    destruct k as [|[|k]]; [lia..|]. rewrite length_app in Hj; cbn [length] in Hj.
    pose proof (Z.mod_pos_bound value 100 ltac:(lia)).
    pose proof (write_2_digits (pre ++ junk') j0 j1 suf (zlen pre + Z.of_nat (S (S k)) - 1)
      (value mod 100)) as Hw.
    destruct (digits_table_spec (value mod 100)) as [E1 E2]; [lia|]. rewrite E1, E2 in Hw |- *.
    cbn [mbind option_bind] in Hw |- *.
    replace (pre ++ (junk' ++ [j0; j1]) ++ suf) with ((pre ++ junk') ++ [j0; j1] ++ suf)
      by (by rewrite <- !app_assoc).
    destruct (buf_write _ _ _) as [dst|]; cbn [mbind option_bind] in Hw |- *;
      [|discriminate Hw; [lia|unfold zlen; rewrite length_app; lia]].
    rewrite Hw by (unfold zlen; rewrite ?length_app; lia). cbn [mbind option_bind].
    rewrite <- app_assoc.
    rewrite (IH k junk'); [|..].
    + by rewrite dec_k_2, <- !app_assoc.
    + replace (value / 100) with (value / 10 / 10) by (by rewrite Z.div_div by lia). apply has_digits_div; [|lia].
      apply has_digits_div; [|lia]. by replace (Z.of_nat k + 1 + 1) with (Z.of_nat (S (S k))) by lia.
    + lia.
    + lia.
    + lia.
  - cbn [mbind option_bind]. unfold ll2string_last. case_if; bool_to_prop.
    + assert (k = 1)%nat as ->.
      { destruct Hv as (? & [?|Hv] & ?); [lia|]. destruct (Nat.eq_dec k 1); [done|].
        pose proof (Z.pow_le_mono_r 10 1 (Z.of_nat k - 1) ltac:(lia) ltac:(lia)). lia. }
      destruct junk as [|j0 [|]]; try done. cbn [dec_k app].
      rewrite Z.mod_small by (destruct Hv; lia).
      apply (buf_write_app pre [j0] [48 + value]); [lia|done].
    + assert (k = 2)%nat as ->.
      { destruct Hv as (Hlt & Hv & ?). destruct (Nat.le_gt_cases 3 k).
        - destruct Hv as [?|Hv]; [lia|].
          pose proof (Z.pow_le_mono_r 10 2 (Z.of_nat k - 1) ltac:(lia) ltac:(lia)). lia.
        - destruct k as [|[|[|]]]; [lia| |done|lia]. change (10 ^ Z.of_nat 1) with 10 in Hlt. lia. }
      destruct junk as [|j0 [|j1 [|]]]; try done.
      rewrite (write_2_digits pre j0 j1 suf _ value) by lia.
      cbn [dec_k app]. do 3 f_equal. rewrite Z.mod_small; [done|].
      split; [apply Z.div_pos|apply Z.div_lt_upper_bound]; lia.
Qed.

Lemma neg_value v :
  - 2 ^ 63 <= v < 0 ->
  (if negb (v =? LLONG_MIN) then u64 (- v) else u64 (LLONG_MAX + 1)) = - v.
Proof.
  intros Hv. unfold LLONG_MIN, LLONG_MAX. case_if; bool_to_prop.
  - rewrite u64_small; lia.
  - subst v. reflexivity.
Qed.

Lemma dec_rec_spec v :
  0 <= v < 2 ^ 64 -> dec_rec 19 v = dec_k (Z.to_nat (digits10 v)) v.
Proof.
  intros Hv. destruct (digits10_spec v Hv) as [Hd Hle]. pose proof (proj2 (proj2 Hd)).
  replace (Z.to_nat (digits10 v)) with (S (Z.to_nat (digits10 v - 1))) by lia.
  apply dec_rec_k; [|lia].
  by replace (Z.of_nat (S (Z.to_nat (digits10 v - 1)))) with (digits10 v) by lia.
Qed.

Lemma dec_rec_zlen v : 0 <= v < 2 ^ 64 -> zlen (dec_rec 19 v) = digits10 v.
Proof.
  intros Hv. rewrite dec_rec_spec by done. unfold zlen. rewrite dec_k_length.
  destruct (digits10_spec v Hv) as [(_ & _ & ?) _]. lia.
Qed.

Lemma sdigits10_zlen v : - 2 ^ 63 <= v < 2 ^ 63 -> sdigits10 v = zlen (decimal v).
Proof.
  intros Hv. unfold sdigits10, decimal. case_if.
  - rewrite neg_value by lia. rewrite zlen_cons, dec_rec_zlen; lia.
  - rewrite dec_rec_zlen; lia.
Qed.

Lemma decimal_short v : LLONG_MIN <= v <= LLONG_MAX -> 0 < zlen (decimal v) <= 20.
Proof.
  unfold LLONG_MIN, LLONG_MAX, decimal. intros Hv.
  assert (forall u, 0 <= u <= 2 ^ 63 -> 1 <= zlen (dec_rec 19 u) <= 19) as Hd.
  { intros u Hu. rewrite dec_rec_zlen by lia. destruct (digits10_spec u ltac:(lia)) as [(Hr & Hk & H1) _].
    split; [done|]. destruct Hk as [->|Hk]; [lia|]. destruct (Z.le_gt_cases (digits10 u) 19) as [|Hgt]; [done|].
    assert (10 ^ 19 <= 10 ^ (digits10 u - 1)) by (apply Z.pow_le_mono_r; lia). lia. }
  case_if; [rewrite zlen_cons; specialize (Hd (- v)); lia|specialize (Hd v); lia].
Qed.

(** The buffer starts as [sign ++ junk ++ x :: rest]. *)
Lemma ll2string_buffer (dst : list Z) n :
  0 <= n < zlen dst -> exists junk x, dst = junk ++ x :: drop (Z.to_nat (n + 1)) dst /\ zlen junk = n.
Proof.
  intros Hn. destruct (lookup_lt_is_Some_2 dst (Z.to_nat n)) as [x Hx]; [unfold zlen in *; lia|].
  exists (take (Z.to_nat n) dst), x. split.
  - replace (Z.to_nat (n + 1)) with (S (Z.to_nat n)) by lia. by rewrite take_drop_middle.
  - unfold zlen in *. rewrite length_take. lia.
Qed.

Lemma ll2string_spec dst dstlen v :
  - 2 ^ 63 <= v < 2 ^ 63 -> dstlen <= zlen dst ->
  ll2string dst dstlen v =
    if dstlen <=? zlen (decimal v) then Some (dst, 0)
    else Some (decimal v ++ 0 :: drop (Z.to_nat (zlen (decimal v) + 1)) dst, zlen (decimal v)).
Proof.
  intros Hv Hlen. unfold ll2string.
  assert (exists value neg, (if v <? 0 then
      (if negb (v =? LLONG_MIN) then u64 (- v) else u64 (LLONG_MAX + 1), 1) else (v, 0)) = (value, neg) /\
      0 <= value < 2 ^ 64 /\ decimal v = (if neg =? 1 then [c_minus] else []) ++ dec_rec 19 value /\
      (neg = 0 \/ neg = 1)) as (value & neg & -> & Hval & Hdec & Hneg).
  { unfold decimal. case_if; [rewrite neg_value by lia|]; eexists _, _; (split; [done|]);
      split_and!; try done; try lia. }
  destruct (digits10_spec value Hval) as [Hd Hd20]. pose proof (proj2 (proj2 Hd)) as Hd1.
  set (sign := if neg =? 1 then [c_minus] else []) in *.
  assert (zlen sign = neg) as Hs by (unfold sign; destruct Hneg as [-> | ->]; done).
  assert (zlen (decimal v) = digits10 value + neg) as Hz.
  { rewrite Hdec, zlen_app, dec_rec_zlen by done. lia. }
  rewrite u32_small by lia. rewrite Hz. destruct (Z.leb_spec dstlen (digits10 value + neg)); [done|].
  set (len := digits10 value + neg) in *.
  destruct (ll2string_buffer dst len) as (junk & x & Edst & Hjunk); [lia|].
  set (rest := drop (Z.to_nat (len + 1)) dst) in *. rewrite Edst.
  rewrite (buf_write_app junk [x] [0] rest) by done. cbn [mbind option_bind].
  assert (exists j0 j1, junk = j0 ++ j1 /\ zlen j0 = neg /\ length j1 = Z.to_nat (digits10 value))
    as (j0 & j1 & -> & Hj0 & Hj1).
  { exists (take (Z.to_nat neg) junk), (drop (Z.to_nat neg) junk). rewrite take_drop.
    unfold zlen in *. rewrite length_take, length_drop. split_and!; [done|lia..]. }
  pose proof (write_digits 11 (Z.to_nat (digits10 value)) j0 j1 ([0] ++ rest) value (len - 1)) as Hw.
  rewrite Z2Nat.id in Hw by lia. specialize (Hw Hd ltac:(lia) Hj1 ltac:(lia)).
  rewrite <- app_assoc. destruct (ll2string_loop _ _ _ _) as [[[dst1 next1] v1]|]; [|done].
  cbn [mbind option_bind] in Hw |- *. rewrite Hw. cbn [mbind option_bind].
  rewrite Hdec, dec_rec_spec, <- app_assoc by done.
  destruct Hneg as [-> | ->]; cbn [Z.eqb Pos.eqb] in *; unfold sign; cbn [app].
  - destruct j0; [done|]. revert Hj0. zlen.
  - match goal with |- context [buf_write ?b 0 _] => change b with ([] ++ b) end.
    rewrite (buf_write_app [] j0 [c_minus]); [done|done|]. unfold zlen in Hj0. cbn. lia.
Qed.

(** ** [string2ll] *)

Definition digit (c : Z) : Prop := c_0 <= c <= c_9.

(** The number a list of digits stands for, after the number [v]. *)
Definition dvalue (v : Z) (s : list Z) : Z := foldl (fun v c => v * 10 + (c - c_0)) v s.

Lemma dvalue_app v s s' : dvalue v (s ++ s') = dvalue (dvalue v s) s'.
Proof. apply foldl_app. Qed.

Lemma dvalue_ge s v : Forall digit s -> 0 <= v -> v * 10 ^ zlen s <= dvalue v s.
Proof.
  intros Hs. revert v; induction Hs as [|c s Hc _ IH]; intros v Hv.
  { change (10 ^ zlen []) with 1. change (dvalue v []) with v. lia. }
  unfold digit in Hc. specialize (IH (v * 10 + (c - c_0)) ltac:(lia)).
  change (dvalue v (c :: s)) with (dvalue (v * 10 + (c - c_0)) s).
  rewrite zlen_cons, (Z.add_comm 1), pow10_succ by apply zlen_nonneg.
  pose proof (Z.pow_nonneg 10 (zlen s) ltac:(lia)).
  assert (0 <= (c - c_0) * 10 ^ zlen s) by (apply Z.mul_nonneg_nonneg; lia). lia.
Qed.

Lemma dvalue_lt s : Forall digit s -> 0 <= dvalue 0 s < 10 ^ zlen s.
Proof.
  induction s as [|c s IH] using rev_ind; intros Hs.
  { change (10 ^ zlen []) with 1. change (dvalue 0 []) with 0. lia. }
  apply Forall_app in Hs as [Hs Hc]. inversion_clear Hc as [|? ? Hc' _]; rename Hc' into Hc. specialize (IH Hs). unfold digit in Hc.
  rewrite dvalue_app, zlen_app. change (zlen [c]) with 1.
  rewrite pow10_succ by apply zlen_nonneg.
  change (dvalue (dvalue 0 s) [c]) with (dvalue 0 s * 10 + (c - c_0)). lia.
Qed.

Lemma dec_k_dvalue k v :
  0 <= v < 10 ^ Z.of_nat k -> Forall digit (dec_k k v) /\ dvalue 0 (dec_k k v) = v.
Proof.
  revert v; induction k as [|k IH]; intros v Hv; [cbn in *; split; [done|lia]|].
  rewrite Nat2Z.inj_succ, <- Z.add_1_r, pow10_succ in Hv by lia.
  destruct (IH (v / 10)) as [H1 H2].
  { split; [apply Z.div_pos; lia|]. apply Z.div_lt_upper_bound; lia. }
  cbn [dec_k]. rewrite dvalue_app, H2. pose proof (Z.mod_pos_bound v 10 ltac:(lia)).
  split; [apply Forall_app; split; [done|]; apply Forall_singleton; unfold digit; lia|].
  change (dvalue (v / 10) [48 + v mod 10]) with (v / 10 * 10 + (48 + v mod 10 - c_0)).
  pose proof (Z.div_mod v 10). lia.
Qed.

Lemma dvalue_dec_k s : Forall digit s -> dec_k (length s) (dvalue 0 s) = s.
Proof.
  induction s as [|c s IH] using rev_ind; intros Hs; [done|].
  apply Forall_app in Hs as [Hs Hc]. inversion_clear Hc as [|? ? Hc' _]; rename Hc' into Hc. unfold digit in Hc.
  rewrite length_app, Nat.add_comm, dvalue_app. cbn [length Nat.add dec_k].
  change (dvalue (dvalue 0 s) [c]) with (dvalue 0 s * 10 + (c - c_0)).
  rewrite Z.div_add_l, (Z.div_small (c - c_0)), Z.add_0_r by lia. rewrite IH by done.
  rewrite (Z.add_comm (_ * _)), Z.mod_add, Z.mod_small by lia. do 2 f_equal. lia.
Qed.

Lemma dec_k_cons k v : dec_k (S k) v = 48 + (v / 10 ^ Z.of_nat k) mod 10 :: dec_k k v.
Proof.
  revert v; induction k as [|k IH]; intros v.
  - cbn. by rewrite Z.div_1_r.
  - change (dec_k (S (S k)) v) with (dec_k (S k) (v / 10) ++ [48 + v mod 10]).
    rewrite IH. cbn [app dec_k]. do 3 f_equal.
    rewrite Z.div_div by lia. f_equal. rewrite Nat2Z.inj_succ, Z.pow_succ_r by lia. done.
Qed.

Lemma string2ll_loop_digits s v :
  Forall digit s -> 0 <= v <= ULLONG_MAX ->
  string2ll_loop s v = if dvalue v s <=? ULLONG_MAX then Some (dvalue v s, []) else None.
Proof.
  intros Hs. revert v; induction Hs as [|c s Hc Hs IH]; intros v Hv; cbn [string2ll_loop].
  { cbn. by rewrite_if_true. }
  unfold digit in Hc. rewrite_if_true.
  change (dvalue v (c :: s)) with (dvalue (v * 10 + (c - c_0)) s).
  assert (forall x, ULLONG_MAX < x -> ULLONG_MAX < dvalue x s) as Hbig.
  { intros x Hx. pose proof (dvalue_ge s x Hs ltac:(unfold ULLONG_MAX in *; lia)).
    pose proof (Z.pow_pos_nonneg 10 (zlen s) ltac:(lia) (zlen_nonneg s)). unfold ULLONG_MAX in *. nia. }
  change (ULLONG_MAX / 10) with 1844674407370955161. case_if.
  { pose proof (Hbig (v * 10 + (c - c_0)) ltac:(unfold ULLONG_MAX; lia)). by rewrite_if_false. }
  unfold ULLONG_MAX in *. rewrite !u64_small by lia. case_if.
  { pose proof (Hbig (v * 10 + (c - c_0)) ltac:(lia)). by rewrite_if_false. }
  rewrite u64_small by lia. apply IH. lia.
Qed.

Lemma string2ll_loop_all s v w : string2ll_loop s v = Some (w, []) -> Forall digit s.
Proof.
  revert v; induction s as [|c s IH]; intros v; cbn [string2ll_loop]; [constructor|].
  repeat case_if; try done. intros Hw. constructor; [unfold digit; lia|]. by eapply IH.
Qed.

(** The text after the sign of a nonzero number. *)
Definition magnitude (p : list Z) (w : Z) : Prop :=
  exists d p', p = d :: p' /\ c_1 <= d <= c_9 /\ Forall digit p' /\ w = dvalue (d - c_0) p'.

Lemma magnitude_dec p w : w < 2 ^ 64 -> magnitude p w <-> 0 < w /\ p = dec_rec 19 w.
Proof.
  intros Hw. split.
  - intros (d & p' & -> & Hd & Hp' & Ew).
    assert (Forall digit (d :: p')) as Hall by (constructor; [unfold digit; lia|done]).
    assert (dvalue 0 (d :: p') = w) as E0 by done.
    pose proof (dvalue_ge p' (d - c_0) Hp' ltac:(lia)) as Hge. rewrite <- Ew in Hge.
    pose proof (Z.pow_pos_nonneg 10 (zlen p') ltac:(lia) (zlen_nonneg p')).
    pose proof (dvalue_lt _ Hall) as Hlt. rewrite E0 in Hlt.
    assert (0 < w) by nia. split; [done|].
    rewrite dec_rec_spec by lia.
    replace (Z.to_nat (digits10 w)) with (length (d :: p')).
    { by rewrite <- E0, dvalue_dec_k. }
    rewrite <- (zlen_to_nat (d :: p')). f_equal. apply (has_digits_unique _ _ w); [|apply digits10_spec; lia].
    rewrite zlen_cons in *. split_and!; [lia|lia| |pose_zlen p'; lia].
    right. replace (1 + zlen p' - 1) with (zlen p') by lia. nia.
  - intros [H0 ->]. rewrite dec_rec_spec by lia. destruct (digits10_spec w ltac:(lia)) as [(Hlt & Hd & Hd1) Hle].
    replace (Z.to_nat (digits10 w)) with (S (Z.to_nat (digits10 w - 1))) by lia. rewrite dec_k_cons.
    destruct (dec_k_dvalue (S (Z.to_nat (digits10 w - 1))) w) as [Hall Hval].
    { by replace (Z.of_nat (S (Z.to_nat (digits10 w - 1)))) with (digits10 w) by lia. }
    rewrite dec_k_cons in Hall, Hval. apply Forall_inv_tail in Hall.
    set (k := Z.to_nat (digits10 w - 1)) in *. replace (Z.of_nat k) with (digits10 w - 1) in * by lia.
    assert (1 <= w / 10 ^ (digits10 w - 1) < 10) as Hq.
    { destruct Hd as [Hd|Hd].
      - rewrite Hd in *. change (10 ^ (1 - 1)) with 1. change (10 ^ 1) with 10 in Hlt. rewrite Z.div_1_r. lia.
      - split; [apply Z.div_le_lower_bound; lia|]. apply Z.div_lt_upper_bound; [lia|].
        replace (digits10 w) with (digits10 w - 1 + 1) in Hlt by lia. rewrite pow10_succ in Hlt; lia. }
    rewrite Z.mod_small in Hval |- * by lia.
    eexists _, _. split; [done|]. split_and!; [lia|lia|done|]. symmetry. exact Hval.
Qed.

Lemma string2ll_magnitude p w :
  magnitude p w -> w <= ULLONG_MAX ->
  exists d p', p = d :: p' /\ c_1 <= d <= c_9 /\ string2ll_loop p' (u64 (d - c_0)) = Some (w, []).
Proof.
  intros (d & p' & -> & Hd & Hp' & ->) Hw. exists d, p'. split_and!; [done|lia|lia|].
  rewrite u64_small by lia. rewrite string2ll_loop_digits by (done || unfold ULLONG_MAX; lia).
  by rewrite_if_true.
Qed.

Lemma string2ll_loop_magnitude d p' w :
  c_1 <= d <= c_9 -> string2ll_loop p' (u64 (d - c_0)) = Some (w, []) ->
  magnitude (d :: p') w /\ w <= ULLONG_MAX.
Proof.
  intros Hd E. pose proof (string2ll_loop_all _ _ _ E) as Hall.
  rewrite u64_small, string2ll_loop_digits in E by (done || unfold ULLONG_MAX; lia).
  case_if_in E; [|done]. simplify_eq. split; [|done]. by exists d, p'.
Qed.

Lemma string2ll_sound s v : string2ll s = Some v -> LLONG_MIN <= v <= LLONG_MAX /\ s = decimal v.
Proof.
  unfold string2ll. destruct s as [|c s]; [done|]. intros E. case_if_in E.
  { simplify_eq. destruct s; [done|]. exfalso. zlen. }
  set (neg := c =? c_minus) in *.
  destruct (if neg then drop 1 (c :: s) else c :: s) as [|d p] eqn:Hp; [done|].
  case_if_in E; [|done].
  destruct (string2ll_loop p (u64 (d - c_0))) as [[w rest]|] eqn:Hl; [|done].
  cbn [mbind option_bind] in E. destruct rest; [|done].
  apply string2ll_loop_magnitude in Hl as [Hm Hw]; [|lia]. unfold ULLONG_MAX in Hw.
  apply magnitude_dec in Hm as [Hpos Hm]; [|lia].
  destruct neg eqn:Hneg; unfold neg in Hneg; bool_to_prop.
  - change (u64 (u64 (- (LLONG_MIN + 1)) + 1)) with (2 ^ 63) in E. case_if_in E; [done|]. simplify_eq.
    rewrite swrap_wrap, i64_small by lia. change (s = d :: p) in Hp. subst s.
    unfold LLONG_MIN, LLONG_MAX, decimal. rewrite_if_true. split; [lia|]. by rewrite Z.opp_involutive, Hm.
  - unfold LLONG_MIN, LLONG_MAX, decimal in *. case_if_in E; [done|]. simplify_eq.
    rewrite i64_small by lia. rewrite_if_false. split; [lia|]. done.
Qed.

Lemma string2ll_complete v : LLONG_MIN <= v <= LLONG_MAX -> string2ll (decimal v) = Some v.
Proof.
  unfold LLONG_MIN, LLONG_MAX, decimal. intros Hv. case_if.
  - destruct (string2ll_magnitude (dec_rec 19 (- v)) (- v)) as (d & p & -> & Hd & Hl);
      [apply magnitude_dec; [lia|split; [lia|done]]|unfold ULLONG_MAX; lia|].
    unfold string2ll. cbn [Z.eqb Pos.eqb andb]. rewrite andb_false_r.
    change (drop 1 (c_minus :: d :: p)) with (d :: p). cbv iota beta. rewrite_if_true. rewrite Hl.
    cbn [mbind option_bind]. change (u64 (u64 (- (LLONG_MIN + 1)) + 1)) with (2 ^ 63).
    rewrite_if_false. rewrite swrap_wrap, i64_small by lia. f_equal. lia.
  - destruct (Z.eq_dec v 0) as [->|]; [done|].
    destruct (string2ll_magnitude (dec_rec 19 v) v) as (d & p & -> & Hd & Hl);
      [apply magnitude_dec; [lia|split; [lia|done]]|unfold ULLONG_MAX; lia|].
    unfold string2ll. rewrite (proj2 (Z.eqb_neq d c_0)) by lia. rewrite andb_false_r.
    rewrite (proj2 (Z.eqb_neq d c_minus)) by lia. cbv iota beta zeta. rewrite_if_true. rewrite Hl.
    cbn [mbind option_bind]. unfold LLONG_MAX. rewrite_if_false. by rewrite i64_small by lia.
Qed.

(** ** The theorems *)

(** C36. [string2ll] accepts exactly the canonical decimal texts of the 64-bit
    integers (no sign but a minus, no leading zero, nothing around) and returns
    the number: it neither accepts another text nor overflows on any input. *)
Theorem string2ll_correct s v :
  string2ll s = Some v <-> LLONG_MIN <= v <= LLONG_MAX /\ s = decimal v.
Proof.
  split; [apply string2ll_sound|]. intros [Hv ->]. by apply string2ll_complete.
Qed.

(** [ll2string] and back: when the buffer has room for the text and its
    terminator, [ll2string] writes the canonical text of the number, terminated,
    leaves the rest of the buffer alone, and [string2ll] reads the number back;
    otherwise it returns 0 and touches nothing. *)
Theorem ll2string_roundtrip dst dstlen v :
  LLONG_MIN <= v <= LLONG_MAX -> dstlen <= zlen dst ->
  if sdigits10 v <? dstlen then
    exists dst', ll2string dst dstlen v = Some (dst', sdigits10 v) /\
      dst' = decimal v ++ 0 :: drop (Z.to_nat (sdigits10 v + 1)) dst /\
      string2ll (take (Z.to_nat (sdigits10 v)) dst') = Some v
  else ll2string dst dstlen v = Some (dst, 0).
Proof.
  unfold LLONG_MIN, LLONG_MAX. intros Hv Hd. rewrite sdigits10_zlen, ll2string_spec by lia.
  destruct (Z.ltb_spec (zlen (decimal v)) dstlen), (Z.leb_spec dstlen (zlen (decimal v))); try lia; [|done].
  eexists. split_and!; [done..|]. rewrite zlen_to_nat, take_app_length.
  apply string2ll_complete. unfold LLONG_MIN, LLONG_MAX. lia.
Qed.

Lemma ll2string_roundtrip_witness :
  LLONG_MIN <= -120 <= LLONG_MAX /\
  exists dst', ll2string (replicate 8 7) 8 (-120) = Some (dst', 4) /\
    dst' = decimal (-120) ++ 0 :: drop 5 (replicate 8 7) /\
    string2ll (take 4 dst') = Some (-120).
Proof.
  split; [vm_compute; intuition congruence|].
  apply (ll2string_roundtrip (replicate 8 7) 8 (-120)); vm_compute; intuition congruence.
Defined.
