(* ===== verification/Glob.v ===== *)
(** * Glob patterns: what [stringmatchlen] computes

    A pattern is parsed into items, and the items are matched against a string
    by a declarative relation in which a star stands for any substring. The
    backtracking loop of [stringmatchlen] decides that relation. *)

From stdpp Require Import base list option.
From Stdlib Require Import ZArith Lia Bool.
From S2P Require Import Prelude Util.

Local Open Scope Z_scope.

(** ** Patterns as syntax *)

Inductive class_item :=
| CEsc (c : Z)
| CRange (a b : Z)
| CChar (c : Z).

Inductive glob :=
| GStar
| GAny
| GClass (neg : bool) (items : list class_item)
| GLit (c : Z).

(** A class ends at the first unescaped bracket or at the end of the pattern. *)
Fixpoint parse_class (fuel : nat) (p : list Z) : list class_item * list Z :=
  match fuel, p with
  | S fuel', c :: p' =>
      if c =? c_backslash then
        match p' with
        | e :: p'' => let '(its, r) := parse_class fuel' p'' in (CEsc e :: its, r)
        | [] => ([CChar c], [])
        end
      else if c =? c_rbracket then ([], p')
      else
        match p' with
        | m :: b :: p'' =>
            if m =? c_minus then let '(its, r) := parse_class fuel' p'' in (CRange c b :: its, r)
            else let '(its, r) := parse_class fuel' p' in (CChar c :: its, r)
        | _ => let '(its, r) := parse_class fuel' p' in (CChar c :: its, r)
        end
  | _, _ => ([], p)
  end.

Definition class_of (p : list Z) : bool * list class_item * list Z :=
  let neg := at_ p 0 =? c_caret in
  let p := if (neg : bool) then drop 1 p else p in
  let '(its, r) := parse_class (length p) p in (neg, its, r).

Fixpoint parse (fuel : nat) (p : list Z) : list glob :=
  match fuel, p with
  | S fuel', c :: p' =>
      if c =? c_star then GStar :: parse fuel' p'
      else if c =? c_question then GAny :: parse fuel' p'
      else if c =? c_lbracket then
        let '(neg, its, r) := class_of p' in GClass neg its :: parse fuel' r
      else if c =? c_backslash then
        match p' with
        | e :: p'' => GLit e :: parse fuel' p''
        | [] => [GLit c]
        end
      else GLit c :: parse fuel' p'
  | _, _ => []
  end.

Definition glob_of (p : list Z) : list glob := parse (length p) p.

(** ** Matching *)

Definition item_matches (nocase : bool) (c : Z) (i : class_item) : bool :=
  match i with
  | CEsc e => e =? c
  | CRange a b =>
      let '(lo, hi) := (Z.min a b, Z.max a b) in
      if nocase then (tolower lo <=? tolower c) && (tolower c <=? tolower hi)
      else (lo <=? c) && (c <=? hi)
  | CChar e => char_eq nocase e c
  end.

Inductive gmatch (nocase : bool) : list glob -> list Z -> Prop :=
| gm_nil : gmatch nocase [] []
| gm_star g s1 s2 : gmatch nocase g s2 -> gmatch nocase (GStar :: g) (s1 ++ s2)
| gm_any g c s : gmatch nocase g s -> gmatch nocase (GAny :: g) (c :: s)
| gm_class g neg its c s :
    xorb neg (existsb (item_matches nocase c) its) = true ->
    gmatch nocase g s -> gmatch nocase (GClass neg its :: g) (c :: s)
| gm_lit g e c s : char_eq nocase e c = true -> gmatch nocase g s -> gmatch nocase (GLit e :: g) (c :: s).

(** ** Parsing *)

Lemma parse_class_shorter n p its r : parse_class n p = (its, r) -> (length r <= length p)%nat.
Proof.
  revert p its r; induction n as [|n IH]; intros p its r; cbn; [intros; by simplify_eq|].
  destruct p as [|c p]; [intros; by simplify_eq|].
  repeat case_if; try (intros; simplify_eq; cbn; lia).
  - destruct p as [|e p]; [intros; simplify_eq; cbn; lia|].
    destruct (parse_class n p) as [its' r'] eqn:E1. intros; simplify_eq. apply IH in E1. cbn. lia.
  - destruct p as [|m [|b p]]; try case_if;
      match goal with |- (let '(_, _) := ?x in _) = _ -> _ => destruct x as [its' r'] eqn:E2 end;
      intros; simplify_eq; apply IH in E2; cbn in *; lia.
Qed.

Lemma class_of_shorter p neg its r : class_of p = (neg, its, r) -> (length r <= length p)%nat.
Proof.
  unfold class_of. destruct (at_ p 0 =? c_caret).
  - destruct (parse_class _ _) as [its' r'] eqn:E. intros; simplify_eq.
    apply parse_class_shorter in E. rewrite length_drop in E. lia.
  - destruct (parse_class _ _) as [its' r'] eqn:E. intros; simplify_eq.
    by apply parse_class_shorter in E.
Qed.

Lemma parse_fuel n p : (length p <= n)%nat -> parse n p = glob_of p.
Proof.
  unfold glob_of.
  assert (forall n m p, (length p <= n)%nat -> (length p <= m)%nat -> parse n p = parse m p) as H.
  { clear. induction n as [|n IH]; intros [|m] p Hn Hm; destruct p as [|c p]; cbn in *; try done; try lia.
    repeat case_if; try (rewrite (IH m p) by lia; done).
    - destruct (class_of p) as [[neg its] r] eqn:E'. apply class_of_shorter in E'.
      rewrite (IH m r) by lia. done.
    - destruct p as [|e p]; [done|]. cbn in *. rewrite (IH m p) by lia. done. }
  intros. by apply H.
Qed.

(** The first item of a pattern. *)
Lemma glob_of_cons c p :
  glob_of (c :: p) =
    if c =? c_star then GStar :: glob_of p
    else if c =? c_question then GAny :: glob_of p
    else if c =? c_lbracket then let '(neg, its, r) := class_of p in GClass neg its :: glob_of r
    else if c =? c_backslash then
      match p with e :: p' => GLit e :: glob_of p' | [] => [GLit c] end
    else GLit c :: glob_of p.
Proof.
  unfold glob_of at 1. cbn [length parse]. repeat case_if; try done.
  - destruct (class_of p) as [[neg its] r] eqn:E'. apply class_of_shorter in E'.
    by rewrite parse_fuel.
  - destruct p as [|e p]; [done|]. cbn [length]. by rewrite parse_fuel by lia.
Qed.

Lemma orb_if (x m r : bool) : (if x then true else m) || r = m || (x || r).
Proof. by destruct x, m. Qed.

(** The tests of the loop on the items it meets. *)
Lemma range_test (nocase : bool) a b c :
  (let '(start, stop) := if b <? a then (b, a) else (a, b) in
   let '(start, stop, c') :=
     if nocase then (tolower start, tolower stop, tolower c) else (start, stop, c) in
   (start <=? c') && (c' <=? stop)) = item_matches nocase c (CRange a b).
Proof.
  cbn [item_matches]. destruct (Z.ltb_spec b a).
  - rewrite Z.min_r, Z.max_l by lia. by destruct nocase.
  - rewrite Z.min_l, Z.max_r by lia. by destruct nocase.
Qed.

Lemma char_test (nocase : bool) a c :
  (if negb nocase then a =? c else tolower a =? tolower c) = item_matches nocase c (CChar a).
Proof. by destruct nocase. Qed.

(** The loop over a class tests the items as they are parsed. *)
Lemma class_loop_parse n n' p c nocase m :
  (length p < n)%nat -> (length p <= n')%nat ->
  class_loop n p c nocase m =
    let '(its, r) := parse_class n' p in (m || existsb (item_matches nocase c) its, r).
Proof.
  revert n' p m; induction n as [|n IH]; intros n' p m Hn Hn'; [lia|].
  destruct p as [|c0 p].
  { destruct n'; cbn; by rewrite orb_false_r. }
  destruct n' as [|n']; [cbn in *; lia|]. cbn [class_loop parse_class].
  rewrite char_test. change (at_ (c0 :: p) 0) with c0. cbn [length] in Hn, Hn'.
  rewrite !zlen_cons. pose proof (zlen_nonneg p) as Hp.
  rewrite (proj2 (Z.eqb_neq (1 + zlen p) 0)) by lia.
  destruct (Z.eqb_spec c0 c_backslash) as [->|Hb].
  { destruct p as [|e p].
    - cbn [andb]. change (2 <=? 1 + zlen []) with false. change (3 <=? 1 + zlen []) with false.
      cbn [andb]. change (c_backslash =? c_rbracket) with false.
      change (drop 1 [c_backslash]) with (@nil Z). rewrite (IH 0%nat) by (cbn; lia).
      cbn [parse_class existsb]. by rewrite orb_if.
    - rewrite zlen_cons in *. pose proof (zlen_nonneg p).
      rewrite (proj2 (Z.leb_le 2 (1 + (1 + zlen p)))) by lia. cbn [andb].
      change (drop 2 (c_backslash :: e :: p)) with p. change (at_ (c_backslash :: e :: p) 1) with e.
      cbn [length] in *. rewrite (IH n') by lia. destruct (parse_class n' p) as [its r].
      cbn [existsb item_matches]. by rewrite orb_if. }
  rewrite andb_false_l. destruct (Z.eqb_spec c0 c_rbracket) as [->|Hr].
  { change (drop 1 (c_rbracket :: p)) with p. cbn. by rewrite orb_false_r. }
  change (drop 1 (c0 :: p)) with p.
  assert (forall m', class_loop n p c nocase m' =
    let '(its, r) := parse_class n' p in (m' || existsb (item_matches nocase c) its, r)) as IHp
    by (intros; apply IH; lia).
  assert ((let '(its, r) := parse_class n' p in
     ((if item_matches nocase c (CChar c0) then true else m) || existsb (item_matches nocase c) its, r)) =
    (let '(its, r) := (let '(its, r) := parse_class n' p in (CChar c0 :: its, r)) in
     (m || existsb (item_matches nocase c) its, r))) as Hchar.
  { destruct (parse_class n' p) as [its r]. cbn [existsb]. by rewrite orb_if. }
  destruct p as [|x [|b p]].
  - cbn [andb]. rewrite IHp. exact Hchar.
  - change (3 <=? 1 + zlen [x]) with false. cbn [andb]. rewrite IHp. exact Hchar.
  - rewrite !zlen_cons. pose proof (zlen_nonneg p).
    rewrite (proj2 (Z.leb_le 3 (1 + (1 + (1 + zlen p))))) by lia. cbn [andb].
    change (at_ (c0 :: x :: b :: p) 1) with x. change (at_ (c0 :: x :: b :: p) 2) with b.
    destruct (Z.eqb_spec x c_minus) as [->|Hx]; [|rewrite IHp; exact Hchar].
    pose proof (range_test nocase c0 b c) as Hrt.
    destruct (if b <? c0 then (b, c0) else (c0, b)) as [start stop].
    destruct (if nocase then (tolower start, tolower stop, tolower c) else (start, stop, c))
      as [[start' stop'] c'].
    rewrite Hrt. change (drop 3 (c0 :: c_minus :: b :: p)) with p. cbn [length] in *.
    rewrite (IH n') by lia. destruct (parse_class n' p) as [its r]. cbn [existsb]. by rewrite orb_if.
Qed.

(** ** The matching relation *)

Section Match.
Context (nocase : bool).

Lemma gmatch_star_inv g s :
  gmatch nocase (GStar :: g) s <-> exists s1 s2, s = s1 ++ s2 /\ gmatch nocase g s2.
Proof.
  split.
  - intros H. inversion H; subst. by eexists _, _.
  - intros (s1 & s2 & -> & H). by constructor.
Qed.

Lemma gmatch_star_star g s : gmatch nocase (GStar :: GStar :: g) s <-> gmatch nocase (GStar :: g) s.
Proof.
  rewrite !gmatch_star_inv. split.
  - intros (s1 & s2 & -> & (s3 & s4 & -> & H)%gmatch_star_inv).
    exists (s1 ++ s3), s4. by rewrite app_assoc.
  - intros (s1 & s2 & -> & H). exists s1, s2. split; [done|]. apply (gm_star _ _ []). done.
Qed.

Lemma glob_of_star p : glob_of (c_star :: p) = GStar :: glob_of p.
Proof. by rewrite glob_of_cons. Qed.

(** Consecutive stars are one star. *)
Lemma skip_stars_glob p s :
  gmatch nocase (GStar :: glob_of p) s <-> gmatch nocase (GStar :: glob_of (skip_stars p)) s.
Proof.
  induction p as [|c p IH]; cbn [skip_stars]; [done|].
  destruct (Z.eqb_spec c c_star) as [->|]; [|done].
  by rewrite glob_of_star, gmatch_star_star.
Qed.

Lemma skip_stars_head p c p' : skip_stars p = c :: p' -> c <> c_star.
Proof.
  induction p as [|x p IH]; cbn [skip_stars]; [done|].
  destruct (Z.eqb_spec x c_star); [done|]. intros; by simplify_eq.
Qed.

Lemma skip_stars_length p : (length (skip_stars p) <= length p)%nat.
Proof. induction p as [|c p IH]; cbn; [lia|]. case_if; cbn; lia. Qed.

(** Only stars match the empty string. *)
Lemma gmatch_nil_head c p : c <> c_star -> ~ gmatch nocase (glob_of (c :: p)) [].
Proof.
  intros Hc H. rewrite glob_of_cons in H. rewrite (proj2 (Z.eqb_neq _ _) Hc) in H.
  repeat case_if_in H; try (by inversion H).
  - destruct (class_of p) as [[neg its] r]. by inversion H.
  - destruct p; by inversion H.
Qed.

Lemma gmatch_nil p : gmatch nocase (glob_of p) [] <-> skip_stars p = [].
Proof.
  induction p as [|c p IH]; cbn [skip_stars].
  { split; [done|]. constructor. }
  destruct (Z.eqb_spec c c_star) as [->|Hc].
  - rewrite glob_of_star, <- IH, gmatch_star_inv. split.
    + by intros (s1 & s2 & [-> ->]%symmetry%app_nil & H).
    + intros H. by exists [], [].
  - split; [|done]. intros H. by apply gmatch_nil_head in H.
Qed.

(** [rec] decides the relation on shorter patterns and nonempty strings. *)
Definition decides (rec : list Z -> list Z -> bool) (p : list Z) : Prop :=
  forall s, s <> [] -> rec p s = true <-> gmatch nocase (glob_of p) s.

Lemma match_rest_spec rec p s :
  decides rec p -> match_rest rec p s = true <-> gmatch nocase (glob_of p) s.
Proof.
  intros Hrec. unfold match_rest. destruct s as [|c s]; [|by apply Hrec].
  rewrite gmatch_nil. by destruct (skip_stars p).
Qed.

Lemma star_loop_spec rec c p s :
  c <> c_star -> decides rec (c :: p) ->
  star_loop rec (c :: p) s = true <-> gmatch nocase (GStar :: glob_of (c :: p)) s.
Proof.
  intros Hc Hrec. rewrite gmatch_star_inv. induction s as [|x s IH]; cbn [star_loop].
  { split; [done|]. intros (s1 & s2 & [-> ->]%symmetry%app_nil & H). by apply gmatch_nil_head in H. }
  rewrite orb_true_iff, IH, (Hrec (x :: s) ltac:(done)). split.
  - intros [H|(s1 & s2 & -> & H)]; [by exists [], (x :: s)|by exists (x :: s1), s2].
  - intros ([|y s1] & s2 & E & H); cbn in E; simplify_eq; [by left|]. right. by exists s1, s2.
Qed.

Lemma match_loop_spec fuel p s :
  (length p < fuel)%nat ->
  match_loop fuel p s nocase = true <-> (if bool_decide (s = []) then p = [] else gmatch nocase (glob_of p) s).
Proof.
  revert p s; induction fuel as [|fuel IH]; intros p s Hp; [lia|].
  assert (forall q, (length q < length p)%nat -> decides (fun p s => match_loop fuel p s nocase) q) as Hrec.
  { intros q Hq t Ht. rewrite IH by lia. by rewrite bool_decide_eq_false_2. }
  destruct s as [|sc s].
  { rewrite bool_decide_eq_true_2 by done. destruct p; cbn; done. }
  rewrite bool_decide_eq_false_2 by done. destruct p as [|pc p].
  { cbn [match_loop]. split; [done|]. intros H. inversion H. }
  cbn [match_loop]. destruct (Z.eqb_spec pc c_star) as [->|Hstar].
  { rewrite glob_of_star, skip_stars_glob. pose proof (skip_stars_length p).
    destruct (skip_stars p) as [|c p'] eqn:E.
    - split; [|done]. intros _. rewrite <- (app_nil_r (sc :: s)). constructor. constructor.
    - apply star_loop_spec; [by eapply skip_stars_head|]. apply Hrec. cbn in *. lia. }
  rewrite glob_of_cons, (proj2 (Z.eqb_neq _ _) Hstar).
  destruct (Z.eqb_spec pc c_question) as [->|Hany].
  { rewrite match_rest_spec by (apply Hrec; cbn; lia). split; [by constructor|].
    intros H. by inversion H. }
  destruct (Z.eqb_spec pc c_lbracket) as [->|Hcls].
  { unfold class_of. set (neg := at_ p 0 =? c_caret). set (p1 := if neg then drop 1 p else p).
    assert (length p1 <= length p)%nat by (unfold p1; destruct neg; rewrite ?length_drop; lia).
    rewrite (class_loop_parse _ (length p1)) by lia.
    destruct (parse_class (length p1) p1) as [its r] eqn:E. apply parse_class_shorter in E. cbn [orb].
    assert ((if neg then negb (existsb (item_matches nocase sc) its) else existsb (item_matches nocase sc) its)
      = xorb neg (existsb (item_matches nocase sc) its)) as -> by (by destruct neg).
    destruct (xorb neg _) eqn:Hx; cbn [negb].
    - rewrite match_rest_spec by (apply Hrec; cbn; lia). split; [by constructor|].
      intros H'. by inversion H'.
    - split; [done|]. intros H'. inversion H'. congruence. }
  assert (forall e q, (length q <= length p)%nat ->
    (if char_eq nocase e sc then match_rest (fun p s => match_loop fuel p s nocase) q s else false) = true <->
    gmatch nocase (GLit e :: glob_of q) (sc :: s)) as Hlit.
  { intros e q Hq. destruct (char_eq nocase e sc) eqn:He.
    - rewrite match_rest_spec by (apply Hrec; cbn; lia). split; [by constructor|].
      intros H'. by inversion H'.
    - split; [done|]. intros H'. inversion H'. congruence. }
  destruct (Z.eqb_spec pc c_backslash) as [->|Hb]; cbn [andb].
  - destruct p as [|e p].
    + change (2 <=? zlen [c_backslash]) with false. cbn iota. apply (Hlit c_backslash []). cbn. lia.
    + rewrite (proj2 (Z.leb_le 2 _)) by zlen. apply (Hlit e p). cbn. lia.
  - apply (Hlit pc p). lia.
Qed.

End Match.

(** C15. Glob matching: on a nonempty string [stringmatchlen] decides whether the
    string matches the parsed pattern (a star is any substring, a question mark
    any character, a class its members, and everything else itself); on the
    empty string it only accepts the empty pattern. *)
Theorem stringmatchlen_correct p s nocase :
  stringmatchlen p s nocase = true <->
  (if bool_decide (s = []) then p = [] else gmatch nocase (glob_of p) s).
Proof. apply match_loop_spec. lia. Qed.

(** The pattern of a single star rejects the empty string, although a star
    matches the empty substring everywhere else. *)
Theorem stringmatchlen_star_empty nocase :
  gmatch nocase (glob_of [c_star]) [] /\ stringmatchlen [c_star] [] nocase = false.
Proof. split; [|done]. apply gmatch_nil. done. Qed.
