(* ===== verification/Localtime.v ===== *)
(** * Broken-down time without locks ([localtime.c])

    [nolocks_localtime] converts seconds since the epoch to a [struct tm] with
    two loops, over the years and over the months. Times are 64-bit and the
    fields of the structure are ints; the theorem gives the range in which none
    of them overflows. *)

From stdpp Require Import base list option.
From Stdlib Require Import ZArith Lia Bool.
From S2P Require Import Prelude.

Local Open Scope Z_scope.

Record tm := mk_tm {
  tm_sec : Z; tm_min : Z; tm_hour : Z;
  tm_mday : Z; tm_mon : Z; tm_year : Z;
  tm_wday : Z; tm_yday : Z; tm_isdst : Z;
}.

(** C division and remainder truncate toward zero. *)
Definition is_leap_year (year : Z) : Z :=
  if negb (Z.rem year 4 =? 0) then 0
  else if negb (Z.rem year 100 =? 0) then 1
  else if negb (Z.rem year 400 =? 0) then 0
  else 1.

Fixpoint year_loop (fuel : nat) (days year : Z) : option (Z * Z) :=
  match fuel with
  | O => None
  | S fuel' =>
      let days_this_year := 365 + is_leap_year year in
      if days <? days_this_year then Some (days, year)
      else year_loop fuel' (days - days_this_year) (year + 1)
  end.

Definition mdays (year : Z) : list Z :=
  [31; 28 + is_leap_year year; 31; 30; 31; 30; 31; 31; 30; 31; 30; 31].

(** The table is walked from month [mon]; reading past December is undefined. *)
Fixpoint month_loop (table : list Z) (days mon : Z) : option (Z * Z) :=
  match table with
  | [] => None
  | md :: table' => if md <=? days then month_loop table' (days - md) (mon + 1) else Some (days, mon)
  end.

(** The loop over the years ends within [days / 365 + 1] iterations. *)
Definition nolocks_localtime (t tz dst : Z) : option tm :=
  let secs_min := 60 in
  let secs_hour := 3600 in
  let secs_day := 3600 * 24 in
  let t := t - tz in
  let t := t + 3600 * dst in
  let days := Z.quot t secs_day in
  let seconds := Z.rem t secs_day in
  let hour := Z.quot seconds secs_hour in
  let min := Z.quot (Z.rem seconds secs_hour) secs_min in
  let sec := Z.rem (Z.rem seconds secs_hour) secs_min in
  let wday := Z.rem (days + 4) 7 in
  '(days, year) ← year_loop (S (Z.to_nat (days / 365))) days 1970;
  let yday := days in
  '(days, mon) ← month_loop (mdays year) days 0;
  Some (mk_tm sec min hour (days + 1) mon (year - 1900) wday yday dst).

(** ** Reference calendar

    The Gregorian calendar, stated without the code: its leap years, the lengths
    of its months by name, and the day after a date. *)

Definition leap (y : Z) : bool := (y mod 4 =? 0) && (negb (y mod 100 =? 0) || (y mod 400 =? 0)).

(** Months count from 0. *)
Definition month_length (y m : Z) : Z :=
  if m =? 1 then if leap y then 29 else 28
  else if bool_decide (m ∈ [3; 5; 8; 10]) then 30
  else 31.

(** Days from the epoch to the first of January of a year. *)
Definition days_before_year (y : Z) : Z :=
  365 * (y - 1970) + ((y - 1) / 4 - (y - 1) / 100 + (y - 1) / 400 - 477).

Definition sum (l : list Z) : Z := foldr Z.add 0 l.

(** Days from the epoch to a date; days count from 1. *)
Definition days_from_civil (y m d : Z) : Z :=
  days_before_year y + sum (map (month_length y) (seqZ 0 m)) + (d - 1).

(** A date, and the day after it. *)
Definition date : Type := Z * Z * Z.

Definition next_day (x : date) : date :=
  let '(y, m, d) := x in
  if d <? month_length y m then (y, m, d + 1)
  else if m <? 11 then (y, m + 1, 1)
  else (y + 1, 0, 1).

Lemma leap_year_bounds y : 0 <= is_leap_year y <= 1.
Proof. unfold is_leap_year. repeat case_if; lia. Qed.

Lemma days_before_year_succ y :
  0 <= y -> days_before_year (y + 1) = days_before_year y + 365 + is_leap_year y.
Proof.
  intros Hy. unfold days_before_year, is_leap_year. rewrite !Z.rem_mod_nonneg by lia.
  replace (y + 1 - 1) with y by lia. repeat case_if; dlia.
Qed.

(** The code's leap years and month table are those of the calendar. *)
Lemma is_leap_year_leap y : 0 <= y -> is_leap_year y = Z.b2z (leap y).
Proof.
  intros Hy. unfold is_leap_year, leap. rewrite !Z.rem_mod_nonneg by lia.
  destruct (Z.eqb_spec (y mod 4) 0), (Z.eqb_spec (y mod 100) 0), (Z.eqb_spec (y mod 400) 0); (done || dlia).
Qed.

Lemma mdays_calendar y : 0 <= y -> mdays y = map (month_length y) (seqZ 0 12).
Proof. intros Hy. unfold mdays. rewrite is_leap_year_leap by done. cbn. unfold month_length. cbn. by destruct (leap y). Qed.

Lemma mdays_month y i : 0 <= y -> (i < 12)%nat -> mdays y !! i = Some (month_length y (Z.of_nat i)).
Proof. intros Hy Hi. rewrite mdays_calendar by done. rewrite list_lookup_fmap, lookup_seqZ_lt by lia. done. Qed.

Lemma mdays_take y i : 0 <= y -> (i < 12)%nat -> take i (mdays y) = map (month_length y) (seqZ 0 (Z.of_nat i)).
Proof.
  intros Hy Hi. rewrite mdays_calendar by done. replace 12 with (Z.of_nat i + (12 - Z.of_nat i)) by lia. rewrite seqZ_app, map_app by lia.
  rewrite take_app_length'; [done|]. rewrite length_map, length_seqZ. lia.
Qed.

Lemma sum_app l k : sum (l ++ k) = sum l + sum k.
Proof. induction l as [|x l IH]; [done|]. change (x + sum (l ++ k) = x + sum l + sum k). lia. Qed.

(** The count of days goes up by one from each date to the next. *)
Lemma days_from_civil_next y m d : 0 <= y -> 0 <= m < 12 -> 1 <= d <= month_length y m ->
  let '(y', m', d') := next_day (y, m, d) in days_from_civil y' m' d' = days_from_civil y m d + 1.
Proof.
  intros Hy Hm Hd. unfold next_day, days_from_civil. destruct (Z.ltb_spec d (month_length y m)); [lia|]. destruct (Z.ltb_spec m 11).
  - rewrite (seqZ_app 0 m 1) by lia. rewrite map_app, sum_app. assert (seqZ (0 + m) 1 = [m]) as -> by (rewrite seqZ_cons by lia; f_equal; by apply seqZ_nil). change (sum (map (month_length y) [m])) with (month_length y m + 0). lia.
  - replace m with 11 in * by lia. change (map (month_length (y + 1)) (seqZ 0 0)) with (@nil Z). rewrite days_before_year_succ, is_leap_year_leap by done. change (month_length y 11) with 31 in *.
    assert (sum (map (month_length y) (seqZ 0 11)) = 334 + Z.b2z (leap y)) as -> by (unfold month_length; by destruct (leap y)). change (sum []) with 0. lia.
Qed.

Lemma year_loop_spec fuel days year :
  0 <= days < 365 * Z.of_nat fuel -> 1970 <= year ->
  exists days' year', year_loop fuel days year = Some (days', year') /\
    0 <= days' < 365 + is_leap_year year' /\ year <= year' <= year + days / 365 /\
    days_before_year year + days = days_before_year year' + days'.
Proof.
  revert days year; induction fuel as [|fuel IH]; intros days year Hd Hy; [lia|].
  cbn [year_loop]. pose proof (leap_year_bounds year). case_if.
  - exists days, year. split_and!; try lia; try done. pose proof (Z.div_pos days 365). lia.
  - destruct (IH (days - (365 + is_leap_year year)) (year + 1)) as (days' & year' & -> & H1 & H2 & H3);
      [lia..|].
    exists days', year'. split_and!; try done; try lia.
    + assert ((days - (365 + is_leap_year year)) / 365 <= days / 365 - 1); [|lia].
      replace (days / 365 - 1) with ((days - 365) / 365) by dlia. apply Z.div_le_mono; lia.
    + rewrite days_before_year_succ in H3; lia.
Qed.

Lemma month_loop_spec table days mon :
  0 <= days < sum table -> Forall (fun m => 0 < m) table ->
  exists days' i md, month_loop table days mon = Some (days', mon + Z.of_nat i) /\
    table !! i = Some md /\ 0 <= days' < md /\ days = sum (take i table) + days'.
Proof.
  intros Hd Hpos. revert days mon Hd; induction Hpos as [|md table Hmd _ IH]; intros days mon Hd.
  { cbn in Hd. lia. }
  cbn [month_loop]. change (sum (md :: table)) with (md + sum table) in Hd. case_if.
  - destruct (IH (days - md) (mon + 1)) as (days' & i & md' & -> & Hi & Hlt & E'); [lia|].
    exists days', (S i), md'. split_and!; try done; try lia.
    + do 2 f_equal. lia.
    + change (sum (take (S i) (md :: table))) with (md + sum (take i table)). lia.
  - exists days, 0%nat, md. split_and!; try done; try lia. do 2 f_equal. lia.
Qed.

(** C39. The date is the right one in the Gregorian calendar: for a time from the
    epoch on, after the corrections for the time zone and daylight saving,
    [nolocks_localtime] returns, every field is in its calendar range, and the
    fields name the very second they were computed from; the year fits an int. *)
Theorem nolocks_localtime_correct t tz dst :
  0 <= t - tz + 3600 * dst < 2 ^ 55 ->
  exists r, nolocks_localtime t tz dst = Some r /\
    0 <= tm_sec r < 60 /\ 0 <= tm_min r < 60 /\ 0 <= tm_hour r < 24 /\
    0 <= tm_mon r < 12 /\
    1 <= tm_mday r <= month_length (tm_year r + 1900) (tm_mon r) /\
    70 <= tm_year r <= INT32_MAX /\
    let days := days_from_civil (tm_year r + 1900) (tm_mon r) (tm_mday r) in
    days * 86400 + tm_hour r * 3600 + tm_min r * 60 + tm_sec r = t - tz + 3600 * dst /\
    tm_wday r = (days + 4) mod 7 /\ tm_yday r = days - days_before_year (tm_year r + 1900) /\
    tm_isdst r = dst.
Proof.
  intros Ht. unfold nolocks_localtime. set (u := t - tz + 3600 * dst) in *. cbv zeta.
  change (3600 * 24) with 86400. rewrite (Z.rem_mod_nonneg u), (Z.quot_div_nonneg u) by lia.
  set (D := u / 86400). set (S := u mod 86400).
  assert (0 <= S < 86400) by (apply Z.mod_pos_bound; lia). assert (0 <= D) by (apply Z.div_pos; lia).
  assert (u = 86400 * D + S) by (apply Z.div_mod; lia).
  rewrite (Z.rem_mod_nonneg S), (Z.quot_div_nonneg S), (Z.rem_mod_nonneg (D + 4)) by lia.
  assert (0 <= S mod 3600 < 3600) by (apply Z.mod_pos_bound; lia).
  rewrite (Z.rem_mod_nonneg (S mod 3600)), (Z.quot_div_nonneg (S mod 3600)) by lia.
  destruct (year_loop_spec (Datatypes.S (Z.to_nat (D / 365))) D 1970) as (days & year & -> & Hdays & Hyear & Eyear).
  { assert (0 <= D / 365) by (apply Z.div_pos; lia). dlia. } { lia. }
  cbn [mbind option_bind]. pose proof (leap_year_bounds year).
  destruct (month_loop_spec (mdays year) days 0) as (days' & i & md & -> & Hi & Hlt & Eday).
  { cbn. lia. } { unfold mdays. repeat constructor; lia. }
  cbn [mbind option_bind]. eexists; split; [done|]. cbn [tm_sec tm_min tm_hour tm_mon tm_mday tm_year tm_wday tm_yday tm_isdst].
  assert (i < 12)%nat by (apply lookup_lt_Some in Hi; done).
  assert (days_before_year 1970 = 0) as E1970 by reflexivity. rewrite E1970 in Eyear.
  assert (D / 365 < 2 ^ 31 - 1970) by dlia.
  replace (year - 1900 + 1900) with year by lia. rewrite Z.add_0_l.
  assert (days_from_civil year (Z.of_nat i) (days' + 1) = D) as HD.
  { unfold days_from_civil. rewrite <- mdays_take by lia. lia. }
  rewrite mdays_month in Hi by lia. injection Hi as <-. rewrite HD. unfold INT32_MAX. split_and!; try lia; try done; dlia.
Qed.

Lemma nolocks_localtime_correct_witness :
  exists r, nolocks_localtime 951827696 (-3600) 0 = Some r /\
    0 <= tm_sec r < 60 /\ 0 <= tm_min r < 60 /\ 0 <= tm_hour r < 24 /\
    0 <= tm_mon r < 12 /\
    1 <= tm_mday r <= month_length (tm_year r + 1900) (tm_mon r) /\
    70 <= tm_year r <= INT32_MAX /\
    let days := days_from_civil (tm_year r + 1900) (tm_mon r) (tm_mday r) in
    days * 86400 + tm_hour r * 3600 + tm_min r * 60 + tm_sec r = 951827696 - (-3600) + 3600 * 0 /\
    tm_wday r = (days + 4) mod 7 /\ tm_yday r = days - days_before_year (tm_year r + 1900) /\
    tm_isdst r = 0.
Proof. apply (nolocks_localtime_correct 951827696 (-3600) 0). lia. Defined.
