(* ===== verification/Evict.v ===== *)
(** * Eviction: clocks, frequency counters and the pool of candidates ([evict.c])

    The pool is an array of 16 entries. Each entry owns a buffer for short keys;
    its key is NULL, or the content of that buffer, or a separately allocated
    string. Insertion moves entries with [memmove] and hands the buffer of a
    dropped entry to the new one, so the model keeps the identity of the buffers
    and their contents in a store. *)

From stdpp Require Import base list option gmap sorting.
From Stdlib Require Import ZArith Lia Bool.
From S2P Require Import Prelude.

Local Open Scope Z_scope.

(** ** Clocks and counters *)

Definition LRU_CLOCK_MAX : Z := 2 ^ 24 - 1.
Definition LRU_CLOCK_RESOLUTION : Z := 1000.
Definition LFU_INIT_VAL : Z := 5.

Definition getLRUClock (mstime : Z) : Z :=
  u32 (Z.land (Z.quot mstime LRU_CLOCK_RESOLUTION) LRU_CLOCK_MAX).

(** [cached] is [server.lruclock]. *)
Definition LRU_CLOCK (hz cached mstime : Z) : Z :=
  if Z.quot 1000 hz <=? LRU_CLOCK_RESOLUTION then cached else getLRUClock mstime.

Definition estimateObjectIdleTime (lruclock lru : Z) : Z :=
  if lru <=? lruclock then u64 ((lruclock - lru) * LRU_CLOCK_RESOLUTION)
  else u64 ((lruclock + (LRU_CLOCK_MAX - lru)) * LRU_CLOCK_RESOLUTION).

Definition LFUGetTimeInMinutes (unixtime : Z) : Z := u64 (Z.land (Z.quot unixtime 60) 65535).

Definition LFUTimeElapsed (unixtime ldt : Z) : Z :=
  let now := LFUGetTimeInMinutes unixtime in
  if ldt <=? now then u64 (now - ldt) else u64 (65535 - ldt + now).

(** [lucky] is the outcome of the floating point test [r < p], where
    [p = 1 / (max 0 (counter - LFU_INIT_VAL) * lfu_log_factor + 1)]. *)
Definition LFULogIncr (lucky : Z -> bool) (counter : Z) : Z :=
  if counter =? 255 then 255
  else
    let baseval := counter - LFU_INIT_VAL in
    let baseval := if baseval <? 0 then 0 else baseval in
    if lucky baseval then u8 (counter + 1) else counter.

Definition LFUDecrAndReturn (unixtime lfu_decay_time lru : Z) : Z :=
  let ldt := Z.shiftr lru 8 in
  let counter := Z.land lru 255 in
  let num_periods :=
    if negb (lfu_decay_time =? 0) then LFUTimeElapsed unixtime ldt / lfu_decay_time else 0 in
  if negb (num_periods =? 0) then
    if counter <? num_periods then 0 else u64 (counter - num_periods)
  else counter.

(** [updateLFU] of db.c: the new value of the 24-bit field [lru]. *)
Definition updateLFU (lucky : Z -> bool) (unixtime lfu_decay_time lru : Z) : Z :=
  let counter := LFUDecrAndReturn unixtime lfu_decay_time lru in
  let counter := LFULogIncr lucky (u8 counter) in
  wrap 24 (Z.lor (u64 (Z.shiftl (LFUGetTimeInMinutes unixtime) 8)) counter).

(** ** The memory limit *)

(** [None]: C_OK; [Some (logical, tofree)]: C_ERR. The level is not computed. *)
Definition getMaxmemoryState (maxmemory mem_reported overhead : Z) : option (Z * Z) :=
  if (maxmemory =? 0) || (mem_reported <=? maxmemory) then None
  else
    let mem_used := if overhead <? mem_reported then mem_reported - overhead else 0 in
    if mem_used <=? maxmemory then None
    else Some (mem_used, mem_used - maxmemory).

Definition overMaxmemoryAfterAlloc (maxmemory mem_used overhead moremem : Z) : bool :=
  if maxmemory =? 0 then false
  else if u64 (mem_used + moremem) <=? maxmemory then false
  else
    let mem_used := if overhead <? mem_used then mem_used - overhead else 0 in
    maxmemory <? u64 (mem_used + moremem).

(** ** The pool *)

Definition EVPOOL_SIZE : nat := 16.
Definition EVPOOL_CACHED_SDS_SIZE : Z := 255.

(** A non-NULL key: the buffer of an entry, or its own allocation. *)
Inductive keyptr :=
| KCached (b : nat)
| KOwned (s : list Z).

#[global] Instance keyptr_eq_dec : EqDecision keyptr.
Proof. solve_decision. Defined.

Record evictionPoolEntry := mk_pe {
  pe_idle : Z;
  pe_key : option keyptr;
  pe_cached : nat;
  pe_dbid : Z;
}.

(** The contents of the buffers. *)
Abbreviation bufs := (gmap nat (list Z)).

Definition evictionPoolAlloc : list evictionPoolEntry * bufs :=
  (map (fun j => mk_pe 0 None j 0) (seq 0 EVPOOL_SIZE),
   list_to_map (map (fun j => (j, replicate 255 0)) (seq 0 EVPOOL_SIZE))).

(** [MAXMEMORY_...] *)
Definition FLAG_LRU : Z := 1.
Definition FLAG_LFU : Z := 2.
Definition VOLATILE_TTL : Z := 512.

(** What the sampling gives for a key: the [lru] field of its value and its
    expire time. *)
Record sample := mk_sample { s_key : list Z; s_lru : Z; s_ttl : Z }.

(** The score of a sample; no result for an unknown policy. *)
Definition sample_idle (policy lruclock unixtime lfu_decay_time : Z) (s : sample) : option Z :=
  if negb (Z.land policy FLAG_LRU =? 0) then Some (estimateObjectIdleTime lruclock (s_lru s))
  else if negb (Z.land policy FLAG_LFU =? 0) then
    Some (u64 (255 - LFUDecrAndReturn unixtime lfu_decay_time (s_lru s)))
  else if policy =? VOLATILE_TTL then Some (u64 (ULLONG_MAX - s_ttl s))
  else None.

(** The first empty entry or entry with at least this idle time. *)
Fixpoint pool_slot (pool : list evictionPoolEntry) (idle : Z) : nat :=
  match pool with
  | [] => O
  | e :: pool' =>
      if bool_decide (pe_key e <> None) && (pe_idle e <? idle) then S (pool_slot pool' idle) else O
  end.

(** Make room: the slot to fill with the buffer it owns, after the moves, and
    the key freed; [None] when the element is not inserted. *)
Definition pool_room (pool : list evictionPoolEntry) (k : nat)
    : option (option (list evictionPoolEntry * nat * nat * list keyptr)) :=
  last ← pool !! (EVPOOL_SIZE - 1)%nat;
  if (k =? 0)%nat && bool_decide (pe_key last <> None) then Some None
  else
    match pool !! k with
    | Some (mk_pe _ None c _) => Some (Some (pool, k, c, []))
    | _ =>
        match pe_key last with
        | None =>
            e ← pool !! k;
            Some (Some (take k pool ++ e :: take (EVPOOL_SIZE - k - 1) (drop k pool), k, pe_cached last, []))
        | Some _ =>
            first ← pool !! O;
            let k := (k - 1)%nat in
            let freed := if bool_decide (pe_key first = Some (KCached (pe_cached first))) then []
                         else match pe_key first with Some p => [p] | None => [] end in
            Some (Some (take k (drop 1 pool) ++ drop k pool, k, pe_cached first, freed))
        end
    end.

(** Insert one candidate. *)
Definition pool_insert (pool : list evictionPoolEntry) (bs : bufs) (dbid idle : Z) (key : list Z)
    : option (list evictionPoolEntry * bufs * list keyptr) :=
  r ← pool_room pool (pool_slot pool idle);
  match r with
  | None => Some (pool, bs, [])
  | Some (pool, k, cached, freed) =>
      if (k <? length pool)%nat then
        let klen := zlen key in
        let '(bs, kp) :=
          if EVPOOL_CACHED_SDS_SIZE <? klen then (bs, KOwned key)
          else (<[cached := key]> bs, KCached cached) in
        Some (<[k := mk_pe idle (Some kp) cached dbid]> pool, bs, freed)
      else None
  end.

Fixpoint evictionPoolPopulate (policy lruclock unixtime lfu_decay_time dbid : Z)
    (samples : list sample) (pool : list evictionPoolEntry) (bs : bufs)
    : option (list evictionPoolEntry * bufs * list keyptr) :=
  match samples with
  | [] => Some (pool, bs, [])
  | s :: samples' =>
      idle ← sample_idle policy lruclock unixtime lfu_decay_time s;
      '(pool, bs, freed) ← pool_insert pool bs dbid idle (s_key s);
      '(pool, bs, freed') ← evictionPoolPopulate policy lruclock unixtime lfu_decay_time dbid samples' pool bs;
      Some (pool, bs, freed ++ freed')
  end.

(** The string a key pointer points to. *)
Definition key_str (bs : bufs) (p : keyptr) : option (list Z) :=
  match p with KCached b => bs !! b | KOwned s => Some s end.

(** The loop of [performEvictions] that picks the best candidate: from the last
    entry to the first; [found] tells whether the database still has the key. *)
Fixpoint pool_pick (n : nat) (found : Z -> list Z -> bool) (pool : list evictionPoolEntry) (bs : bufs)
    (freed : list keyptr) : option (list evictionPoolEntry * list keyptr * option (Z * list Z)) :=
  match n with
  | O => Some (pool, freed, None)
  | S k =>
      e ← pool !! k;
      match pe_key e with
      | None => pool_pick k found pool bs freed
      | Some p =>
          key ← key_str bs p;
          let freed := if bool_decide (p = KCached (pe_cached e)) then freed else freed ++ [p] in
          let pool := <[k := mk_pe 0 None (pe_cached e) (pe_dbid e)]> pool in
          if found (pe_dbid e) key then Some (pool, freed, Some (pe_dbid e, key))
          else pool_pick k found pool bs freed
      end
  end.

(** ** Counters: what they compute *)

Lemma land_low z n : 0 <= n -> Z.land z (2 ^ n - 1) = z mod 2 ^ n.
Proof. intros. rewrite <- Z.land_ones by lia. f_equal. rewrite Z.ones_equiv. lia. Qed.

Lemma LFUGetTimeInMinutes_spec t : 0 <= t -> LFUGetTimeInMinutes t = t / 60 mod 65536.
Proof.
  intros. unfold LFUGetTimeInMinutes. rewrite Z.quot_div_nonneg by lia.
  change 65535 with (2 ^ 16 - 1). rewrite land_low by lia.
  change (2 ^ 16) with 65536. pose proof (Z.mod_pos_bound (t / 60) 65536 ltac:(lia)). apply u64_small. lia.
Qed.

(** The elapsed time is one minute short when the 16-bit clock has wrapped. *)
Lemma LFUTimeElapsed_wrap t0 t1 :
  0 <= t0 -> t0 / 60 <= t1 / 60 < t0 / 60 + 65536 ->
  LFUTimeElapsed t1 (LFUGetTimeInMinutes t0) =
    t1 / 60 - t0 / 60 -
    (if LFUGetTimeInMinutes t0 <=? LFUGetTimeInMinutes t1 then 0 else 1).
Proof.
  intros H0 H1. assert (0 <= t1). { assert (0 <= t0 / 60) by (apply Z.div_pos; lia). dlia. }
  unfold LFUTimeElapsed. rewrite !LFUGetTimeInMinutes_spec by lia.
  set (a := t0 / 60) in *. set (b := t1 / 60) in *.
  pose proof (Z.mod_pos_bound a 65536 ltac:(lia)). pose proof (Z.mod_pos_bound b 65536 ltac:(lia)).
  case_if; rewrite u64_small by lia; dlia.
Qed.

Lemma LFULogIncr_range lucky c : 0 <= c < 256 -> c <= LFULogIncr lucky c <= 255 /\ LFULogIncr lucky c <= c + 1.
Proof.
  intros Hc. unfold LFULogIncr. repeat case_if; try lia; rewrite wrap_small; lia.
Qed.

(** ** The pool as a list of candidates *)

Record cand := mk_cand { c_idle : Z; c_key : list Z; c_dbid : Z }.

Definition entry_rep (bs : bufs) (e : evictionPoolEntry) (x : cand) : Prop :=
  pe_idle e = c_idle x /\ pe_dbid e = c_dbid x /\
  exists p, pe_key e = Some p /\ key_str bs p = Some (c_key x) /\
    (p = KCached (pe_cached e) \/ p = KOwned (c_key x)).

(** The candidates are in the first entries; every entry has its own buffer. *)
Record pool_rep (pool : list evictionPoolEntry) (bs : bufs) (L : list cand) : Prop := {
  rep_length : length pool = EVPOOL_SIZE;
  rep_cached : NoDup (map pe_cached pool);
  rep_split : exists P Q, pool = P ++ Q /\ Forall2 (entry_rep bs) P L /\
    Forall (fun e => pe_key e = None) Q;
}.

(** Number of candidates with a smaller idle time at the front. *)
Fixpoint slot (L : list cand) (idle : Z) : nat :=
  match L with
  | [] => O
  | x :: L' => if c_idle x <? idle then S (slot L' idle) else O
  end.

(** Sorted insertion; a full pool loses its first candidate. *)
Definition pool_add (L : list cand) (x : cand) : list cand :=
  let k := slot L (c_idle x) in
  if (length L <? EVPOOL_SIZE)%nat then take k L ++ x :: drop k L
  else if (k =? 0)%nat then L
  else drop 1 (take k L) ++ x :: drop k L.

Lemma slot_le L idle : (slot L idle <= length L)%nat.
Proof. induction L as [|x L IH]; cbn; [lia|]. case_if; lia. Qed.

Lemma pool_slot_rep bs P Q L idle :
  Forall2 (entry_rep bs) P L -> Forall (fun e => pe_key e = None) Q ->
  pool_slot (P ++ Q) idle = slot L idle.
Proof.
  intros HP HQ. induction HP as [|e x P L (Hi & _ & p & Hk & _) _ IH]; cbn.
  - destruct Q as [|e Q]; [done|]. inversion HQ; subst. cbn. rewrite bool_decide_eq_false_2; [done|].
    intros H'. by apply H'.
  - rewrite bool_decide_eq_true_2 by (by rewrite Hk). rewrite Hi, IH. cbn. done.
Qed.

Lemma entry_rep_update bs b s e x :
  pe_cached e <> b -> entry_rep bs e x -> entry_rep (<[b := s]> bs) e x.
Proof.
  intros Hb (Hi & Hd & p & Hk & Hs & Hp). split_and!; try done. exists p. split_and!; try done.
  destruct Hp as [->| ->]; [|done]. cbn [key_str] in *. by rewrite lookup_insert_ne.
Qed.

Lemma entry_reps_update bs b s P L :
  b ∉ map pe_cached P -> Forall2 (entry_rep bs) P L -> Forall2 (entry_rep (<[b := s]> bs)) P L.
Proof.
  intros Hb H. induction H as [|e x P L He _ IH]; constructor; cbn in Hb.
  - apply entry_rep_update; [|done]. set_solver.
  - apply IH. set_solver.
Qed.

(** Fill the entry made free: [A] and [B] keep their candidates. *)
Lemma pool_fill bs A junk B Q LA LB c dbid idle key :
  Forall2 (entry_rep bs) A LA -> Forall2 (entry_rep bs) B LB ->
  Forall (fun e => pe_key e = None) Q ->
  NoDup (c :: map pe_cached (A ++ B ++ Q)) -> length (A ++ junk :: B ++ Q) = EVPOOL_SIZE ->
  let '(bs', kp) := if EVPOOL_CACHED_SDS_SIZE <? zlen key then (bs, KOwned key)
                    else (<[c := key]> bs, KCached c) in
  pool_rep (<[length A := mk_pe idle (Some kp) c dbid]> (A ++ junk :: B ++ Q)) bs'
    (LA ++ mk_cand idle key dbid :: LB).
Proof.
  intros HA HB HQ Hnd Hlen.
  apply NoDup_cons in Hnd as [Hc Hnd]. rewrite !map_app in Hc, Hnd.
  assert (Forall2 (entry_rep (<[c := key]> bs)) A LA) by (apply entry_reps_update; [set_solver|done]).
  assert (Forall2 (entry_rep (<[c := key]> bs)) B LB) by (apply entry_reps_update; [set_solver|done]).
  destruct (EVPOOL_CACHED_SDS_SIZE <? zlen key);
    rewrite insert_app_r_alt, Nat.sub_diag by lia; cbn [insert list_insert].
  all: split; [revert Hlen; rewrite !length_app; cbn; lia| |].
  all: try (rewrite map_app; cbn [map pe_cached]; rewrite map_app;
    rewrite <- Permutation_middle; apply NoDup_cons; split; [set_solver|done]).
  all: eexists (A ++ mk_pe _ _ _ _ :: B), Q; split; [by rewrite <- app_assoc|]; split; [|done];
    apply Forall2_app; [done|]; constructor; [|done].
  - split_and!; try done. exists (KOwned key). split_and!; try done. by right.
  - split_and!; try done. exists (KCached c). split_and!; try done; [|by left].
    cbn [key_str]. by rewrite lookup_insert_eq.
Qed.

(** Cut a list at a position. *)
Lemma Forall2_split bs P L k :
  Forall2 (entry_rep bs) P L -> (k <= length L)%nat ->
  exists P1 P2, P = P1 ++ P2 /\ length P1 = k /\
    Forall2 (entry_rep bs) P1 (take k L) /\ Forall2 (entry_rep bs) P2 (drop k L).
Proof.
  intros H Hk. exists (take k P), (drop k P). rewrite take_drop. split_and!; [done| | |].
  - apply Forall2_length in H. rewrite length_take. lia.
  - by apply Forall2_take.
  - by apply Forall2_drop.
Qed.

Lemma pool_last (l : list evictionPoolEntry) e :
  length (l ++ [e]) = EVPOOL_SIZE -> (l ++ [e]) !! (EVPOOL_SIZE - 1)%nat = Some e.
Proof.
  rewrite length_app. cbn [length]. intros Hl. rewrite lookup_app_r by lia.
  by replace (EVPOOL_SIZE - 1 - length l)%nat with 0%nat by lia.
Qed.

Lemma pool_insert_room pool bs A junk B Q LA LB c freed x :
  pool_room pool (pool_slot pool (c_idle x)) = Some (Some (A ++ junk :: B ++ Q, length A, c, freed)) ->
  Forall2 (entry_rep bs) A LA -> Forall2 (entry_rep bs) B LB ->
  Forall (fun e => pe_key e = None) Q ->
  NoDup (c :: map pe_cached (A ++ B ++ Q)) -> length (A ++ junk :: B ++ Q) = EVPOOL_SIZE ->
  exists pool' bs', pool_insert pool bs (c_dbid x) (c_idle x) (c_key x) = Some (pool', bs', freed) /\
    pool_rep pool' bs' (LA ++ x :: LB).
Proof.
  intros Hroom HA HB HQ Hnd Hlen. unfold pool_insert. rewrite Hroom. cbn [mbind option_bind].
  rewrite (proj2 (Nat.ltb_lt _ _)) by (rewrite length_app; cbn; lia).
  pose proof (pool_fill bs A junk B Q LA LB c (c_dbid x) (c_idle x) (c_key x) HA HB HQ Hnd Hlen) as Hf.
  destruct (if EVPOOL_CACHED_SDS_SIZE <? zlen (c_key x) then _ else _) as [bs' kp].
  eexists _, _. split; [done|]. by destruct x.
Qed.

(** A pool with a free entry. *)
Lemma pool_insert_free pool bs L x :
  pool_rep pool bs L -> (length L < EVPOOL_SIZE)%nat ->
  exists pool' bs', pool_insert pool bs (c_dbid x) (c_idle x) (c_key x) = Some (pool', bs', []) /\
    pool_rep pool' bs' (pool_add L x).
Proof.
  intros [Hlen Hnd (P & Q & -> & HP & HQ)] HL. unfold pool_add.
  rewrite (proj2 (Nat.ltb_lt _ _) HL).
  pose proof (slot_le L (c_idle x)) as Hk. pose proof (pool_slot_rep bs P Q L (c_idle x) HP HQ) as Hslot.
  set (k := slot L (c_idle x)) in *.
  destruct (Forall2_split _ _ _ k HP Hk) as (P1 & P2 & -> & HP1 & HA & HB).
  assert (length P1 + length P2 = length L)%nat as HPL.
  { apply Forall2_length in HP. by rewrite <- HP, length_app. }
  destruct Q as [|e Q _] using rev_ind.
  { rewrite app_nil_r, length_app in Hlen. lia. }
  apply Forall_app in HQ as [HQ He]. apply Forall_inv in He.
  assert (((P1 ++ P2) ++ Q ++ [e]) !! (EVPOOL_SIZE - 1)%nat = Some e) as Hlast.
  { rewrite app_assoc. apply pool_last. by rewrite <- app_assoc. }
  assert (bool_decide (pe_key e <> None) = false) as Hb.
  { rewrite He. apply bool_decide_eq_false_2. intros H'. by apply H'. }
  destruct P2 as [|e2 P2].
  - rewrite app_nil_r in *.
    assert (exists e0 Q0, Q ++ [e] = e0 :: Q0 /\ pe_key e0 = None /\ Forall (fun e => pe_key e = None) Q0)
      as (e0 & Q0 & E0 & Hk0 & HQ0).
    { destruct Q as [|e0 Q]; [by exists e, []|]. exists e0, (Q ++ [e]). inversion HQ; subst.
      split_and!; [done..|]. apply Forall_app. split; [done|]. by constructor. }
    rewrite E0 in *. apply (pool_insert_room _ _ P1 e0 [] Q0 _ _ (pe_cached e0)); try done.
    + unfold pool_room. rewrite Hlast. cbn [mbind option_bind]. rewrite Hslot, Hb, andb_false_r.
      rewrite lookup_app_r, HP1, Nat.sub_diag by lia. destruct e0 as [i0 k0 c0 d0]. cbn in Hk0 |- *.
      by subst k0.
    + rewrite map_app in Hnd. cbn [map] in Hnd. by rewrite <- Permutation_middle, <- map_app in Hnd.
  - apply (pool_insert_room _ _ P1 e2 (e2 :: P2) Q _ _ (pe_cached e)); try done.
    + unfold pool_room. rewrite Hlast. cbn [mbind option_bind]. rewrite Hslot, Hb, andb_false_r.
      rewrite <- !app_assoc. rewrite lookup_app_r, HP1, Nat.sub_diag by lia. cbn [app lookup list_lookup].
      inversion HB as [|? ? ? ? (_ & _ & p & Hp & _)]; subst. destruct e2 as [i2 k2 c2 d2]. cbn in Hp. subst k2.
      rewrite He. cbn [mbind option_bind]. rewrite !length_app in Hlen. cbn [length] in Hlen.
      rewrite <- HP1, take_app_length, drop_app_length.
      rewrite app_comm_cons, app_assoc, take_app_le, take_ge
        by (rewrite length_app; cbn; unfold EVPOOL_SIZE in *; lia).
      done.
    + rewrite <- app_assoc, !app_assoc, map_app in Hnd. cbn [map] in Hnd.
      rewrite <- Permutation_cons_append in Hnd. by rewrite <- !app_assoc in Hnd.
    + revert Hlen. rewrite !length_app. cbn [length]. rewrite length_app. cbn [length]. lia.
Qed.

(** A full pool. *)
Lemma pool_insert_full pool bs L x :
  pool_rep pool bs L -> length L = EVPOOL_SIZE ->
  exists pool' bs' freed, pool_insert pool bs (c_dbid x) (c_idle x) (c_key x) = Some (pool', bs', freed) /\
    pool_rep pool' bs' (pool_add L x).
Proof.
  intros R HL. pose proof R as [Hlen Hnd (P & Q & -> & HP & HQ)]. unfold pool_add.
  assert (length P = EVPOOL_SIZE) as HPl by (apply Forall2_length in HP; congruence).
  assert (Q = []) as ->. { rewrite length_app in Hlen. destruct Q; [done|]. cbn in Hlen. lia. }
  rewrite HL, Nat.ltb_irrefl. pose proof (pool_slot_rep bs P [] L (c_idle x) HP HQ) as Hslot.
  rewrite app_nil_r in *. pose proof (slot_le L (c_idle x)) as Hk. set (k := slot L (c_idle x)) in *.
  destruct (lookup_lt_is_Some_2 P (EVPOOL_SIZE - 1)%nat) as [last Hlast]; [unfold EVPOOL_SIZE in *; lia|].
  destruct (Forall2_lookup_l _ _ _ _ _ HP Hlast) as (xl & _ & _ & _ & pl & Hpl & _).
  assert (bool_decide (pe_key last <> None) = true) as Hb by (apply bool_decide_eq_true_2; by rewrite Hpl).
  destruct (Nat.eqb_spec k 0) as [Hk0|Hk0].
  { exists P, bs, []. split; [|done]. unfold pool_insert, pool_room.
    rewrite Hlast. cbn [mbind option_bind]. by rewrite Hslot, Hk0, Hb. }
  destruct (Forall2_split _ _ _ k HP Hk) as (P1 & P2 & -> & HP1 & HA & HB).
  destruct P1 as [|first P1]; [cbn in HP1; lia|]. cbn in HP1.
  set (freed := if bool_decide (pe_key first = Some (KCached (pe_cached first))) then []
                else match pe_key first with Some p => [p] | None => [] end).
  set (junk := default first ((first :: P1) !! (k - 1)%nat)).
  destruct (pool_insert_room ((first :: P1) ++ P2) bs P1 junk P2 [] (drop 1 (take k L)) (drop k L)
    (pe_cached first) freed x) as (pool' & bs' & E & R'); rewrite ?app_nil_r.
  - unfold pool_room. rewrite Hlast. cbn [mbind option_bind]. rewrite Hslot, Hb, Hpl, andb_true_r.
    rewrite (proj2 (Nat.eqb_neq _ _) Hk0).
    assert (drop (k - 1) (first :: P1) = [junk]) as Hj.
    { destruct (lookup_lt_is_Some_2 (first :: P1) (k - 1)) as [j Hj]; [cbn; lia|].
      unfold junk. rewrite Hj. cbn [from_option id]. rewrite (drop_S _ _ _ Hj). f_equal.
      apply drop_ge. cbn. lia. }
    assert (match ((first :: P1) ++ P2) !! k with
            | Some (mk_pe _ None c _) => False | _ => True end) as Hmid.
    { destruct (((first :: P1) ++ P2) !! k) as [e|] eqn:Ek; [|done].
      destruct (Forall2_lookup_l _ _ _ _ _ HP Ek) as (xk & _ & _ & _ & pk & Hpk & _).
      destruct e as [? [?|] ? ?]; done. }
    change (((first :: P1) ++ P2) !! 0%nat) with (Some first). cbn [mbind option_bind].
    change (drop 1 ((first :: P1) ++ P2)) with (P1 ++ P2).
    replace (take (k - 1) (P1 ++ P2) ++ drop (k - 1) ((first :: P1) ++ P2)) with (P1 ++ junk :: P2).
    2: { rewrite take_app_le by lia. rewrite take_ge by lia. rewrite drop_app_le by (cbn; lia). by rewrite Hj. }
    replace (k - 1)%nat with (length P1) by lia.
    destruct (((first :: P1) ++ P2) !! k) as [[? [?|] ? ?]|]; done.
  - destruct (take k L); [inversion HA|]. inversion HA; subst. by cbn.
  - done.
  - done.
  - cbn [app map] in Hnd. done.
  - revert Hlen. rewrite !length_app. cbn. lia.
  - exists pool', bs', freed. done.
Qed.

Lemma pool_insert_spec pool bs L x :
  pool_rep pool bs L ->
  exists pool' bs' freed, pool_insert pool bs (c_dbid x) (c_idle x) (c_key x) = Some (pool', bs', freed) /\
    pool_rep pool' bs' (pool_add L x).
Proof.
  intros R. assert (length L <= EVPOOL_SIZE)%nat.
  { destruct R as [Hlen _ (P & Q & -> & HP & _)]. apply Forall2_length in HP.
    rewrite length_app in Hlen. lia. }
  destruct (Nat.lt_ge_cases (length L) EVPOOL_SIZE).
  - destruct (pool_insert_free pool bs L x R) as (pool' & bs' & ? & ?); [done|]. by exists pool', bs', [].
  - apply pool_insert_full; [done|lia].
Qed.

(** ** Which candidates stay *)

Abbreviation sorted := (StronglySorted (fun x y => c_idle x <= c_idle y)).

Lemma slot_spec L idle :
  sorted L -> (forall y, y ∈ take (slot L idle) L -> c_idle y < idle) /\
    (forall y, y ∈ drop (slot L idle) L -> idle <= c_idle y).
Proof.
  induction 1 as [|x L HL IH Hx]; cbn [slot]; [set_solver|]. case_if.
  - destruct IH as [IH1 IH2]. cbn [take drop]. split; [|done]. set_solver.
  - cbn [take drop]. split; [set_solver|]. rewrite Forall_forall in Hx.
    intros y [->|Hy]%elem_of_cons; [lia|]. specialize (Hx y Hy). lia.
Qed.

Lemma pool_sorted_insert A B x :
  sorted (A ++ B) -> (forall y, y ∈ A -> c_idle y <= c_idle x) -> (forall y, y ∈ B -> c_idle x <= c_idle y) ->
  sorted (A ++ x :: B).
Proof.
  intros H HA HB. apply StronglySorted_app_2.
  - by apply StronglySorted_app_1_l in H.
  - constructor; [by apply StronglySorted_app_1_r in H|]. by apply Forall_forall.
  - intros a b Ha [->|Hb]%elem_of_cons; [by apply HA|]. specialize (HA a Ha). specialize (HB b Hb). lia.
Qed.

Lemma pool_add_sorted L x : sorted L -> sorted (pool_add L x).
Proof.
  intros HL. destruct (slot_spec L (c_idle x) HL) as [H1 H2]. unfold pool_add. cbv zeta.
  set (k := slot L (c_idle x)) in *. rewrite <- (take_drop k L) in HL. repeat case_if.
  - apply pool_sorted_insert; [done|intros y Hy; specialize (H1 y Hy); lia|done].
  - by rewrite take_drop in HL.
  - destruct (take k L) as [|y A]; cbn [drop app] in *; [apply (pool_sorted_insert []); [done|set_solver|done]|].
    inversion HL; subst. apply pool_sorted_insert; [done| |done].
    intros z Hz. specialize (H1 z ltac:(by right)). lia.
Qed.

Lemma pool_add_length L x : (length L <= EVPOOL_SIZE)%nat -> (length (pool_add L x) <= EVPOOL_SIZE)%nat.
Proof.
  intros HL. pose proof (slot_le L (c_idle x)). unfold pool_add. cbv zeta.
  destruct (Nat.ltb_spec (length L) EVPOOL_SIZE).
  { rewrite length_app. cbn [length]. rewrite length_take, length_drop. lia. }
  destruct (Nat.eqb_spec (slot L (c_idle x)) 0); [done|].
  rewrite length_app. cbn [length]. rewrite !length_drop, length_take. lia.
Qed.

(** [c] was dropped because the pool is full of at least as good candidates. *)
Definition dominated (c : cand) (L : list cand) : Prop :=
  length L = EVPOOL_SIZE /\ forall y, y ∈ L -> c_idle c <= c_idle y.

Lemma pool_add_keeps L x c :
  sorted L -> (length L <= EVPOOL_SIZE)%nat -> c ∈ x :: L -> c ∈ pool_add L x \/ dominated c (pool_add L x).
Proof.
  intros HL Hlen Hc. destruct (slot_spec L (c_idle x) HL) as [H1 H2]. pose proof (slot_le L (c_idle x)) as Hk.
  unfold pool_add. cbv zeta. set (k := slot L (c_idle x)) in *.
  destruct (Nat.ltb_spec (length L) EVPOOL_SIZE).
  { left. rewrite <- (take_drop k L) in Hc. set_solver. }
  destruct (Nat.eqb_spec k 0) as [Hk0|Hk0].
  { apply elem_of_cons in Hc as [->|Hc]; [right|by left]. rewrite Hk0 in H2. split; [lia|].
    intros y Hy. by apply H2. }
  rewrite <- (take_drop k L) in HL, Hc. assert (length (take k L) = k) as Htk by (rewrite length_take; lia).
  destruct (take k L) as [|y A] eqn:E; [cbn in Htk; lia|]. cbn [drop app] in *.
  apply elem_of_cons in Hc as [->|[->|Hc]%elem_of_cons].
  - left. apply elem_of_app. right. left.
  - right. inversion HL as [|? ? _ Hy]; subst. rewrite Forall_forall in Hy. split.
    + rewrite length_app. cbn [length]. rewrite !length_drop. cbn [length] in Htk. unfold EVPOOL_SIZE in *. lia.
    + intros z [Hz|[->|Hz]%elem_of_cons]%elem_of_app.
      * apply Hy. apply elem_of_app. by left.
      * specialize (H1 y ltac:(left)). lia.
      * apply Hy. apply elem_of_app. by right.
  - left. apply elem_of_app in Hc as [Hc|Hc]; apply elem_of_app; [by left|right; by right].
Qed.

Lemma pool_add_dominated L x c : sorted L -> dominated c L -> dominated c (pool_add L x).
Proof.
  intros HL [Hlen Hd]. destruct (slot_spec L (c_idle x) HL) as [H1 _]. pose proof (slot_le L (c_idle x)) as Hk.
  unfold pool_add. cbv zeta. set (k := slot L (c_idle x)) in *. rewrite Hlen, Nat.ltb_irrefl.
  destruct (Nat.eqb_spec k 0) as [Hk0|Hk0]; [done|].
  assert (length (take k L) = k) as Htk by (rewrite length_take; lia).
  pose proof (take_drop k L) as Etd.
  destruct (take k L) as [|y A] eqn:E; [cbn in Htk; lia|]. cbn [drop] in *. split.
  - rewrite length_app. cbn [length]. rewrite !length_drop. cbn [length] in Htk. unfold EVPOOL_SIZE in *. lia.
  - assert (forall z, z ∈ L -> z ∈ y :: A \/ z ∈ drop k L) as Hin.
    { intros z Hz. rewrite <- Etd in Hz. by apply elem_of_app in Hz. }
    assert (c_idle c <= c_idle y) by (apply Hd; rewrite <- Etd; left).
    intros z [Hz|[->|Hz]%elem_of_cons]%elem_of_app.
    + apply Hd. rewrite <- Etd. apply elem_of_app. left. by right.
    + specialize (H1 y ltac:(left)). lia.
    + apply Hd. rewrite <- Etd. apply elem_of_app. by right.
Qed.

(** The same for a sequence of insertions. *)
Lemma pool_adds_spec xs L :
  sorted L -> (length L <= EVPOOL_SIZE)%nat ->
  let L' := foldl pool_add L xs in
  sorted L' /\ (forall c, dominated c L -> dominated c L') /\
  (forall c, c ∈ L ++ xs -> c ∈ L' \/ dominated c L').
Proof.
  revert L; induction xs as [|x xs IH]; intros L HL Hlen; cbn [foldl].
  { split_and!; try done. intros c. rewrite app_nil_r. by left. }
  destruct (IH (pool_add L x)) as (S1 & D1 & K1).
  { by apply pool_add_sorted. } { by apply pool_add_length. }
  split_and!; [done| |].
  - intros c Hd. by apply D1, pool_add_dominated.
  - intros c Hc. assert (c ∈ x :: L \/ c ∈ xs) as [Hc'|Hc'] by set_solver.
    + destruct (pool_add_keeps L x c HL Hlen Hc') as [Hin|Hdom]; [|right; by apply D1].
      apply K1. apply elem_of_app. by left.
    + apply K1. apply elem_of_app. by right.
Qed.

(** The candidates of a round of sampling. *)
Definition cand_of (policy lruclock unixtime decay dbid : Z) (s : sample) : cand :=
  mk_cand (default 0 (sample_idle policy lruclock unixtime decay s)) (s_key s) dbid.

Lemma populate_spec policy lruclock unixtime decay dbid samples pool bs L :
  pool_rep pool bs L ->
  (forall s, s ∈ samples -> sample_idle policy lruclock unixtime decay s <> None) ->
  exists pool' bs' freed,
    evictionPoolPopulate policy lruclock unixtime decay dbid samples pool bs = Some (pool', bs', freed) /\
    pool_rep pool' bs' (foldl pool_add L (map (cand_of policy lruclock unixtime decay dbid) samples)).
Proof.
  revert pool bs L; induction samples as [|s samples IH]; intros pool bs L R Hs.
  { by exists pool, bs, []. }
  cbn [evictionPoolPopulate map foldl].
  destruct (sample_idle policy lruclock unixtime decay s) as [i|] eqn:Hi; [|by destruct (Hs s ltac:(left))].
  assert (cand_of policy lruclock unixtime decay dbid s = mk_cand i (s_key s) dbid) as ->
    by (unfold cand_of; by rewrite Hi).
  cbn [mbind option_bind].
  destruct (pool_insert_spec pool bs L (mk_cand i (s_key s) dbid) R) as (pool1 & bs1 & freed1 & E1 & R1).
  cbn [c_dbid c_idle c_key] in E1. rewrite E1. cbn [mbind option_bind].
  destruct (IH pool1 bs1 _ R1) as (pool2 & bs2 & freed2 & -> & R2).
  { intros s' Hs'. apply Hs. by right. }
  cbn [mbind option_bind]. by eexists _, _, _.
Qed.

Lemma pool_rep_length pool bs L : pool_rep pool bs L -> (length L <= EVPOOL_SIZE)%nat.
Proof.
  intros [Hl _ (P & Q & -> & HP & _)]. apply Forall2_length in HP. rewrite length_app in Hl. lia.
Qed.

Lemma pool_rep_lookup pool bs L k :
  pool_rep pool bs L -> (k < EVPOOL_SIZE)%nat ->
  exists e, pool !! k = Some e /\
    match L !! k with Some x => entry_rep bs e x | None => pe_key e = None end.
Proof.
  intros [Hl _ (P & Q & -> & HP & HQ)] Hk.
  destruct (lookup_lt_is_Some_2 (P ++ Q) k) as [e He]; [lia|]. exists e. split; [done|].
  apply lookup_app_Some in He as [He|[Hge He]].
  - destruct (Forall2_lookup_l _ _ _ _ _ HP He) as (x & -> & Hx). done.
  - rewrite lookup_ge_None_2 by (apply Forall2_length in HP; lia).
    by eapply (Forall_lookup_1 _ _ _ _ HQ).
Qed.

(** Remove the last candidate. *)
Lemma pool_rep_pop pool bs L x e d :
  pool_rep pool bs (L ++ [x]) -> pool !! length L = Some e ->
  pool_rep (<[length L := mk_pe 0 None (pe_cached e) d]> pool) bs L.
Proof.
  intros [Hl Hnd (P & Q & -> & HP & HQ)] He.
  apply Forall2_app_inv_r in HP as (P1 & P2 & HP1 & HP2 & ->).
  apply Forall2_cons_inv_r in HP2 as (e' & P3 & _ & HP3 & ->). apply Forall2_nil_inv_r in HP3 as ->.
  pose proof (Forall2_length _ _ _ HP1) as Hlen. rewrite <- Hlen, <- app_assoc in *. cbn [app] in *.
  rewrite list_lookup_middle in He by done. simplify_eq.
  rewrite insert_app_r_alt, Nat.sub_diag by lia. cbn [insert list_insert]. split.
  - by rewrite !length_app in *.
  - by rewrite !map_app in *.
  - eexists P1, (_ :: Q). split; [done|]. split; [done|]. by constructor.
Qed.

(** ** The theorems *)

(** C23. The eviction pool: whatever is sampled, [evictionPoolPopulate] keeps the
    pool a list of at most 16 candidates in ascending order of idle time, each
    with the key it was given (the buffers entries own are never shared, through
    all the moves), and a candidate that was in the pool or sampled is only
    missing if the pool is full of candidates at least as idle. *)
Theorem evictionPoolPopulate_correct policy lruclock unixtime decay dbid samples pool bs L :
  pool_rep pool bs L -> sorted L ->
  (forall s, s ∈ samples -> sample_idle policy lruclock unixtime decay s <> None) ->
  exists pool' bs' freed L',
    evictionPoolPopulate policy lruclock unixtime decay dbid samples pool bs = Some (pool', bs', freed) /\
    pool_rep pool' bs' L' /\ sorted L' /\
    forall c, c ∈ L ++ map (cand_of policy lruclock unixtime decay dbid) samples ->
      c ∈ L' \/ dominated c L'.
Proof.
  intros R HL Hs.
  destruct (populate_spec policy lruclock unixtime decay dbid samples pool bs L R Hs)
    as (pool' & bs' & freed & E & R').
  destruct (pool_adds_spec (map (cand_of policy lruclock unixtime decay dbid) samples) L HL) as (S' & _ & K').
  { by eapply pool_rep_length. }
  exists pool', bs', freed. eexists. split_and!; done.
Qed.

(** Picking a victim: the loop of [performEvictions] over the pool returns
    the most idle candidate that still exists, having removed it and the ghosts
    after it (and nothing else), or finds that all of them are ghosts. *)
Theorem pool_pick_correct found pool bs L :
  pool_rep pool bs L ->
  exists pool' freed r, pool_pick EVPOOL_SIZE found pool bs [] = Some (pool', freed, r) /\
    match r with
    | Some (dbid, key) => exists L' x ghosts, L = L' ++ x :: ghosts /\ pool_rep pool' bs L' /\
        dbid = c_dbid x /\ key = c_key x /\ found dbid key = true /\
        Forall (fun g => found (c_dbid g) (c_key g) = false) ghosts
    | None => pool_rep pool' bs [] /\ Forall (fun g => found (c_dbid g) (c_key g) = false) L
    end.
Proof.
  assert (forall n pool freed L, pool_rep pool bs L -> (length L <= n <= EVPOOL_SIZE)%nat ->
    exists pool' freed' r, pool_pick n found pool bs freed = Some (pool', freed', r) /\
    match r with
    | Some (dbid, key) => exists L' x ghosts, L = L' ++ x :: ghosts /\ pool_rep pool' bs L' /\
        dbid = c_dbid x /\ key = c_key x /\ found dbid key = true /\
        Forall (fun g => found (c_dbid g) (c_key g) = false) ghosts
    | None => pool_rep pool' bs [] /\ Forall (fun g => found (c_dbid g) (c_key g) = false) L
    end) as H.
  { induction n as [|n IH]; intros pool0 freed L0 R Hn; cbn [pool_pick].
    { destruct L0; [|cbn in Hn; lia]. by exists pool0, freed, None. }
    destruct (pool_rep_lookup _ _ _ n R) as (e & He & Hrep); [lia|]. rewrite He. cbn [mbind option_bind].
    destruct L0 as [|x L0 _] using rev_ind.
    { cbn in Hrep. rewrite Hrep. apply IH; [done|cbn; lia]. }
    rewrite length_app in Hn. cbn in Hn. destruct (Nat.eq_dec (length L0) n) as [<-|Hne].
    2: { rewrite lookup_ge_None_2 in Hrep by (rewrite length_app; cbn; lia). rewrite Hrep.
         apply IH; [done|rewrite length_app; cbn; lia]. }
    rewrite list_lookup_middle in Hrep by done. destruct Hrep as (_ & Hd & p & -> & -> & _).
    cbn [mbind option_bind]. pose proof (pool_rep_pop _ _ _ _ _ (pe_dbid e) R He) as R'.
    destruct (found (pe_dbid e) (c_key x)) eqn:Hf.
    - eexists _, _, _. split; [done|]. by exists L0, x, [].
    - destruct (IH _ (if bool_decide (p = KCached (pe_cached e)) then freed else freed ++ [p]) L0 R')
        as (pool' & freed' & r & -> & Hr); [lia|].
      exists pool', freed', r. split; [done|]. destruct r as [[db key]|].
      + destruct Hr as (L' & y & ghosts & -> & HR & Hdb & Hkey & Hfound & Hg).
        exists L', y, (ghosts ++ [x]). rewrite <- app_assoc. split_and!; try done.
        apply Forall_app. split; [done|]. constructor; [|done]. by rewrite <- Hd.
      + split; [apply Hr|]. apply Forall_app. split; [apply Hr|]. constructor; [|done]. by rewrite <- Hd. }
  intros R. apply H; [done|]. split; [by eapply pool_rep_length|done].
Qed.

(** ** A pool just allocated *)

Lemma pool_alloc_rep : pool_rep (fst evictionPoolAlloc) (snd evictionPoolAlloc) [].
Proof.
  split; [done| |].
  - apply (bool_decide_eq_true_1 _). vm_compute. reflexivity.
  - exists [], (fst evictionPoolAlloc). split_and!; [done|constructor|]. vm_compute. repeat constructor.
Qed.

Definition demo_samples : list sample :=
  map (fun j => mk_sample [Z.of_nat j] (Z.of_nat (j * 7 mod 23)) 0) (seq 0 20).

Lemma evictionPoolPopulate_correct_witness :
  exists pool' bs' freed L',
    evictionPoolPopulate FLAG_LRU 100 0 1 0 demo_samples (fst evictionPoolAlloc) (snd evictionPoolAlloc)
      = Some (pool', bs', freed) /\
    pool_rep pool' bs' L' /\ sorted L' /\
    forall c, c ∈ [] ++ map (cand_of FLAG_LRU 100 0 1 0) demo_samples -> c ∈ L' \/ dominated c L'.
Proof.
  apply (evictionPoolPopulate_correct FLAG_LRU 100 0 1 0 demo_samples _ _ [] pool_alloc_rep).
  - constructor.
  - intros s _. discriminate.
Defined.

(** A pool with the 16 most idle of the samples. *)
Definition demo_pool : list evictionPoolEntry * bufs :=
  match evictionPoolPopulate FLAG_LRU 100 0 1 0 demo_samples (fst evictionPoolAlloc) (snd evictionPoolAlloc) with
  | Some (pool, bs, _) => (pool, bs)
  | None => evictionPoolAlloc
  end.

Definition demo_cands : list cand := foldl pool_add [] (map (cand_of FLAG_LRU 100 0 1 0) demo_samples).

Lemma demo_pool_rep : pool_rep (fst demo_pool) (snd demo_pool) demo_cands.
Proof.
  destruct (populate_spec FLAG_LRU 100 0 1 0 demo_samples _ _ [] pool_alloc_rep) as (p & b & f & E & R).
  { intros s _. discriminate. }
  unfold demo_pool. by rewrite E.
Qed.

(** The most idle candidate is gone, the next one is picked. *)
Definition demo_found (dbid : Z) (key : list Z) : bool := bool_decide (key <> [0]).

Lemma pool_pick_correct_witness :
  exists pool' freed r,
    pool_pick EVPOOL_SIZE demo_found (fst demo_pool) (snd demo_pool) [] = Some (pool', freed, r) /\
    match r with
    | Some (dbid, key) => exists L' x ghosts, demo_cands = L' ++ x :: ghosts /\
        pool_rep pool' (snd demo_pool) L' /\
        dbid = c_dbid x /\ key = c_key x /\ demo_found dbid key = true /\
        Forall (fun g => demo_found (c_dbid g) (c_key g) = false) ghosts
    | None => pool_rep pool' (snd demo_pool) [] /\
        Forall (fun g => demo_found (c_dbid g) (c_key g) = false) demo_cands
    end.
Proof. apply (pool_pick_correct demo_found _ _ demo_cands demo_pool_rep). Defined.
