(* ===== verification/Lzf.v ===== *)
(** * LZF compression ([lzf_c.c], [lzf_d.c])

    The configuration is the one of lzfP.h on a 64-bit host: HLOG 16, VERY_FAST,
    no initialization of the hash table (its contents are an argument),
    CHECK_INPUT. Pointers into a buffer are indices; a read or a write outside a
    buffer has no result. *)

From stdpp Require Import base list option.
From Stdlib Require Import ZArith Lia Bool.
From S2P Require Import Prelude.

Local Open Scope Z_scope.

Definition MAX_LIT : nat := 32.
Definition MAX_OFF : Z := 2 ^ 13.
Definition MAX_REF : nat := 264.

(** ** Compression *)

Definition FRST (p0 p1 : Z) : Z := Z.lor (Z.shiftl p0 8) p1.
Definition NEXT (v p2 : Z) : Z := Z.lor (u32 (Z.shiftl v 8)) p2.
Definition IDX (h : Z) : Z := Z.land (u32 (Z.shiftr h 8 - u32 (h * 5))) 65535.

Definition store (l : list Z) (i : nat) (b : Z) : option (list Z) :=
  if (i <? length l)%nat then Some (<[i := u8 b]> l) else None.

(** The state of the main loop. *)
Record cstate := mk_cs {
  ip : nat;
  op : nat;
  lit : nat;
  hval : Z;
  htab : Z -> Z;
  cs_out : list Z;
}.

Definition hset (h : Z -> Z) (i v : Z) : Z -> Z := fun j => if j =? i then v else h j.

Section Compress.
Context (inp : list Z) (out_len : nat).

Abbreviation in_len := (length inp).

(** The 16 unrolled comparisons: the flag tells whether one of them differed. *)
Fixpoint match_unrolled (n ref ip len : nat) : option (nat * bool) :=
  match n with
  | O => Some (len, false)
  | S n' =>
      let len := S len in
      a ← inp !! (ref + len)%nat;
      b ← inp !! (ip + len)%nat;
      if negb (a =? b) then Some (len, true) else match_unrolled n' ref ip len
  end.

(** [do len++; while (len < maxlen && ref[len] == ip[len]);] *)
Fixpoint match_rest (fuel ref ip len maxlen : nat) : option nat :=
  match fuel with
  | O => None
  | S fuel' =>
      let len := S len in
      if (len <? maxlen)%nat then
        a ← inp !! (ref + len)%nat;
        b ← inp !! (ip + len)%nat;
        if a =? b then match_rest fuel' ref ip len maxlen else Some len
      else Some len
  end.

Definition match_len (ref ip maxlen : nat) : option nat :=
  '(len, stop) ← (if (16 <? maxlen)%nat then match_unrolled 16 ref ip 2 else Some (2%nat, false));
  if (stop : bool) then Some len else match_rest MAX_REF ref ip len maxlen.

(** Whether the slot of the hash table gives a match, and its offset. *)
Definition find_ref (ip : nat) (ref : Z) : option (option Z) :=
  let off := u64 (Z.of_nat ip - ref - 1) in
  if (off <? MAX_OFF) && (0 <? ref) then
    let r := Z.to_nat ref in
    r2 ← inp !! (r + 2)%nat; i2 ← inp !! (ip + 2)%nat;
    if r2 =? i2 then
      r0 ← inp !! r; r1 ← inp !! (r + 1)%nat;
      i0 ← inp !! ip; i1 ← inp !! (ip + 1)%nat;
      if (r0 =? i0) && (r1 =? i1) then Some (Some off) else Some None
    else Some None
  else Some None.

(** [op[-lit-1] = lit - 1; op -= !lit;] The byte stored when the run is empty is
    overwritten. *)
Definition stop_run (out : list Z) (op lit : nat) : option (list Z * nat) :=
  out ← store out (op - lit - 1) (Z.of_nat lit - 1);
  Some (out, if (lit =? 0)%nat then (op - 1)%nat else op).

(** Write a back reference of [len + 2] bytes at distance [off + 1]. *)
Definition put_ref (out : list Z) (op len : nat) (off : Z) : option (list Z * nat) :=
  '(out, op) ←
    (if (len <? 7)%nat then
       out ← store out op (Z.shiftr off 8 + Z.shiftl (Z.of_nat len) 5); Some (out, S op)
     else
       out ← store out op (Z.shiftr off 8 + Z.shiftl 7 5);
       out ← store out (S op) (Z.of_nat len - 7); Some (out, S (S op)));
  out ← store out op off;
  Some (out, S op).

(** Rehash the last two positions before [ip] (the VERY_FAST variant). *)
Definition rehash (ip : nat) (htab : Z -> Z) : option (Z * (Z -> Z)) :=
  let p := (ip - 2)%nat in
  b0 ← inp !! p; b1 ← inp !! (p + 1)%nat; b2 ← inp !! (p + 2)%nat; b3 ← inp !! (p + 3)%nat;
  let hval := NEXT (FRST b0 b1) b2 in
  let htab := hset htab (IDX hval) (u32 (Z.of_nat p)) in
  let hval := NEXT hval b3 in
  let htab := hset htab (IDX hval) (u32 (Z.of_nat (p + 1))) in
  Some (hval, htab).

(** One iteration: [inl] is [return 0] with the output so far; the flag tells whether to leave the loop. *)
Definition compress_step (s : cstate) : option (list Z + cstate * bool) :=
  let ip := ip s in
  b2 ← inp !! (ip + 2)%nat;
  let hval := NEXT (hval s) b2 in
  let ref := htab s (IDX hval) in
  let htab := hset (htab s) (IDX hval) (u32 (Z.of_nat ip)) in
  r ← find_ref ip ref;
  match r with
  | Some off =>
      let maxlen := (in_len - ip - 2)%nat in
      let maxlen := if (MAX_REF <? maxlen)%nat then MAX_REF else maxlen in
      if (out_len <=? op s - (if (lit s =? 0)%nat then 1 else 0) + 3 + 1)%nat then Some (inl (cs_out s))
      else
        '(out, op) ← stop_run (cs_out s) (op s) (lit s);
        len ← match_len (Z.to_nat ref) ip maxlen;
        let len := (len - 2)%nat in
        let ip := S ip in
        '(out, op) ← put_ref out op len off;
        let op := S op in
        let ip := (ip + (len + 1))%nat in
        if (in_len <=? ip + 2)%nat then Some (inr (mk_cs ip op 0 hval htab out, true))
        else
          '(hval, htab) ← rehash ip htab;
          Some (inr (mk_cs ip op 0 hval htab out, false))
  | None =>
      if (out_len <=? op s)%nat then Some (inl (cs_out s))
      else
        b ← inp !! ip;
        out ← store (cs_out s) (op s) b;
        let '(lit, op) := (S (lit s), S (op s)) in
        if (lit =? MAX_LIT)%nat then
          out ← store out (op - lit - 1) (Z.of_nat lit - 1);
          Some (inr (mk_cs (S ip) (S op) 0 hval htab out, false))
        else Some (inr (mk_cs (S ip) op lit hval htab out, false))
  end.

(** The conservative test on [op + 3 + 1] only avoids the exact one. *)
Fixpoint compress_loop (fuel : nat) (s : cstate) : option (list Z + cstate) :=
  match fuel with
  | O => None
  | S fuel' =>
      if (ip s + 2 <? in_len)%nat then
        r ← compress_step s;
        match r with
        | inl out => Some (inl out)
        | inr (s, true) => Some (inr s)
        | inr (s, false) => compress_loop fuel' s
        end
      else Some (inr s)
  end.

(** The last bytes. *)
Fixpoint tail_loop (fuel : nat) (ip op lit : nat) (out : list Z) : option (nat * nat * list Z) :=
  match fuel with
  | O => None
  | S fuel' =>
      if (ip <? in_len)%nat then
        b ← inp !! ip;
        out ← store out op b;
        let '(ip, op, lit) := (S ip, S op, S lit) in
        if (lit =? MAX_LIT)%nat then
          out ← store out (op - lit - 1) (Z.of_nat lit - 1);
          tail_loop fuel' ip (S op) 0 out
        else tail_loop fuel' ip op lit out
      else Some (op, lit, out)
  end.

(** Result: the number of bytes written (0: no room) and the output buffer. *)
Definition lzf_compress (htab : Z -> Z) (out : list Z) : option (nat * list Z) :=
  if (in_len =? 0)%nat || (out_len =? 0)%nat then Some (0%nat, out)
  else
    b0 ← inp !! 0%nat; b1 ← inp !! 1%nat;
    r ← compress_loop (S in_len) (mk_cs 0 1 0 (FRST b0 b1) htab out);
    match r with
    | inl out => Some (0%nat, out)
    | inr s =>
        if (out_len <? op s + 3)%nat then Some (0%nat, cs_out s)
        else
          '(op, lit, out) ← tail_loop (S in_len) (ip s) (op s) (lit s) (cs_out s);
          '(out, op) ← stop_run out op lit;
          Some (op, out)
    end.

End Compress.

(** ** Decompression

    [ip] is an index of the input. The output is written in order: [out] holds
    the bytes before [op], and a write at or after [out_len] has no result. *)

Inductive lzf_errno := E2BIG | EINVAL.

(** Write [bs] at [op]. *)
Definition emit (out_len : nat) (out bs : list Z) : option (list Z) :=
  if (length out + length bs <=? out_len)%nat then Some (out ++ bs) else None.

(** [*op++ = *ip++], [n] times. *)
Fixpoint copy_run (out_len : nat) (in_ : list Z) (n ip : nat) (out : list Z) : option (list Z) :=
  match n with
  | O => Some out
  | S n' => b ← in_ !! ip; out ← emit out_len out [b]; copy_run out_len in_ n' (S ip) out
  end.

(** [*op++ = *ref++], [n] times. *)
Fixpoint copy_octets (out_len : nat) (n ref : nat) (out : list Z) : option (list Z) :=
  match n with
  | O => Some out
  | S n' => b ← out !! ref; out ← emit out_len out [b]; copy_octets out_len n' (S ref) out
  end.

(** Up to 11 bytes are copied one by one; more with [memcpy] when the areas are
    disjoint. *)
Definition copy_ref (out_len : nat) (len ref : nat) (out : list Z) : option (list Z) :=
  if (len <=? 9)%nat then copy_octets out_len (len + 2) ref out
  else
    let len := (len + 2)%nat in
    if (ref + len <=? length out)%nat then emit out_len out (take len (drop ref out))
    else copy_octets out_len len ref out.

(** [while (ip < in_end)]. Result: [inl] is the error [return 0] comes with, [inr]
    the output. *)
Fixpoint decompress_loop (fuel : nat) (in_ : list Z) (out_len ip : nat) (out : list Z) : option (lzf_errno + list Z) :=
  if (ip <? length in_)%nat then
    match fuel with
    | O => None
    | S fuel' =>
        ctrl ← in_ !! ip;
        let ip := S ip in
        if ctrl <? 2 ^ 5 then
          let n := Z.to_nat (ctrl + 1) in
          if (out_len <? length out + n)%nat then Some (inl E2BIG)
          else if (length in_ <? ip + n)%nat then Some (inl EINVAL)
          else
            out ← copy_run out_len in_ n ip out;
            decompress_loop fuel' in_ out_len (ip + n) out
        else
          let len := Z.shiftr ctrl 5 in
          let ref := Z.of_nat (length out) - Z.shiftl (Z.land ctrl 31) 8 - 1 in
          if (length in_ <=? ip)%nat then Some (inl EINVAL)
          else
            '(len, ip) ← (if len =? 7 then b ← in_ !! ip; Some (len + b, S ip) else Some (len, ip));
            if (Z.shiftr ctrl 5 =? 7) && (length in_ <=? ip)%nat then Some (inl EINVAL)
            else
              b ← in_ !! ip;
              let ip := S ip in
              let ref := ref - b in
              if Z.of_nat out_len <? Z.of_nat (length out) + len + 2 then Some (inl E2BIG)
              else if ref <? 0 then Some (inl EINVAL)
              else
                out ← copy_ref out_len (Z.to_nat len) (Z.to_nat ref) out;
                decompress_loop fuel' in_ out_len ip out
    end
  else Some (inr out).

Definition lzf_decompress (in_ : list Z) (out_len : nat) : option (lzf_errno + list Z) :=
  decompress_loop (length in_) in_ out_len 0 [].
