(* ===== verification/LzfFacts.v ===== *)
(** * LZF: decompression inverts compression, and is safe on any input *)

From stdpp Require Import base list option.
From Stdlib Require Import ZArith Lia Bool.
From S2P Require Import Prelude Lzf.

Local Open Scope Z_scope.

(** ** Copying *)

Lemma take_S_snoc {A} (l : list A) i x : l !! i = Some x -> take i l ++ [x] = take (S i) l.
Proof. intros H. symmetry. by apply take_S_r. Qed.

Lemma emit_ok out_len out bs : (length out + length bs <= out_len)%nat -> emit out_len out bs = Some (out ++ bs).
Proof. intros Hl. unfold emit. by rewrite (proj2 (Nat.leb_le _ _)). Qed.

Lemma copy_run_spec cap a l c n ip out : ip = length a -> n = length l -> (length out + length l <= cap)%nat ->
  copy_run cap (a ++ l ++ c) n ip out = Some (out ++ l).
Proof.
  intros -> ->. revert a out. induction l as [|x l IH]; intros a out Hc; cbn [copy_run length]; [by rewrite app_nil_r|]. cbn [length] in Hc.
  cbn [app]. rewrite list_lookup_middle by done. cbn [mbind option_bind]. rewrite emit_ok by (cbn; lia). cbn [mbind option_bind].
  replace (a ++ x :: l ++ c) with ((a ++ [x]) ++ l ++ c) by (by rewrite <- app_assoc). replace (S (length a)) with (length (a ++ [x])) by (rewrite length_app; cbn; lia).
  rewrite IH by (rewrite length_app; cbn; lia). by rewrite <- app_assoc.
Qed.

(** [out'] continues [out] with [n] bytes, each equal to the one [off + 1] bytes
    before it. *)
Definition repeats (off n : nat) (out out' : list Z) : Prop :=
  length out' = (length out + n)%nat /\ take (length out) out' = out /\
  forall i, (i < n)%nat -> out' !! (length out + i)%nat = out' !! (length out - S off + i)%nat.

Lemma copy_octets_match cap inp n ref ip :
  (ref < ip)%nat -> (ip + n <= length inp)%nat -> (ip + n <= cap)%nat ->
  (forall i, (i < n)%nat -> inp !! (ref + i)%nat = inp !! (ip + i)%nat) ->
  copy_octets cap n ref (take ip inp) = Some (take (ip + n) inp).
Proof.
  revert ref ip; induction n as [|n IH]; intros ref ip Hr Hl Hc Hm; cbn [copy_octets].
  { by rewrite Nat.add_0_r. }
  destruct (lookup_lt_is_Some_2 inp ip) as [b Hb]; [lia|].
  rewrite lookup_take_lt by lia. specialize (Hm 0%nat ltac:(lia)) as H0. rewrite !Nat.add_0_r in H0.
  rewrite H0, Hb. cbn [mbind option_bind]. rewrite emit_ok by (rewrite length_take; cbn; lia). cbn [mbind option_bind]. rewrite (take_S_snoc _ _ _ Hb).
  rewrite (IH (S ref) (S ip)); [by replace (S ip + n)%nat with (ip + S n)%nat by lia|lia..|].
  intros i Hi. specialize (Hm (S i) ltac:(lia)).
  by replace (ref + S i)%nat with (S ref + i)%nat in Hm by lia; replace (ip + S i)%nat with (S ip + i)%nat in Hm by lia.
Qed.

Lemma copy_octets_repeats cap n off out : (off < length out)%nat -> (length out + n <= cap)%nat ->
  exists out', copy_octets cap n (length out - S off) out = Some out' /\ repeats off n out out'.
Proof.
  revert out; induction n as [|n IH]; intros out Hr Hc; cbn [copy_octets].
  { exists out. unfold repeats. rewrite Nat.add_0_r, firstn_all. split_and!; [done..|lia]. }
  destruct (lookup_lt_is_Some_2 out (length out - S off)) as [b Hb]; [lia|]. rewrite Hb. cbn [mbind option_bind]. rewrite emit_ok by (cbn; lia). cbn [mbind option_bind].
  destruct (IH (out ++ [b])) as (out' & Ho & Hl & Ht & Hi); [rewrite length_app; cbn; lia..|]. rewrite length_app in *. cbn [length] in *.
  replace (length out + 1 - S off)%nat with (S (length out - S off)) in Ho by lia. rewrite Ho. exists out'.
  assert (take (length out) out' = out) as Ht'. { transitivity (take (length out) (out ++ [b])); [|apply take_app_length]. rewrite <- Ht, take_take. f_equal. lia. }
  unfold repeats. split_and!; [done|lia|done|]. intros [|i] Hlt.
  - rewrite !Nat.add_0_r. assert (out' !! length out = Some b) as ->. { rewrite <- (lookup_take_lt out' (length out + 1) (length out)) by lia. rewrite Ht. by rewrite lookup_app_r, Nat.sub_diag by lia. }
    rewrite <- (lookup_take_lt out' (length out) (length out - S off)) by lia. by rewrite Ht'.
  - specialize (Hi i ltac:(lia)). replace (length out + 1 + i)%nat with (length out + S i)%nat in Hi by lia. rewrite Hi. f_equal. lia.
Qed.

(** The continuation is unique and is what the code copies. *)
Lemma repeats_copy cap n off out out' : repeats off n out out' -> (off < length out)%nat -> (length out' <= cap)%nat ->
  copy_octets cap n (length out - S off) out = Some out'.
Proof.
  intros (Hl & Ht & Hi) Ho Hc. rewrite <- Ht at 2. rewrite copy_octets_match; [|lia..|].
  - by rewrite <- Hl, firstn_all.
  - intros i Hlt. by rewrite Hi.
Qed.

Lemma copy_octets_disjoint cap n ref out :
  (ref + n <= length out)%nat -> (length out + n <= cap)%nat -> copy_octets cap n ref out = Some (out ++ take n (drop ref out)).
Proof.
  revert ref out; induction n as [|n IH]; intros ref out Hr Hc; cbn [copy_octets].
  { by rewrite take_0, app_nil_r. }
  destruct (lookup_lt_is_Some_2 out ref) as [b Hb]; [lia|]. rewrite Hb. cbn [mbind option_bind]. rewrite emit_ok by (cbn; lia). cbn [mbind option_bind].
  rewrite IH by (rewrite length_app; cbn; lia).
  rewrite drop_app_le, take_app_le by (rewrite ?length_drop; lia).
  rewrite (drop_S _ _ _ Hb). cbn [take]. by rewrite <- app_assoc.
Qed.

(** The copy by [memcpy] and the one byte by byte agree. *)
Lemma copy_ref_octets cap len ref out : (length out + (len + 2) <= cap)%nat -> copy_ref cap len ref out = copy_octets cap (len + 2) ref out.
Proof.
  intros Hc. unfold copy_ref. destruct (len <=? 9)%nat; [done|].
  destruct (Nat.leb_spec (ref + (len + 2)) (length out)); [|done].
  rewrite copy_octets_disjoint by lia. apply emit_ok. rewrite length_take, length_drop. lia.
Qed.

(** ** What a compressed stream decodes to *)

Definition ref_bytes (off : Z) (len : nat) : list Z :=
  if (len <? 7)%nat then [off / 256 + Z.of_nat len * 32; off mod 256]
  else [off / 256 + 224; Z.of_nat len - 7; off mod 256].

Inductive decoded : list Z -> list Z -> Prop :=
| decoded_nil : decoded [] []
| decoded_lit D out l :
    decoded D out -> (1 <= length l <= 32)%nat ->
    decoded (D ++ (Z.of_nat (length l) - 1) :: l) (out ++ l)
| decoded_ref D out off len out' :
    decoded D out -> 0 <= off < MAX_OFF -> off < Z.of_nat (length out) -> (1 <= len <= 262)%nat ->
    repeats (Z.to_nat off) (len + 2) out out' ->
    decoded (D ++ ref_bytes off len) out'.

Lemma off_bytes q b : 0 <= b < 256 -> (q * 256 + b) / 256 = q /\ (q * 256 + b) mod 256 = b.
Proof. intros Hb. split; dlia. Qed.

(** The part of the loop after the length of a back reference is known. *)
Definition ref_step (fuel : nat) (in_ : list Z) (cap ip : nat) (out : list Z) (len off : Z) : option (lzf_errno + list Z) :=
  let ref := Z.of_nat (length out) - off - 1 in
  if Z.of_nat cap <? Z.of_nat (length out) + len + 2 then Some (inl E2BIG)
  else if ref <? 0 then Some (inl EINVAL)
  else out ← copy_ref cap (Z.to_nat len) (Z.to_nat ref) out; decompress_loop fuel in_ cap ip out.

(** The iterations of the loop on the bytes [rest] after [D]. *)
Lemma loop_end fuel D cap out : decompress_loop fuel D cap (length D) out = Some (inr out).
Proof. destruct fuel; cbn [decompress_loop]; by rewrite (proj2 (Nat.ltb_ge _ _)) by lia. Qed.

Lemma loop_lit fuel D ctrl rest cap out : ctrl < 32 -> 0 <= ctrl -> let n := Z.to_nat (ctrl + 1) in
  decompress_loop (S fuel) (D ++ ctrl :: rest) cap (length D) out =
  if (cap <? length out + n)%nat then Some (inl E2BIG)
  else if (length rest <? n)%nat then Some (inl EINVAL)
  else decompress_loop fuel (D ++ ctrl :: rest) cap (length D + S n) (out ++ take n rest).
Proof.
  intros Hc H0 n. cbn [decompress_loop]. rewrite length_app. cbn [length]. rewrite (proj2 (Nat.ltb_lt _ _)) by lia. rewrite (list_lookup_middle D rest ctrl (length D) eq_refl). cbn [mbind option_bind]. change (2 ^ 5) with 32. rewrite_if_true. fold n.
  destruct (Nat.ltb_spec cap (length out + n)); [done|]. destruct (Nat.ltb_spec (length rest) n) as [Hl|Hl].
  - by rewrite (proj2 (Nat.ltb_lt _ _)) by lia.
  - rewrite (proj2 (Nat.ltb_ge _ _)) by lia. assert (D ++ ctrl :: rest = (D ++ [ctrl]) ++ take n rest ++ drop n rest) as E by (rewrite take_drop, <- app_assoc; done).
    rewrite E at 1. rewrite (copy_run_spec cap (D ++ [ctrl])); [|rewrite length_app; cbn; lia|rewrite length_take; lia|rewrite length_take; lia]. cbn [mbind option_bind]. by replace (S (length D) + n)%nat with (length D + S n)%nat by lia.
Qed.

Lemma loop_ref fuel D ctrl rest cap out : 32 <= ctrl < 256 ->
  decompress_loop (S fuel) (D ++ ctrl :: rest) cap (length D) out =
  match (if ctrl / 32 =? 7 then match rest with b :: rest' => Some (7 + b, 3%nat, rest') | [] => None end else Some (ctrl / 32, 2%nat, rest)) with
  | Some (len, k, b :: _) => ref_step fuel (D ++ ctrl :: rest) cap (length D + k) out len ((ctrl mod 32) * 256 + b)
  | _ => Some (inl EINVAL)
  end.
Proof.
  intros Hc. cbn [decompress_loop]. rewrite length_app. cbn [length]. rewrite (proj2 (Nat.ltb_lt _ _)) by lia. rewrite (list_lookup_middle D rest ctrl (length D) eq_refl). cbn [mbind option_bind]. change (2 ^ 5) with 32. rewrite_if_false.
  rewrite !Z.shiftr_div_pow2 by lia. change 31 with (Z.ones 5). rewrite Z.land_ones by lia. change (2 ^ 5) with 32. rewrite Z.shiftl_mul_pow2 by lia. change (2 ^ 8) with 256.
  assert (forall i, (D ++ ctrl :: rest) !! (S (length D) + i)%nat = rest !! i) as Hi. { intros i. rewrite lookup_app_r by lia. by replace (S (length D) + i - length D)%nat with (S i) by lia. }
  pose proof (Hi 0%nat) as H0. rewrite Nat.add_0_r in H0. destruct rest as [|b rest]; cbn [length].
  { rewrite (proj2 (Nat.leb_le _ _)) by lia. by destruct (_ =? _). }
  rewrite (proj2 (Nat.leb_gt _ _)) by lia. destruct (Z.eqb_spec (ctrl / 32) 7) as [E7|E7].
  - rewrite H0. cbn [lookup list_lookup mbind option_bind]. destruct rest as [|b2 rest]; cbn [length].
    + by rewrite (proj2 (Nat.leb_le _ _)) by lia.
    + rewrite (proj2 (Nat.leb_gt _ _)) by lia. cbn [andb]. pose proof (Hi 1%nat) as H1. replace (S (length D) + 1)%nat with (S (S (length D))) in H1 by lia. rewrite H1. cbn [lookup list_lookup mbind option_bind].
      unfold ref_step. rewrite E7. replace (S (S (S (length D)))) with (length D + 3)%nat by lia. by replace (Z.of_nat (length out) - ctrl mod 32 * 256 - 1 - b2) with (Z.of_nat (length out) - (ctrl mod 32 * 256 + b2) - 1) by lia.
  - cbn [mbind option_bind andb]. rewrite H0. cbn [lookup list_lookup mbind option_bind]. unfold ref_step. replace (S (S (length D))) with (length D + 2)%nat by lia. by replace (Z.of_nat (length out) - ctrl mod 32 * 256 - 1 - b) with (Z.of_nat (length out) - (ctrl mod 32 * 256 + b) - 1) by lia.
Qed.

Lemma ref_step_ok fuel in_ cap ip out len off out' : 0 <= off < Z.of_nat (length out) -> (length out' <= cap)%nat -> repeats (Z.to_nat off) (len + 2) out out' ->
  ref_step fuel in_ cap ip out (Z.of_nat len) off = decompress_loop fuel in_ cap ip out'.
Proof.
  intros Ho Hc Hr. pose proof Hr as (Hl & _). unfold ref_step. rewrite_if_false. rewrite_if_false. rewrite Nat2Z.id, copy_ref_octets by lia.
  replace (Z.to_nat (Z.of_nat (length out) - off - 1)) with (length out - S (Z.to_nat off))%nat by lia. by rewrite (repeats_copy cap _ _ _ out') by (done || lia).
Qed.

(** ** Decompression is sound on any input *)

Lemma decompress_sound fuel D rest cap out : (length rest <= fuel)%nat -> Forall is_byte rest -> decoded D out -> (length out <= cap)%nat ->
  exists r, decompress_loop fuel (D ++ rest) cap (length D) out = Some r /\
    match r with inl _ => True | inr out' => decoded (D ++ rest) out' /\ (length out' <= cap)%nat end.
Proof.
  revert D rest out. induction fuel as [|fuel IH]; intros D rest out Hf Hb Hd Hc.
  { destruct rest; [|cbn in Hf; lia]. rewrite app_nil_r, loop_end. by eexists. }
  destruct rest as [|ctrl rest]; [rewrite app_nil_r, loop_end; by eexists|]. apply Forall_cons_1 in Hb as [Hctrl Hb]. unfold is_byte in Hctrl. cbn in Hf.
  (* the next iteration, after [k] more bytes [u] and with the output [out1] *)
  assert (forall u v out1, ctrl :: rest = u ++ v -> (length v <= fuel)%nat -> Forall is_byte v -> decoded (D ++ u) out1 -> (length out1 <= cap)%nat ->
    exists r, decompress_loop fuel (D ++ ctrl :: rest) cap (length D + length u) out1 = Some r /\ match r with inl _ => True | inr out' => decoded (D ++ ctrl :: rest) out' /\ (length out' <= cap)%nat end) as Hnext.
  { intros u v out1 E Hl Hbv Hd1 Hc1. rewrite E, app_assoc, <- length_app. by apply IH. }
  destruct (Z.lt_ge_cases ctrl 32) as [Hlit|Href].
  - rewrite loop_lit by lia. set (n := Z.to_nat (ctrl + 1)). destruct (Nat.ltb_spec cap (length out + n)); [by eexists|]. destruct (Nat.ltb_spec (length rest) n); [by eexists|].
    assert (length (take n rest) = n) as Hn by (rewrite length_take; lia). replace (S n) with (length (ctrl :: take n rest)) by (cbn; lia).
    apply (Hnext _ (drop n rest)); [cbn; by rewrite take_drop|rewrite length_drop; lia|by apply Forall_drop| |rewrite length_app; lia].
    replace ctrl with (Z.of_nat (length (take n rest)) - 1) at 1 by lia. apply decoded_lit; [done|lia].
  - rewrite loop_ref by lia.
    (* a back reference written as [u] *)
    assert (forall u v len off, ctrl :: rest = u ++ v -> (length v <= fuel)%nat -> Forall is_byte v -> u = ref_bytes off len -> 0 <= off < MAX_OFF -> (1 <= len <= 262)%nat ->
      exists r, ref_step fuel (D ++ ctrl :: rest) cap (length D + length u) out (Z.of_nat len) off = Some r /\ match r with inl _ => True | inr out' => decoded (D ++ ctrl :: rest) out' /\ (length out' <= cap)%nat end) as Hstep.
    { intros u v len off E Hl Hbv Hu Ho Hlen. destruct (Z.lt_ge_cases (Z.of_nat cap) (Z.of_nat (length out) + Z.of_nat len + 2)); [unfold ref_step; rewrite_if_true; by eexists|].
      destruct (Z.lt_ge_cases off (Z.of_nat (length out))) as [Hof|Hof]; [|unfold ref_step; rewrite_if_false; rewrite_if_true; by eexists].
      destruct (copy_octets_repeats cap (len + 2) (Z.to_nat off) out) as (out' & _ & Hrep); [lia..|]. pose proof Hrep as (Hl' & _).
      rewrite (ref_step_ok _ _ _ _ _ _ _ out') by (done || lia). apply (Hnext u v); [done..| |lia]. rewrite Hu. by apply (decoded_ref _ out). }
    pose proof (Z.div_mod ctrl 32 ltac:(lia)) as Hdm. pose proof (Z.mod_pos_bound ctrl 32 ltac:(lia)) as Hmod. assert (1 <= ctrl / 32 <= 7) as Hdiv by dlia. unfold MAX_OFF in Hstep. destruct (Z.eqb_spec (ctrl / 32) 7) as [E7|E7].
    + destruct rest as [|b [|b2 rest]]; [by eexists..|]. apply Forall_cons_1 in Hb as [Hb1 Hb]. apply Forall_cons_1 in Hb as [Hb2 Hb]. unfold is_byte in Hb1, Hb2. cbn in Hf.
      replace (7 + b) with (Z.of_nat (Z.to_nat (7 + b))) by lia. apply (Hstep [ctrl; b; b2] rest); [done|lia|done| |lia|lia].
      unfold ref_bytes. rewrite (proj2 (Nat.ltb_ge _ _)) by lia. destruct (off_bytes (ctrl mod 32) b2) as [-> ->]; [done|]. f_equal; [lia|]. f_equal. lia.
    + destruct rest as [|b rest]; [by eexists|]. apply Forall_cons_1 in Hb as [Hb1 Hb]. unfold is_byte in Hb1. cbn in Hf.
      replace (ctrl / 32) with (Z.of_nat (Z.to_nat (ctrl / 32))) by lia. apply (Hstep [ctrl; b] rest); [done|lia|done| |lia|lia].
      unfold ref_bytes. rewrite (proj2 (Nat.ltb_lt _ _)) by lia. destruct (off_bytes (ctrl mod 32) b) as [-> ->]; [done|]. f_equal. lia.
Qed.

(** ** Decompression is complete *)

Lemma decode_ref fuel D off len rest out out' cap :
  0 <= off < MAX_OFF -> off < Z.of_nat (length out) -> (1 <= len <= 262)%nat ->
  repeats (Z.to_nat off) (len + 2) out out' -> (length out' <= cap)%nat ->
  decompress_loop (S fuel) (D ++ ref_bytes off len ++ rest) cap (length D) out =
  decompress_loop fuel (D ++ ref_bytes off len ++ rest) cap (length (D ++ ref_bytes off len)) out'.
Proof.
  unfold MAX_OFF. intros Ho1 Ho2 Hlen Hcopy Hcap. assert (0 <= off / 256 < 32) as Hq by dlia. assert (off / 256 * 256 + off mod 256 = off) as Hoff by (pose proof (Z.div_mod off 256 ltac:(lia)); lia).
  rewrite length_app. unfold ref_bytes. destruct (Nat.ltb_spec len 7); cbn [app length].
  - rewrite loop_ref by lia. rewrite Z.div_add, (Z.div_small (off / 256) 32), Z.mod_add, (Z.mod_small (off / 256) 32) by lia. rewrite (proj2 (Z.eqb_neq _ 7)) by lia. cbn [Z.add]. rewrite Hoff. apply ref_step_ok; [lia|done..].
  - rewrite loop_ref by lia. change 224 with (7 * 32). rewrite Z.div_add, (Z.div_small (off / 256) 32), Z.mod_add, (Z.mod_small (off / 256) 32) by lia. change (0 + 7 =? 7) with true. cbv beta iota. rewrite Hoff.
    replace (7 + (Z.of_nat len - 7)) with (Z.of_nat len) by lia. apply ref_step_ok; [lia|done..].
Qed.

Lemma decode_lit fuel D l rest out cap :
  (1 <= length l <= 32)%nat -> (length out + length l <= cap)%nat ->
  decompress_loop (S fuel) (D ++ ((Z.of_nat (length l) - 1) :: l) ++ rest) cap (length D) out =
  decompress_loop fuel (D ++ ((Z.of_nat (length l) - 1) :: l) ++ rest) cap (length (D ++ (Z.of_nat (length l) - 1) :: l)) (out ++ l).
Proof.
  intros Hl Hc. cbn [app]. rewrite loop_lit by lia. replace (Z.to_nat (Z.of_nat (length l) - 1 + 1)) with (length l) by lia.
  rewrite (proj2 (Nat.ltb_ge _ _)) by lia. rewrite (proj2 (Nat.ltb_ge _ _)) by (rewrite length_app; lia). rewrite take_app_length, length_app. done.
Qed.

Lemma decoded_loop D out rest fuel cap :
  decoded D out -> (length out <= cap)%nat -> (length (D ++ rest) <= fuel)%nat ->
  exists fuel', (length rest <= fuel')%nat /\
    decompress_loop fuel (D ++ rest) cap 0 [] = decompress_loop fuel' (D ++ rest) cap (length D) out.
Proof.
  intros H. revert rest fuel. induction H as [|D out l Hd IH Hl|D out off len out' Hd IH Ho1 Ho2 Hlen Hrep];
    intros rest fuel Hcap Hf.
  - by exists fuel.
  - rewrite length_app in Hcap. rewrite <- app_assoc in *.
    destruct (IH (((Z.of_nat (length l) - 1) :: l) ++ rest) fuel) as (f1 & Hf1 & ->); [lia|done|].
    destruct f1 as [|f1]; [cbn in Hf1; lia|]. exists f1. rewrite decode_lit by lia. split; [|done].
    cbn in Hf1. rewrite length_app in Hf1. lia.
  - pose proof Hrep as (Hl' & _). rewrite <- app_assoc in *.
    assert (2 <= length (ref_bytes off len))%nat by (unfold ref_bytes; destruct (_ <? _)%nat; cbn; lia).
    destruct (IH (ref_bytes off len ++ rest) fuel) as (f1 & Hf1 & ->); [lia|done|]. rewrite length_app in Hf1.
    destruct f1 as [|f1]; [lia|]. exists f1. rewrite (decode_ref _ _ _ _ _ _ out') by done. split; [lia|done].
Qed.

Lemma decoded_decompress D out cap :
  decoded D out -> (length out <= cap)%nat -> lzf_decompress D cap = Some (inr out).
Proof.
  intros Hd Hc. unfold lzf_decompress.
  destruct (decoded_loop D out [] (length D) cap Hd Hc) as (f & Hf & E); rewrite app_nil_r in *; [lia|].
  rewrite E. apply loop_end.
Qed.

(** Malformed input is malformed whatever the room. *)
Lemma einval_more fuel D rest cap cap' out : Forall is_byte rest -> (cap <= cap')%nat ->
  decompress_loop fuel (D ++ rest) cap (length D) out = Some (inl EINVAL) -> decompress_loop fuel (D ++ rest) cap' (length D) out = Some (inl EINVAL).
Proof.
  intros Hb Hcc. revert D rest out Hb. induction fuel as [|fuel IH]; intros D rest out Hb; (destruct rest as [|ctrl rest]; [by rewrite app_nil_r, loop_end|]).
  { cbn [decompress_loop]. rewrite (proj2 (Nat.ltb_lt _ _)) by (rewrite length_app; cbn; lia). done. }
  apply Forall_cons_1 in Hb as [Hctrl Hb]. unfold is_byte in Hctrl.
  assert (forall u v out1, ctrl :: rest = u ++ v -> Forall is_byte v -> decompress_loop fuel (D ++ ctrl :: rest) cap (length D + length u) out1 = Some (inl EINVAL) ->
    decompress_loop fuel (D ++ ctrl :: rest) cap' (length D + length u) out1 = Some (inl EINVAL)) as Hnext by (intros u v out1 E Hv; rewrite E, app_assoc, <- length_app; by apply IH).
  destruct (Z.lt_ge_cases ctrl 32) as [Hlit|Href].
  - rewrite !loop_lit by lia. set (n := Z.to_nat (ctrl + 1)). destruct (Nat.ltb_spec cap (length out + n)); [done|]. rewrite (proj2 (Nat.ltb_ge cap' _)) by lia. destruct (Nat.ltb_spec (length rest) n); [done|].
    replace (S n) with (length (ctrl :: take n rest)) by (cbn; rewrite length_take; lia). apply (Hnext _ (drop n rest)); [cbn; by rewrite take_drop|by apply Forall_drop].
  - assert (forall u v len off, ctrl :: rest = u ++ v -> Forall is_byte v -> 0 <= len -> 0 <= off -> ref_step fuel (D ++ ctrl :: rest) cap (length D + length u) out len off = Some (inl EINVAL) ->
      ref_step fuel (D ++ ctrl :: rest) cap' (length D + length u) out len off = Some (inl EINVAL)) as Hstep.
    { intros u v len off E Hv Hl Ho. unfold ref_step. destruct (Z.ltb_spec (Z.of_nat cap) (Z.of_nat (length out) + len + 2)); [done|]. rewrite (proj2 (Z.ltb_ge (Z.of_nat cap') _)) by lia. destruct (Z.ltb_spec (Z.of_nat (length out) - off - 1) 0); [done|].
      rewrite !copy_ref_octets by lia. replace (Z.to_nat (Z.of_nat (length out) - off - 1)) with (length out - S (Z.to_nat off))%nat by lia.
      destruct (copy_octets_repeats cap (Z.to_nat len + 2) (Z.to_nat off) out) as (out' & -> & Hrep); [lia..|]. pose proof Hrep as (Hl' & _). rewrite (repeats_copy cap' _ _ _ out') by (done || lia). cbn [mbind option_bind]. by apply (Hnext u v). }
    pose proof (Z.mod_pos_bound ctrl 32 ltac:(lia)) as Hmod. assert (0 <= ctrl / 32) by dlia. rewrite !loop_ref by lia. destruct (ctrl / 32 =? 7).
    + destruct rest as [|b [|b2 rest]]; [done..|]. apply Forall_cons_1 in Hb as [Hb1 Hb]. apply Forall_cons_1 in Hb as [Hb2 Hb]. unfold is_byte in *. apply (Hstep [ctrl; b; b2] rest); [done|done|lia|lia].
    + destruct rest as [|b rest]; [done|]. apply Forall_cons_1 in Hb as [Hb1 Hb]. unfold is_byte in *. apply (Hstep [ctrl; b] rest); [done|done|lia|lia].
Qed.

(** ** Compression *)

Lemma store_app (a c : list Z) x b : store (a ++ x :: c) (length a) b = Some (a ++ u8 b :: c).
Proof.
  unfold store. rewrite (proj2 (Nat.ltb_lt _ _)) by (rewrite length_app; cbn; lia).
  f_equal. rewrite insert_app_r_alt, Nat.sub_diag by lia. done.
Qed.

Lemma u8_small b : 0 <= b < 256 -> u8 b = b.
Proof. apply (wrap_small 8). Qed.

Section Inv.
Context (inp : list Z) (out_len : nat).
Hypothesis inp_bytes : Forall is_byte inp.
Hypothesis inp_len : Z.of_nat (length inp) < 2 ^ 32.

Definition slice (i n : nat) : list Z := take n (drop i inp).

Lemma slice_snoc i n b : inp !! (i + n)%nat = Some b -> slice i n ++ [b] = slice i (S n).
Proof. intros H. apply take_S_snoc. by rewrite lookup_drop. Qed.

Lemma slice_take i n : take i inp ++ slice i n = take (i + n) inp.
Proof. apply take_take_drop. Qed.

Lemma slice_length i n : (i + n <= length inp)%nat -> length (slice i n) = n.
Proof. intros. unfold slice. rewrite length_take, length_drop. lia. Qed.

(** [D] is complete; a run of [lit] literals is open, its header at [length D]. *)
Record run_inv (D : list Z) (ip op lit : nat) (out : list Z) : Prop := {
  ri_decoded : decoded D (take (ip - lit) inp);
  ri_ip : (lit <= ip <= length inp)%nat;
  ri_lit : (lit < MAX_LIT)%nat;
  ri_op : op = (length D + 1 + lit)%nat;
  ri_len : length out = out_len;
  ri_out : (exists h rest, out = D ++ h :: slice (ip - lit) lit ++ rest) \/ (lit = 0%nat /\ out = D);
}.

Lemma run_inv_start D ip rest :
  decoded D (take ip inp) -> (ip <= length inp)%nat -> length (D ++ rest) = out_len ->
  run_inv D ip (S (length D)) 0 (D ++ rest).
Proof.
  intros Hd Hip Hl. split; rewrite ?Nat.sub_0_r; try done; try (unfold MAX_LIT; lia).
  destruct rest as [|h rest]; [right; by rewrite app_nil_r|left]. by exists h, rest.
Qed.

Lemma lookup_byte i b : inp !! i = Some b -> 0 <= b < 256.
Proof. intros H. by apply (Forall_lookup_1 _ _ _ _ inp_bytes) in H. Qed.

(** Closing the run. *)
Lemma stop_run_spec D ip op lit out :
  run_inv D ip op lit out -> (op <= out_len)%nat ->
  exists D' rest', stop_run out op lit = Some (D' ++ rest', length D') /\
    length D' = (op - if (lit =? 0)%nat then 1 else 0)%nat /\ length (D' ++ rest') = out_len /\
    decoded D' (take ip inp).
Proof.
  intros [Hd Hip Hlit -> Hlen Hout] Hop. unfold stop_run.
  destruct Hout as [(h & rest & ->)|[-> ->]]; [|lia].
  replace (length D + 1 + lit - lit - 1)%nat with (length D) by lia.
  rewrite store_app. cbn [mbind option_bind]. destruct (Nat.eqb_spec lit 0) as [->|Hne].
  - exists D, (u8 (-1) :: rest). rewrite Nat.sub_0_r in Hd. change (slice (ip - 0) 0) with (@nil Z).
    split_and!; [do 2 f_equal; lia|lia| |done]. rewrite length_app in *. done.
  - assert (length (slice (ip - lit) lit) = lit) as Hs by (apply slice_length; lia).
    exists (D ++ u8 (Z.of_nat lit - 1) :: slice (ip - lit) lit), rest.
    unfold MAX_LIT in Hlit. rewrite u8_small by lia. rewrite <- app_assoc. cbn [app].
    split_and!; [do 2 f_equal; rewrite length_app; cbn; lia|rewrite length_app; cbn; lia| |].
    + revert Hlen. rewrite !length_app. cbn [length]. rewrite !length_app. done.
    + pose proof (decoded_lit D _ (slice (ip - lit) lit) Hd) as Hl. rewrite Hs, slice_take in Hl.
      replace (ip - lit + lit)%nat with ip in Hl by lia. apply Hl. lia.
Qed.

(** One more literal. *)
Lemma literal_spec D ip op lit out :
  run_inv D ip op lit out -> (op < out_len)%nat -> (ip < length inp)%nat ->
  exists b out1, inp !! ip = Some b /\ store out op b = Some out1 /\
    if (S lit =? MAX_LIT)%nat then
      exists out2 D', store out1 (S op - S lit - 1) (Z.of_nat (S lit) - 1) = Some out2 /\
        run_inv D' (S ip) (S (S op)) 0 out2
    else run_inv D (S ip) (S op) (S lit) out1.
Proof.
  intros [Hd Hip Hlit -> Hlen Hout] Hop Hi. destruct Hout as [(h & rest & ->)|[-> ->]]; [|lia].
  destruct (lookup_lt_is_Some_2 inp ip Hi) as [b Hb]. pose proof (lookup_byte _ _ Hb) as Hbyte.
  assert (length (slice (ip - lit) lit) = lit) as Hs by (apply slice_length; lia).
  destruct rest as [|x rest].
  { rewrite app_nil_r, length_app in Hlen. cbn in Hlen. lia. }
  assert (store (D ++ h :: slice (ip - lit) lit ++ x :: rest) (length D + 1 + lit) b =
    Some (D ++ h :: slice (ip - lit) (S lit) ++ rest)) as Hst.
  { replace (D ++ h :: slice (ip - lit) lit ++ x :: rest)
      with ((D ++ h :: slice (ip - lit) lit) ++ x :: rest) by (by rewrite <- app_assoc).
    replace (length D + 1 + lit)%nat with (length (D ++ h :: slice (ip - lit) lit))
      by (rewrite length_app; cbn; lia).
    rewrite store_app, u8_small by done. rewrite <- (slice_snoc (ip - lit) lit b)
      by (by replace (ip - lit + lit)%nat with ip by lia).
    by rewrite <- !app_assoc. }
  assert (length (D ++ h :: slice (ip - lit) (S lit) ++ rest) = out_len) as Hlen'.
  { rewrite <- Hlen. rewrite !length_app. cbn [length]. rewrite !length_app. cbn [length].
    rewrite !slice_length by lia. lia. }
  exists b, (D ++ h :: slice (ip - lit) (S lit) ++ rest). split_and!; [done|done|].
  destruct (Nat.eqb_spec (S lit) MAX_LIT) as [Hmax|Hmax].
  - replace (S (length D + 1 + lit) - S lit - 1)%nat with (length D) by lia.
    rewrite store_app, u8_small by (unfold MAX_LIT in *; lia).
    eexists _, (D ++ Z.of_nat (S lit) - 1 :: slice (ip - lit) (S lit)). split; [done|].
    assert (length (slice (ip - lit) (S lit)) = S lit) as Hs' by (apply slice_length; lia).
    replace (S (S (length D + 1 + lit)))
      with (S (length (D ++ Z.of_nat (S lit) - 1 :: slice (ip - lit) (S lit))))
      by (rewrite length_app; cbn [length]; lia).
    replace (D ++ Z.of_nat (S lit) - 1 :: slice (ip - lit) (S lit) ++ rest)
      with ((D ++ Z.of_nat (S lit) - 1 :: slice (ip - lit) (S lit)) ++ rest) by (by rewrite <- app_assoc).
    apply run_inv_start; [|lia|].
    + pose proof (decoded_lit D _ (slice (ip - lit) (S lit)) Hd) as Hl. rewrite Hs', slice_take in Hl.
      replace (ip - lit + S lit)%nat with (S ip) in Hl by lia. apply Hl. unfold MAX_LIT in *. lia.
    + rewrite <- Hlen'. rewrite <- app_assoc. cbn [app]. by rewrite !length_app.
  - split; try done; replace (S ip - S lit)%nat with (ip - lit)%nat by lia; try done; try lia.
    left. by exists h, rest.
Qed.

(** The search for a match. *)
Lemma find_ref_spec ip ref :
  (ip + 2 < length inp)%nat -> 0 <= ref < 2 ^ 32 ->
  exists r, find_ref inp ip ref = Some r /\
    match r with
    | None => True
    | Some off => 0 <= off < MAX_OFF /\ ref = Z.of_nat ip - 1 - off /\ 0 < ref /\
        forall i, (i < 3)%nat -> inp !! (Z.to_nat ref + i)%nat = inp !! (ip + i)%nat
    end.
Proof.
  intros Hip Href. unfold find_ref. case_if; [|by eexists].
  assert (ref < Z.of_nat ip) as Hlt.
  { destruct (Z.lt_ge_cases ref (Z.of_nat ip)); [done|]. unfold MAX_OFF in *.
    assert (u64 (Z.of_nat ip - ref - 1) = Z.of_nat ip - ref - 1 + 2 ^ 64) as E'; [|lia].
    unfold wrap. symmetry. apply (Z.mod_unique _ _ (-1)); [left|]; lia. }
  rewrite u64_small in * by lia.
  destruct (lookup_lt_is_Some_2 inp (Z.to_nat ref + 2)) as [r2 E2]; [lia|].
  destruct (lookup_lt_is_Some_2 inp (ip + 2)) as [i2 F2]; [lia|].
  destruct (lookup_lt_is_Some_2 inp (Z.to_nat ref)) as [r0 E0]; [lia|].
  destruct (lookup_lt_is_Some_2 inp ip) as [i0 F0]; [lia|].
  destruct (lookup_lt_is_Some_2 inp (Z.to_nat ref + 1)) as [r1 E1]; [lia|].
  destruct (lookup_lt_is_Some_2 inp (ip + 1)) as [i1 F1]; [lia|].
  rewrite E2, F2. cbn [mbind option_bind]. destruct (Z.eqb_spec r2 i2) as [->|]; [|by eexists].
  rewrite E0, E1, F0, F1. cbn [mbind option_bind].
  destruct (Z.eqb_spec r0 i0) as [->|]; [|by eexists].
  destruct (Z.eqb_spec r1 i1) as [->|]; [|by eexists].
  eexists. split; [done|]. split_and!; try lia.
  intros [|[|[|i]]] Hi; rewrite ?Nat.add_0_r; try lia; congruence.
Qed.

(** [ref] and [ip] agree on [len] bytes. *)
Definition agree (ref ip len : nat) : Prop :=
  forall i, (i < len)%nat -> inp !! (ref + i)%nat = inp !! (ip + i)%nat.

Lemma agree_S ref ip len a b :
  agree ref ip len -> inp !! (ref + len)%nat = Some a -> inp !! (ip + len)%nat = Some b -> a = b ->
  agree ref ip (S len).
Proof.
  intros H Ha Hb -> i Hi. destruct (Nat.eq_dec i len) as [->|]; [congruence|]. apply H. lia.
Qed.

Lemma match_unrolled_spec n ref ip len :
  agree ref ip (S len) -> (ref < ip)%nat -> (ip + len + n < length inp)%nat ->
  exists len' stop, match_unrolled inp n ref ip len = Some (len', stop) /\
    (len <= len' <= len + n)%nat /\
    if (stop : bool) then (len < len')%nat /\ agree ref ip len' else len' = (len + n)%nat /\ agree ref ip (S len').
Proof.
  revert len; induction n as [|n IH]; intros len Ha Hr Hl; cbn [match_unrolled].
  { exists len, false. rewrite Nat.add_0_r. done. }
  destruct (lookup_lt_is_Some_2 inp (ref + S len)) as [a E1]; [lia|].
  destruct (lookup_lt_is_Some_2 inp (ip + S len)) as [b E2]; [lia|].
  rewrite E1, E2. cbn [mbind option_bind]. destruct (Z.eqb_spec a b) as [Hab|Hab]; cbn [negb].
  - destruct (IH (S len)) as (len' & stop & -> & Hle & Hs); [by eapply agree_S|done|lia|].
    exists len', stop. split; [done|]. split; [lia|]. destruct stop; [split; [lia|apply Hs]|].
    split; [lia|apply Hs].
  - exists (S len), true. split_and!; [done|lia|lia|lia|done].
Qed.

Lemma lzf_match_rest_spec fuel ref ip len maxlen :
  agree ref ip (S len) -> (ref < ip)%nat -> (ip + maxlen < length inp)%nat -> (ip + len < length inp)%nat ->
  (maxlen < len + fuel)%nat -> (0 < fuel)%nat ->
  exists len', match_rest inp fuel ref ip len maxlen = Some len' /\
    (len < len')%nat /\ (len' <= Nat.max (S len) maxlen)%nat /\ agree ref ip len'.
Proof.
  revert len; induction fuel as [|fuel IH]; intros len Ha Hr Hm Hl Hf Hf0; [lia|]. cbn [match_rest].
  destruct (Nat.ltb_spec (S len) maxlen).
  - destruct (lookup_lt_is_Some_2 inp (ref + S len)) as [a E1]; [lia|].
    destruct (lookup_lt_is_Some_2 inp (ip + S len)) as [b E2]; [lia|].
    rewrite E1, E2. cbn [mbind option_bind]. destruct (Z.eqb_spec a b) as [Hab|Hab].
    + destruct (IH (S len)) as (len' & -> & H1 & H2 & H3); [by eapply agree_S|done|lia|lia|lia|lia|].
      exists len'. split_and!; [done|lia|lia|done].
    + exists (S len). split_and!; [done|lia|lia|done].
  - exists (S len). split_and!; [done|lia|lia|done].
Qed.

Lemma match_len_spec ref ip maxlen :
  agree ref ip 3 -> (ref < ip)%nat -> (ip + 2 < length inp)%nat ->
  (maxlen <= length inp - ip - 2)%nat -> (maxlen <= MAX_REF)%nat ->
  exists len, match_len inp ref ip maxlen = Some len /\ (3 <= len <= MAX_REF)%nat /\
    (ip + len <= length inp)%nat /\ agree ref ip len.
Proof.
  intros Ha Hr Hip Hm1 Hm2. unfold match_len, MAX_REF in *. destruct (Nat.ltb_spec 16 maxlen).
  - destruct (match_unrolled_spec 16 ref ip 2) as (len & stop & -> & Hle & Hs); [done|done|lia|].
    cbn [mbind option_bind]. destruct stop.
    + destruct Hs as [? ?]. exists len. split_and!; [done|lia|lia|lia|done].
    + destruct Hs as [-> Ha'].
      destruct (lzf_match_rest_spec 264 ref ip (2 + 16) maxlen) as (len' & -> & H1 & H2 & H3); [done|done|lia|lia|lia|lia|].
      exists len'. split_and!; [done|lia|lia|lia|done].
  - cbn [mbind option_bind].
    destruct (lzf_match_rest_spec 264 ref ip 2 maxlen) as (len' & -> & H1 & H2 & H3); [done|done|lia|lia|lia|lia|].
    exists len'. split_and!; [done|lia|lia|lia|done].
Qed.

Lemma put_ref_spec D rest len off :
  (1 <= len <= 262)%nat -> 0 <= off < MAX_OFF -> (3 <= length rest)%nat ->
  exists rest', put_ref (D ++ rest) (length D) len off =
      Some ((D ++ ref_bytes off len) ++ rest', length (D ++ ref_bytes off len)) /\
    length ((D ++ ref_bytes off len) ++ rest') = length (D ++ rest).
Proof.
  unfold MAX_OFF. intros Hlen Ho Hr. destruct rest as [|x [|y [|z rest]]]; try (cbn in Hr; lia).
  unfold put_ref, ref_bytes. rewrite Z.shiftr_div_pow2, Z.shiftl_mul_pow2 by lia.
  change (2 ^ 8) with 256. change (2 ^ 5) with 32. change (Z.shiftl 7 5) with 224.
  assert (0 <= off / 256 < 32) by dlia. destruct (Nat.ltb_spec len 7).
  - rewrite store_app, u8_small by lia. cbn [mbind option_bind].
    replace (D ++ off / 256 + Z.of_nat len * 32 :: y :: z :: rest)
      with ((D ++ [off / 256 + Z.of_nat len * 32]) ++ y :: z :: rest) by (by rewrite <- app_assoc).
    replace (S (length D)) with (length (D ++ [off / 256 + Z.of_nat len * 32])) by (rewrite length_app; cbn; lia).
    rewrite store_app. cbn [mbind option_bind]. exists (z :: rest).
    change (u8 off) with (off mod 256). rewrite <- !app_assoc. cbn [app].
    rewrite !length_app. cbn [length]. split; [do 2 f_equal|]; lia.
  - rewrite store_app, u8_small by lia. cbn [mbind option_bind].
    replace (D ++ off / 256 + 224 :: y :: z :: rest)
      with ((D ++ [off / 256 + 224]) ++ y :: z :: rest) by (by rewrite <- app_assoc).
    replace (S (length D)) with (length (D ++ [off / 256 + 224])) by (rewrite length_app; cbn; lia).
    rewrite store_app, u8_small by lia. cbn [mbind option_bind].
    replace ((D ++ [off / 256 + 224]) ++ Z.of_nat len - 7 :: z :: rest)
      with ((D ++ [off / 256 + 224; Z.of_nat len - 7]) ++ z :: rest) by (by rewrite <- !app_assoc).
    replace (S (length (D ++ [off / 256 + 224])))
      with (length (D ++ [off / 256 + 224; Z.of_nat len - 7])) by (rewrite !length_app; cbn; lia).
    rewrite store_app. cbn [mbind option_bind]. exists rest.
    change (u8 off) with (off mod 256). rewrite <- !app_assoc. cbn [app].
    rewrite !length_app. cbn [length]. split; [do 2 f_equal|]; lia.
Qed.

(** The invariant of the main loop. *)
Definition state_inv (s : cstate) : Prop :=
  (exists D, run_inv D (ip s) (op s) (lit s) (cs_out s)) /\ forall i, 0 <= htab s i < 2 ^ 32.

Lemma hset_range h i v : (forall j, 0 <= h j < 2 ^ 32) -> forall j, 0 <= hset h i (u32 v) j < 2 ^ 32.
Proof.
  intros H j. unfold hset. destruct (j =? i); [|apply H]. apply wrap_range. lia.
Qed.

Lemma rehash_spec n h :
  (2 <= n)%nat -> (n + 2 < length inp)%nat -> (forall j, 0 <= h j < 2 ^ 32) ->
  exists v h', rehash inp n h = Some (v, h') /\ forall j, 0 <= h' j < 2 ^ 32.
Proof.
  intros Hn Hl Hh. unfold rehash.
  destruct (lookup_lt_is_Some_2 inp (n - 2)) as [b0 ->]; [lia|].
  destruct (lookup_lt_is_Some_2 inp (n - 2 + 1)) as [b1 ->]; [lia|].
  destruct (lookup_lt_is_Some_2 inp (n - 2 + 2)) as [b2 ->]; [lia|].
  destruct (lookup_lt_is_Some_2 inp (n - 2 + 3)) as [b3 ->]; [lia|].
  cbn [mbind option_bind]. eexists _, _. split; [done|]. by apply hset_range, hset_range.
Qed.

Lemma compress_step_spec s :
  state_inv s -> (ip s + 2 < length inp)%nat ->
  exists r, compress_step inp out_len s = Some r /\
    match r with
    | inl _ => True
    | inr (s', stop) => state_inv s' /\ (ip s < ip s')%nat /\
        ((stop : bool) = true -> (length inp <= ip s' + 2)%nat)
    end.
Proof.
  intros [[D R] Hh] Hip. unfold compress_step. cbv zeta.
  destruct (lookup_lt_is_Some_2 inp (ip s + 2)) as [b2 ->]; [lia|]. cbn [mbind option_bind].
  set (hv := NEXT (hval s) b2). set (ref := htab s (IDX hv)).
  pose proof (hset_range (htab s) (IDX hv) (Z.of_nat (ip s)) Hh) as Hh'.
  destruct (find_ref_spec (ip s) ref) as (r & -> & Hr); [done|apply Hh|].
  cbn [mbind option_bind]. destruct r as [off|].
  - destruct Hr as (Ho & Eref & Href0 & Ha).
    destruct (Nat.leb_spec out_len (op s - (if (lit s =? 0)%nat then 1 else 0) + 3 + 1)); [by eexists|].
    destruct (stop_run_spec D (ip s) (op s) (lit s) (cs_out s) R) as (D1 & rest1 & -> & HD1 & Hl1 & Hdec1).
    { destruct (lit s =? 0)%nat; lia. }
    cbn [mbind option_bind].
    set (maxlen := if (MAX_REF <? length inp - ip s - 2)%nat then MAX_REF else (length inp - ip s - 2)%nat).
    destruct (match_len_spec (Z.to_nat ref) (ip s) maxlen) as (len & -> & Hlen & Hend & Hagree);
      [done|lia|done| | |].
    { unfold maxlen. destruct (Nat.ltb_spec MAX_REF (length inp - ip s - 2)); lia. }
    { unfold maxlen. destruct (Nat.ltb_spec MAX_REF (length inp - ip s - 2)); lia. }
    cbn [mbind option_bind]. unfold MAX_REF in Hlen.
    destruct (put_ref_spec D1 rest1 (len - 2) off) as (rest2 & -> & Hl2); [lia|done| |].
    { rewrite length_app in Hl1. lia. }
    cbn [mbind option_bind]. rewrite Hl1 in Hl2.
    replace (S (ip s) + (len - 2 + 1))%nat with (ip s + len)%nat by lia.
    assert (decoded (D1 ++ ref_bytes off (len - 2)) (take (ip s + len) inp)) as Hdec2.
    { apply (decoded_ref _ (take (ip s) inp)); [done|done| |lia|].
      - rewrite length_take. lia.
      - assert (length (take (ip s) inp) = ip s) as Hlt by (rewrite length_take; lia). unfold repeats. rewrite Hlt. split_and!.
        + rewrite length_take. lia.
        + rewrite take_take. f_equal. lia.
        + intros i Hi. rewrite !lookup_take_lt by lia. rewrite <- (Hagree i) by lia. f_equal. lia. }
    pose proof (run_inv_start _ (ip s + len) rest2 Hdec2 Hend Hl2) as R2.
    destruct (Nat.leb_spec (length inp) (ip s + len + 2)).
    + eexists. split; [done|]. cbn. split_and!; [|lia|lia]. split; [by eexists|done].
    + destruct (rehash_spec (ip s + len) (hset (htab s) (IDX hv) (u32 (Z.of_nat (ip s)))))
        as (v & h' & -> & Hh2); [lia|lia|done|].
      eexists. split; [done|]. cbn. split_and!; [|lia|lia]. split; [by eexists|done].
  - destruct (Nat.leb_spec out_len (op s)); [by eexists|].
    destruct (literal_spec D (ip s) (op s) (lit s) (cs_out s) R) as (b & out1 & Eb & Est & Hlit); [lia|lia|].
    rewrite Eb. cbn [mbind option_bind]. rewrite Est. cbn [mbind option_bind]. destruct (S (lit s) =? MAX_LIT)%nat.
    + destruct Hlit as (out2 & D' & -> & R'). cbn [mbind option_bind].
      eexists. split; [done|]. cbn. split_and!; [|lia|lia]. split; [by eexists|done].
    + eexists. split; [done|]. cbn. split_and!; [|lia|lia]. split; [by eexists|done].
Qed.

Lemma compress_loop_spec fuel s :
  state_inv s -> (length inp - ip s < fuel)%nat ->
  exists r, compress_loop inp out_len fuel s = Some r /\
    match r with inl _ => True | inr s' => state_inv s' /\ (length inp <= ip s' + 2)%nat end.
Proof.
  revert s; induction fuel as [|fuel IH]; intros s Hs Hf; [lia|]. cbn [compress_loop].
  destruct (Nat.ltb_spec (ip s + 2) (length inp)); [|by eexists].
  destruct (compress_step_spec s Hs) as (r & -> & Hr); [done|]. cbn [mbind option_bind].
  destruct r as [o|[s' stop]]; [by eexists|]. destruct Hr as (Hs' & Hip & Hstop).
  destruct stop; [eexists; split; [done|]; split; [done|by apply Hstop]|].
  apply IH; [done|lia].
Qed.

(** Room for the tail: see the bound of three bytes in the code. *)
Definition tail_room (op lit r : nat) : Prop :=
  (op + r + 1 <= out_len)%nat \/ (lit + r < MAX_LIT /\ op + r <= out_len)%nat.

Lemma tail_loop_spec fuel D ip op lit out :
  run_inv D ip op lit out -> (length inp - ip < fuel)%nat -> (length inp - ip < MAX_LIT)%nat ->
  tail_room op lit (length inp - ip) ->
  exists D' op' lit' out', tail_loop inp fuel ip op lit out = Some (op', lit', out') /\
    run_inv D' (length inp) op' lit' out' /\ (op' <= out_len)%nat.
Proof.
  revert D ip op lit out; induction fuel as [|fuel IH]; intros D i o l out R Hf Hm Hroom; [lia|].
  cbn [tail_loop]. destruct (Nat.ltb_spec i (length inp)).
  - destruct (literal_spec D i o l out R) as (b & out1 & Eb & Est & Hlit);
      [unfold tail_room in Hroom; lia|done|].
    rewrite Eb. cbn [mbind option_bind]. rewrite Est. cbn [mbind option_bind]. destruct (Nat.eqb_spec (S l) MAX_LIT).
    + destruct Hlit as (out2 & D' & -> & R'). cbn [mbind option_bind].
      apply (IH D'); [done|lia|lia|]. unfold tail_room in *. right. lia.
    + apply (IH D); [done|lia|lia|]. unfold tail_room in *. lia.
  - assert (i = length inp) as -> by (destruct R; lia).
    exists D, o, l, out. split_and!; [done|done|]. unfold tail_room in Hroom. lia.
Qed.

Lemma lzf_compress_spec h out :
  (2 <= length inp)%nat -> length out = out_len -> (forall i, 0 <= h i < 2 ^ 32) ->
  exists n out', lzf_compress inp out_len h out = Some (n, out') /\
    (n <> 0%nat -> decoded (take n out') inp).
Proof.
  intros Hin Hout Hh. unfold lzf_compress.
  destruct ((length inp =? 0)%nat || (out_len =? 0)%nat) eqn:E; [by eexists _, _|].
  apply orb_false_iff in E as [_ E%Nat.eqb_neq].
  destruct (lookup_lt_is_Some_2 inp 0) as [b0 ->]; [lia|].
  destruct (lookup_lt_is_Some_2 inp 1) as [b1 ->]; [lia|]. cbn [mbind option_bind].
  destruct (compress_loop_spec (S (length inp)) (mk_cs 0 1 0 (FRST b0 b1) h out)) as (r & -> & Hr).
  { split; [|done]. exists []. apply (run_inv_start [] 0 out); [constructor|lia|done]. }
  { cbn. lia. }
  cbn [mbind option_bind]. destruct r as [o|s]; [by eexists _, _|]. destruct Hr as [[[D R] _] Hip].
  destruct (Nat.ltb_spec out_len (op s + 3)); [by eexists _, _|].
  assert (ip s <= length inp)%nat by (destruct R; lia).
  destruct (tail_loop_spec (S (length inp)) D (ip s) (op s) (lit s) (cs_out s) R)
    as (D' & op' & lit' & out' & -> & R' & Hop'); [lia|unfold MAX_LIT; lia|left; lia|].
  cbn [mbind option_bind].
  destruct (stop_run_spec D' (length inp) op' lit' out' R' Hop') as (D2 & rest & -> & _ & _ & Hdec).
  cbn [mbind option_bind]. eexists _, _. split; [done|]. intros _.
  rewrite take_app_length. by rewrite take_ge in Hdec by done.
Qed.

End Inv.

(** ** The theorems *)

(** C6. Compression loses nothing: for any input of at least two bytes, any
    output size and whatever the uninitialized hash table contains,
    [lzf_compress] never leaves its buffers, and when it reports a compressed
    size, [lzf_decompress] of those bytes gives back the input. *)
Theorem lzf_roundtrip inp out_len htab out cap :
  Forall is_byte inp -> (2 <= length inp)%nat -> Z.of_nat (length inp) < 2 ^ 32 ->
  length out = out_len -> (forall i, 0 <= htab i < 2 ^ 32) -> (length inp <= cap)%nat ->
  exists n out', lzf_compress inp out_len htab out = Some (n, out') /\
    (n <> 0%nat -> lzf_decompress (take n out') cap = Some (inr inp)).
Proof.
  intros Hb H2 Hl Ho Hh Hcap.
  destruct (lzf_compress_spec inp out_len Hb Hl htab out H2 Ho Hh) as (n & out' & -> & Hd).
  exists n, out'. split; [done|]. intros Hn. by apply decoded_decompress, Hcap; apply Hd.
Qed.

(** C9. Untrusted input: on any bytes [lzf_decompress] terminates without reading
    outside the input or the output written so far and without writing past
    [out_len]. It returns the text the bytes decode to, by the description of the
    format [decoded], if there is one and it fits; E2BIG is reported only when no
    such text fits, and EINVAL only when the bytes decode to no text at all. *)
Theorem lzf_decompress_safe in_ out_len :
  Forall is_byte in_ ->
  exists r, lzf_decompress in_ out_len = Some r /\
    match r with
    | inr out => decoded in_ out /\ (length out <= out_len)%nat
    | inl E2BIG => forall out, decoded in_ out -> (out_len < length out)%nat
    | inl EINVAL => forall out, ~ decoded in_ out
    end.
Proof.
  intros Hb. destruct (decompress_sound (length in_) [] in_ out_len [] ltac:(lia) Hb decoded_nil ltac:(cbn; lia)) as (r & Hr & Hd). exists r. split; [done|].
  destruct r as [[]|out]; [| |done].
  - intros out Ho. apply Nat.lt_nge. intros Hle. pose proof (decoded_decompress in_ out out_len Ho Hle) as E. unfold lzf_decompress in E. cbn [length app] in Hr. congruence.
  - intros out Ho. pose proof (decoded_decompress in_ out (Nat.max out_len (length out)) Ho ltac:(lia)) as E.
    apply (einval_more (length in_) [] in_ out_len (Nat.max out_len (length out)) [] Hb ltac:(lia)) in Hr. unfold lzf_decompress in E. cbn [length app] in Hr. congruence.
Qed.

(** A one byte input makes [lzf_compress] read the byte after it. *)
Lemma lzf_compress_one_byte b out_len htab out :
  (0 < out_len)%nat -> lzf_compress [b] out_len htab out = None.
Proof. intros H. unfold lzf_compress. destruct out_len; [lia|done]. Qed.

Definition demo_text : list Z := concat (replicate 6 [104; 101; 108; 108; 111; 32]).

Lemma demo_text_bytes : Forall is_byte demo_text.
Proof. unfold demo_text. cbn. repeat (apply Forall_cons_2; [unfold is_byte; lia|]). constructor. Qed.

Lemma lzf_roundtrip_witness :
  exists n out', lzf_compress demo_text 30 (fun _ => 77) (replicate 30 0) = Some (n, out') /\
    (n <> 0%nat -> lzf_decompress (take n out') 36 = Some (inr demo_text)).
Proof.
  apply (lzf_roundtrip demo_text 30 (fun _ => 77) (replicate 30 0) 36).
  - exact demo_text_bytes.
  - vm_compute. lia.
  - vm_compute. reflexivity.
  - reflexivity.
  - intros _. lia.
  - vm_compute. lia.
Defined.

Lemma lzf_decompress_safe_witness :
  exists r, lzf_decompress [255; 7; 200] 10 = Some r /\
    match r with
    | inr out => decoded [255; 7; 200] out /\ (length out <= 10)%nat
    | inl E2BIG => forall out, decoded [255; 7; 200] out -> (10 < length out)%nat
    | inl EINVAL => forall out, ~ decoded [255; 7; 200] out
    end.
Proof. apply (lzf_decompress_safe [255; 7; 200] 10). repeat constructor; lia. Defined.
