(* ===== verification/Adlist.v ===== *)
(** * Doubly linked lists ([adlist.c], [adlist.h])

    The nodes live in a heap, a finite map from addresses to nodes; a pointer is
    an optional address. Every access goes through the heap, so a use of a freed
    node or of NULL has no result. [zmalloc] gives its result as an argument:
    [None] for NULL. *)

From stdpp Require Import base list option gmap.
From Stdlib Require Import ZArith Lia Bool.
From S2P Require Import Prelude.

Local Open Scope Z_scope.

Abbreviation addr := positive (only parsing).

Record listNode {V : Type} := mk_node {
  prev : option addr;
  next : option addr;
  value : V;
}.
Arguments listNode : clear implicits.
Arguments mk_node {V} _ _ _.

(** The header; the methods are functions on values, [l_free] tells whether a
    [free] method is set, [l_dup] returns [None] for NULL. *)
Record adlist {V : Type} := mk_list {
  head : option addr;
  tail : option addr;
  l_dup : option (V -> option V);
  l_free : bool;
  l_match : option (V -> V -> bool);
  len : Z;
}.
Arguments adlist : clear implicits.
Arguments mk_list {V} _ _ _ _ _ _.

Inductive direction := AL_START_HEAD | AL_START_TAIL.

Record listIter := mk_iter {
  it_next : option addr;
  it_dir : direction;
}.

Section Ops.
Context {V : Type} `{!EqDecision V}.

Abbreviation heap := (gmap positive (listNode V)).
Implicit Types (h : heap) (l : adlist V).

(** Field updates through a pointer. *)
Definition set_prev h (p : addr) (q : option addr) : option heap :=
  n ← h !! p; Some (<[p := mk_node q (next n) (value n)]> h).
Definition set_next h (p : addr) (q : option addr) : option heap :=
  n ← h !! p; Some (<[p := mk_node (prev n) q (value n)]> h).

Definition with_ends l (hd tl : option addr) (n : Z) : adlist V :=
  mk_list hd tl (l_dup l) (l_free l) (l_match l) n.

Definition listCreate : adlist V := mk_list None None None false None 0.

Definition freed l (v : V) : list V := if l_free l then [v] else [].

(** [while(len--)]: the values freed, in order. *)
Fixpoint empty_loop (n : nat) h l (current : option addr) : option (heap * list V) :=
  match n with
  | O => Some (h, [])
  | S n' =>
      p ← current;
      node ← h !! p;
      '(h, vs) ← empty_loop n' (delete p h) l (next node);
      Some (h, freed l (value node) ++ vs)
  end.

Definition listEmpty h l : option (heap * adlist V * list V) :=
  '(h, vs) ← empty_loop (Z.to_nat (len l)) h l (head l);
  Some (h, with_ends l None None 0, vs).

Definition listRelease h l : option (heap * list V) :=
  '(h, _, vs) ← listEmpty h l; Some (h, vs).

(** The flag tells whether the result is the list (or NULL). *)
Definition listAddNodeHead (node : option addr) h l (v : V) : option (heap * adlist V * bool) :=
  match node with
  | None => Some (h, l, false)
  | Some p =>
      if len l =? 0 then
        Some (<[p := mk_node None None v]> h, with_ends l (Some p) (Some p) (u64 (len l + 1)), true)
      else
        let h := <[p := mk_node None (head l) v]> h in
        q ← head l;
        h ← set_prev h q (Some p);
        Some (h, with_ends l (Some p) (tail l) (u64 (len l + 1)), true)
  end.

Definition listAddNodeTail (node : option addr) h l (v : V) : option (heap * adlist V * bool) :=
  match node with
  | None => Some (h, l, false)
  | Some p =>
      if len l =? 0 then
        Some (<[p := mk_node None None v]> h, with_ends l (Some p) (Some p) (u64 (len l + 1)), true)
      else
        let h := <[p := mk_node (tail l) None v]> h in
        q ← tail l;
        h ← set_next h q (Some p);
        Some (h, with_ends l (head l) (Some p) (u64 (len l + 1)), true)
  end.

Definition listInsertNode (node : option addr) h l (old_node : addr) (v : V) (after : bool)
    : option (heap * adlist V * bool) :=
  match node with
  | None => Some (h, l, false)
  | Some p =>
      old ← h !! old_node;
      let '(n, l) :=
        if after then
          (mk_node (Some old_node) (next old) v,
           if bool_decide (tail l = Some old_node) then with_ends l (head l) (Some p) (len l) else l)
        else
          (mk_node (prev old) (Some old_node) v,
           if bool_decide (head l = Some old_node) then with_ends l (Some p) (tail l) (len l) else l) in
      let h := <[p := n]> h in
      h ← match prev n with Some q => set_next h q (Some p) | None => Some h end;
      h ← match next n with Some q => set_prev h q (Some p) | None => Some h end;
      Some (h, with_ends l (head l) (tail l) (u64 (len l + 1)), true)
  end.

Definition listDelNode h l (node : addr) : option (heap * adlist V * list V) :=
  n ← h !! node;
  '(h, l) ← match prev n with
            | Some q => h ← set_next h q (next n); Some (h, l)
            | None => Some (h, with_ends l (next n) (tail l) (len l))
            end;
  '(h, l) ← match next n with
            | Some q => h ← set_prev h q (prev n); Some (h, l)
            | None => Some (h, with_ends l (head l) (prev n) (len l))
            end;
  Some (delete node h, with_ends l (head l) (tail l) (u64 (len l - 1)), freed l (value n)).

Definition listGetIterator l (dir : direction) : listIter :=
  match dir with
  | AL_START_HEAD => mk_iter (head l) dir
  | AL_START_TAIL => mk_iter (tail l) dir
  end.

Definition listRewind l : listIter := mk_iter (head l) AL_START_HEAD.
Definition listRewindTail l : listIter := mk_iter (tail l) AL_START_TAIL.

Definition listNext h (it : listIter) : option (listIter * option addr) :=
  match it_next it with
  | None => Some (it, None)
  | Some p =>
      n ← h !! p;
      Some (mk_iter (match it_dir it with AL_START_HEAD => next n | AL_START_TAIL => prev n end) (it_dir it),
            Some p)
  end.

(** The loop over the nodes; [allocs] are the addresses the copy gets. The inner
    [None] is NULL. *)
Fixpoint dup_loop (allocs : list (option addr)) h (copy : adlist V) (it : listIter)
    : option (heap * option (adlist V)) :=
  '(it, node) ← listNext h it;
  match node with
  | None => Some (h, Some copy)
  | Some p =>
      match allocs with
      | [] => None
      | a :: allocs' =>
          n ← h !! p;
          match match l_dup copy with Some f => f (value n) | None => Some (value n) end with
          | None => '(h, _) ← listRelease h copy; Some (h, None)
          | Some v =>
              '(h, copy, ok) ← listAddNodeTail a h copy v;
              if (ok : bool) then dup_loop allocs' h copy it
              else '(h, _) ← listRelease h copy; Some (h, None)
          end
      end
  end.

Definition listDup (allocs : list (option addr)) h (orig : adlist V) : option (heap * option (adlist V)) :=
  let copy := mk_list None None (l_dup orig) (l_free orig) (l_match orig) 0 in
  dup_loop allocs h copy (listRewind orig).

(** A well formed list is walked in as many steps as it has nodes. *)
Fixpoint search_loop (fuel : nat) h l (key : V) (it : listIter) : option (option addr) :=
  match fuel with
  | O => None
  | S fuel' =>
      '(it, node) ← listNext h it;
      match node with
      | None => Some None
      | Some p =>
          n ← h !! p;
          if match l_match l with Some f => f (value n) key | None => bool_decide (key = value n) end
          then Some (Some p) else search_loop fuel' h l key it
      end
  end.

Definition listSearchKey h l (key : V) : option (option addr) :=
  search_loop (S (Z.to_nat (len l))) h l key (listRewind l).

(** [while(index-- && n) n = n->next;] *)
Fixpoint index_loop (index : nat) h (dir : direction) (n : option addr) : option (option addr) :=
  match index with
  | O => Some n
  | S index' =>
      match n with
      | None => Some None
      | Some p =>
          node ← h !! p;
          index_loop index' h dir (match dir with AL_START_HEAD => next node | AL_START_TAIL => prev node end)
      end
  end.

(** The negation of the smallest [long] overflows. *)
Definition listIndex h l (index : Z) : option (option addr) :=
  if index <? 0 then
    if index =? LLONG_MIN then None
    else index_loop (Z.to_nat (- index - 1)) h AL_START_TAIL (tail l)
  else index_loop (Z.to_nat index) h AL_START_HEAD (head l).

Definition listRotateTailToHead h l : option (heap * adlist V) :=
  if len l <=? 1 then Some (h, l)
  else
    tl ← tail l;
    n ← h !! tl;
    newtail ← prev n;
    h ← set_next h newtail None;
    hd ← head l;
    h ← set_prev h hd (Some tl);
    h ← set_prev h tl None;
    h ← set_next h tl (Some hd);
    Some (h, with_ends l (Some tl) (Some newtail) (len l)).

Definition listRotateHeadToTail h l : option (heap * adlist V) :=
  if len l <=? 1 then Some (h, l)
  else
    hd ← head l;
    n ← h !! hd;
    newhead ← next n;
    h ← set_prev h newhead None;
    tl ← tail l;
    h ← set_next h tl (Some hd);
    h ← set_next h hd None;
    h ← set_prev h hd (Some tl);
    Some (h, with_ends l (Some newhead) (Some hd) (len l)).

Definition listJoin h l (o : adlist V) : option (heap * adlist V * adlist V) :=
  if len o =? 0 then Some (h, l, o)
  else
    ohd ← head o;
    h ← set_prev h ohd (tail l);
    '(h, hd) ← match tail l with
               | Some t => h ← set_next h t (head o); Some (h, head l)
               | None => Some (h, head o)
               end;
    Some (h, with_ends l hd (tail o) (u64 (len l + len o)), with_ends o None None 0).

End Ops.
