(* ===== verification/AdlistFacts.v ===== *)
(** * Doubly linked lists: the operations are operations on sequences

    [lseg h pv xs nx] says that the nodes of [xs], in order, are linked in both
    directions in the heap, between the pointers [pv] and [nx]. *)

From stdpp Require Import base list option gmap.
From Stdlib Require Import ZArith Lia Bool.
From S2P Require Import Prelude Adlist.

Local Open Scope Z_scope.

Section Facts.
Context {V : Type} `{!EqDecision V}.

Abbreviation heap := (gmap positive (listNode V)).
Implicit Types (h : heap) (l : adlist V) (xs : list (positive * V)).

(** The address of the first, or last, element, or else [d]. *)
Definition first_or xs (d : option positive) : option positive :=
  match xs with [] => d | (p, _) :: _ => Some p end.
Definition last_or xs (d : option positive) : option positive :=
  match last xs with None => d | Some (p, _) => Some p end.

Fixpoint lseg h (pv : option positive) xs (nx : option positive) : Prop :=
  match xs with
  | [] => True
  | (p, v) :: xs' => h !! p = Some (mk_node pv (first_or xs' nx) v) /\ lseg h (Some p) xs' nx
  end.

(** The list [l] of the heap [h] holds the elements [xs]. *)
Record rep h l xs : Prop := {
  rep_head : head l = first_or xs None;
  rep_tail : tail l = last_or xs None;
  rep_len : len l = zlen xs;
  rep_bound : zlen xs < 2 ^ 64;
  rep_nodup : NoDup (map fst xs);
  rep_seg : lseg h None xs None;
}.

Lemma first_or_app xs ys d : first_or (xs ++ ys) d = first_or xs (first_or ys d).
Proof. by destruct xs as [|[] ?]. Qed.

Lemma last_or_app xs ys d : last_or (xs ++ ys) d = last_or ys (last_or xs d).
Proof.
  unfold last_or. rewrite last_app. destruct (last ys) as [[]|]; done.
Qed.

Lemma last_or_nil d : last_or [] d = d.
Proof. done. Qed.

Lemma last_or_cons p v xs d : last_or ((p, v) :: xs) d = last_or xs (Some p).
Proof. apply (last_or_app [(p, v)] xs d). Qed.

Lemma last_or_snoc xs p v d : last_or (xs ++ [(p, v)]) d = Some p.
Proof. by rewrite last_or_app. Qed.

Lemma last_or_some p v xs : exists t, forall d, last_or ((p, v) :: xs) d = Some t.
Proof.
  destruct xs as [|[q w] xs _] using rev_ind; [by exists p|]. exists q. intros d.
  apply (last_or_snoc ((p, v) :: xs)).
Qed.

Lemma lseg_app h pv xs ys nx :
  lseg h pv (xs ++ ys) nx <-> lseg h pv xs (first_or ys nx) /\ lseg h (last_or xs pv) ys nx.
Proof.
  revert pv; induction xs as [|[p v] xs IH]; intros pv; cbn [app lseg]; [tauto|].
  rewrite IH, first_or_app, last_or_cons. tauto.
Qed.

Lemma lseg_frame h h' pv xs nx :
  (forall p, p ∈ map fst xs -> h' !! p = h !! p) -> lseg h pv xs nx -> lseg h' pv xs nx.
Proof.
  revert pv; induction xs as [|[p v] xs IH]; intros pv Hf; cbn [lseg]; [done|].
  intros [H1 H2]. split; [rewrite Hf by (cbn; left); done|].
  apply IH; [|done]. intros q Hq. apply Hf. cbn. by right.
Qed.

Lemma lseg_insert h pv xs nx p n :
  p ∉ map fst xs -> lseg h pv xs nx -> lseg (<[p := n]> h) pv xs nx.
Proof.
  intros Hp. apply lseg_frame. intros q Hq. apply lookup_insert_ne. by intros ->.
Qed.

Lemma lseg_delete h pv xs nx p : p ∉ map fst xs -> lseg h pv xs nx -> lseg (delete p h) pv xs nx.
Proof. intros Hp. apply lseg_frame. intros q Hq. apply lookup_delete_ne. by intros ->. Qed.

(** Relinking the last node of a segment. *)
Lemma set_next_last h pv xs p v nx nx' :
  NoDup (map fst (xs ++ [(p, v)])) -> lseg h pv (xs ++ [(p, v)]) nx ->
  exists h', set_next h p nx' = Some h' /\ lseg h' pv (xs ++ [(p, v)]) nx' /\
    forall q, q <> p -> h' !! q = h !! q.
Proof.
  intros Hnd [Hs [Hp _]]%lseg_app. cbn [first_or] in Hp. unfold set_next. rewrite Hp. cbn [mbind option_bind prev value].
  eexists. split; [done|]. split; [|intros q Hq; by apply lookup_insert_ne].
  rewrite map_app in Hnd. apply NoDup_app in Hnd as (_ & Hd & _).
  apply lseg_app. split; [|cbn; split; [apply lookup_insert_eq|done]].
  apply lseg_insert; [|done]. intros Hin. apply (Hd p Hin). cbn. left.
Qed.

(** Relinking the first node of a segment. *)
Lemma set_prev_first h pv pv' p v xs nx :
  NoDup (map fst ((p, v) :: xs)) -> lseg h pv ((p, v) :: xs) nx ->
  exists h', set_prev h p pv' = Some h' /\ lseg h' pv' ((p, v) :: xs) nx /\
    forall q, q <> p -> h' !! q = h !! q.
Proof.
  intros Hnd [Hp Hs]. unfold set_prev. rewrite Hp. cbn [mbind option_bind next value].
  eexists. split; [done|]. split; [|intros q Hq; by apply lookup_insert_ne].
  cbn in Hnd. apply NoDup_cons in Hnd as [Hn _].
  cbn [lseg]. split; [apply lookup_insert_eq|]. by apply lseg_insert.
Qed.

(** Relinking around a gap between the segments [A] and [B]. *)
Lemma relink_left h A nx nx' :
  NoDup (map fst A) -> lseg h None A nx ->
  exists h', match last_or A None with Some q => set_next h q nx' | None => Some h end = Some h' /\
    lseg h' None A nx' /\ forall q, q ∉ map fst A -> h' !! q = h !! q.
Proof.
  intros Hnd Hs. destruct A as [|[p v] A _] using rev_ind; [by exists h|].
  rewrite last_or_snoc. destruct (set_next_last h None A p v nx nx' Hnd Hs) as (h' & -> & Hs' & Hf).
  exists h'. split_and!; [done|done|]. intros q Hq. apply Hf. intros ->. apply Hq.
  rewrite map_app. cbn. set_solver.
Qed.

Lemma relink_right h pv pv' B :
  NoDup (map fst B) -> lseg h pv B None ->
  exists h', match first_or B None with Some q => set_prev h q pv' | None => Some h end = Some h' /\
    lseg h' pv' B None /\ forall q, q ∉ map fst B -> h' !! q = h !! q.
Proof.
  intros Hnd Hs. destruct B as [|[p v] B]; [by exists h|].
  cbn [first_or]. destruct (set_prev_first h pv pv' p v B None Hnd Hs) as (h' & -> & Hs' & Hf).
  exists h'. split_and!; [done|done|]. intros q Hq. apply Hf. intros ->. apply Hq. cbn. left.
Qed.

Lemma lseg_lookup h pv xs nx p : p ∈ map fst xs -> lseg h pv xs nx -> exists n, h !! p = Some n.
Proof.
  revert pv; induction xs as [|[q w] xs IH]; intros pv; cbn; [by intros ?%elem_of_nil|].
  intros [->|Hp]%elem_of_cons [H1 H2]; [by eexists|by eapply IH].
Qed.

(** Linking the node [p] between [A] and [B]. *)
Lemma link_between h A B p v :
  NoDup (map fst (A ++ B)) -> p ∉ map fst (A ++ B) -> lseg h None (A ++ B) None ->
  let h1 := <[p := mk_node (last_or A None) (first_or B None) v]> h in
  exists h2 h3,
    match last_or A None with Some q => set_next h1 q (Some p) | None => Some h1 end = Some h2 /\
    match first_or B None with Some q => set_prev h2 q (Some p) | None => Some h2 end = Some h3 /\
    lseg h3 None (A ++ (p, v) :: B) None /\
    forall q, q ∉ p :: map fst (A ++ B) -> h3 !! q = h !! q.
Proof.
  intros Hnd Hp [HA HB]%lseg_app h1. rewrite map_app in *. apply NoDup_app in Hnd as (HdA & Hdis & HdB).
  assert (p ∉ map fst A /\ p ∉ map fst B) as [HpA HpB] by set_solver.
  destruct (relink_left h1 A (first_or B None) (Some p)) as (h2 & E2 & HA2 & F2); [done|by apply lseg_insert|].
  assert (lseg h2 (last_or A None) B None) as HB2.
  { eapply lseg_frame; [|exact HB]. intros q Hq. rewrite F2 by set_solver.
    apply lookup_insert_ne. set_solver. }
  destruct (relink_right h2 (last_or A None) (Some p) B) as (h3 & E3 & HB3 & F3); [done..|].
  exists h2, h3. split_and!; [done|done| |].
  - apply lseg_app. split.
    + eapply lseg_frame; [|exact HA2]. intros q Hq. apply F3. set_solver.
    + cbn [lseg]. split; [|done]. rewrite F3, F2 by done. apply lookup_insert_eq.
  - intros q Hq. rewrite F3, F2 by set_solver. apply lookup_insert_ne. set_solver.
Qed.

(** Unlinking the node [p]. *)
Lemma unlink_between h A B p v :
  NoDup (map fst (A ++ (p, v) :: B)) -> lseg h None (A ++ (p, v) :: B) None ->
  h !! p = Some (mk_node (last_or A None) (first_or B None) v) /\
  exists h2 h3,
    match last_or A None with Some q => set_next h q (first_or B None) | None => Some h end = Some h2 /\
    match first_or B None with Some q => set_prev h2 q (last_or A None) | None => Some h2 end = Some h3 /\
    lseg (delete p h3) None (A ++ B) None /\
    forall q, q ∉ map fst (A ++ (p, v) :: B) -> delete p h3 !! q = h !! q.
Proof.
  intros Hnd Hs. rewrite map_app in *. cbn [map fst] in *. apply lseg_app in Hs as [HA [Hp HB]].
  apply NoDup_app in Hnd as (HdA & Hdis & [HpB HdB]%NoDup_cons).
  assert (p ∉ map fst A) as HpA by (intros Hin; apply (Hdis p Hin); left).
  assert (forall q, q ∈ map fst A -> q ∉ map fst B) as HAB by (intros q Hq Hq'; apply (Hdis q Hq); by right).
  split; [done|].
  destruct (relink_left h A (first_or ((p, v) :: B) None) (first_or B None)) as (h2 & E2 & HA2 & F2); [done..|].
  assert (lseg h2 (Some p) B None) as HB2.
  { eapply lseg_frame; [|exact HB]. intros q Hq. apply F2. intros Hq'. by apply (HAB q). }
  destruct (relink_right h2 (Some p) (last_or A None) B) as (h3 & E3 & HB3 & F3); [done..|].
  exists h2, h3. split_and!; [done|done| |].
  - apply lseg_app. split; apply lseg_delete; try done.
    eapply lseg_frame; [|exact HA2]. intros q Hq. apply F3. by apply HAB.
  - intros q Hq. rewrite lookup_delete_ne by set_solver. rewrite F3, F2 by set_solver. done.
Qed.

Lemma rep_fresh h l xs p : rep h l xs -> h !! p = None -> p ∉ map fst xs.
Proof.
  intros R Hp Hin. destruct (lseg_lookup h None xs None p Hin) as [n Hn]; [apply R|congruence].
Qed.

(** An address splits the elements. *)
Lemma rep_split h l xs p : rep h l xs -> p ∈ map fst xs -> exists A v B, xs = A ++ (p, v) :: B.
Proof.
  intros R ([q v] & -> & Hin)%list_elem_of_fmap. apply list_elem_of_split in Hin as (A & B & ->).
  by exists A, v, B.
Qed.

(** ** The operations on sequences *)

Inductive list_op :=
  | AddHead (p : positive) (v : V)
  | AddTail (p : positive) (v : V)
  | InsertNode (p old : positive) (v : V) (after : bool)
  | DelNode (p : positive)
  | RotateTailToHead
  | RotateHeadToTail
  | Empty.

(** The code of an operation, [p] the block [zmalloc] returns. *)
Definition run_op h l (o : list_op) : option (heap * adlist V) :=
  match o with
  | AddHead p v => '(h, l, _) ← listAddNodeHead (Some p) h l v; Some (h, l)
  | AddTail p v => '(h, l, _) ← listAddNodeTail (Some p) h l v; Some (h, l)
  | InsertNode p old v after => '(h, l, _) ← listInsertNode (Some p) h l old v after; Some (h, l)
  | DelNode p => '(h, l, _) ← listDelNode h l p; Some (h, l)
  | RotateTailToHead => listRotateTailToHead h l
  | RotateHeadToTail => listRotateHeadToTail h l
  | Empty => '(h, l, _) ← listEmpty h l; Some (h, l)
  end.

Fixpoint insert_at xs (old : positive) (x : positive * V) (after : bool) : list (positive * V) :=
  match xs with
  | [] => []
  | (q, w) :: xs' =>
      if decide (q = old) then if after then (q, w) :: x :: xs' else x :: (q, w) :: xs'
      else (q, w) :: insert_at xs' old x after
  end.

Definition abs_op xs (o : list_op) : list (positive * V) :=
  match o with
  | AddHead p v => (p, v) :: xs
  | AddTail p v => xs ++ [(p, v)]
  | InsertNode p old v after => insert_at xs old (p, v) after
  | DelNode p => filter (fun x => x.1 <> p) xs
  | RotateTailToHead => drop (length xs - 1) xs ++ take (length xs - 1) xs
  | RotateHeadToTail => drop 1 xs ++ take 1 xs
  | Empty => []
  end.

(** What a caller guarantees: [zmalloc] gives a free block, a node argument is
    a node of the list. *)
Definition op_pre h xs (o : list_op) : Prop :=
  match o with
  | AddHead p _ | AddTail p _ => h !! p = None /\ zlen xs + 1 < 2 ^ 64
  | InsertNode p old _ _ => h !! p = None /\ zlen xs + 1 < 2 ^ 64 /\ old ∈ map fst xs
  | DelNode p => p ∈ map fst xs
  | _ => True
  end.

(** The new block of an operation. *)
Definition op_new (o : list_op) : list positive :=
  match o with
  | AddHead p _ | AddTail p _ | InsertNode p _ _ _ => [p]
  | _ => []
  end.

Definition op_ok h l xs (o : list_op) : Prop :=
  exists h' l', run_op h l o = Some (h', l') /\ rep h' l' (abs_op xs o) /\
    forall q, q ∉ op_new o ++ map fst xs -> h' !! q = h !! q.

Lemma insert_at_split A old w B x after :
  old ∉ map fst A ->
  insert_at (A ++ (old, w) :: B) old x after =
    if after then A ++ (old, w) :: x :: B else A ++ x :: (old, w) :: B.
Proof.
  induction A as [|[q u] A IH]; cbn [map fst app insert_at]; intros H.
  - by rewrite decide_True by done.
  - rewrite decide_False by (intros ->; apply H; left). rewrite IH by set_solver. by destruct after.
Qed.

Lemma filter_split A p w B :
  p ∉ map fst A -> p ∉ map fst B ->
  filter (fun x : positive * V => x.1 <> p) (A ++ (p, w) :: B) = A ++ B.
Proof.
  assert (forall C : list (positive * V), p ∉ map fst C -> filter (fun x => x.1 <> p) C = C) as Hid.
  { induction C as [|[q u] C IH]; cbn [map fst]; intros H; [done|].
    rewrite filter_cons_True by (cbn; intros ->; apply H; left). by rewrite IH by set_solver. }
  intros HA HB. rewrite filter_app, filter_cons_False by (cbn; tauto). by rewrite !Hid.
Qed.

(** The representation after a node was linked in. *)
Lemma rep_linked h3 l A B p v hd tl :
  NoDup (map fst (A ++ B)) -> p ∉ map fst (A ++ B) -> zlen (A ++ B) + 1 < 2 ^ 64 ->
  len l = zlen (A ++ B) -> lseg h3 None (A ++ (p, v) :: B) None ->
  hd = first_or (A ++ (p, v) :: B) None -> tl = last_or (A ++ (p, v) :: B) None ->
  rep h3 (with_ends l hd tl (u64 (len l + 1))) (A ++ (p, v) :: B).
Proof.
  intros Hnd Hp Hb Hl Hs -> ->. constructor; cbn [head tail len with_ends]; try done.
  - rewrite wrap_small by zlen. zlen.
  - zlen.
  - rewrite map_app in *. cbn [map fst]. apply NoDup_app in Hnd as (H1 & H2 & H3).
    apply NoDup_app. split_and!; [done| |apply NoDup_cons; split; [set_solver|done]].
    intros q Hq [->|Hin]%elem_of_cons; [set_solver|by eapply H2].
Qed.

Lemma AddHead_ok h l xs p v : rep h l xs -> op_pre h xs (AddHead p v) -> op_ok h l xs (AddHead p v).
Proof.
  intros R [Hf Hb]. pose proof (rep_fresh _ _ _ _ R Hf) as Hp. destruct R as [Rh Rt Rl Rb Rn Rs].
  destruct (link_between h [] xs p v Rn Hp Rs) as (h2 & h3 & E2 & E3 & Hs & Hfr).
  cbn [last_or app] in *. unfold last_or in E2; cbn in E2. simplify_eq.
  unfold op_ok, run_op, listAddNodeHead. destruct xs as [|[q w] xs].
  - cbn [first_or] in *. simplify_eq. rewrite Rl. cbn. eexists _, _. split; [done|]. split; [|done].
    rewrite <- Rl. by apply (rep_linked _ l [] [] p v).
  - replace (len l =? 0) with false by (symmetry; zlen). rewrite Rh. cbn [first_or mbind option_bind] in *.
    rewrite E3. cbn [mbind option_bind]. eexists _, _. split; [done|]. split; [|done].
    apply (rep_linked _ l [] ((q, w) :: xs) p v); try done.
Qed.

Lemma AddTail_ok h l xs p v : rep h l xs -> op_pre h xs (AddTail p v) -> op_ok h l xs (AddTail p v).
Proof.
  intros R [Hf Hb]. pose proof (rep_fresh _ _ _ _ R Hf) as Hp. destruct R as [Rh Rt Rl Rb Rn Rs].
  rewrite <- (app_nil_r xs) in Rn, Hp, Rs.
  destruct (link_between h xs [] p v Rn Hp Rs) as (h2 & h3 & E2 & E3 & Hs & Hfr).
  cbn [first_or] in *. simplify_eq. rewrite !app_nil_r in *.
  unfold op_ok, run_op, listAddNodeTail. destruct xs as [|[q w] xs _] using rev_ind.
  - unfold last_or in *; cbn in E2. simplify_eq. rewrite Rl. cbn. eexists _, _. split; [done|]. split; [|done].
    rewrite <- Rl. by apply (rep_linked _ l [] [] p v).
  - replace (len l =? 0) with false by (symmetry; zlen). rewrite Rt. rewrite last_or_snoc in *.
    cbn [mbind option_bind]. rewrite E2. cbn [mbind option_bind]. eexists _, _. split; [done|]. split; [|done].
    apply (rep_linked _ l (xs ++ [(q, w)]) [] p v); rewrite ?app_nil_r; try done.
    + by rewrite Rh, !first_or_app.
    + by rewrite last_or_snoc.
Qed.

(** An end of the list is a given node exactly when that node is at the end. *)
Lemma tail_is A p v B :
  NoDup (map fst (A ++ (p, v) :: B)) ->
  (last_or (A ++ (p, v) :: B) None = Some p <-> B = []).
Proof.
  intros Hnd. rewrite last_or_app, last_or_cons. split; [|by intros ->].
  destruct B as [|[q w] B _] using rev_ind; [done|]. rewrite last_or_snoc. intros [= ->].
  rewrite map_app in Hnd. apply NoDup_app in Hnd as (_ & _ & Hnd). cbn in Hnd. rewrite map_app in Hnd.
  apply NoDup_cons in Hnd as [Hnd _]. cbn in Hnd. set_solver.
Qed.

Lemma head_is A p v B :
  NoDup (map fst (A ++ (p, v) :: B)) ->
  (first_or (A ++ (p, v) :: B) None = Some p <-> A = []).
Proof.
  intros Hnd. rewrite first_or_app. split; [|by intros ->].
  destruct A as [|[q w] A]; [done|]. cbn [first_or]. intros [= ->]. cbn in Hnd. rewrite map_app in Hnd.
  apply NoDup_cons in Hnd as [Hnd _]. cbn in Hnd. set_solver.
Qed.

Lemma split_nodup A (p : positive) (v : V) B :
  NoDup (map fst (A ++ (p, v) :: B)) ->
  p ∉ map fst A /\ p ∉ map fst B /\ NoDup (map fst (A ++ B)).
Proof.
  rewrite !map_app. cbn. intros (H1 & H2 & [H3 H4]%NoDup_cons)%NoDup_app. split_and!; [|done|].
  - intros Hp. apply (H2 p Hp). left.
  - apply NoDup_app. split_and!; [done| |done]. intros q Hq Hq'. apply (H2 q Hq). by right.
Qed.

Lemma InsertNode_ok h l xs p old v after :
  rep h l xs -> op_pre h xs (InsertNode p old v after) -> op_ok h l xs (InsertNode p old v after).
Proof.
  intros R (Hf & Hb & Ho). pose proof (rep_fresh _ _ _ _ R Hf) as Hp.
  destruct (rep_split _ _ _ _ R Ho) as (A & w & B & ->). destruct R as [Rh Rt Rl Rb Rn Rs].
  destruct (split_nodup _ _ _ _ Rn) as (HA & HB & _).
  pose proof (tail_is _ _ _ _ Rn) as Htl. pose proof (head_is _ _ _ _ Rn) as Hhd.
  assert (h !! old = Some (mk_node (last_or A None) (first_or B None) w)) as Hold
    by (apply lseg_app in Rs; apply Rs).
  unfold op_ok, run_op, listInsertNode, abs_op. rewrite Hold, insert_at_split by done.
  cbn [mbind option_bind prev next]. destruct after.
  - assert (forall C, A ++ (old, w) :: C = (A ++ [(old, w)]) ++ C) as Hm by (intros; by rewrite <- app_assoc).
    rewrite (Hm B) in *. rewrite (Hm ((p, v) :: B)).
    destruct (link_between h (A ++ [(old, w)]) B p v) as (h2 & h3 & E2 & E3 & Hs & Hfr); [done..|].
    rewrite last_or_snoc in *. cbn [prev next]. rewrite E2. cbn [mbind option_bind]. rewrite E3.
    eexists _, _. split; [done|]. split; [|done].
    case_bool_decide as Hc; apply rep_linked; try done; cbn [head with_ends tail].
    + by rewrite Rh, <- !app_assoc, !first_or_app.
    + rewrite last_or_app, last_or_cons. rewrite Rt in Hc. by apply Htl in Hc as ->.
    + by rewrite Rh, <- !app_assoc, !first_or_app.
    + rewrite Rt, !last_or_app, !last_or_cons. destruct B as [|[] ? _] using rev_ind; [|by rewrite !last_or_snoc].
      destruct Hc. rewrite Rt. by apply Htl.
  - destruct (link_between h A ((old, w) :: B) p v) as (h2 & h3 & E2 & E3 & Hs & Hfr); [done..|].
    cbn [first_or] in *. cbn [prev next]. rewrite E2. cbn [mbind option_bind]. rewrite E3.
    eexists _, _. split; [done|]. split; [|done].
    case_bool_decide as Hc; apply rep_linked; try done; cbn [head with_ends tail].
    + rewrite Rh in Hc. by apply Hhd in Hc as ->.
    + by rewrite Rt, !last_or_app, !last_or_cons.
    + rewrite Rh, !first_or_app. destruct A as [|[] ?]; [|done]. destruct Hc. rewrite Rh. by apply Hhd.
    + by rewrite Rt, !last_or_app, !last_or_cons.
Qed.

Lemma listDelNode_spec h l A p v B :
  rep h l (A ++ (p, v) :: B) ->
  exists h' l', listDelNode h l p = Some (h', l', freed l v) /\ rep h' l' (A ++ B) /\
    l_free l' = l_free l /\
    forall q, q ∉ map fst (A ++ (p, v) :: B) -> h' !! q = h !! q.
Proof.
  intros [Rh Rt Rl Rb Rn Rs].
  destruct (split_nodup _ _ _ _ Rn) as (HA & HB & Hn).
  destruct (unlink_between h A B p v Rn Rs) as (Hp & h2 & h3 & E2 & E3 & Hs & Hfr).
  unfold listDelNode. rewrite Hp. cbn [mbind option_bind prev next value].
  rewrite first_or_app in Rh. rewrite last_or_app, last_or_cons in Rt. cbn [first_or] in Rh.
  assert (0 < len l < 2 ^ 64) as Hl by zlen.
  assert (u64 (len l - 1) = zlen (A ++ B)) as Hlen by (rewrite wrap_small by lia; zlen).
  assert (forall hd tl l0, hd = first_or (A ++ B) None -> tl = last_or (A ++ B) None ->
    rep (delete p h3) (with_ends l0 hd tl (u64 (len l - 1))) (A ++ B)) as Hrep.
  { intros hd tl l0 -> ->. constructor; cbn; try done. zlen. }
  destruct A as [|[a va] A _] using rev_ind; [rewrite last_or_nil in *; simplify_eq|rewrite last_or_snoc in *; rewrite E2].
  all: cbn [mbind option_bind]; destruct B as [|[b vb] B]; cbn [first_or] in *; [simplify_eq|rewrite E3].
  all: cbn [mbind option_bind]; eexists _, _; split; [done|]; split; [|done].
  all: apply Hrep; cbn [head tail with_ends];
    rewrite ?Rh, ?Rt, ?app_nil_r, ?first_or_app, ?last_or_app, ?last_or_snoc, ?last_or_cons; done.
Qed.

Lemma DelNode_ok h l xs p : rep h l xs -> op_pre h xs (DelNode p) -> op_ok h l xs (DelNode p).
Proof.
  intros R Hp. destruct (rep_split _ _ _ _ R Hp) as (A & w & B & ->).
  destruct (listDelNode_spec _ _ _ _ _ _ R) as (h' & l' & E & R' & _ & Hf).
  destruct (split_nodup _ _ _ _ (rep_nodup _ _ _ R)) as (HA & HB & _).
  exists h', l'. unfold run_op, abs_op. rewrite E, filter_split by done. done.
Qed.

(** A node moved to the front, or to the back, of the other nodes. *)
Lemma rep_perm h l xs ys hd tl :
  len l = zlen xs -> zlen xs < 2 ^ 64 -> NoDup (map fst xs) -> xs ≡ₚ ys ->
  hd = first_or ys None -> tl = last_or ys None -> lseg h None ys None ->
  rep h (with_ends l hd tl (len l)) ys.
Proof.
  intros Hl Hb Hn Hp -> -> Hs. assert (zlen ys = zlen xs) as Hz by (unfold zlen; by rewrite Hp).
  constructor; cbn; try done; rewrite ?Hz; try done. change (NoDup (fst <$> ys)). by rewrite <- Hp.
Qed.

Lemma RotateTailToHead_ok h l xs : rep h l xs -> op_ok h l xs RotateTailToHead.
Proof.
  intros R. pose proof R as [Rh Rt Rl Rb Rn Rs]. unfold op_ok, run_op, listRotateTailToHead.
  destruct (len l <=? 1) eqn:E; bool_to_prop.
  { exists h, l. split_and!; [done| |done]. cbn [abs_op].
    replace (length xs - 1)%nat with 0%nat by (unfold zlen in *; lia). by rewrite drop_0, take_0, app_nil_r. }
  destruct xs as [|[t w] A _] using rev_ind; [cbn in *; zlen|].
  destruct A as [|[hd vh] A]; [cbn in *; zlen|]. rewrite Rt, last_or_snoc.
  apply lseg_app in Rs as [HA [Ht _]]. cbn [mbind option_bind first_or] in *. rewrite Ht.
  cbn [mbind option_bind prev]. rewrite !map_app in Rn. pose proof Rn as (HnA & Hdis & _)%NoDup_app.
  assert (t ∉ map fst ((hd, vh) :: A)) as HtA by (intros Hin; apply (Hdis t Hin); left).
  destruct (relink_left h ((hd, vh) :: A) (Some t) None HnA HA) as (h1 & E1 & HA1 & F1).
  destruct (last_or_some hd vh A) as [a Ea]. rewrite Ea in *. cbn [mbind option_bind]. rewrite E1. cbn [mbind option_bind]. rewrite Rh, first_or_app.
  cbn [first_or mbind option_bind].
  destruct (set_prev_first h1 None (Some t) hd vh A None HnA HA1) as (h2 & E2 & HA2 & F2).
  rewrite E2. cbn [mbind option_bind].
  assert (h2 !! t = Some (mk_node (Some a) None w)) as Ht2.
  { rewrite F2, F1; [done|done|]. intros ->. apply HtA. left. }
  unfold set_prev at 1. rewrite Ht2. cbn [mbind option_bind]. unfold set_next. rewrite lookup_insert_eq.
  cbn [mbind option_bind next value prev]. eexists _, _. split; [done|].
  cbn [abs_op]. rewrite length_app. cbn [length].
  replace (S (length A) + 1 - 1)%nat with (length ((hd, vh) :: A)) by (cbn; lia).
  rewrite drop_app_length, take_app_length. split.
  - eapply rep_perm; [exact Rl|done|by rewrite map_app| |done| |].
    + by rewrite (Permutation_app_comm [(t, w)]).
    + by rewrite last_or_app, Ea.
    + split; [apply lookup_insert_eq|]. by do 2 (apply lseg_insert; [done|]).
  - intros q Hq. cbn in Hq. rewrite map_app in Hq. cbn in Hq.
    rewrite !lookup_insert_ne by set_solver. rewrite F2, F1; [done|cbn; set_solver|set_solver].
Qed.

Lemma RotateHeadToTail_ok h l xs : rep h l xs -> op_ok h l xs RotateHeadToTail.
Proof.
  intros R. pose proof R as [Rh Rt Rl Rb Rn Rs]. unfold op_ok, run_op, listRotateHeadToTail.
  destruct (len l <=? 1) eqn:E; bool_to_prop.
  { exists h, l. split_and!; [done| |done]. cbn [abs_op].
    rewrite take_ge, drop_ge by (unfold zlen in *; lia). done. }
  destruct xs as [|[hd w] B]; [cbn in *; zlen|].
  destruct B as [|[b vb] B]; [cbn in *; zlen|]. rewrite Rh. destruct Rs as [Hh HB].
  cbn [mbind option_bind first_or] in *. rewrite Hh. cbn [mbind option_bind next].
  pose proof Rn as [HhB HnB]%NoDup_cons. fold (map fst ((b, vb) :: B)) in HhB, HnB.
  destruct (set_prev_first h (Some hd) None b vb B None HnB HB) as (h1 & E1 & HB1 & F1).
  rewrite E1. cbn [mbind option_bind]. rewrite Rt, last_or_cons.
  destruct (relink_left h1 ((b, vb) :: B) None (Some hd) HnB HB1) as (h2 & E2 & HB2 & F2).
  destruct (last_or_some b vb B) as [t Et].
  rewrite Et in *. cbn [mbind option_bind]. rewrite E2. cbn [mbind option_bind].
  assert (h2 !! hd = Some (mk_node None (Some b) w)) as Hh2.
  { rewrite F2, F1; [done| |done]. intros ->. apply HhB. left. }
  unfold set_next at 1. rewrite Hh2. cbn [mbind option_bind]. unfold set_prev. rewrite lookup_insert_eq.
  cbn [mbind option_bind next value prev]. eexists _, _. split; [done|].
  cbn [abs_op drop take]. split.
  - eapply rep_perm; [exact Rl|done|done| |done|by rewrite last_or_snoc|].
    + by rewrite (Permutation_app_comm _ [(hd, w)]).
    + apply lseg_app. split; [by do 2 (apply lseg_insert; [done|])|]. cbn [first_or lseg].
      split; [|done]. by rewrite Et, lookup_insert_eq.
  - intros q Hq. cbn in Hq. rewrite !lookup_insert_ne by set_solver. rewrite F2, F1; [done|set_solver|cbn; set_solver].
Qed.

Lemma empty_loop_spec l xs : forall h pv,
  NoDup (map fst xs) -> lseg h pv xs None ->
  exists h', empty_loop (length xs) h l (first_or xs None) = Some (h', flat_map (fun x => freed l x.2) xs) /\
    forall q, h' !! q = if decide (q ∈ map fst xs) then None else h !! q.
Proof.
  induction xs as [|[p v] xs IH]; intros h pv Hn Hs.
  { exists h. split; [done|]. intros q. rewrite decide_False; [done|]. apply not_elem_of_nil. }
  destruct Hs as [Hp Hs]. apply NoDup_cons in Hn as [Hpx Hn].
  destruct (IH (delete p h) (Some p) Hn) as (h' & E & Hf); [by apply lseg_delete|].
  cbn [length empty_loop first_or mbind option_bind]. rewrite Hp. cbn [mbind option_bind next value].
  rewrite E. cbn [mbind option_bind]. exists h'. split; [done|].
  intros q. rewrite Hf. cbn [map fst]. destruct (decide (q = p)) as [->|Hq].
  - rewrite decide_False, decide_True by (done || left). apply lookup_delete_eq.
  - rewrite lookup_delete_ne by done.
    destruct (decide (q ∈ map fst xs)); [rewrite decide_True by (by right)|rewrite decide_False by set_solver]; done.
Qed.

(** All nodes are freed, every value is passed to the [free] method. *)
Lemma listEmpty_spec h l xs :
  rep h l xs -> exists h' l', listEmpty h l = Some (h', l', flat_map (fun x => freed l x.2) xs) /\
    rep h' l' [] /\ (forall q, q ∈ map fst xs -> h' !! q = None) /\
    forall q, q ∉ map fst xs -> h' !! q = h !! q.
Proof.
  intros [Rh Rt Rl Rb Rn Rs]. destruct (empty_loop_spec l xs h None Rn Rs) as (h' & E & Hf).
  unfold listEmpty. rewrite Rl, zlen_to_nat, Rh, E. cbn [mbind option_bind].
  eexists _, _. split; [done|]. split_and!.
  - constructor; cbn; try done. constructor.
  - intros q Hq. rewrite Hf. by rewrite decide_True.
  - intros q Hq. rewrite Hf. by rewrite decide_False.
Qed.

Lemma Empty_ok h l xs : rep h l xs -> op_ok h l xs Empty.
Proof.
  intros R. destruct (listEmpty_spec h l xs R) as (h' & l' & E & R' & _ & Hf).
  exists h', l'. unfold run_op. rewrite E. done.
Qed.

(** The concatenation of two lists that share no node. *)
Lemma listJoin_spec h l o xs ys :
  rep h l xs -> rep h o ys -> (forall q, q ∈ map fst xs -> q ∉ map fst ys) -> zlen xs + zlen ys < 2 ^ 64 ->
  exists h' l' o', listJoin h l o = Some (h', l', o') /\ rep h' l' (xs ++ ys) /\ rep h' o' [].
Proof.
  intros R [Oh Ot Ol Ob On Os] Hd Hb. pose proof R as [Rh Rt Rl Rb Rn Rs]. unfold listJoin.
  assert (forall h, rep h (with_ends o None None 0) []) as Ho by (constructor; cbn; try done; constructor).
  case_if.
  { exists h, l, o. destruct ys; [|zlen]. rewrite app_nil_r. split_and!; [done..|]. constructor; try done. }
  destruct ys as [|[q w] ys]; [cbn in *; zlen|]. rewrite Oh. cbn [first_or mbind option_bind].
  destruct (set_prev_first h None (last_or xs None) q w ys None On Os) as (h1 & E1 & Hy & F1).
  rewrite Rt, E1. cbn [mbind option_bind].
  assert (lseg h1 None xs None) as Hx.
  { eapply lseg_frame; [|exact Rs]. intros p Hp. apply F1. intros ->. apply (Hd q Hp). left. }
  destruct (relink_left h1 xs None (Some q) Rn Hx) as (h2 & E2 & Hx2 & F2).
  assert (lseg h2 None (xs ++ (q, w) :: ys) None) as Hs.
  { apply lseg_app. split; [done|]. eapply lseg_frame; [|exact Hy]. intros p Hp. apply F2. intros Hp'. by apply (Hd p). }
  assert (u64 (len l + len o) = zlen (xs ++ (q, w) :: ys)) as Hlen by (rewrite Rl, Ol, wrap_small by zlen; zlen).
  assert (NoDup (map fst (xs ++ (q, w) :: ys))) as Hn by (rewrite map_app; by apply NoDup_app).
  destruct xs as [|[a va] xs].
  - rewrite last_or_nil in *. simplify_eq. cbn [mbind option_bind app].
    eexists _, _, _. split; [done|]. split; [|apply Ho]. by constructor.
  - destruct (last_or_some a va xs) as [t Et]. rewrite Et in *. rewrite E2. cbn [mbind option_bind].
    eexists _, _, _. split; [done|]. split; [|apply Ho]. constructor; cbn [with_ends head tail len]; try done.
    + rewrite Ot, last_or_app. destruct (last_or_some q w ys) as [u Eu]. by rewrite !Eu.
    + zlen.
Qed.

(** ** Walking a list *)

Lemma listNext_head h pv p v xs :
  lseg h pv ((p, v) :: xs) None ->
  listNext h (mk_iter (Some p) AL_START_HEAD) = Some (mk_iter (first_or xs None) AL_START_HEAD, Some p).
Proof. intros [H _]. unfold listNext. cbn [it_next mbind option_bind]. by rewrite H. Qed.

Lemma listNext_tail h xs p v nx :
  lseg h None (xs ++ [(p, v)]) nx ->
  listNext h (mk_iter (Some p) AL_START_TAIL) = Some (mk_iter (last_or xs None) AL_START_TAIL, Some p).
Proof. intros [_ [H _]]%lseg_app. unfold listNext. cbn [it_next mbind option_bind]. by rewrite H. Qed.

(** The first value that matches the key, by the method or by equality. *)
Definition value_matches l (key : V) (x : positive * V) : bool :=
  match l_match l with Some f => f x.2 key | None => bool_decide (key = x.2) end.

Lemma search_loop_spec' h l key xs : forall pv,
  lseg h pv xs None ->
  search_loop (S (length xs)) h l key (mk_iter (first_or xs None) AL_START_HEAD) =
    Some (fst <$> List.find (value_matches l key) xs).
Proof.
  induction xs as [|[p v] xs IH]; intros pv Hs; [done|]. cbn [length]. remember (S (length xs)) as n.
  cbn [search_loop first_or]. rewrite (listNext_head h pv p v xs Hs). cbn [mbind option_bind].
  destruct Hs as [Hp Hs]. rewrite Hp. cbn [mbind option_bind value List.find]. unfold value_matches at 1. cbn [snd].
  destruct (match l_match l with Some f => f v key | None => bool_decide (key = v) end); [done|]. subst n. by apply IH with (Some p).
Qed.

Lemma listSearchKey_spec h l xs key :
  rep h l xs -> listSearchKey h l key = Some (fst <$> List.find (value_matches l key) xs).
Proof.
  intros [Rh Rt Rl Rb Rn Rs]. unfold listSearchKey. rewrite Rl, zlen_to_nat. unfold listRewind. rewrite Rh.
  by apply search_loop_spec' with None.
Qed.

Lemma index_loop_head h i : forall pv xs,
  lseg h pv xs None -> index_loop i h AL_START_HEAD (first_or xs None) = Some (fst <$> xs !! i).
Proof.
  induction i as [|i IH]; intros pv [|[p v] xs] Hs; [done..|]. destruct Hs as [Hp Hs].
  cbn [index_loop first_or]. rewrite Hp. cbn [mbind option_bind next]. by rewrite (IH (Some p)).
Qed.

Lemma index_loop_tail h i : forall xs nx,
  lseg h None xs nx -> index_loop i h AL_START_TAIL (last_or xs None) = Some (fst <$> reverse xs !! i).
Proof.
  induction i as [|i IH]; intros xs nx; (destruct xs as [|[p v] xs _] using rev_ind; [done|]);
    rewrite last_or_snoc, reverse_snoc; [done|].
  intros [Hs [Hp _]]%lseg_app. cbn [index_loop]. rewrite Hp. cbn [mbind option_bind prev].
  by rewrite (IH xs _ Hs).
Qed.

(** A loop over the list that deletes the current node when [del] says so: the
    addresses it visits, and the list it leaves. *)
Fixpoint iterate (del : V -> bool) (fuel : nat) h l (it : listIter) : option (heap * adlist V * list positive) :=
  match fuel with
  | O => None
  | S fuel' =>
      '(it, node) ← listNext h it;
      match node with
      | None => Some (h, l, [])
      | Some p =>
          n ← h !! p;
          '(h, l) ← (if del (value n) then '(h, l, _) ← listDelNode h l p; Some (h, l) else Some (h, l));
          '(h, l, ps) ← iterate del fuel' h l it;
          Some (h, l, p :: ps)
      end
  end.

Definition kept (del : V -> bool) (xs : list (positive * V)) : list (positive * V) :=
  List.filter (fun x => negb (del x.2)) xs.

Lemma iterate_head del xs : forall ks h l,
  rep h l (ks ++ xs) ->
  exists h' l', iterate del (S (length xs)) h l (mk_iter (first_or xs None) AL_START_HEAD) = Some (h', l', map fst xs) /\
    rep h' l' (ks ++ kept del xs).
Proof.
  induction xs as [|[p v] xs IH]; intros ks h l R; [by exists h, l|]. cbn [length]. remember (S (length xs)) as n.
  pose proof (rep_seg _ _ _ R) as [_ Hs]%lseg_app. cbn [iterate first_or].
  rewrite (listNext_head h _ p v xs Hs). destruct Hs as [Hp _]. cbn [mbind option_bind]. rewrite Hp.
  cbn [mbind option_bind value kept List.filter negb snd]. subst n. destruct (del v) eqn:Ed; cbn [negb].
  - destruct (listDelNode_spec _ _ _ _ _ _ R) as (h1 & l1 & E1 & R1 & _). rewrite E1. cbn [mbind option_bind].
    destruct (IH ks h1 l1 R1) as (h2 & l2 & E2 & R2). rewrite E2. by exists h2, l2.
  - rewrite cons_middle, app_assoc in R. destruct (IH _ h l R) as (h2 & l2 & E2 & R2).
    cbn [mbind option_bind]. rewrite E2. exists h2, l2. split; [done|]. by rewrite <- app_assoc in R2.
Qed.

Lemma iterate_tail del xs : forall ks h l,
  rep h l (xs ++ ks) ->
  exists h' l', iterate del (S (length xs)) h l (mk_iter (last_or xs None) AL_START_TAIL) =
      Some (h', l', rev (map fst xs)) /\
    rep h' l' (kept del xs ++ ks).
Proof.
  induction xs as [|[p v] xs IH] using rev_ind; intros ks h l R; [by exists h, l|].
  rewrite length_app, Nat.add_1_r. remember (S (length xs)) as n.
  rewrite <- app_assoc in R. pose proof (rep_seg _ _ _ R) as Hs. rewrite app_assoc in Hs. apply lseg_app in Hs as [Hs _].
  cbn [iterate]. rewrite last_or_snoc, (listNext_tail h xs p v _ Hs). apply lseg_app in Hs as [_ [Hp _]].
  cbn [mbind option_bind]. rewrite Hp. cbn [mbind option_bind value]. subst n.
  unfold kept. rewrite List.filter_app, map_app, rev_app_distr. cbn [List.filter snd map rev app fst].
  destruct (del v) eqn:Ed; cbn [negb].
  - destruct (listDelNode_spec _ _ _ _ _ _ R) as (h1 & l1 & E1 & R1 & _). rewrite E1. cbn [mbind option_bind].
    destruct (IH ks h1 l1 R1) as (h2 & l2 & E2 & R2). rewrite E2. exists h2, l2. by rewrite app_nil_r.
  - destruct (IH _ h l R) as (h2 & l2 & E2 & R2). cbn [mbind option_bind]. rewrite E2. exists h2, l2.
    split; [done|]. by rewrite <- app_assoc.
Qed.

(** ** The claims *)

(** C16. Every operation that changes a list is the operation on its sequence of
    elements: adding at either end, inserting next to a node, deleting a node,
    both rotations and emptying. From a well formed list (linked in both
    directions, no node twice, the length right) the code runs without touching
    a freed node or NULL, leaves a well formed list of exactly the elements the
    sequence operation gives, at the same addresses, and no node outside the
    list changes. *)
Theorem list_ops_refine h l xs o :
  rep h l xs -> op_pre h xs o ->
  exists h' l', run_op h l o = Some (h', l') /\ rep h' l' (abs_op xs o) /\
    forall q, q ∉ op_new o ++ map fst xs -> h' !! q = h !! q.
Proof.
  intros R Hp. destruct o.
  - by apply AddHead_ok.
  - by apply AddTail_ok.
  - by apply InsertNode_ok.
  - by apply DelNode_ok.
  - by apply RotateTailToHead_ok.
  - by apply RotateHeadToTail_ok.
  - by apply Empty_ok.
Qed.

(** C35. It is safe to delete the node an iterator has just returned: a walk in
    either direction that does so for the values [del] selects ends, visits
    every node of the list once and in order, and leaves the others. *)
Theorem iterate_delete_safe h l xs dir del :
  rep h l xs ->
  exists h' l', iterate del (S (length xs)) h l (listGetIterator l dir) =
      Some (h', l', match dir with AL_START_HEAD => map fst xs | AL_START_TAIL => rev (map fst xs) end) /\
    rep h' l' (kept del xs).
Proof.
  intros R. destruct dir; unfold listGetIterator.
  - rewrite (rep_head _ _ _ R). by apply (iterate_head del xs []).
  - rewrite (rep_tail _ _ _ R). rewrite <- (app_nil_r (kept del xs)). apply iterate_tail. by rewrite app_nil_r.
Qed.

(** [listIndex] returns the node at a zero-based index, counted from the
    tail for a negative one (-1 is the last), and NULL outside the list. *)
Theorem listIndex_correct h l xs i :
  rep h l xs -> LLONG_MIN < i <= LLONG_MAX ->
  listIndex h l i =
    Some (fst <$> if i <? 0 then reverse xs !! Z.to_nat (- i - 1) else xs !! Z.to_nat i).
Proof.
  intros [Rh Rt Rl Rb Rn Rs] Hi. unfold listIndex. case_if.
  - rewrite_if_false. rewrite Rt. by apply index_loop_tail with None.
  - rewrite Rh. by apply index_loop_head with None.
Qed.

End Facts.

(** ** Witnesses *)

(** Three nodes. *)
Definition demo_nodes : list (positive * Z) := [(1%positive, 10); (2%positive, 20); (3%positive, 30)].
Definition demo_heap : gmap positive (listNode Z) :=
  <[1%positive := mk_node None (Some 2%positive) 10]>
    (<[2%positive := mk_node (Some 1%positive) (Some 3%positive) 20]>
      (<[3%positive := mk_node (Some 2%positive) None 30]> ∅)).
Definition demo_list : adlist Z := mk_list (Some 1%positive) (Some 3%positive) None false None 3.

Lemma demo_list_rep : rep demo_heap demo_list demo_nodes.
Proof.
  constructor; try (vm_compute; done). apply (bool_decide_eq_true_1 _). vm_compute. reflexivity.
Qed.

Lemma list_ops_refine_witness :
  exists h' l', run_op demo_heap demo_list (InsertNode 4 2 25 true) = Some (h', l') /\
    rep h' l' [(1%positive, 10); (2%positive, 20); (4%positive, 25); (3%positive, 30)] /\
    forall q, q ∉ [4%positive] ++ map fst demo_nodes -> h' !! q = demo_heap !! q.
Proof.
  apply (list_ops_refine demo_heap demo_list demo_nodes (InsertNode 4 2 25 true) demo_list_rep).
  split; [reflexivity|]. split; [vm_compute; reflexivity|]. apply (bool_decide_eq_true_1 _). vm_compute. reflexivity.
Defined.

Lemma iterate_delete_safe_witness :
  exists h' l', iterate (fun v => v =? 20) 4 demo_heap demo_list (listGetIterator demo_list AL_START_TAIL) =
      Some (h', l', [3; 2; 1]%positive) /\
    rep h' l' [(1%positive, 10); (3%positive, 30)].
Proof.
  apply (iterate_delete_safe demo_heap demo_list demo_nodes AL_START_TAIL (fun v => v =? 20) demo_list_rep).
Defined.

Lemma listIndex_correct_witness : listIndex demo_heap demo_list (-3) = Some (Some 1%positive).
Proof.
  apply (listIndex_correct demo_heap demo_list demo_nodes (-3) demo_list_rep). vm_compute. split; congruence.
Defined.
