(* ===== verification/Cmd.v ===== *)
(** * Commands: objects, the keyspace and replies ([object.c], [db.c])

    What the commands of the development share. A command takes the state of the
    server to the state after it; it has no result when the code would touch
    memory it must not, or fail an assertion. A value is a string object, as
    text or as an integer ([OBJ_ENCODING_INT]), or an object of another type.
    Keys carry no expiry here, and a key is its text. *)

From stdpp Require Import base list option gmap.
From Stdlib Require Import ZArith Lia Bool.
From S2P Require Import Prelude Util.

Local Open Scope Z_scope.

Inductive robj :=
  | StrObj (s : list byte)
  | IntObj (v : Z)
  | OtherObj (type : Z).

(** Error replies, one per message. *)
Inductive err :=
  | WrongType
  | SyntaxError
  | NotInteger
  | BitOffsetRange
  | BitRange
  | BitArgument
  | BitopNotArity
  | BitfieldType
  | OverflowType
  | BitfieldReadonly.

Inductive reply :=
  | RInt (v : Z)
  | RNull
  | RArrayLen (n : Z)
  | RErr (e : err).

Inductive event := EvSet | EvDel | EvSetbit.

Abbreviation key := (list Z) (only parsing).

Record world := mk_world {
  w_db : gmap (list Z) robj;
  w_dirty : Z;
  w_modified : list (list Z);
  w_events : list (event * list Z);
  w_replies : list reply;
}.

Definition with_db (w : world) (db : gmap (list Z) robj) : world :=
  mk_world db (w_dirty w) (w_modified w) (w_events w) (w_replies w).
Definition addReply (w : world) (r : reply) : world :=
  mk_world (w_db w) (w_dirty w) (w_modified w) (w_events w) (w_replies w ++ [r]).
Definition signalModifiedKey (w : world) (k : key) : world :=
  mk_world (w_db w) (w_dirty w) (w_modified w ++ [k]) (w_events w) (w_replies w).
Definition notifyKeyspaceEvent (w : world) (e : event) (k : key) : world :=
  mk_world (w_db w) (w_dirty w) (w_modified w) (w_events w ++ [(e, k)]) (w_replies w).
Definition add_dirty (w : world) (n : Z) : world :=
  mk_world (w_db w) (w_dirty w + n) (w_modified w) (w_events w) (w_replies w).

Definition addReplyLongLong (w : world) (v : Z) : world := addReply w (RInt v).
Definition addReplyError (w : world) (e : err) : world := addReply w (RErr e).

(** A helper of the code that replies with an error and returns [C_ERR] gives
    [inr] of the error here; the command then replies and returns. *)
Definition or_reply {A} (w : world) (r : A + err) (k : A -> option world) : option world :=
  match r with
  | inl x => k x
  | inr e => Some (addReplyError w e)
  end.

Notation "x '⇐' r 'orelse' w ; k" := (or_reply w r (fun x => k))
  (at level 20, r at level 100, w at level 100, k at level 200, right associativity).
Notation "' p '⇐' r 'orelse' w ; k" := (or_reply w r (fun x => match x with p => k end))
  (at level 20, p pattern, r at level 100, w at level 100, k at level 200, right associativity).

(** ** Objects *)

Definition LONG_STR_SIZE : Z := 21.

(** The text [ll2string] leaves in a buffer of [size] bytes. *)
Definition int_text (size v : Z) : list byte :=
  match ll2string (replicate (Z.to_nat size) 0) size v with
  | Some (buf, len) => take (Z.to_nat len) buf
  | None => []
  end.

Definition is_string (o : robj) : bool :=
  match o with OtherObj _ => false | _ => true end.

(** [None]: the error reply was sent. *)
Definition checkType (o : option robj) : option robj + err :=
  match o with
  | Some (OtherObj _) => inr WrongType
  | _ => inl o
  end.

(** The text of a decoded string object. *)
Definition getDecodedObject (o : robj) : option (list byte) :=
  match o with
  | StrObj s => Some s
  | IntObj v => Some (int_text 32 v)
  | OtherObj _ => None
  end.

Definition getLongLongFromObject (o : option robj) : option (option Z) :=
  match o with
  | None => Some (Some 0)
  | Some (StrObj s) => Some (string2ll s)
  | Some (IntObj v) => Some (Some v)
  | Some (OtherObj _) => None
  end.

(** Arguments of commands are string objects. *)
Definition getLongLongFromObjectOrReply (o : list byte) (msg : err) : Z + err :=
  match getLongLongFromObject (Some (StrObj o)) with
  | Some (Some v) => inl v
  | _ => inr msg
  end.

Definition getLongFromObjectOrReply (o : list byte) (msg : err) : Z + err :=
  match getLongLongFromObjectOrReply o msg with
  | inl v => if (v <? LLONG_MIN) || (LLONG_MAX <? v) then inr msg else inl v
  | inr e => inr e
  end.

(** ** The keyspace *)

Definition lookupKey (w : world) (k : key) : option robj := w_db w !! k.

(** Adding a key that exists fails an assertion. *)
Definition dbAdd (w : world) (k : key) (o : robj) : option world :=
  match w_db w !! k with
  | None => Some (with_db w (<[k := o]> (w_db w)))
  | Some _ => None
  end.

Definition dbOverwrite (w : world) (k : key) (o : robj) : option world :=
  match w_db w !! k with
  | None => None
  | Some _ => Some (with_db w (<[k := o]> (w_db w)))
  end.

Definition genericSetKey (w : world) (k : key) (o : robj) (signal : bool) : option world :=
  w ← match lookupKey w k with
      | None => dbAdd w k o
      | Some _ => dbOverwrite w k o
      end;
  Some (if signal then signalModifiedKey w k else w).

Definition setKey (w : world) (k : key) (o : robj) : option world := genericSetKey w k o true.

Definition dbDelete (w : world) (k : key) : world * bool :=
  match w_db w !! k with
  | None => (w, false)
  | Some _ => (with_db w (delete k (w_db w)), true)
  end.

(** [sdsgrowzero] on the text. *)
Definition sdsgrowzero (s : list byte) (len : Z) : list byte :=
  if len <=? zlen s then s else s ++ replicate (Z.to_nat (len - zlen s)) 0.

(** A shared or encoded value is replaced by a copy of its text. *)
Definition dbUnshareStringValue (w : world) (k : key) (o : robj) : option (world * list byte) :=
  s ← getDecodedObject o;
  w ← dbOverwrite w k (StrObj s);
  Some (w, s).

Lemma setKey_db w k o : exists w', setKey w k o = Some w' /\
  w_db w' = <[k := o]> (w_db w) /\ w_replies w' = w_replies w /\ w_dirty w' = w_dirty w /\
  w_modified w' = w_modified w ++ [k] /\ w_events w' = w_events w.
Proof.
  unfold setKey, genericSetKey, lookupKey, dbAdd, dbOverwrite.
  destruct (w_db w !! k); eexists; split; done.
Qed.
