(* ===== verification/Bitops.v ===== *)
(** * Bit operations on strings ([bitops.c])

    The scans [redisPopcount] and [redisBitpos], bit fields of any width and
    position, the overflow rules of BITFIELD, and the commands SETBIT, GETBIT,
    BITOP, BITCOUNT, BITPOS and BITFIELD. A pointer into a string is the list of
    the bytes from it on; reading past the end has no result. The scans take the
    address of the string, on which their treatment of unaligned bytes depends. *)

From stdpp Require Import base list option gmap.
From Stdlib Require Import ZArith Lia Bool.
From S2P Require Import Prelude Endian Util Cmd.

Local Open Scope Z_scope.

Abbreviation UINT64_MAX := ULLONG_MAX (only parsing).

Definition bitsinbyte : list Z := [
  0;1;1;2;1;2;2;3;1;2;2;3;2;3;3;4;1;2;2;3;2;3;3;4;2;3;3;4;3;4;4;5;
  1;2;2;3;2;3;3;4;2;3;3;4;3;4;4;5;2;3;3;4;3;4;4;5;3;4;4;5;4;5;5;6;
  1;2;2;3;2;3;3;4;2;3;3;4;3;4;4;5;2;3;3;4;3;4;4;5;3;4;4;5;4;5;5;6;
  2;3;3;4;3;4;4;5;3;4;4;5;4;5;5;6;3;4;4;5;4;5;5;6;4;5;5;6;5;6;6;7;
  1;2;2;3;2;3;3;4;2;3;3;4;3;4;4;5;2;3;3;4;3;4;4;5;3;4;4;5;4;5;5;6;
  2;3;3;4;3;4;4;5;3;4;4;5;4;5;5;6;3;4;4;5;4;5;5;6;4;5;5;6;5;6;6;7;
  2;3;3;4;3;4;4;5;3;4;4;5;4;5;5;6;3;4;4;5;4;5;5;6;4;5;5;6;5;6;6;7;
  3;4;4;5;4;5;5;6;4;5;5;6;5;6;6;7;4;5;5;6;5;6;6;7;5;6;6;7;6;7;7;8].

Section Host.
Context `{Host}.

(** [*p4++] for words of [n] bytes. *)
Definition load_next (n : nat) (p : list byte) : option (Z * list byte) :=
  bs ← buf_read p 0 (Z.of_nat n); Some (native_load bs, drop n p).

(** ** Population count *)

Fixpoint popcount_unaligned (p : list byte) (a count bits : Z) : option (list byte * Z * Z) :=
  if negb (Z.land a 3 =? 0) && negb (count =? 0) then
    match p with
    | [] => None
    | b :: p' =>
        v ← bitsinbyte !! Z.to_nat b;
        popcount_unaligned p' (a + 1) (count - 1) (bits + v)
    end
  else Some (p, count, bits).

Definition pop_pairs (aux : Z) : Z :=
  let aux := u32 (aux - Z.land (Z.shiftr aux 1) 0x55555555) in
  u32 (Z.land aux 0x33333333 + Z.land (Z.shiftr aux 2) 0x33333333).

Definition pop_bytes (aux : Z) : Z :=
  Z.land (u32 (aux + Z.shiftr aux 4)) 0x0F0F0F0F.

Fixpoint popcount_words (fuel : nat) (p4 : list byte) (count bits : Z) : option (list byte * Z * Z) :=
  if 28 <=? count then
    match fuel with
    | O => None
    | S fuel' =>
        '(aux1, p4) ← load_next 4 p4;
        '(aux2, p4) ← load_next 4 p4;
        '(aux3, p4) ← load_next 4 p4;
        '(aux4, p4) ← load_next 4 p4;
        '(aux5, p4) ← load_next 4 p4;
        '(aux6, p4) ← load_next 4 p4;
        '(aux7, p4) ← load_next 4 p4;
        let sum := u32 (pop_bytes (pop_pairs aux1) + pop_bytes (pop_pairs aux2) +
                        pop_bytes (pop_pairs aux3) + pop_bytes (pop_pairs aux4) +
                        pop_bytes (pop_pairs aux5) + pop_bytes (pop_pairs aux6) +
                        pop_bytes (pop_pairs aux7)) in
        popcount_words fuel' p4 (count - 28) (bits + Z.shiftr (u32 (sum * 0x01010101)) 24)
    end
  else Some (p4, count, bits).

(** [while(count--) bits += bitsinbyte[*p++];] *)
Fixpoint popcount_rest (count : nat) (p : list byte) (bits : Z) : option Z :=
  match count with
  | O => Some bits
  | S count' =>
      match p with
      | [] => None
      | b :: p' => v ← bitsinbyte !! Z.to_nat b; popcount_rest count' p' (bits + v)
      end
  end.

(** [a] is the address of [s]. The result is at most eight times [count]. *)
Definition redisPopcount (a : Z) (s : list byte) (count : Z) : option Z :=
  '(p, count, bits) ← popcount_unaligned s a count 0;
  '(p, count, bits) ← popcount_words (S (Z.to_nat (count / 28))) p count bits;
  popcount_rest (Z.to_nat count) p bits.

(** ** The first bit set or clear *)

Fixpoint bitpos_unaligned (c : list byte) (a skipval count pos : Z) : option (list byte * Z * Z * bool) :=
  if negb (Z.land a 7 =? 0) && negb (count =? 0) then
    match c with
    | [] => None
    | b :: c' =>
        if negb (b =? skipval) then Some (c, count, pos, true)
        else bitpos_unaligned c' (a + 1) skipval (count - 1) (pos + 8)
    end
  else Some (c, count, pos, false).

Fixpoint bitpos_words (fuel : nat) (l : list byte) (skipval count pos : Z) : option (list byte * Z * Z) :=
  if 8 <=? count then
    match fuel with
    | O => None
    | S fuel' =>
        '(v, l') ← load_next 8 l;
        if negb (v =? skipval) then Some (l, count, pos)
        else bitpos_words fuel' l' skipval (count - 8) (pos + 64)
    end
  else Some (l, count, pos).

(** The eight steps that load the word, the first byte most significant. *)
Fixpoint load_word (n : nat) (c : list byte) (count word : Z) : option Z :=
  match n with
  | O => Some word
  | S n' =>
      let word := u64 (Z.shiftl word 8) in
      if negb (count =? 0) then
        match c with
        | [] => None
        | b :: c' => load_word n' c' (count - 1) (Z.lor word b)
        end
      else load_word n' c count word
  end.

(** [while(one)]; no result where the code panics. *)
Fixpoint bit_loop (fuel : nat) (one word : Z) (bit : bool) (pos : Z) : option Z :=
  match fuel with
  | O => None
  | S fuel' =>
      if one =? 0 then None
      else if Bool.eqb (negb (Z.land one word =? 0)) bit then Some pos
      else bit_loop fuel' (Z.shiftr one 1) word bit (pos + 1)
  end.

Definition redisBitpos (a : Z) (s : list byte) (count : Z) (bit : bool) : option Z :=
  '(c, count, pos, found) ← bitpos_unaligned s a (if bit then 0 else 255) count 0;
  '(l, count, pos) ← (if (found : bool) then Some (c, count, pos)
    else bitpos_words (S (Z.to_nat (count / 8))) c (if bit then 0 else ULLONG_MAX) count pos);
  word ← load_word 8 l count 0;
  if bit && (word =? 0) then Some (-1)
  else
    let one := Z.shiftr ULLONG_MAX 1 in
    let one := u64 (Z.lnot one) in
    bit_loop 65 one word bit pos.

(** ** Bit fields *)

(** The loop from [j = bits - n] on. *)
Fixpoint set_bits (n : nat) (p : list byte) (offset value : Z) : option (list byte) :=
  match n with
  | O => Some p
  | S n' =>
      let bitval := if Z.land value (Z.shiftl 1 (Z.of_nat n')) =? 0 then 0 else 1 in
      let byte := Z.shiftr offset 3 in
      let bit := 7 - Z.land offset 7 in
      byteval ← p !! Z.to_nat byte;
      let byteval := Z.land byteval (u64 (Z.lnot (Z.shiftl 1 bit))) in
      let byteval := Z.lor byteval (Z.shiftl bitval bit) in
      set_bits n' (<[Z.to_nat byte := Z.land byteval 255]> p) (u64 (offset + 1)) value
  end.

Definition setUnsignedBitfield (p : list byte) (offset bits value : Z) : option (list byte) :=
  set_bits (Z.to_nat bits) p offset value.

Definition setSignedBitfield (p : list byte) (offset bits value : Z) : option (list byte) :=
  setUnsignedBitfield p offset bits (u64 value).

Fixpoint get_bits (n : nat) (p : list byte) (offset value : Z) : option Z :=
  match n with
  | O => Some value
  | S n' =>
      let byte := Z.shiftr offset 3 in
      let bit := 7 - Z.land offset 7 in
      byteval ← p !! Z.to_nat byte;
      let bitval := Z.land (Z.shiftr byteval bit) 1 in
      get_bits n' p (u64 (offset + 1)) (Z.lor (u64 (Z.shiftl value 1)) bitval)
  end.

Definition getUnsignedBitfield (p : list byte) (offset bits : Z) : option Z :=
  get_bits (Z.to_nat bits) p offset 0.

Definition getSignedBitfield (p : list byte) (offset bits : Z) : option Z :=
  u ← getUnsignedBitfield p offset bits;
  let value := i64 u in
  Some (if (bits <? 64) && negb (Z.land (u64 value) (Z.shiftl 1 (bits - 1)) =? 0)
        then i64 (Z.lor (u64 value) (u64 (Z.shiftl UINT64_MAX bits)))
        else value).

Inductive bfoverflow := BFOVERFLOW_WRAP | BFOVERFLOW_SAT | BFOVERFLOW_FAIL.

(** The result and what is written to [*limit], if anything. *)
Definition checkUnsignedBitfieldOverflow (value incr bits : Z) (owtype : bfoverflow) : Z * option Z :=
  let max := if bits =? 64 then UINT64_MAX else u64 (Z.shiftl 1 bits - 1) in
  let maxincr := i64 (u64 (max - value)) in
  let minincr := i64 (u64 (- value)) in
  let handle_wrap :=
    let mask := u64 (Z.shiftl UINT64_MAX bits) in
    let res := u64 (value + u64 incr) in
    (1, Some (Z.land res (u64 (Z.lnot mask)))) in
  if (max <? value) || ((0 <? incr) && (maxincr <? incr)) then
    match owtype with
    | BFOVERFLOW_WRAP => handle_wrap
    | BFOVERFLOW_SAT => (1, Some max)
    | BFOVERFLOW_FAIL => (1, None)
    end
  else if (incr <? 0) && (incr <? minincr) then
    match owtype with
    | BFOVERFLOW_WRAP => handle_wrap
    | BFOVERFLOW_SAT => (-1, Some 0)
    | BFOVERFLOW_FAIL => (-1, None)
    end
  else (0, None).

(** [maxincr] and [minincr] overflow for some values, as a comment says; the model
    reads this as two's complement wrap-around. *)
Definition checkSignedBitfieldOverflow (value incr bits : Z) (owtype : bfoverflow) : Z * option Z :=
  let max := if bits =? 64 then LLONG_MAX else Z.shiftl 1 (bits - 1) - 1 in
  let min := - max - 1 in
  let maxincr := i64 (max - value) in
  let minincr := i64 (min - value) in
  let handle_wrap :=
    let msb := Z.shiftl 1 (bits - 1) in
    let c := u64 (u64 value + u64 incr) in
    let c := if bits <? 64 then
               let mask := u64 (Z.shiftl UINT64_MAX bits) in
               if negb (Z.land c msb =? 0) then Z.lor c mask else Z.land c (u64 (Z.lnot mask))
             else c in
    (1, Some (i64 c)) in
  if (max <? value) || (negb (bits =? 64) && (maxincr <? incr)) ||
     ((0 <=? value) && (0 <? incr) && (maxincr <? incr)) then
    match owtype with
    | BFOVERFLOW_WRAP => handle_wrap
    | BFOVERFLOW_SAT => (1, Some max)
    | BFOVERFLOW_FAIL => (1, None)
    end
  else if (value <? min) || (negb (bits =? 64) && (incr <? minincr)) ||
     ((value <? 0) && (incr <? 0) && (incr <? minincr)) then
    match owtype with
    | BFOVERFLOW_WRAP => handle_wrap
    | BFOVERFLOW_SAT => (-1, Some min)
    | BFOVERFLOW_FAIL => (-1, None)
    end
  else (0, None).

(** ** Arguments *)

Section Commands.
Variable proto_max_bulk_len : Z.

(** The address of the text of a value, for the scans. *)
Variable address : list byte -> Z.

Abbreviation c_hash := 35 (only parsing).

(** The product wraps around where it overflows. *)
Definition getBitOffsetFromArgument (p : list byte) (hash : bool) (bits : Z) : Z + err :=
  let usehash := (at_ p 0 =? c_hash) && hash && (0 <? bits) in
  match string2ll (if usehash then drop 1 p else p) with
  | None => inr BitOffsetRange
  | Some loffset =>
      let loffset := if usehash then i64 (loffset * bits) else loffset in
      if (loffset <? 0) || (proto_max_bulk_len <=? Z.shiftr loffset 3) then inr BitOffsetRange
      else inl loffset
  end.

Definition getBitfieldTypeFromArgument (p : list byte) : (bool * Z) + err :=
  let sign := at_ p 0 =? 105 in
  if sign || (at_ p 0 =? 117) then
    match string2ll (c_str (drop 1 p)) with
    | None => inr BitfieldType
    | Some llbits =>
        if (llbits <? 1) || (sign && (64 <? llbits)) || (negb sign && (63 <? llbits))
        then inr BitfieldType else inl (sign, i32 llbits)
    end
  else inr BitfieldType.

(** The text of the value at [k], with room for the bit [maxbit]. *)
Definition lookupStringForBitCommand (w : world) (k : key) (maxbit : Z) : option ((world * list byte) + err) :=
  let byte := Z.shiftr maxbit 3 in
  match checkType (lookupKey w k) with
  | inr e => Some (inr e)
  | inl None =>
      let s := replicate (Z.to_nat (byte + 1)) 0 in
      w ← dbAdd w k (StrObj s);
      Some (inl (w, s))
  | inl (Some o) =>
      '(w, s) ← dbUnshareStringValue w k o;
      let s := sdsgrowzero s (byte + 1) in
      w ← dbOverwrite w k (StrObj s);
      Some (inl (w, s))
  end.

Definition getObjectReadOnlyString (o : robj) : option (list byte) :=
  match o with
  | IntObj v => Some (int_text LONG_STR_SIZE v)
  | StrObj s => Some s
  | OtherObj _ => None
  end.

(** ** SETBIT and GETBIT *)

(** [argv] without the name of the command. *)
Definition setbitCommand (w : world) (argv : list (list byte)) : option world :=
  k ← argv !! 0%nat;
  offset ← argv !! 1%nat;
  value ← argv !! 2%nat;
  bitoffset ⇐ getBitOffsetFromArgument offset false 0 orelse w;
  on ⇐ getLongFromObjectOrReply value BitRange orelse w;
  if negb (Z.land on (Z.lnot 1) =? 0) then Some (addReplyError w BitRange)
  else
    r ← lookupStringForBitCommand w k bitoffset;
    '(w, s) ⇐ r orelse w;
    let byte := Z.shiftr bitoffset 3 in
    byteval ← s !! Z.to_nat byte;
    let bit := 7 - Z.land bitoffset 7 in
    let bitval := Z.land byteval (Z.shiftl 1 bit) in
    let byteval := Z.land byteval (Z.lnot (Z.shiftl 1 bit)) in
    let byteval := Z.lor byteval (Z.shiftl (Z.land on 1) bit) in
    w ← dbOverwrite w k (StrObj (<[Z.to_nat byte := u8 byteval]> s));
    let w := signalModifiedKey w k in
    let w := notifyKeyspaceEvent w EvSetbit k in
    let w := add_dirty w 1 in
    Some (addReplyLongLong w (if bitval =? 0 then 0 else 1)).

Definition getbitCommand (w : world) (argv : list (list byte)) : option world :=
  k ← argv !! 0%nat;
  offset ← argv !! 1%nat;
  bitoffset ⇐ getBitOffsetFromArgument offset false 0 orelse w;
  match lookupKey w k with
  | None => Some (addReplyLongLong w 0)
  | Some o =>
      _ ⇐ checkType (Some o) orelse w;
      let byte := Z.shiftr bitoffset 3 in
      let bit := 7 - Z.land bitoffset 7 in
      bitval ← match o with
               | StrObj s =>
                   if byte <? zlen s then b ← s !! Z.to_nat byte; Some (Z.land b (Z.shiftl 1 bit)) else Some 0
               | IntObj v =>
                   let llbuf := int_text 32 v in
                   if byte <? zlen llbuf then b ← llbuf !! Z.to_nat byte; Some (Z.land b (Z.shiftl 1 bit))
                   else Some 0
               | OtherObj _ => None
               end;
      Some (addReplyLongLong w (if bitval =? 0 then 0 else 1))
  end.

(** ** BITOP *)

Inductive bitop := BITOP_AND | BITOP_OR | BITOP_XOR | BITOP_NOT.

Definition s_and : list byte := [97; 110; 100].
Definition s_or : list byte := [111; 114].
Definition s_xor : list byte := [120; 111; 114].
Definition s_not : list byte := [110; 111; 116].

Definition parse_bitop (opname : list byte) : option bitop :=
  let c := at_ opname 0 in
  if ((c =? 97) || (c =? 65)) && strcasecmp_eq (c_str opname) s_and then Some BITOP_AND
  else if ((c =? 111) || (c =? 79)) && strcasecmp_eq (c_str opname) s_or then Some BITOP_OR
  else if ((c =? 120) || (c =? 88)) && strcasecmp_eq (c_str opname) s_xor then Some BITOP_XOR
  else if ((c =? 110) || (c =? 78)) && strcasecmp_eq (c_str opname) s_not then Some BITOP_NOT
  else None.

(** The loop that looks the sources up: [src] (NULL and an empty string are both
    the empty list), [maxlen] and [minlen]. *)
Fixpoint bitop_sources (w : world) (keys : list (list Z)) (j : nat) (src : list (list byte)) (maxlen minlen : Z)
    : option ((list (list byte) * Z * Z) + err) :=
  match keys with
  | [] => Some (inl (src, maxlen, minlen))
  | k :: keys' =>
      match lookupKey w k with
      | None => bitop_sources w keys' (S j) (src ++ [[]]) maxlen 0
      | Some o =>
          match checkType (Some o) with
          | inr e => Some (inr e)
          | inl _ =>
              s ← getDecodedObject o;
              bitop_sources w keys' (S j) (src ++ [s])
                (if maxlen <? zlen s then zlen s else maxlen)
                (if Nat.eqb j 0 || (zlen s <? minlen) then zlen s else minlen)
          end
      end
  end.

Definition word_op (op : bitop) (a b : Z) : Z :=
  match op with
  | BITOP_AND => Z.land a b
  | BITOP_OR => Z.lor a b
  | BITOP_XOR => Z.lxor a b
  | BITOP_NOT => a
  end.

(** [lres[k] op= lp[i][k]], both at the byte offset [off]. *)
Definition fast_word (op : bitop) (res src : list byte) (off : Z) : option (list byte) :=
  a ← buf_read res off 8;
  b ← buf_read src off 8;
  buf_write res off (native_store 8 (word_op op (native_load a) (native_load b))).

Definition not_word (res : list byte) (off : Z) : option (list byte) :=
  a ← buf_read res off 8;
  buf_write res off (native_store 8 (u64 (Z.lnot (native_load a)))).

(** Four words of one source; four words inverted. *)
Definition fast_four (op : bitop) (res src : list byte) (off : Z) : option (list byte) :=
  res ← fast_word op res src off;
  res ← fast_word op res src (off + 8);
  res ← fast_word op res src (off + 16);
  fast_word op res src (off + 24).

Definition not_four (res : list byte) (off : Z) : option (list byte) :=
  res ← not_word res off;
  res ← not_word res (off + 8);
  res ← not_word res (off + 16);
  not_word res (off + 24).

(** [for (i = 1; i < numkeys; i++)] *)
Fixpoint fast_keys (op : bitop) (res : list byte) (srcs : list (list byte)) (off : Z) : option (list byte) :=
  match srcs with
  | [] => Some res
  | s :: srcs' => res ← fast_four op res s off; fast_keys op res srcs' off
  end.

(** [while(minlen >= sizeof(unsigned long)*4)]: every pointer has advanced by [j]
    bytes. *)
Fixpoint fast_loop (fuel : nat) (op : bitop) (res : list byte) (srcs : list (list byte)) (j minlen : Z)
    : option (list byte * Z) :=
  if 32 <=? minlen then
    match fuel with
    | O => None
    | S fuel' =>
        res ← match op with
              | BITOP_NOT => not_four res j
              | _ => fast_keys op res srcs j
              end;
        fast_loop fuel' op res srcs (j + 32) (minlen - 32)
    end
  else Some (res, j).

(** One byte of the plain loop: over the sources after the first. *)
Fixpoint slow_keys (op : bitop) (output : Z) (srcs : list (list byte)) (j : nat) : Z :=
  match srcs with
  | [] => output
  | s :: srcs' =>
      let byte := default 0 (s !! j) in
      match op with
      | BITOP_AND =>
          let output := Z.land output byte in
          if output =? 0 then output else slow_keys op output srcs' j
      | BITOP_OR =>
          let output := Z.lor output byte in
          if output =? 255 then output else slow_keys op output srcs' j
      | BITOP_XOR => slow_keys op (Z.lxor output byte) srcs' j
      | BITOP_NOT => slow_keys op output srcs' j
      end
  end.

Definition slow_byte (op : bitop) (src0 : list byte) (srcs : list (list byte)) (j : nat) : Z :=
  let output := default 0 (src0 !! j) in
  let output := match op with BITOP_NOT => u8 (Z.lnot output) | _ => output end in
  slow_keys op output srcs j.

(** [for (; j < maxlen; j++)], [n] bytes left. *)
Fixpoint slow_loop (n : nat) (op : bitop) (res src0 : list byte) (srcs : list (list byte)) (j : nat)
    : option (list byte) :=
  match n with
  | O => Some res
  | S n' =>
      res ← buf_write res (Z.of_nat j) [slow_byte op src0 srcs j];
      slow_loop n' op res src0 srcs (S j)
  end.

(** The string of [maxlen] bytes computed from the sources. *)
Definition bitop_compute (op : bitop) (src : list (list byte)) (maxlen minlen : Z) : option (list byte) :=
  let res := replicate (Z.to_nat maxlen) 0 in
  src0 ← src !! 0%nat;
  let srcs := drop 1 src in
  '(res, j) ← (if (32 <=? minlen) && (zlen src <=? 16) then
                 bs ← buf_read src0 0 minlen;
                 res ← buf_write res 0 bs;
                 fast_loop (S (Z.to_nat (minlen / 32))) op res srcs 0 minlen
               else Some (res, 0));
  slow_loop (Z.to_nat (maxlen - j)) op res src0 srcs (Z.to_nat j).

Definition bitopCommand (w : world) (argv : list (list byte)) : option world :=
  opname ← argv !! 0%nat;
  targetkey ← argv !! 1%nat;
  match parse_bitop opname with
  | None => Some (addReplyError w SyntaxError)
  | Some op =>
      let keys := drop 2 argv in
      if match op with BITOP_NOT => negb (zlen argv =? 3) | _ => false end
      then Some (addReplyError w BitopNotArity)
      else
        r ← bitop_sources w keys 0 [] 0 0;
        '(src, maxlen, minlen) ⇐ r orelse w;
        w ← (if 0 <? maxlen then
               res ← bitop_compute op src maxlen minlen;
               w ← setKey w targetkey (StrObj res);
               let w := notifyKeyspaceEvent w EvSet targetkey in
               Some (add_dirty w 1)
             else
               let '(w, deleted) := dbDelete w targetkey in
               if (deleted : bool) then
                 let w := signalModifiedKey w targetkey in
                 let w := notifyKeyspaceEvent w EvDel targetkey in
                 Some (add_dirty w 1)
               else Some w);
        Some (addReplyLongLong w maxlen)
  end.

(** ** BITCOUNT and BITPOS *)

(** Negative indexes count from the end; the sums cannot overflow. *)
Definition range_index (start end_ strlen : Z) : Z * Z :=
  let start := if start <? 0 then strlen + start else start in
  let end_ := if end_ <? 0 then strlen + end_ else end_ in
  let start := if start <? 0 then 0 else start in
  let end_ := if end_ <? 0 then 0 else end_ in
  let end_ := if strlen <=? end_ then strlen - 1 else end_ in
  (start, end_).

(** The reply of the last part of BITCOUNT. *)
Definition count_range (w : world) (p : list byte) (start end_ : Z) : option world :=
  if end_ <? start then Some (addReplyLongLong w 0)
  else
    let bytes := end_ - start + 1 in
    n ← redisPopcount (address p + start) (drop (Z.to_nat start) p) bytes;
    Some (addReplyLongLong w n).

Definition bitcountCommand (w : world) (argv : list (list byte)) : option world :=
  k ← argv !! 0%nat;
  match lookupKey w k with
  | None => Some (addReplyLongLong w 0)
  | Some o =>
      _ ⇐ checkType (Some o) orelse w;
      p ← getObjectReadOnlyString o;
      let strlen := zlen p in
      match argv with
      | [_; a; b] =>
          start ⇐ getLongFromObjectOrReply a NotInteger orelse w;
          end_ ⇐ getLongFromObjectOrReply b NotInteger orelse w;
          if (start <? 0) && (end_ <? 0) && (end_ <? start) then Some (addReplyLongLong w 0)
          else let '(start, end_) := range_index start end_ strlen in count_range w p start end_
      | [_] => count_range w p 0 (strlen - 1)
      | _ => Some (addReplyError w SyntaxError)
      end
  end.

Definition bitpos_range (w : world) (p : list byte) (bit : bool) (start end_ : Z) (end_given : bool) : option world :=
  if end_ <? start then Some (addReplyLongLong w (-1))
  else
    let bytes := end_ - start + 1 in
    pos ← redisBitpos (address p + start) (drop (Z.to_nat start) p) bytes bit;
    if end_given && negb bit && (pos =? Z.shiftl bytes 3) then Some (addReplyLongLong w (-1))
    else Some (addReplyLongLong w (if pos =? -1 then pos else pos + Z.shiftl start 3)).

Definition bitposCommand (w : world) (argv : list (list byte)) : option world :=
  k ← argv !! 0%nat;
  b ← argv !! 1%nat;
  bit ⇐ getLongFromObjectOrReply b NotInteger orelse w;
  if negb (bit =? 0) && negb (bit =? 1) then Some (addReplyError w BitArgument)
  else
    let one := bit =? 1 in
    match lookupKey w k with
    | None => Some (addReplyLongLong w (if one then -1 else 0))
    | Some o =>
        _ ⇐ checkType (Some o) orelse w;
        p ← getObjectReadOnlyString o;
        let strlen := zlen p in
        match drop 2 argv with
        | [a] =>
            start ⇐ getLongFromObjectOrReply a NotInteger orelse w;
            let '(start, end_) := range_index start (strlen - 1) strlen in bitpos_range w p one start end_ false
        | [a; b] =>
            start ⇐ getLongFromObjectOrReply a NotInteger orelse w;
            end_ ⇐ getLongFromObjectOrReply b NotInteger orelse w;
            let '(start, end_) := range_index start end_ strlen in bitpos_range w p one start end_ true
        | [] => bitpos_range w p one 0 (strlen - 1) false
        | _ => Some (addReplyError w SyntaxError)
        end
    end.

(** ** BITFIELD *)

Inductive bitfield_opcode := BITFIELDOP_GET | BITFIELDOP_SET | BITFIELDOP_INCRBY.

Record bitfieldOp := mk_bitfieldOp {
  bf_offset : Z;
  bf_i64 : Z;
  bf_opcode : bitfield_opcode;
  bf_owtype : bfoverflow;
  bf_bits : Z;
  bf_sign : bool;
}.

Definition s_get : list byte := [103; 101; 116].
Definition s_set : list byte := [115; 101; 116].
Definition s_incrby : list byte := [105; 110; 99; 114; 98; 121].
Definition s_overflow : list byte := [111; 118; 101; 114; 102; 108; 111; 119].
Definition s_wrap : list byte := [119; 114; 97; 112].
Definition s_sat : list byte := [115; 97; 116].
Definition s_fail : list byte := [102; 97; 105; 108].

Definition is_name (arg name : list byte) : bool := strcasecmp_eq (c_str arg) name.

(** The loop over the arguments from [j] on, [argv] what is left of them. *)
Fixpoint bitfield_parse (fuel : nat) (argv : list (list byte)) (ops : list bitfieldOp) (owtype : bfoverflow)
    (readonly : bool) (highest : Z) : option ((list bitfieldOp * bool * Z) + err) :=
  match argv with
  | [] => Some (inl (ops, readonly, highest))
  | subcmd :: args =>
      match fuel with
      | O => None
      | S fuel' =>
          let remargs := zlen args in
          let op (opcode : bitfield_opcode) :=
            type ← args !! 0%nat;
            offset ← args !! 1%nat;
            match getBitfieldTypeFromArgument type with
            | inr e => Some (inr e)
            | inl (sign, bits) =>
                match getBitOffsetFromArgument offset true bits with
                | inr e => Some (inr e)
                | inl bitoffset =>
                    match opcode with
                    | BITFIELDOP_GET =>
                        bitfield_parse fuel' (drop 2 args)
                          (ops ++ [mk_bitfieldOp bitoffset 0 opcode owtype bits sign]) owtype readonly highest
                    | _ =>
                        let last := u64 (bitoffset + bits - 1) in
                        let highest := if highest <? last then last else highest in
                        value ← args !! 2%nat;
                        match getLongLongFromObjectOrReply value NotInteger with
                        | inr e => Some (inr e)
                        | inl v =>
                            bitfield_parse fuel' (drop 3 args)
                              (ops ++ [mk_bitfieldOp bitoffset v opcode owtype bits sign]) owtype false highest
                        end
                    end
                end
            end in
          if is_name subcmd s_get && (2 <=? remargs) then op BITFIELDOP_GET
          else if is_name subcmd s_set && (3 <=? remargs) then op BITFIELDOP_SET
          else if is_name subcmd s_incrby && (3 <=? remargs) then op BITFIELDOP_INCRBY
          else if is_name subcmd s_overflow && (1 <=? remargs) then
            name ← args !! 0%nat;
            if is_name name s_wrap then bitfield_parse fuel' (drop 1 args) ops BFOVERFLOW_WRAP readonly highest
            else if is_name name s_sat then bitfield_parse fuel' (drop 1 args) ops BFOVERFLOW_SAT readonly highest
            else if is_name name s_fail then bitfield_parse fuel' (drop 1 args) ops BFOVERFLOW_FAIL readonly highest
            else Some (inr OverflowType)
          else Some (inr SyntaxError)
      end
  end.

(** The new value of SET and INCRBY, the value replied and whether it overflows.
    [wrapped] is not set on overflow with FAIL; then nothing is stored. *)
Definition signed_update (o : bitfieldOp) (oldval : Z) : Z * Z * Z :=
  match bf_opcode o with
  | BITFIELDOP_INCRBY =>
      let newval := i64 (oldval + bf_i64 o) in
      let '(overflow, wrapped) := checkSignedBitfieldOverflow oldval (bf_i64 o) (bf_bits o) (bf_owtype o) in
      let newval := if overflow =? 0 then newval else default newval wrapped in
      (newval, newval, overflow)
  | _ =>
      let newval := bf_i64 o in
      let '(overflow, wrapped) := checkSignedBitfieldOverflow newval 0 (bf_bits o) (bf_owtype o) in
      let newval := if overflow =? 0 then newval else default newval wrapped in
      (newval, oldval, overflow)
  end.

Definition unsigned_update (o : bitfieldOp) (oldval : Z) : Z * Z * Z :=
  match bf_opcode o with
  | BITFIELDOP_INCRBY =>
      let newval := u64 (oldval + u64 (bf_i64 o)) in
      let '(overflow, wrapped) := checkUnsignedBitfieldOverflow oldval (bf_i64 o) (bf_bits o) (bf_owtype o) in
      let newval := if overflow =? 0 then newval else default newval wrapped in
      (newval, newval, overflow)
  | _ =>
      let newval := u64 (bf_i64 o) in
      let '(overflow, wrapped) := checkUnsignedBitfieldOverflow newval 0 (bf_bits o) (bf_owtype o) in
      let newval := if overflow =? 0 then newval else default newval wrapped in
      (newval, oldval, overflow)
  end.

Definition is_fail (t : bfoverflow) : bool :=
  match t with BFOVERFLOW_FAIL => true | _ => false end.

(** SET and INCRBY on the text of the object. *)
Definition bitfield_write (s : list byte) (o : bitfieldOp) : option (list byte * reply) :=
  if bf_sign o then
    oldval ← getSignedBitfield s (bf_offset o) (bf_bits o);
    let '(newval, retval, overflow) := signed_update o oldval in
    if negb (overflow =? 0) && is_fail (bf_owtype o) then Some (s, RNull)
    else
      s ← setSignedBitfield s (bf_offset o) (bf_bits o) newval;
      Some (s, RInt retval)
  else
    oldval ← getUnsignedBitfield s (bf_offset o) (bf_bits o);
    let '(newval, retval, overflow) := unsigned_update o oldval in
    if negb (overflow =? 0) && is_fail (bf_owtype o) then Some (s, RNull)
    else
      s ← setUnsignedBitfield s (bf_offset o) (bf_bits o) newval;
      Some (s, RInt (i64 retval)).

(** GET, on a copy of at most nine bytes, zero-padded. *)
Definition bitfield_read (src : list byte) (o : bitfieldOp) : option reply :=
  let byte := Z.shiftr (bf_offset o) 3 in
  let buf := take 9 (take 9 (drop (Z.to_nat byte) src) ++ replicate 9 0) in
  let off := bf_offset o - byte * 8 in
  if bf_sign o then
    v ← getSignedBitfield buf off (bf_bits o); Some (RInt v)
  else
    v ← getUnsignedBitfield buf off (bf_bits o); Some (RInt (i64 v)).

(** The loop over the operations; the number of changes is returned. *)
Fixpoint bitfield_exec (ops : list bitfieldOp) (s : list byte) (changes : Z) : option (list byte * list reply * Z) :=
  match ops with
  | [] => Some (s, [], changes)
  | o :: ops' =>
      '(s, r, changes) ←
        match bf_opcode o with
        | BITFIELDOP_GET => r ← bitfield_read s o; Some (s, r, changes)
        | _ => '(s, r) ← bitfield_write s o; Some (s, r, changes + 1)
        end;
      '(s, rs, changes) ← bitfield_exec ops' s changes;
      Some (s, r :: rs, changes)
  end.

Definition bitfieldGeneric (flag_readonly : bool) (w : world) (argv : list (list byte)) : option world :=
  k ← argv !! 0%nat;
  r ← bitfield_parse (length argv) (drop 1 argv) [] BFOVERFLOW_WRAP true 0;
  '(ops, readonly, highest_write_offset) ⇐ r orelse w;
  if (readonly : bool) then
    o ⇐ checkType (lookupKey w k) orelse w;
    s ← match o with None => Some [] | Some o => getObjectReadOnlyString o end;
    '(_, rs, _) ← bitfield_exec ops s 0;
    Some (foldl addReply w (RArrayLen (zlen ops) :: rs))
  else if flag_readonly then Some (addReplyError w BitfieldReadonly)
  else
    r ← lookupStringForBitCommand w k highest_write_offset;
    '(w, s) ⇐ r orelse w;
    '(s, rs, changes) ← bitfield_exec ops s 0;
    w ← dbOverwrite w k (StrObj s);
    let w := foldl addReply w (RArrayLen (zlen ops) :: rs) in
    if changes =? 0 then Some w
    else
      let w := signalModifiedKey w k in
      let w := notifyKeyspaceEvent w EvSetbit k in
      Some (add_dirty w changes).

Definition bitfieldCommand := bitfieldGeneric false.
Definition bitfieldroCommand := bitfieldGeneric true.

End Commands.
End Host.
