(* ===== verification/BitopsFacts.v ===== *)
(** * Bit operations: the scans and the fields, on sequences of bits

    [bits_of s] is the string as a sequence of bits, the most significant bit of
    the first byte first. *)

From stdpp Require Import base list option gmap.
From Stdlib Require Import ZArith Lia Bool.
From S2P Require Import Prelude Endian Util Cmd Bitops.

Local Open Scope Z_scope.

Definition byte_bits (b : Z) : list bool :=
  [Z.testbit b 7; Z.testbit b 6; Z.testbit b 5; Z.testbit b 4;
   Z.testbit b 3; Z.testbit b 2; Z.testbit b 1; Z.testbit b 0].

Definition bits_of (s : list byte) : list bool := concat (map byte_bits s).

(** The number of bits set. *)
Definition ones (l : list bool) : Z := foldr (fun b n => Z.b2z b + n) 0 l.

Lemma bits_of_cons b s : bits_of (b :: s) = byte_bits b ++ bits_of s.
Proof. done. Qed.

Lemma bits_of_app s t : bits_of (s ++ t) = bits_of s ++ bits_of t.
Proof. unfold bits_of. by rewrite map_app, concat_app. Qed.

Lemma bits_of_length s : length (bits_of s) = (8 * length s)%nat.
Proof. induction s as [|b s IH]; [done|]. rewrite bits_of_cons, length_app, IH. cbn. lia. Qed.

Lemma bits_of_take n s : bits_of (take n s) = take (8 * n) (bits_of s).
Proof.
  revert n; induction s as [|b s IH]; intros [|n]; [done|by rewrite !take_nil|by rewrite Nat.mul_0_r|].
  cbn [take]. rewrite !bits_of_cons, IH. replace (8 * S n)%nat with (length (byte_bits b) + 8 * n)%nat by (cbn; lia).
  by rewrite take_app_add.
Qed.

Lemma bits_of_drop n s : bits_of (drop n s) = drop (8 * n) (bits_of s).
Proof.
  revert n; induction s as [|b s IH]; intros [|n]; [done|by rewrite !drop_nil|by rewrite Nat.mul_0_r|].
  cbn [drop]. rewrite IH, bits_of_cons. replace (8 * S n)%nat with (length (byte_bits b) + 8 * n)%nat by (cbn; lia).
  by rewrite drop_app_add.
Qed.

Lemma ones_app l k : ones (l ++ k) = ones l + ones k.
Proof. induction l as [|b l IH]; [done|]. unfold ones in *. cbn [foldr app]. lia. Qed.

Lemma ones_bound l : 0 <= ones l <= zlen l.
Proof.
  induction l as [|b l IH]; [done|]. unfold ones in *. cbn [foldr]. rewrite zlen_cons. destruct b; cbn [Z.b2z]; lia.
Qed.

(** A fact about bytes, by computation. *)
Lemma forall_byte (f : Z -> bool) :
  forallb f (map Z.of_nat (seq 0 256)) = true -> forall b, is_byte b -> f b = true.
Proof.
  rewrite forallb_forall. intros Hf b Hb. apply Hf, in_map_iff. exists (Z.to_nat b).
  unfold is_byte in Hb. split; [lia|]. apply in_seq. lia.
Qed.

Definition table_test (b : Z) : bool :=
  match bitsinbyte !! Z.to_nat b with Some v => v =? ones (byte_bits b) | None => false end.

Lemma bitsinbyte_spec b : is_byte b -> bitsinbyte !! Z.to_nat b = Some (ones (byte_bits b)).
Proof.
  intros Hb. assert (table_test b = true) as Hd by (apply forall_byte; [vm_compute; reflexivity|done]).
  unfold table_test in Hd. destruct (_ !! _); [|done]. bool_to_prop. by subst.
Qed.

(** ** Counting in parallel

    A word is its low byte and the word of the others; each step works on the
    bytes on their own. *)

Lemma land_range n a b : 0 <= n -> 0 <= a < 2 ^ n -> 0 <= Z.land a b < 2 ^ n.
Proof.
  intros Hn Ha. rewrite <- (Z.mod_small a (2 ^ n)), <- Z.land_ones by lia.
  rewrite <- Z.land_assoc, (Z.land_comm (Z.ones n)), Z.land_assoc, Z.land_ones by lia. apply Z.mod_pos_bound. lia.
Qed.

Lemma land_wrap n y m : 0 <= n -> 0 <= m < 2 ^ n -> Z.land (wrap n y) m = Z.land y m.
Proof.
  intros Hn Hm. unfold wrap. rewrite <- Z.land_ones, <- Z.land_assoc by lia.
  by rewrite (Z.land_comm (Z.ones n)), Z.land_ones, Z.mod_small by lia.
Qed.

Lemma land_byte a b m n : is_byte b -> is_byte n -> Z.land (a * 256 + b) (m * 256 + n) = Z.land a m * 256 + Z.land b n.
Proof.
  unfold is_byte. intros Hb Hn. apply Z.bits_inj'. intros i Hi.
  pose proof (land_range 8 b n ltac:(lia) ltac:(lia)) as Hl.
  change 256 with (2 ^ 8). rewrite Z.land_spec.
  rewrite (testbit_split a b 8 i), (testbit_split m n 8 i), (testbit_split (Z.land a m) (Z.land b n) 8 i) by lia.
  case_if; by rewrite Z.land_spec.
Qed.

Lemma shiftr_byte a b k : is_byte b -> 0 <= k <= 8 ->
  Z.shiftr (a * 256 + b) k = Z.shiftr a k * 256 + (Z.shiftr b k + (a mod 2 ^ k) * 2 ^ (8 - k)).
Proof.
  unfold is_byte. intros Hb Hk. rewrite !Z.shiftr_div_pow2 by lia.
  assert (256 = 2 ^ k * 2 ^ (8 - k)) as E by (rewrite <- Z.pow_add_r by lia; replace (k + (8 - k)) with 8 by lia; done).
  pose proof (Z.div_mod a (2 ^ k) ltac:(lia)) as Ha.
  replace (a * 256 + b) with (b + (a * 2 ^ (8 - k)) * 2 ^ k) by (rewrite E; ring).
  rewrite Z_div_plus_full by lia. rewrite Ha at 1. rewrite E. ring.
Qed.


(** The mask of [n] bytes [m]. *)
Fixpoint rep_mask (n : nat) (m : Z) : Z :=
  match n with O => 0 | S n' => rep_mask n' m * 256 + m end.

(** The steps on words of [n] bytes, without wrap-around. *)
Definition step1 (n : nat) (x : Z) : Z := x - Z.land (Z.shiftr x 1) (rep_mask n 0x55).
Definition step2 (n : nat) (x : Z) : Z :=
  Z.land x (rep_mask n 0x33) + Z.land (Z.shiftr x 2) (rep_mask n 0x33).
Definition step3 (n : nat) (x : Z) : Z := Z.land (x + Z.shiftr x 4) (rep_mask n 0x0F).

(** The counts of the two halves of a byte. *)
Definition nibbles (b : Z) : Z := step2 1 (step1 1 b).

Definition byteb (x : Z) : bool := (0 <=? x) && (x <? 256).

(** What the steps do on one byte, [c] the low bits of the next one. *)
Definition step_test (b c : Z) : bool :=
  let n := nibbles b in
  let s := step1 1 b in
  byteb s && byteb n && (n mod 16 <=? 4) &&
  (Z.land (Z.shiftr b 1 + c mod 2 * 128) 0x55 =? Z.land (Z.shiftr b 1) 0x55) &&
  (Z.land (Z.shiftr s 2 + c mod 4 * 64) 0x33 =? Z.land (Z.shiftr s 2) 0x33) &&
  ((4 <? c) || (byteb (n + (Z.shiftr n 4 + c * 16)) &&
                (Z.land (n + (Z.shiftr n 4 + c * 16)) 0x0F =? ones (byte_bits b)))).

Lemma step_bytes b c : is_byte b -> 0 <= c < 16 ->
  is_byte (step1 1 b) /\ is_byte (nibbles b) /\ nibbles b mod 16 <= 4 /\
  Z.land (Z.shiftr b 1 + c mod 2 * 128) 0x55 = Z.land (Z.shiftr b 1) 0x55 /\
  Z.land (Z.shiftr (step1 1 b) 2 + c mod 4 * 64) 0x33 = Z.land (Z.shiftr (step1 1 b) 2) 0x33 /\
  (c <= 4 -> is_byte (nibbles b + (Z.shiftr (nibbles b) 4 + c * 16)) /\
             Z.land (nibbles b + (Z.shiftr (nibbles b) 4 + c * 16)) 0x0F = ones (byte_bits b)).
Proof.
  intros Hb Hc.
  assert (forallb (step_test b) (map Z.of_nat (seq 0 16)) = true) as H.
  { apply (forall_byte (fun b => forallb (step_test b) (map Z.of_nat (seq 0 16)))); [vm_compute; reflexivity|done]. }
  rewrite forallb_forall in H.
  specialize (H c ltac:(apply in_map_iff; exists (Z.to_nat c); split; [lia|]; apply in_seq; lia)).
  unfold step_test, byteb in H. unfold is_byte. bool_to_prop.
  split_and!; try lia; intros; destruct (4 <? c) eqn:E; bool_to_prop; cbn [orb] in *; try lia;
    bool_to_prop; lia.
Qed.

(** The low byte of a shifted word. *)
Lemma low_byte b c k : is_byte b -> 0 <= k <= 8 -> is_byte (Z.shiftr b k + c mod 2 ^ k * 2 ^ (8 - k)).
Proof.
  unfold is_byte. intros Hb Hk. rewrite Z.shiftr_div_pow2 by lia.
  assert (256 = 2 ^ k * 2 ^ (8 - k)) as E by (rewrite <- Z.pow_add_r by lia; replace (k + (8 - k)) with 8 by lia; done).
  pose proof (Z.mod_pos_bound c (2 ^ k) ltac:(lia)).
  assert (b / 2 ^ k < 2 ^ (8 - k)) by (apply Z.div_lt_upper_bound; lia).
  assert (0 <= b / 2 ^ k) by (apply Z.div_pos; lia). nia.
Qed.

Lemma step1_word l : Forall is_byte l -> step1 (length l) (le_join l) = le_join (map (step1 1) l).
Proof.
  induction 1 as [|b l Hb Hl IH]; [done|]. cbn [length le_join map]. rewrite <- IH.
  set (J := le_join l). unfold step1 at 1. cbn [rep_mask]. rewrite (Z.add_comm b), (Z.mul_comm 256 J).
  rewrite shiftr_byte, land_byte by (done || lia || by apply low_byte).
  destruct (step_bytes b (J mod 16) Hb) as (_ & _ & _ & H1 & _); [apply Z.mod_pos_bound; lia|].
  replace (J mod 16 mod 2) with (J mod 2) in H1 by dlia. change (2 ^ 1) with 2. change (2 ^ (8 - 1)) with 128.
  rewrite H1. unfold step1. change (rep_mask 1 85) with 85. lia.
Qed.

Lemma step2_word l : Forall is_byte l -> step2 (length l) (le_join (map (step1 1) l)) = le_join (map nibbles l).
Proof.
  induction 1 as [|b l Hb Hl IH]; [done|]. cbn [length le_join map]. rewrite <- IH.
  set (J := le_join (map (step1 1) l)). unfold step2 at 1. cbn [rep_mask].
  destruct (step_bytes b (J mod 16) Hb) as (Hs & _ & _ & _ & H1 & _); [apply Z.mod_pos_bound; lia|].
  rewrite (Z.add_comm (step1 1 b)), (Z.mul_comm 256 J).
  rewrite shiftr_byte, !land_byte by (done || lia || by apply low_byte).
  replace (J mod 16 mod 4) with (J mod 4) in H1 by dlia. change (2 ^ 2) with 4. change (2 ^ (8 - 2)) with 64.
  rewrite H1. unfold nibbles, step2. change (rep_mask 1 51) with 51. lia.
Qed.

Lemma nibbles_low l : Forall is_byte l -> le_join (map nibbles l) mod 16 <= 4.
Proof.
  destruct 1 as [|b l Hb _]; [done|]. cbn [map le_join].
  destruct (step_bytes b 0 Hb ltac:(lia)) as (_ & _ & H1 & _).
  replace (nibbles b + 256 * le_join (map nibbles l)) with (nibbles b + (16 * le_join (map nibbles l)) * 16) by lia.
  by rewrite Z.mod_add.
Qed.

(** The count of every byte. *)
Definition count_word (l : list byte) : Z := le_join (map (fun b => ones (byte_bits b)) l).

Lemma step3_word l : Forall is_byte l -> step3 (length l) (le_join (map nibbles l)) = count_word l.
Proof.
  unfold count_word. induction 1 as [|b l Hb Hl IH]; [done|]. cbn [length le_join map]. rewrite <- IH.
  pose proof (nibbles_low l Hl) as Hc. set (J := le_join (map nibbles l)) in *. unfold step3 at 1. cbn [rep_mask].
  destruct (step_bytes b (J mod 16) Hb) as (_ & Hn & _ & _ & _ & H1); [apply Z.mod_pos_bound; lia|].
  destruct (H1 Hc) as [H2 H3]. rewrite (Z.add_comm (nibbles b)), (Z.mul_comm 256 J).
  rewrite shiftr_byte by (done || lia). change (2 ^ 4) with 16. change (2 ^ (8 - 4)) with 16.
  replace (J * 256 + nibbles b + (Z.shiftr J 4 * 256 + (Z.shiftr (nibbles b) 4 + J mod 16 * 16)))
    with ((J + Z.shiftr J 4) * 256 + (nibbles b + (Z.shiftr (nibbles b) 4 + J mod 16 * 16))) by lia.
  rewrite land_byte by (done || lia). rewrite H3. unfold step3. lia.
Qed.

Lemma le_join_bytes_range l n : length l = n -> Forall is_byte l -> 0 <= le_join l < 256 ^ Z.of_nat n.
Proof. intros <- Hl. apply (le_join_range l Hl). Qed.

Lemma pop_word l : length l = 4%nat -> Forall is_byte l -> pop_bytes (pop_pairs (le_join l)) = count_word l.
Proof.
  intros Hlen Hl. pose proof (step1_word l Hl) as H1. pose proof (step2_word l Hl) as H2.
  pose proof (step3_word l Hl) as H3. rewrite Hlen in *.
  assert (Forall is_byte (map (step1 1) l) /\ Forall is_byte (map nibbles l)) as [B1 B2].
  { split; apply Forall_map; (eapply Forall_impl; [exact Hl|]); intros b Hb; by apply (step_bytes b 0). }
  pose proof (le_join_bytes_range _ 4 ltac:(by rewrite length_map) B1) as R1.
  pose proof (le_join_bytes_range _ 4 ltac:(by rewrite length_map) B2) as R2.
  change (256 ^ Z.of_nat 4) with (2 ^ 32) in R1, R2.
  unfold pop_pairs. change 0x55555555 with (rep_mask 4 0x55).
  fold (step1 4 (le_join l)). rewrite H1, (u32_small _ R1). change 0x33333333 with (rep_mask 4 0x33).
  fold (step2 4 (le_join (map (step1 1) l))). rewrite H2, (u32_small _ R2). unfold pop_bytes.
  rewrite land_wrap by (vm_compute; intuition congruence). rewrite <- H3. done.
Qed.

Section Host.
Context `{Host}.

Lemma load_next_app n w r : length w = n -> load_next n (w ++ r) = Some (native_load w, r).
Proof.
  intros <-. unfold load_next. rewrite (buf_read_app [] w r) by done.
  cbn [mbind option_bind]. by rewrite drop_app_length.
Qed.

Lemma ones_perm s t : s ≡ₚ t -> ones (bits_of s) = ones (bits_of t).
Proof.
  induction 1 as [|b s t _ IH|a b s|s t u _ IH1 _ IH2]; [done|..].
  - by rewrite !bits_of_cons, !ones_app, IH.
  - rewrite !bits_of_cons, !ones_app. lia.
  - congruence.
Qed.

(** The counts of the four bytes of a word, each in its byte. *)
Definition quad (c : Z * Z * Z * Z) : Z :=
  let '(c0, c1, c2, c3) := c in c0 + 256 * (c1 + 256 * (c2 + 256 * c3)).

Lemma pop_native w : length w = 4%nat -> Forall is_byte w ->
  exists c0 c1 c2 c3, pop_bytes (pop_pairs (native_load w)) = quad (c0, c1, c2, c3) /\
    c0 + c1 + c2 + c3 = ones (bits_of w) /\ 0 <= c0 <= 8 /\ 0 <= c1 <= 8 /\ 0 <= c2 <= 8 /\ 0 <= c3 <= 8.
Proof.
  intros Hlen Hw. unfold native_load. set (v := if big_endian then rev w else w).
  assert (v ≡ₚ w) as Hp by (unfold v; destruct big_endian; [symmetry; apply Permutation_rev|done]).
  rewrite <- (ones_perm v w Hp), pop_word;
    [|by rewrite Hp|by rewrite Hp].
  assert (length v = 4%nat) as Hv by (by rewrite Hp). clearbody v. clear Hp.
  destruct v as [|a [|b [|c [|d [|]]]]]; try done.
  exists (ones (byte_bits a)), (ones (byte_bits b)), (ones (byte_bits c)), (ones (byte_bits d)).
  pose proof (ones_bound (byte_bits a)). pose proof (ones_bound (byte_bits b)).
  pose proof (ones_bound (byte_bits c)). pose proof (ones_bound (byte_bits d)).
  split_and!; try (unfold zlen, byte_bits in *; cbn [length] in *; lia).
  - unfold count_word, quad. cbn [map le_join]. lia.
  - rewrite !bits_of_cons, !ones_app. cbn [bits_of map concat ones foldr]. lia.
Qed.

Lemma gather c0 c1 c2 c3 :
  0 <= c0 -> 0 <= c1 -> 0 <= c2 -> 0 <= c3 -> c0 + c1 + c2 + c3 < 256 ->
  Z.shiftr (u32 (u32 (quad (c0, c1, c2, c3)) * 0x01010101)) 24 = c0 + c1 + c2 + c3.
Proof.
  intros. unfold quad. rewrite (u32_small (c0 + _)) by lia.
  rewrite (wrap_congr 32 _ (c0 + 256 * (c0 + c1) + 65536 * (c0 + c1 + c2) + 16777216 * (c0 + c1 + c2 + c3)));
    [|lia|exists (c1 + c2 + c3 + 256 * (c2 + c3) + 65536 * c3); lia].
  rewrite wrap_small, Z.shiftr_div_pow2 by lia. change (2 ^ 24) with 16777216.
  symmetry. apply Z.div_unique_pos with (c0 + 256 * (c0 + c1) + 65536 * (c0 + c1 + c2)); lia.
Qed.

Lemma split_words n k (p : list byte) : (n * k <= length p)%nat ->
  exists ws r, p = concat ws ++ r /\ length ws = n /\ Forall (fun w => length w = k) ws.
Proof.
  revert p; induction n as [|n IH]; intros p Hp; [by exists [], p|].
  destruct (IH (drop k p)) as (ws & r & E & Hl & Hw); [rewrite length_drop; lia|].
  exists (take k p :: ws), r. cbn [concat length]. split_and!; [|lia|].
  - by rewrite <- app_assoc, <- E, take_drop.
  - constructor; [rewrite length_take; lia|done].
Qed.

Lemma pop_sum ws : Forall (fun w => length w = 4%nat) ws -> Forall is_byte (concat ws) ->
  exists c0 c1 c2 c3,
    foldr (fun w n => pop_bytes (pop_pairs (native_load w)) + n) 0 ws = quad (c0, c1, c2, c3) /\
    c0 + c1 + c2 + c3 = ones (bits_of (concat ws)) /\ 0 <= c0 /\ 0 <= c1 /\ 0 <= c2 /\ 0 <= c3.
Proof.
  induction 1 as [|w ws Hw _ IH]; intros Hb; [by exists 0, 0, 0, 0|].
  cbn [concat] in Hb. apply Forall_app in Hb as [Hb1 Hb2].
  destruct (pop_native w Hw Hb1) as (a0 & a1 & a2 & a3 & Ea & Sa & ? & ? & ? & ?).
  destruct (IH Hb2) as (b0 & b1 & b2 & b3 & Eb & Sb & ? & ? & ? & ?).
  exists (a0 + b0), (a1 + b1), (a2 + b2), (a3 + b3). cbn [foldr concat]. rewrite Ea, Eb, bits_of_app, ones_app.
  unfold quad. split_and!; lia.
Qed.

Lemma popcount_words_step fuel p count bits :
  28 <= count -> count <= zlen p -> Forall is_byte p ->
  exists q r, p = q ++ r /\ zlen q = 28 /\
    popcount_words (S fuel) p count bits =
      popcount_words fuel r (count - 28) (bits + ones (bits_of q)).
Proof.
  intros Hc Hp Hb. destruct (split_words 7 4 p) as (ws & r & -> & Hl & Hw); [unfold zlen in *; lia|].
  exists (concat ws), r. apply Forall_app in Hb as [Hb _].
  assert (zlen (concat ws) = 28) as Hz.
  { unfold zlen. do 7 (destruct ws as [|? ws]; [done|apply Forall_cons_1 in Hw as [? Hw]]). destruct ws; [|done].
    cbn [concat]. rewrite !length_app. cbn [length]. lia. }
  split_and!; [done|done|].
  destruct (pop_sum ws Hw Hb) as (c0 & c1 & c2 & c3 & Es & Et & ? & ? & ? & ?).
  pose proof (ones_bound (bits_of (concat ws))) as Ho. unfold zlen in Ho, Hz. rewrite bits_of_length in Ho.
  pose proof (gather c0 c1 c2 c3 ltac:(lia) ltac:(lia) ltac:(lia) ltac:(lia) ltac:(lia)) as Hg.
  rewrite <- Es, Et in Hg. clear Es Et Ho Hz Hb.
  cbn [popcount_words]. rewrite_if_true.
  do 7 (destruct ws as [|? ws]; [done|apply Forall_cons_1 in Hw as [? Hw]]). destruct ws; [|done].
  rewrite <- Hg. cbn [concat foldr]. rewrite app_nil_r, <- !app_assoc.
  do 7 (rewrite load_next_app by done; cbn [mbind option_bind]).
  do 6 f_equal. lia.
Qed.

Lemma popcount_unaligned_spec p : forall a count bits,
  0 <= count <= zlen p -> Forall is_byte p ->
  exists q r, p = q ++ r /\ zlen q <= count /\
    popcount_unaligned p a count bits = Some (r, count - zlen q, bits + ones (bits_of q)).
Proof.
  induction p as [|b p IH]; intros a count bits Hc Hb; cbn [popcount_unaligned].
  { exists [], []. rewrite zlen_nil in *. replace count with 0 by lia. rewrite andb_false_r.
    split_and!; [done..|]. do 2 f_equal. cbn. lia. }
  apply Forall_cons_1 in Hb as [Hb Hp]. case_if.
  - rewrite (bitsinbyte_spec b Hb). cbn [mbind option_bind].
    destruct (IH (a + 1) (count - 1) (bits + ones (byte_bits b))) as (q & r & -> & Hq & E); [zlen|done|].
    exists (b :: q), r. rewrite E, bits_of_cons, ones_app. split_and!; [done|zlen|]. do 2 f_equal; [f_equal; zlen|lia].
  - exists [], (b :: p). rewrite zlen_nil. split_and!; [done|lia|]. do 2 f_equal; [f_equal; lia|cbn; lia].
Qed.

Lemma popcount_words_spec fuel : forall p count bits,
  0 <= count <= zlen p -> count < 28 * Z.of_nat fuel -> Forall is_byte p ->
  exists q r, p = q ++ r /\ zlen q <= count /\
    popcount_words fuel p count bits = Some (r, count - zlen q, bits + ones (bits_of q)).
Proof.
  induction fuel as [|fuel IH]; intros p count bits Hc Hf Hb; [lia|].
  destruct (Z.le_gt_cases 28 count) as [Hge|Hlt].
  - destruct (popcount_words_step fuel p count bits Hge ltac:(lia) Hb) as (q & r & -> & Hq & ->).
    apply Forall_app in Hb as [_ Hb].
    destruct (IH r (count - 28) (bits + ones (bits_of q))) as (q' & r' & -> & Hq' & ->); [zlen|lia|done|].
    exists (q ++ q'), r'. rewrite <- app_assoc, bits_of_app, ones_app. split_and!; [done|zlen|].
    do 2 f_equal; [f_equal; zlen|lia].
  - exists [], p. cbn [popcount_words]. rewrite_if_false. split_and!; [done|rewrite zlen_nil; lia|].
    do 2 f_equal; [f_equal; rewrite zlen_nil; lia|cbn; lia].
Qed.

Lemma popcount_rest_spec n : forall p bits,
  (n <= length p)%nat -> Forall is_byte p -> popcount_rest n p bits = Some (bits + ones (bits_of (take n p))).
Proof.
  induction n as [|n IH]; intros [|b p] bits Hn Hb; cbn [popcount_rest take length] in *; try lia.
  - f_equal. cbn. lia.
  - f_equal. cbn. lia.
  - apply Forall_cons_1 in Hb as [Hb Hp]. rewrite (bitsinbyte_spec b Hb). cbn [mbind option_bind].
    rewrite IH by (done || lia). rewrite bits_of_cons, ones_app. f_equal. lia.
Qed.

Lemma redisPopcount_spec a s count :
  0 <= count <= zlen s -> Forall is_byte s ->
  redisPopcount a s count = Some (ones (bits_of (take (Z.to_nat count) s))).
Proof.
  intros Hc Hb. unfold redisPopcount.
  destruct (popcount_unaligned_spec s a count 0 Hc Hb) as (q & r & -> & Hq & ->). cbn [mbind option_bind].
  apply Forall_app in Hb as [_ Hb].
  destruct (popcount_words_spec (S (Z.to_nat ((count - zlen q) / 28))) r (count - zlen q) (0 + ones (bits_of q)))
    as (q' & r' & -> & Hq' & ->); [zlen| |done|].
  { rewrite Nat2Z.inj_succ, Z2Nat.id by (apply Z.div_pos; lia).
    pose proof (Z.mod_pos_bound (count - zlen q) 28 ltac:(lia)). pose proof (Z.div_mod (count - zlen q) 28). lia. }
  cbn [mbind option_bind]. apply Forall_app in Hb as [_ Hb].
  rewrite popcount_rest_spec by (done || (unfold zlen in *; rewrite !length_app in *; lia)). f_equal.
  rewrite app_assoc. rewrite take_app_ge by (rewrite length_app; unfold zlen in *; lia).
  rewrite !bits_of_app, !ones_app, length_app. rewrite Z.add_0_l. do 4 f_equal. unfold zlen. lia.
Qed.

(** ** The first bit set or clear *)

(** The position of the first [bit]. *)
Fixpoint first_bit (bit : bool) (l : list bool) : option Z :=
  match l with
  | [] => None
  | x :: l' => if Bool.eqb x bit then Some 0 else Z.succ <$> first_bit bit l'
  end.

(** The low [n] bits of a number, the most significant first. *)
Fixpoint field_bits (n : nat) (v : Z) : list bool :=
  match n with O => [] | S n' => Z.testbit v (Z.of_nat n') :: field_bits n' v end.

Lemma field_bits_length n v : length (field_bits n v) = n.
Proof. induction n; cbn; congruence. Qed.

Lemma first_bit_app bit l k :
  first_bit bit (l ++ k) =
    match first_bit bit l with Some i => Some i | None => Z.add (zlen l) <$> first_bit bit k end.
Proof.
  induction l as [|x l IH]; cbn [first_bit app].
  - by destruct (first_bit bit k).
  - destruct (Bool.eqb x bit); [done|]. rewrite IH.
    destruct (first_bit bit l); [done|]. destruct (first_bit bit k); [|done]. cbn. f_equal. zlen.
Qed.

Definition skip_byte (bit : bool) : Z := if bit then 0 else 255.

Definition skip_test (b : Z) : bool :=
  Bool.eqb (b =? 0) (match first_bit true (byte_bits b) with None => true | _ => false end) &&
  Bool.eqb (b =? 255) (match first_bit false (byte_bits b) with None => true | _ => false end).

Lemma skip_byte_spec b bit : is_byte b -> (first_bit bit (byte_bits b) = None <-> b = skip_byte bit).
Proof.
  intros Hb. assert (skip_test b = true) as Ht by (apply forall_byte; [vm_compute; reflexivity|done]).
  unfold skip_test in Ht. apply andb_true_iff in Ht as [H1 H2]. apply eqb_prop in H1, H2.
  unfold skip_byte. destruct bit; [clear H2; rename H1 into H2|clear H1];
    destruct (first_bit _ (byte_bits b)); bool_to_prop; split; intros; (done || congruence).
Qed.

Lemma skip_bytes q bit : Forall is_byte q ->
  (first_bit bit (bits_of q) = None <-> q = replicate (length q) (skip_byte bit)).
Proof.
  induction 1 as [|b q Hb Hq IH]; [done|]. rewrite bits_of_cons, first_bit_app. cbn [length replicate].
  pose proof (skip_byte_spec b bit Hb) as Hs. destruct (first_bit bit (byte_bits b)) eqn:E.
  - split; [done|]. intros [= Hc _]. by apply Hs in Hc.
  - rewrite fmap_None, IH. assert (b = skip_byte bit) as <- by (by apply Hs).
    split; [intros Hq'; by f_equal|by intros [= Hq']].
Qed.

Lemma bitpos_unaligned_spec bit p : forall a count pos,
  0 <= count <= zlen p -> Forall is_byte p ->
  exists q r found, p = q ++ r /\ zlen q <= count /\ first_bit bit (bits_of q) = None /\
    bitpos_unaligned p a (skip_byte bit) count pos = Some (r, count - zlen q, pos + 8 * zlen q, found) /\
    (found = true -> zlen q < count /\ exists b r', r = b :: r' /\ first_bit bit (byte_bits b) <> None).
Proof.
  induction p as [|b p IH]; intros a count pos Hc Hb; cbn [bitpos_unaligned].
  { exists [], [], false. rewrite zlen_nil in *. replace count with 0 by lia. rewrite andb_false_r.
    split_and!; try done. do 2 f_equal. f_equal; lia. }
  apply Forall_cons_1 in Hb as [Hb Hp]. case_if; [case_if|].
  - exists [], (b :: p), true. rewrite zlen_nil, Z.sub_0_r, Z.add_0_r. split_and!; try done; try lia.
    intros _. split; [lia|]. exists b, p. split; [done|]. by rewrite skip_byte_spec.
  - destruct (IH (a + 1) (count - 1) (pos + 8)) as (q & r & found & -> & Hq & Hn & E' & Hf); [zlen|done|].
    exists (b :: q), r, found. rewrite E', bits_of_cons, first_bit_app, Hn.
    rewrite (proj2 (skip_byte_spec b bit Hb)) by done. split_and!; [done|zlen|done| |].
    + do 2 f_equal. f_equal; [f_equal|]; zlen.
    + intros Hft. destruct (Hf Hft) as [? ?]. split; [zlen|done].
  - exists [], (b :: p), false. rewrite zlen_nil, Z.sub_0_r, Z.add_0_r. split_and!; try done; lia.
Qed.

Lemma le_join_replicate_inj w c : Forall is_byte w -> is_byte c ->
  le_join w = le_join (replicate (length w) c) -> w = replicate (length w) c.
Proof.
  intros Hw Hc E. rewrite <- (le_split_join w Hw) at 1. rewrite E.
  rewrite <- (length_replicate (length w) c) at 1. apply le_split_join. by apply Forall_replicate.
Qed.

Lemma skip_word (bit : bool) w : length w = 8%nat -> Forall is_byte w ->
  (native_load w = (if bit then 0 else ULLONG_MAX) <-> first_bit bit (bits_of w) = None).
Proof.
  intros Hl Hw. rewrite skip_bytes by done. rewrite Hl.
  assert ((if bit then 0 else ULLONG_MAX) = le_join (replicate 8 (skip_byte bit))) as -> by (by destruct bit).
  assert (is_byte (skip_byte bit)) as Hs by (unfold is_byte; destruct bit; cbn; lia).
  unfold native_load. destruct big_endian.
  - split.
    + intros E.
      pose proof (le_join_replicate_inj (rev w) (skip_byte bit) ltac:(by apply Forall_rev) Hs) as Hi.
      rewrite length_rev, Hl in Hi. specialize (Hi E). rewrite <- (rev_involutive w), Hi. by destruct bit.
    + intros ->. by destruct bit.
  - split; [|by intros ->]. intros E. pose proof (le_join_replicate_inj w (skip_byte bit) Hw Hs) as Hi.
    rewrite Hl in Hi. by apply Hi.
Qed.

Lemma bitpos_words_spec bit fuel : forall p count pos,
  0 <= count <= zlen p -> count < 8 * Z.of_nat fuel -> Forall is_byte p ->
  exists q r, p = q ++ r /\ zlen q <= count /\ first_bit bit (bits_of q) = None /\
    bitpos_words fuel p (if bit then 0 else ULLONG_MAX) count pos = Some (r, count - zlen q, pos + 8 * zlen q) /\
    (count - zlen q < 8 \/ first_bit bit (bits_of (take 8 r)) <> None).
Proof.
  induction fuel as [|fuel IH]; intros p count pos Hc Hf Hb; [lia|]. cbn [bitpos_words]. case_if.
  - assert (p = take 8 p ++ drop 8 p) as Ep by (by rewrite take_drop).
    assert (length (take 8 p) = 8%nat) as Hl by (rewrite length_take; unfold zlen in *; lia).
    pose proof Hb as Hb'. rewrite Ep in Hb'. apply Forall_app in Hb' as [Hb1 Hb2].
    pose proof (load_next_app 8 (take 8 p) (drop 8 p) Hl) as EL. rewrite take_drop in EL. rewrite EL.
    cbn [mbind option_bind].
    pose proof (skip_word bit (take 8 p) Hl Hb1) as Hs. case_if.
    + exists [], p. rewrite zlen_nil, Z.sub_0_r, Z.add_0_r. split_and!; try done; [lia|]. right. by rewrite <- Hs.
    + destruct (IH (drop 8 p) (count - 8) (pos + 64)) as (q & r & Eq & Hq & Hn & E' & Hr);
        [unfold zlen in *; rewrite length_drop; lia|lia|done|].
      exists (take 8 p ++ q), r. rewrite <- app_assoc, <- Eq, bits_of_app, first_bit_app, E', Hn.
      assert (zlen (take 8 p ++ q) = 8 + zlen q) as Hz by (unfold zlen; rewrite length_app; lia). rewrite Hz.
      rewrite (proj1 Hs) by done. split_and!; [done|lia|done| |].
      * do 2 f_equal; [f_equal|]; lia.
      * destruct Hr; [left; lia|by right].
  - exists [], p. rewrite zlen_nil, Z.sub_0_r, Z.add_0_r. split_and!; try done; [lia|]. left. lia.
Qed.

(** Bytes as a number, the first most significant. *)
Definition be_value (v : Z) (l : list byte) : Z := foldl (fun v b => v * 256 + b) v l.

Lemma lor_byte v b : is_byte b -> Z.lor (v * 256) b = v * 256 + b.
Proof.
  unfold is_byte. intros Hb. apply Z.bits_inj'. intros i Hi. rewrite Z.lor_spec.
  replace (v * 256) with (v * 2 ^ 8 + 0) at 1 by lia. change 256 with (2 ^ 8).
  rewrite !testbit_split by lia. rewrite <- (Z.mod_small b (2 ^ 8)) at 1 by lia. case_if.
  - by rewrite Z.bits_0, Z.mod_small by lia.
  - by rewrite Z.mod_pow2_bits_high, orb_false_r by lia.
Qed.

Lemma load_word_spec n : forall c count word,
  (n <= 8)%nat -> 0 <= count <= zlen c -> Forall is_byte c -> 0 <= word < 256 ^ Z.of_nat (8 - n) ->
  load_word n c count word = Some (be_value word (take n (take (Z.to_nat count) c ++ replicate n 0))).
Proof.
  induction n as [|n IH]; intros c count word Hn Hc Hb Hw; [done|]. cbn [load_word].
  rewrite Z.shiftl_mul_pow2 by lia. change (2 ^ 8) with 256.
  assert (256 ^ Z.of_nat (8 - n) = 256 * 256 ^ Z.of_nat (8 - S n)) as Hp.
  { replace (8 - n)%nat with (S (8 - S n)) by lia. apply pow256_succ. }
  assert (256 ^ Z.of_nat (8 - n) <= 256 ^ 8) as Hp8 by (apply Z.pow_le_mono_r; lia). change (256 ^ 8) with (2 ^ 64) in Hp8.
  rewrite u64_small by lia. destruct (count =? 0) eqn:E; bool_to_prop; cbn [negb].
  - subst. rewrite IH by (done || lia). cbn [Z.to_nat]. rewrite !take_0. cbn [app replicate take be_value foldl].
    by rewrite Z.add_0_r.
  - destruct c as [|b c]; [unfold zlen in *; cbn in *; lia|]. apply Forall_cons_1 in Hb as [Hb Hc'].
    unfold is_byte in Hb. rewrite IH by (zlen || done || (rewrite lor_byte by done; lia)).
    rewrite lor_byte by done. replace (Z.to_nat count) with (S (Z.to_nat (count - 1))) by lia.
    cbn [take app be_value foldl]. do 2 f_equal. unfold zlen in *; cbn [length] in *.
    rewrite !take_app, !take_replicate. do 2 f_equal. rewrite !length_take. lia.
Qed.

Lemma field_bits_ext n a b :
  (forall i, 0 <= i < Z.of_nat n -> Z.testbit a i = Z.testbit b i) -> field_bits n a = field_bits n b.
Proof.
  induction n as [|n IH]; intros Hi; [done|]. cbn [field_bits]. rewrite Hi by lia. f_equal.
  apply IH. intros. apply Hi. lia.
Qed.

Lemma field_bits_split n m x b :
  0 <= b < 2 ^ Z.of_nat m -> field_bits (n + m) (x * 2 ^ Z.of_nat m + b) = field_bits n x ++ field_bits m b.
Proof.
  intros Hb. induction n as [|n IH]; cbn [Nat.add field_bits app].
  - apply field_bits_ext. intros i Hi. rewrite testbit_split by lia. by rewrite_if_true.
  - f_equal; [|done]. rewrite testbit_split by lia. rewrite (proj2 (Z.ltb_ge _ _)) by lia. f_equal. lia.
Qed.

Lemma be_value_bits v l : Forall is_byte l -> field_bits (8 * length l) (be_value v l) = bits_of l.
Proof.
  induction l as [|b l IH] using rev_ind; intros Hb; [done|]. apply Forall_app in Hb as [Hl Hb].
  apply Forall_inv in Hb. unfold be_value in *. rewrite foldl_app, length_app, bits_of_app. cbn [foldl length].
  replace (8 * (length l + 1))%nat with (8 * length l + 8)%nat by lia.
  rewrite (field_bits_split _ 8), IH by done. done.
Qed.

Lemma land_pow2 k word : 0 <= k -> negb (Z.land (2 ^ k) word =? 0) = Z.testbit word k.
Proof.
  intros Hk. destruct (Z.testbit word k) eqn:E.
  - apply negb_true_iff, Z.eqb_neq. intros H0. apply (f_equal (fun z => Z.testbit z k)) in H0.
    rewrite Z.land_spec, Z.pow2_bits_true, Z.bits_0, E in H0 by lia. done.
  - apply negb_false_iff, Z.eqb_eq, Z.bits_inj'. intros i Hi. rewrite Z.land_spec, Z.bits_0.
    destruct (Z.eq_dec i k) as [->|]; [by rewrite E, andb_false_r|by rewrite Z.pow2_bits_false by lia].
Qed.

Lemma bit_loop_step fuel k word bit pos :
  bit_loop (S fuel) (2 ^ Z.of_nat k) word bit pos =
    if Bool.eqb (Z.testbit word (Z.of_nat k)) bit then Some pos
    else bit_loop fuel (Z.shiftr (2 ^ Z.of_nat k) 1) word bit (pos + 1).
Proof.
  cbn [bit_loop]. rewrite land_pow2 by lia.
  replace (2 ^ Z.of_nat k =? 0) with false; [done|]. symmetry. apply Z.eqb_neq, Z.pow_nonzero; lia.
Qed.

Lemma bit_loop_spec word bit k : forall fuel pos i,
  (k < fuel)%nat -> first_bit bit (field_bits (S k) word) = Some i ->
  bit_loop fuel (2 ^ Z.of_nat k) word bit pos = Some (pos + i).
Proof.
  induction k as [|k IH]; intros [|fuel] pos i Hf Hi; try lia; rewrite bit_loop_step.
  - cbn [field_bits first_bit] in Hi. destruct (Bool.eqb _ bit); [|done]. simplify_eq. f_equal. lia.
  - change (field_bits (S (S k)) word) with (Z.testbit word (Z.of_nat (S k)) :: field_bits (S k) word) in Hi.
    cbn [first_bit] in Hi. destruct (Bool.eqb _ bit); [simplify_eq; f_equal; lia|].
    apply fmap_Some in Hi as (j & Hj & ->).
    replace (Z.shiftr (2 ^ Z.of_nat (S k)) 1) with (2 ^ Z.of_nat k).
    + rewrite (IH fuel (pos + 1) j) by (done || lia). f_equal. lia.
    + rewrite Z.shiftr_div_pow2, Nat2Z.inj_succ, Z.pow_succ_r by lia. change (2 ^ 1) with 2.
      by rewrite Z.mul_comm, Z.div_mul.
Qed.

(** The bits of the last word loaded, and the bits left in the string. *)
Lemma last_word bit rest :
  first_bit bit (bits_of (take 8 (rest ++ replicate 8 0))) =
    if decide (first_bit bit (bits_of (take 8 rest)) = None) then
      if bit then None else if zlen rest <? 8 then Some (8 * zlen rest) else None
    else first_bit bit (bits_of rest).
Proof.
  destruct (Z.ltb_spec (zlen rest) 8) as [Hlt|Hge].
  - rewrite (take_ge rest) by (unfold zlen in *; lia).
    rewrite take_app, take_ge, take_replicate, bits_of_app, first_bit_app by (unfold zlen in *; lia).
    destruct (decide _) as [E|E]; [rewrite E|by destruct (first_bit bit (bits_of rest))].
    assert (zlen (bits_of rest) = 8 * zlen rest) as -> by (unfold zlen; rewrite bits_of_length; lia).
    replace ((8 - length rest) `min` 8)%nat with (S (7 - length rest)) by (unfold zlen in *; lia).
    destruct bit; cbn.
    + replace (first_bit true _) with (@None Z); [done|]. symmetry. apply skip_bytes.
      * apply Forall_replicate. unfold is_byte. lia.
      * by rewrite length_replicate.
    + f_equal. lia.
  - rewrite take_app_le by (unfold zlen in *; lia). destruct (decide _) as [E|E]; [by rewrite E; destruct bit|].
    rewrite <- (take_drop 8 rest) at 2. rewrite bits_of_app, first_bit_app.
    by destruct (first_bit bit (bits_of (take 8 rest))).
Qed.

Lemma first_bit_prefix bit s t : first_bit bit (bits_of s) <> None -> first_bit bit (bits_of (s ++ t)) <> None.
Proof. rewrite bits_of_app, first_bit_app. by destruct (first_bit bit (bits_of s)). Qed.

(** What is left of the string when the last word is loaded. *)
Lemma bitpos_scan a s count (bit : bool) :
  0 <= count <= zlen s -> Forall is_byte s ->
  exists q r, s = q ++ r /\ zlen q <= count /\ first_bit bit (bits_of q) = None /\
    (count - zlen q < 8 \/ first_bit bit (bits_of (take 8 (take (Z.to_nat (count - zlen q)) r))) <> None) /\
    redisBitpos a s count bit =
      (word ← load_word 8 r (count - zlen q) 0;
       if bit && (word =? 0) then Some (-1) else bit_loop 65 (2 ^ 63) word bit (8 * zlen q)).
Proof.
  intros Hc Hb. unfold redisBitpos. change (u64 (Z.lnot (Z.shiftr ULLONG_MAX 1))) with (2 ^ 63).
  change (if bit then 0 else 255) with (skip_byte bit).
  destruct (bitpos_unaligned_spec bit s a count 0 Hc Hb) as (q & r & found & -> & Hq & Hn & -> & Hf).
  cbn [mbind option_bind]. apply Forall_app in Hb as [_ Hb]. destruct found.
  - destruct Hf as (Hq' & b & r' & -> & Hbit); [done|]. exists q, (b :: r'). cbn [mbind option_bind].
    split_and!; [done..| |done]. right. replace (Z.to_nat (count - zlen q)) with (S (Z.to_nat (count - zlen q) - 1)) by lia.
    cbn [take]. rewrite bits_of_cons, first_bit_app. by destruct (first_bit bit (byte_bits b)).
  - destruct (bitpos_words_spec bit (S (Z.to_nat ((count - zlen q) / 8))) r (count - zlen q) (0 + 8 * zlen q))
      as (q' & r' & -> & Hq' & Hn' & -> & Hr); [zlen| |done|].
    { rewrite Nat2Z.inj_succ, Z2Nat.id by (apply Z.div_pos; lia).
      pose proof (Z.mod_pos_bound (count - zlen q) 8 ltac:(lia)). pose proof (Z.div_mod (count - zlen q) 8). lia. }
    cbn [mbind option_bind]. exists (q ++ q'), r'. rewrite bits_of_app, first_bit_app, Hn, Hn', zlen_app.
    rewrite <- app_assoc. replace (count - (zlen q + zlen q')) with (count - zlen q - zlen q') by lia.
    replace (8 * (zlen q + zlen q')) with (0 + 8 * zlen q + 8 * zlen q') by lia.
    split_and!; [done|lia|done| |done]. destruct (Z.lt_ge_cases (count - zlen q - zlen q') 8); [by left|right].
    destruct Hr as [Hr|Hr]; [lia|]. by rewrite take_take, Nat.min_l by lia.
Qed.

Lemma redisBitpos_spec a s count (bit : bool) :
  0 <= count <= zlen s -> Forall is_byte s ->
  redisBitpos a s count bit =
    Some (match first_bit bit (bits_of (take (Z.to_nat count) s)) with
          | Some i => i
          | None => if bit then -1 else 8 * count
          end).
Proof.
  intros Hc Hb. destruct (bitpos_scan a s count bit Hc Hb) as (q & r & -> & Hq & Hn & Hr & ->).
  apply Forall_app in Hb as [_ Hb]. rewrite load_word_spec by (done || zlen). cbn [mbind option_bind].
  rewrite (take_app_ge q r) by (unfold zlen in *; lia). rewrite bits_of_app, first_bit_app, Hn.
  assert (zlen (bits_of q) = 8 * zlen q) as -> by (unfold zlen; rewrite bits_of_length; lia).
  replace (Z.to_nat count - length q)%nat with (Z.to_nat (count - zlen q)) by (unfold zlen; lia).
  remember (take (Z.to_nat (count - zlen q)) r) as rest eqn:Erest.
  assert (zlen rest = count - zlen q) as Hlr by (subst rest; unfold zlen in *; rewrite length_take, length_app in *; lia).
  assert (Forall is_byte rest) as Hbr by (subst rest; by apply Forall_take). clear Erest Hb.
  pose proof (last_word bit rest) as HL. set (pad := take 8 (rest ++ replicate 8 0)) in *.
  assert (length pad = 8%nat) as Hp by (unfold pad; rewrite length_take, length_app, length_replicate; lia).
  assert (Forall is_byte pad) as Hbp.
  { apply Forall_take, Forall_app. split; [done|]. apply Forall_replicate. unfold is_byte. lia. }
  pose proof (be_value_bits 0 pad Hbp) as Hv. rewrite Hp in Hv.
  assert (first_bit bit (bits_of rest) = None <-> first_bit bit (bits_of (take 8 rest)) = None) as Hpre.
  { destruct Hr as [Hr|Hr]; [by rewrite take_ge by (unfold zlen in *; lia)|].
    split; [|done]. intros Hc'. rewrite <- (take_drop 8 rest) in Hc'. by apply first_bit_prefix in Hc'. }
  destruct (bit && (be_value 0 pad =? 0)) eqn:E.
  - apply andb_true_iff in E as [-> E0%Z.eqb_eq]. rewrite E0 in Hv. rewrite <- Hv in HL.
    change (first_bit true (field_bits (8 * 8) 0)) with (@None Z) in HL.
    destruct (decide _) as [E'|E']; [|by symmetry in HL; apply Hpre in HL]. by rewrite (proj2 Hpre E').
  - change (8 * 8)%nat with 64%nat in Hv. rewrite <- Hv in HL. destruct (decide _) as [E'|E'].
    + rewrite (proj2 Hpre E'). destruct bit.
      * rewrite Hv in HL. apply skip_bytes in HL; [|done]. rewrite HL in E. by rewrite Hp in E.
      * destruct Hr as [Hr|Hr]; [|done]. rewrite (proj2 (Z.ltb_lt _ _)) in HL by lia.
        rewrite (bit_loop_spec _ _ 63 65 _ _ ltac:(lia) HL). f_equal. cbn. lia.
    + destruct (first_bit bit (bits_of rest)) as [i|] eqn:Ei; [|by destruct E'; apply Hpre].
      by rewrite (bit_loop_spec _ _ 63 65 _ _ ltac:(lia) HL).
Qed.

End Host.

(** ** Bit fields *)

(** The number written by a sequence of bits after [v]. *)
Definition bits_value (v : Z) (l : list bool) : Z := foldl (fun v b => 2 * v + Z.b2z b) v l.

Lemma bits_of_byte A B i p :
  bits_of p = A ++ i :: B ->
  exists p1 b p2 b1 b2, p = p1 ++ b :: p2 /\ byte_bits b = b1 ++ i :: b2 /\
    A = bits_of p1 ++ b1 /\ B = b2 ++ bits_of p2 /\ length A = (8 * length p1 + length b1)%nat.
Proof.
  revert A; induction p as [|b p IH]; intros A; [by destruct A|]. rewrite bits_of_cons. intros E.
  destruct (Nat.lt_ge_cases (length A) 8) as [Hlt|Hge].
  - exists [], b, p, A. assert (length (byte_bits b) = 8%nat) as H8 by done.
    assert (exists b2, byte_bits b = A ++ i :: b2 /\ B = b2 ++ bits_of p) as (b2 & E1 & E2).
    { apply app_eq_inv in E as [(k & E1 & E2)|(k & E1 & E2)].
      - destruct k as [|x k]; [rewrite app_nil_r in E1; subst; lia|]. cbn in E2. simplify_eq. by exists k.
      - apply (f_equal length) in E1. rewrite length_app, H8 in E1. destruct k; [|cbn in E1; lia].
        cbn in E1. lia. }
    exists b2. split_and!; [done..|]. cbn. lia.
  - apply app_eq_inv in E as [(k & E1 & E2)|(k & E1 & E2)].
    + apply (f_equal length) in E1 as El. rewrite length_app in El. change (length (byte_bits b)) with 8%nat in El.
      assert (k = []) as -> by (destruct k; [done|cbn in El; lia]). rewrite app_nil_r in E1. cbn in E2.
      destruct (IH [] (eq_sym E2)) as (p1 & c & p2 & b1 & b2 & -> & Eb & E3 & E4 & E5).
      exists (b :: p1), c, p2, b1, b2. split_and!; [done|done| |done|].
      * rewrite bits_of_cons, <- app_assoc, <- E3, app_nil_r. by subst A.
      * cbn [length] in *. lia.
    + destruct (IH k E2) as (p1 & c & p2 & b1 & b2 & -> & Eb & E3 & E4 & E5).
      exists (b :: p1), c, p2, b1, b2. subst A k. split_and!; [done|done| |done|].
      * by rewrite bits_of_cons, <- app_assoc.
      * rewrite length_app. cbn [length]. change (length (byte_bits b)) with 8%nat. lia.
Qed.

(** Writing and reading one bit of a byte. *)
Definition put_bit (b bit : Z) (v : bool) : Z :=
  Z.land (Z.lor (Z.land b (u64 (Z.lnot (Z.shiftl 1 bit)))) (Z.shiftl (Z.b2z v) bit)) 255.

Definition put_test (b : Z) (k : nat) (v : bool) : bool :=
  let b' := put_bit b (7 - Z.of_nat k) v in
  byteb b' &&
  bool_decide (byte_bits b' = take k (byte_bits b) ++ v :: drop (S k) (byte_bits b)) &&
  bool_decide (byte_bits b !! k = Some (Z.land (Z.shiftr b (7 - Z.of_nat k)) 1 =? 1)) &&
  (Z.land (Z.shiftr b (7 - Z.of_nat k)) 1 =? Z.b2z (Z.land (Z.shiftr b (7 - Z.of_nat k)) 1 =? 1)).

Lemma put_bit_spec b k v : is_byte b -> (k < 8)%nat ->
  is_byte (put_bit b (7 - Z.of_nat k) v) /\
  byte_bits (put_bit b (7 - Z.of_nat k) v) = take k (byte_bits b) ++ v :: drop (S k) (byte_bits b) /\
  exists x, byte_bits b !! k = Some x /\ Z.land (Z.shiftr b (7 - Z.of_nat k)) 1 = Z.b2z x.
Proof.
  intros Hb Hk. assert (forallb (fun k => put_test b k true && put_test b k false) (seq 0 8) = true) as H.
  { apply (forall_byte (fun b => forallb (fun k => put_test b k true && put_test b k false) (seq 0 8)));
      [vm_compute; reflexivity|done]. }
  rewrite forallb_forall in H. specialize (H k ltac:(apply in_seq; lia)).
  assert (put_test b k v = true) as Ht by (destruct v; bool_to_prop; done).
  unfold put_test, byteb in Ht. unfold is_byte. bool_to_prop.
  repeat match goal with E : bool_decide _ = true |- _ => apply bool_decide_eq_true_1 in E end.
  split_and!; [done|done|done|]. eexists. split; [done|]. done.
Qed.

Lemma offset_byte off (p1 : list byte) (b1 : list bool) :
  off = Z.of_nat (8 * length p1 + length b1) -> (length b1 < 8)%nat ->
  Z.to_nat (Z.shiftr off 3) = length p1 /\ 7 - Z.land off 7 = 7 - Z.of_nat (length b1).
Proof.
  intros -> Hb. rewrite Z.shiftr_div_pow2 by lia. change 7 with (Z.ones 3) at 2. rewrite Z.land_ones by lia.
  change (2 ^ 3) with 8. split; dlia.
Qed.

Lemma byte_bits_short b b1 i b2 : byte_bits b = b1 ++ i :: b2 -> (length b1 < 8)%nat.
Proof. intros E%(f_equal length). rewrite length_app in E. cbn [length byte_bits] in E. lia. Qed.

Lemma set_bits_spec n : forall p A C B off v,
  bits_of p = A ++ C ++ B -> off = Z.of_nat (length A) -> length C = n -> Forall is_byte p ->
  8 * zlen p < 2 ^ 64 ->
  exists p', set_bits n p off v = Some p' /\ bits_of p' = A ++ field_bits n v ++ B /\ Forall is_byte p'.
Proof.
  induction n as [|n IH]; intros p A C B off v Ep Ho Hc Hb Hl; [by destruct C; [exists p|]|].
  destruct C as [|x C]; [done|]. cbn [app] in Ep.
  destruct (bits_of_byte _ _ _ _ Ep) as (p1 & b & p2 & b1 & b2 & -> & Eb & -> & EB & El).
  pose proof (byte_bits_short _ _ _ _ Eb) as Hs. rewrite El in Ho.
  destruct (offset_byte _ _ _ Ho Hs) as [Hi Hk]. cbn [set_bits]. rewrite Hi, Hk.
  rewrite lookup_app_r, Nat.sub_diag by lia. cbn [lookup list_lookup mbind option_bind].
  set (w := Z.testbit v (Z.of_nat n)).
  assert ((if Z.land v (Z.shiftl 1 (Z.of_nat n)) =? 0 then 0 else 1) = Z.b2z w) as ->.
  { rewrite Z.shiftl_1_l, Z.land_comm. pose proof (land_pow2 (Z.of_nat n) v ltac:(lia)) as E. fold w in E.
    rewrite <- E. by destruct (_ =? 0). }
  apply Forall_app in Hb as [Hb1 Hb2]. apply Forall_cons_1 in Hb2 as [Hb Hb2].
  destruct (put_bit_spec b (length b1) w Hb Hs) as (Hn & Hbits & _).
  rewrite insert_app_r_alt, Nat.sub_diag by lia. cbn [insert list_insert].
  fold (put_bit b (7 - Z.of_nat (length b1)) w). set (b' := put_bit _ _ _) in *.
  assert (byte_bits b' = b1 ++ w :: b2) as Hb'.
  { rewrite Hbits, Eb, take_app_length, drop_app_ge by lia. by replace (S (length b1) - length b1)%nat with 1%nat by lia. }
  destruct (IH (p1 ++ b' :: p2) ((bits_of p1 ++ b1) ++ [w]) C B (u64 (off + 1)) v) as (p' & E' & Hp' & Hbp).
  - rewrite bits_of_app, bits_of_cons, Hb', <- !app_assoc. cbn [app]. by rewrite EB.
  - rewrite length_app, El. cbn [length]. rewrite u64_small; [lia|].
    unfold zlen in Hl. rewrite length_app in Hl. cbn [length] in Hl. lia.
  - cbn in Hc. lia.
  - apply Forall_app. split; [done|]. by apply Forall_cons_2.
  - unfold zlen in *. rewrite length_app in *. done.
  - exists p'. split_and!; [done| |done]. rewrite Hp'. cbn [field_bits app]. by rewrite <- app_assoc.
Qed.

Lemma bits_value_range l v n : 0 <= v < 2 ^ n -> 0 <= n -> 0 <= bits_value v l < 2 ^ (n + zlen l).
Proof.
  revert v n; induction l as [|b l IH]; intros v n Hv Hn; cbn [bits_value foldl].
  - change (zlen (@nil bool)) with 0. by rewrite Z.add_0_r.
  - rewrite zlen_cons, Z.add_assoc. apply IH; [|lia]. rewrite Z.pow_add_r by lia. destruct b; cbn [Z.b2z]; lia.
Qed.

Lemma lor_bit v b : Z.lor (2 * v) (Z.b2z b) = 2 * v + Z.b2z b.
Proof.
  assert (Z.land (2 * v) (Z.b2z b) = 0) as H0.
  { destruct b; [|apply Z.land_0_r]. change (Z.b2z true) with (Z.ones 1). rewrite Z.land_ones by lia.
    change (2 ^ 1) with 2. by rewrite Z.mul_comm, Z.mod_mul. }
  by rewrite <- Z.lxor_lor, Z.add_nocarry_lxor by done.
Qed.

Lemma get_bits_spec n : forall p A C B off v,
  bits_of p = A ++ C ++ B -> off = Z.of_nat (length A) -> length C = n -> Forall is_byte p ->
  8 * zlen p < 2 ^ 64 -> (n <= 64)%nat -> 0 <= v < 2 ^ (64 - Z.of_nat n) ->
  get_bits n p off v = Some (bits_value v C).
Proof.
  induction n as [|n IH]; intros p A C B off v Ep Ho Hc Hb Hl Hn Hv; [by destruct C|].
  destruct C as [|x C]; [done|]. cbn [app] in Ep.
  destruct (bits_of_byte _ _ _ _ Ep) as (p1 & b & p2 & b1 & b2 & -> & Eb & -> & EB & El).
  pose proof (byte_bits_short _ _ _ _ Eb) as Hs. rewrite El in Ho.
  destruct (offset_byte _ _ _ Ho Hs) as [Hi Hk]. cbn [get_bits]. rewrite Hi, Hk.
  rewrite lookup_app_r, Nat.sub_diag by lia. cbn [lookup list_lookup mbind option_bind].
  pose proof Hb as [_ Hb2]%Forall_app. apply Forall_cons_1 in Hb2 as [Hb2 _].
  destruct (put_bit_spec b (length b1) true Hb2 Hs) as (_ & _ & y & Hy & ->).
  rewrite Eb, list_lookup_middle in Hy by done. injection Hy as <-.
  replace (64 - Z.of_nat (S n)) with (63 - Z.of_nat n) in Hv by lia.
  replace (64 - Z.of_nat n) with (Z.succ (63 - Z.of_nat n)) in IH by lia. rewrite Z.pow_succ_r in IH by lia.
  assert (2 ^ (63 - Z.of_nat n) <= 2 ^ 63) as Hp by (apply Z.pow_le_mono_r; lia).
  rewrite Z.shiftl_mul_pow2 by lia. change (2 ^ 1) with 2. rewrite (u64_small (v * 2)), (Z.mul_comm v), lor_bit by lia.
  cbn [bits_value foldl]. apply (IH (p1 ++ b :: p2) ((bits_of p1 ++ b1) ++ [x]) C B); try done; try lia.
  - by rewrite Ep, <- (app_assoc _ [x]).
  - rewrite length_app, El. cbn [length]. rewrite u64_small; [lia|].
    unfold zlen in Hl. rewrite length_app in Hl. cbn [length] in Hl. lia.
  - cbn in Hc. lia.
  - destruct x; cbn [Z.b2z]; lia.
Qed.

Lemma field_bits_value n v : bits_value 0 (field_bits n v) = v mod 2 ^ Z.of_nat n.
Proof.
  induction n as [|n IH] in v |- *; [by rewrite Z.mod_1_r|].
  assert (field_bits (S n) v = field_bits n (v / 2) ++ [Z.testbit v 0]) as ->.
  { pose proof (Z.mod_pos_bound v 2 ltac:(lia)). rewrite (Z.div_mod v 2) at 1 by lia.
    replace (2 * (v / 2) + v mod 2) with (v / 2 * 2 ^ Z.of_nat 1 + v mod 2) by (cbn; lia).
    rewrite <- Nat.add_1_r, field_bits_split by (cbn; lia). cbn [field_bits]. do 2 f_equal.
    change 2 with (2 ^ 1). by rewrite Z.mod_pow2_bits_low by lia. }
  unfold bits_value in *. rewrite foldl_app, IH. cbn [foldl]. rewrite Nat2Z.inj_succ, Z.pow_succ_r by lia.
  rewrite Z.rem_mul_r, Z.bit0_mod by lia. lia.
Qed.

Lemma field_bits_mod n v : field_bits n (v mod 2 ^ Z.of_nat n) = field_bits n v.
Proof. apply field_bits_ext. intros i Hi. apply Z.mod_pow2_bits_low. lia. Qed.

(** The unsigned value of the [n] bits at [off]. *)
Definition field (l : list bool) (off n : Z) : Z :=
  bits_value 0 (take (Z.to_nat n) (drop (Z.to_nat off) l)).

(** The bits with [n] of them at [off] replaced by the low bits of [v]. *)
Definition put_field (l : list bool) (off n v : Z) : list bool :=
  take (Z.to_nat off) l ++ field_bits (Z.to_nat n) v ++ drop (Z.to_nat (off + n)) l.

Lemma field_split (l : list bool) off n : 0 <= off -> 0 <= n -> off + n <= zlen l ->
  l = take (Z.to_nat off) l ++ take (Z.to_nat n) (drop (Z.to_nat off) l) ++ drop (Z.to_nat (off + n)) l /\
  Z.of_nat (length (take (Z.to_nat off) l)) = off /\
  length (take (Z.to_nat n) (drop (Z.to_nat off) l)) = Z.to_nat n.
Proof.
  intros Ho Hn Hl. unfold zlen in Hl. rewrite !length_take, length_drop. split_and!; [|lia|lia].
  rewrite Z2Nat.inj_add, <- drop_drop by lia. by rewrite !take_drop.
Qed.

Lemma setUnsignedBitfield_spec p off bits v :
  Forall is_byte p -> 0 <= off -> 0 <= bits -> off + bits <= 8 * zlen p -> 8 * zlen p < 2 ^ 64 ->
  exists p', setUnsignedBitfield p off bits v = Some p' /\ Forall is_byte p' /\ length p' = length p /\
    bits_of p' = put_field (bits_of p) off bits v.
Proof.
  intros Hb Ho Hn Hl H64. assert (zlen (bits_of p) = 8 * zlen p) as Hz by (unfold zlen; rewrite bits_of_length; lia).
  destruct (field_split (bits_of p) off bits Ho Hn ltac:(lia)) as (E & E1 & E2).
  destruct (set_bits_spec (Z.to_nat bits) p _ _ _ off v E (eq_sym E1) E2 Hb H64) as (p' & Hs & Hp & Hb').
  exists p'. split_and!; [done|done| |done].
  apply (f_equal length) in Hp. rewrite !length_app, field_bits_length, bits_of_length in Hp.
  apply (f_equal length) in E. rewrite !length_app, bits_of_length in E. lia.
Qed.

Lemma getUnsignedBitfield_spec p off bits :
  Forall is_byte p -> 0 <= off -> 0 <= bits <= 64 -> off + bits <= 8 * zlen p -> 8 * zlen p < 2 ^ 64 ->
  getUnsignedBitfield p off bits = Some (field (bits_of p) off bits).
Proof.
  intros Hb Ho Hn Hl H64. assert (zlen (bits_of p) = 8 * zlen p) as Hz by (unfold zlen; rewrite bits_of_length; lia).
  destruct (field_split (bits_of p) off bits Ho ltac:(lia) ltac:(lia)) as (E & E1 & E2).
  eapply (get_bits_spec (Z.to_nat bits)); try done; try lia.
Qed.

Lemma field_put l off n v : 0 <= off -> 0 <= n -> off + n <= zlen l ->
  field (put_field l off n v) off n = wrap n v.
Proof.
  intros Ho Hn Hl. destruct (field_split l off n Ho Hn Hl) as (E & E1 & E2). unfold field, put_field.
  assert (length (take (Z.to_nat off) l) = Z.to_nat off) as E3 by lia.
  rewrite <- E3 at 1. rewrite drop_app_length.
  rewrite <- (field_bits_length (Z.to_nat n) v) at 1. rewrite take_app_length, field_bits_value.
  unfold wrap. by rewrite Z2Nat.id by lia.
Qed.

(** ** Signs and overflow *)

Lemma high_mask b : 0 <= b <= 64 -> u64 (Z.shiftl ULLONG_MAX b) = 2 ^ 64 - 2 ^ b.
Proof.
  intros Hb. rewrite Z.shiftl_mul_pow2 by lia. unfold ULLONG_MAX.
  assert (2 ^ b <= 2 ^ 64) as Hle by (apply Z.pow_le_mono_r; lia).
  rewrite (wrap_congr 64 _ (2 ^ 64 - 2 ^ b)); [|lia|exists (2 ^ b - 1); ring].
  apply u64_small. pose proof (Z.pow_pos_nonneg 2 b). lia.
Qed.

Lemma low_mask b : 0 <= b <= 64 -> u64 (Z.lnot (2 ^ 64 - 2 ^ b)) = Z.ones b.
Proof.
  intros Hb. unfold Z.lnot. rewrite Z.ones_equiv.
  assert (2 ^ b <= 2 ^ 64) as Hle by (apply Z.pow_le_mono_r; lia).
  rewrite (wrap_congr 64 _ (2 ^ b - 1)); [|lia|exists (-1); lia].
  rewrite u64_small; [lia|]. pose proof (Z.pow_pos_nonneg 2 b). lia.
Qed.

Lemma lor_high b c : 0 <= b <= 64 -> 0 <= c < 2 ^ 64 -> Z.lor c (2 ^ 64 - 2 ^ b) = c mod 2 ^ b + (2 ^ 64 - 2 ^ b).
Proof.
  intros Hb Hc. assert (2 ^ 64 = 2 ^ (64 - b) * 2 ^ b) as E by (rewrite <- Z.pow_add_r by lia; f_equal; lia).
  pose proof (Z.mod_pos_bound c (2 ^ b) ltac:(lia)) as Hm.
  assert (0 <= c / 2 ^ b < 2 ^ (64 - b)) as Hq.
  { split; [apply Z.div_pos; lia|]. apply Z.div_lt_upper_bound; lia. }
  pose proof (Z.div_mod c (2 ^ b) ltac:(lia)) as Hd. rewrite Z.mul_comm in Hd.
  replace (2 ^ 64 - 2 ^ b) with ((2 ^ (64 - b) - 1) * 2 ^ b + 0) by (rewrite E; ring).
  replace (c mod 2 ^ b + ((2 ^ (64 - b) - 1) * 2 ^ b + 0)) with ((2 ^ (64 - b) - 1) * 2 ^ b + c mod 2 ^ b) by ring.
  rewrite Hd at 1. apply Z.bits_inj'. intros i Hi. rewrite Z.lor_spec, !testbit_split by lia. case_if.
  - by rewrite Z.bits_0, orb_false_r.
  - rewrite testbit_ones by lia. destruct (Z.ltb_spec (i - b) (64 - b)); [by rewrite orb_true_r|].
    rewrite <- (Z.mod_small (c / 2 ^ b) (2 ^ (64 - b))) by lia. by rewrite Z.mod_pow2_bits_high by lia.
Qed.

Lemma i64_u64 z : i64 (u64 z) = i64 z.
Proof. by apply swrap_wrap. Qed.

Lemma swrap_cases b u : 0 < b -> 0 <= u < 2 ^ b -> swrap b u = if u <? 2 ^ (b - 1) then u else u - 2 ^ b.
Proof.
  intros Hb Hu. pose proof (pow2_half b Hb) as Hh. case_if; [apply swrap_small; lia|].
  rewrite (swrap_congr b u (u - 2 ^ b)); [|lia|exists 1; lia]. apply swrap_small; lia.
Qed.

Lemma top_bit b c : 0 < b -> 0 <= c ->
  negb (Z.land c (Z.shiftl 1 (b - 1)) =? 0) = negb (c mod 2 ^ b <? 2 ^ (b - 1)).
Proof.
  intros Hb Hc. rewrite Z.shiftl_1_l, Z.land_comm, land_pow2 by lia.
  rewrite <- (Z.mod_pow2_bits_low c b (b - 1)) by lia. set (m := c mod 2 ^ b).
  assert (0 <= m < 2 ^ b) as Hm by (apply Z.mod_pos_bound; lia). pose proof (pow2_half b Hb) as Hh.
  replace m with ((m / 2 ^ (b - 1)) * 2 ^ (b - 1) + m mod 2 ^ (b - 1)) at 1
    by (pose proof (Z.div_mod m (2 ^ (b - 1)) ltac:(lia)); lia).
  rewrite testbit_split by (try apply Z.mod_pos_bound; lia). rewrite (proj2 (Z.ltb_ge _ _)), Z.sub_diag by lia.
  destruct (Z.ltb_spec m (2 ^ (b - 1))); cbn [negb].
  - by rewrite Z.div_small by lia.
  - replace (m / 2 ^ (b - 1)) with 1; [done|]. apply Z.div_unique with (m - 2 ^ (b - 1)); lia.
Qed.

(** Extending the sign of the low [b] bits of [c]. *)
Lemma sign_extend b c : 0 < b < 64 -> 0 <= c < 2 ^ 64 ->
  (if negb (Z.land c (Z.shiftl 1 (b - 1)) =? 0) then i64 (Z.lor c (2 ^ 64 - 2 ^ b)) else i64 (c mod 2 ^ b)) = swrap b c.
Proof.
  intros Hb Hc. rewrite top_bit, lor_high by lia.
  pose proof (Z.mod_pos_bound c (2 ^ b) ltac:(lia)) as Hm. pose proof (pow2_half b ltac:(lia)) as Hh.
  assert (2 ^ b <= 2 ^ 63) as Hle by (apply Z.pow_le_mono_r; lia).
  rewrite <- (swrap_wrap b c) by lia. unfold wrap. rewrite (swrap_cases b) by lia.
  destruct (Z.ltb_spec (c mod 2 ^ b) (2 ^ (b - 1))); cbn [negb].
  - apply i64_small. lia.
  - rewrite (swrap_congr 64 _ (c mod 2 ^ b - 2 ^ b)); [|lia|exists 1; lia]. apply i64_small. lia.
Qed.

Lemma getSignedBitfield_spec p off bits :
  Forall is_byte p -> 0 <= off -> 0 < bits <= 64 -> off + bits <= 8 * zlen p -> 8 * zlen p < 2 ^ 64 ->
  getSignedBitfield p off bits = Some (swrap bits (field (bits_of p) off bits)).
Proof.
  intros Hb Ho Hn Hl H64. unfold getSignedBitfield. rewrite getUnsignedBitfield_spec by (done || lia).
  cbn [mbind option_bind]. f_equal. set (u := field _ _ _).
  assert (0 <= u < 2 ^ bits) as Hu.
  { assert (zlen (bits_of p) = 8 * zlen p) as Hz by (unfold zlen; rewrite bits_of_length; lia).
    destruct (field_split (bits_of p) off bits Ho ltac:(lia) ltac:(lia)) as (_ & _ & E2).
    pose proof (bits_value_range (take (Z.to_nat bits) (drop (Z.to_nat off) (bits_of p))) 0 0 ltac:(lia) ltac:(lia)) as Hr.
    unfold zlen in Hr. rewrite E2 in Hr. replace (0 + Z.of_nat (Z.to_nat bits)) with bits in Hr by lia. done. }
  assert (2 ^ bits <= 2 ^ 64) as Hle by (apply Z.pow_le_mono_r; lia).
  rewrite wrap_swrap by lia. destruct (Z.ltb_spec bits 64); cbn [andb].
  - rewrite high_mask, u64_small by lia. rewrite <- (sign_extend bits u) by lia. rewrite (Z.mod_small u) by lia. done.
  - by replace bits with 64 by lia.
Qed.

(** The rule of an overflow type: the result [t] does not fit between [lo] and
    [hi]; [wrapped] is [t] reduced to the width. *)
Definition overflow_rule (owtype : bfoverflow) (lo hi wrapped t : Z) : Z * option Z :=
  if hi <? t then
    match owtype with
    | BFOVERFLOW_WRAP => (1, Some wrapped)
    | BFOVERFLOW_SAT => (1, Some hi)
    | BFOVERFLOW_FAIL => (1, None)
    end
  else if t <? lo then
    match owtype with
    | BFOVERFLOW_WRAP => (1, Some wrapped)
    | BFOVERFLOW_SAT => (-1, Some lo)
    | BFOVERFLOW_FAIL => (-1, None)
    end
  else (0, None).

Lemma checkUnsigned_spec value incr bits owtype :
  1 <= bits <= 63 -> 0 <= value < 2 ^ 64 -> LLONG_MIN <= incr <= LLONG_MAX ->
  (value < 2 ^ bits \/ incr = 0) ->
  checkUnsignedBitfieldOverflow value incr bits owtype =
    overflow_rule owtype 0 (2 ^ bits - 1) (wrap bits (value + incr)) (value + incr).
Proof.
  unfold LLONG_MIN, LLONG_MAX. intros Hb Hv Hi Hc. unfold checkUnsignedBitfieldOverflow, overflow_rule.
  pose proof (pow2_half bits ltac:(lia)) as Hh.
  assert (2 ^ bits <= 2 ^ 63) as Hle by (apply Z.pow_le_mono_r; lia).
  assert (0 < 2 ^ bits) as Hpos by lia.
  rewrite (proj2 (Z.eqb_neq bits 64)), Z.shiftl_1_l by lia. rewrite (u64_small (2 ^ bits - 1)) by lia.
  rewrite high_mask, low_mask, Z.land_ones, !i64_u64 by lia.
  assert (u64 (value + u64 incr) mod 2 ^ bits = wrap bits (value + incr)) as ->.
  { rewrite Z.add_comm, wrap_add_l by lia. unfold wrap. rewrite Z.add_comm.
    replace 64 with (bits + (64 - bits)) by lia. rewrite Z.pow_add_r by lia.
    rewrite Z.rem_mul_r by lia. rewrite Z.mul_comm, Z.mod_add, Z.mod_mod by lia. done. }
  destruct (Z.ltb_spec (2 ^ bits - 1) value) as [Hbig|Hsmall]; cbn [orb].
  - destruct Hc as [Hc| ->]; [lia|]. rewrite Z.add_0_r. by rewrite (proj2 (Z.ltb_lt _ _)) by lia.
  - rewrite (i64_small (2 ^ bits - 1 - value)), (i64_small (- value)) by lia.
    destruct (Z.ltb_spec (2 ^ bits - 1) (value + incr)), (Z.ltb_spec (2 ^ bits - 1 - value) incr),
      (Z.ltb_spec 0 incr); cbn [andb]; try lia; try done;
    destruct (Z.ltb_spec (value + incr) 0), (Z.ltb_spec incr (- value)), (Z.ltb_spec incr 0); cbn [andb]; lia || done.
Qed.

(** The wrapped value of the signed check. *)
Lemma signed_wrapped value incr bits :
  1 <= bits <= 64 ->
  let c := u64 (u64 value + u64 incr) in
  i64 (if bits <? 64 then
       if negb (Z.land c (Z.shiftl 1 (bits - 1)) =? 0) then Z.lor c (u64 (Z.shiftl ULLONG_MAX bits))
       else Z.land c (u64 (Z.lnot (u64 (Z.shiftl ULLONG_MAX bits)))) else c) = swrap bits (value + incr).
Proof.
  intros Hb c. rewrite high_mask by lia. assert (0 <= c < 2 ^ 64) as Hc64 by (apply wrap_range; lia).
  assert (exists k, c = value + incr + k * 2 ^ 64) as [k Hk].
  { unfold c. destruct (wrap_eq 64 value) as [k1 ->]; [lia|]. destruct (wrap_eq 64 incr) as [k2 ->]; [lia|].
    destruct (wrap_eq 64 (value + k1 * 2 ^ 64 + (incr + k2 * 2 ^ 64))) as [k3 ->]; [lia|]. exists (k1 + k2 + k3). lia. }
  destruct (Z.ltb_spec bits 64) as [Hlt|Hge].
  - rewrite low_mask, Z.land_ones by lia. transitivity (swrap bits c).
    + rewrite <- (sign_extend bits c) by lia. by destruct (negb _).
    + apply swrap_congr; [lia|]. exists (k * 2 ^ (64 - bits)). rewrite Hk. rewrite <- Z.mul_assoc, <- Z.pow_add_r by lia.
      by replace (64 - bits + bits) with 64 by lia.
  - replace bits with 64 by lia. apply swrap_congr; [lia|]. by exists k.
Qed.

(** The same for signed fields, where [max - value] does not overflow. *)
Lemma checkSigned_spec value incr bits owtype :
  1 <= bits <= 64 -> LLONG_MIN <= value <= LLONG_MAX -> LLONG_MIN <= incr <= LLONG_MAX ->
  (- 2 ^ (bits - 1) <= value < 2 ^ (bits - 1) \/ incr = 0 /\ 2 ^ (bits - 1) - 2 ^ 63 <= value) ->
  checkSignedBitfieldOverflow value incr bits owtype =
    overflow_rule owtype (- 2 ^ (bits - 1)) (2 ^ (bits - 1) - 1) (swrap bits (value + incr)) (value + incr).
Proof.
  unfold LLONG_MIN, LLONG_MAX. intros Hb Hv Hi Hc. unfold checkSignedBitfieldOverflow, overflow_rule.
  assert (2 ^ (bits - 1) <= 2 ^ 63) as Hle by (apply Z.pow_le_mono_r; lia).
  assert (0 < 2 ^ (bits - 1)) as Hpos by lia. rewrite signed_wrapped by lia.
  assert ((if bits =? 64 then LLONG_MAX else Z.shiftl 1 (bits - 1) - 1) = 2 ^ (bits - 1) - 1) as ->.
  { rewrite Z.shiftl_1_l. destruct (Z.eqb_spec bits 64) as [->|]; done. }
  replace (- (2 ^ (bits - 1) - 1) - 1) with (- 2 ^ (bits - 1)) by lia.
  set (M := 2 ^ (bits - 1)) in *. destruct (Z.eqb_spec bits 64) as [->|Hne]; cbn [negb andb orb].
  - change M with (2 ^ 63). rewrite (proj2 (Z.ltb_ge _ _)) by lia. cbn [orb].
    assert (0 <= value -> i64 (2 ^ 63 - 1 - value) = 2 ^ 63 - 1 - value) as H1 by (intros; apply i64_small; lia).
    assert (value < 0 -> i64 (- 2 ^ 63 - value) = - 2 ^ 63 - value) as H2 by (intros; apply i64_small; lia).
    rewrite (proj2 (Z.ltb_ge value (- 2 ^ 63))) by lia. cbn [orb].
    destruct (Z.leb_spec 0 value) as [Hp|Hn]; cbn [andb].
    + rewrite H1 by done. rewrite (proj2 (Z.ltb_ge value 0)) by lia. cbn [andb].
      rewrite (proj2 (Z.ltb_ge (value + incr) _)) by lia.
      destruct (Z.ltb_spec 0 incr), (Z.ltb_spec (2 ^ 63 - 1 - value) incr), (Z.ltb_spec (2 ^ 63 - 1) (value + incr));
        cbn [andb]; done || lia.
    + rewrite H2 by done. rewrite (proj2 (Z.ltb_lt value 0)) by lia. cbn [andb].
      rewrite (proj2 (Z.ltb_ge _ (value + incr))) by lia.
      destruct (Z.ltb_spec incr 0), (Z.ltb_spec incr (- 2 ^ 63 - value)), (Z.ltb_spec (value + incr) (- 2 ^ 63));
        cbn [andb]; done || lia.
  - assert (2 * M <= 2 ^ 63) as HM by (unfold M; rewrite <- pow2_half by lia; apply Z.pow_le_mono_r; lia).
    rewrite (i64_small (M - 1 - value)) by lia.
    destruct (Z.ltb_spec (M - 1) value) as [Hbig|Hsmall]; cbn [orb].
    { destruct Hc as [Hc|[-> Hc]]; [lia|]. rewrite Z.add_0_r. by rewrite (proj2 (Z.ltb_lt _ _)) by lia. }
    rewrite (i64_small (- M - value)) by lia.
    destruct (Z.ltb_spec (M - 1 - value) incr), (Z.ltb_spec (M - 1) (value + incr)); cbn [orb]; try lia; try done.
    rewrite andb_false_r.
    destruct (Z.ltb_spec value (- M)), (Z.ltb_spec incr (- M - value)), (Z.ltb_spec (value + incr) (- M));
      rewrite ?andb_false_r; cbn [orb]; done || lia.
Qed.

(** Where [max - value] overflows, a value below the range counts as one above
    it. *)
Lemma checkSigned_wraps value bits owtype :
  1 <= bits < 64 -> LLONG_MIN <= value < 2 ^ (bits - 1) - 2 ^ 63 ->
  checkSignedBitfieldOverflow value 0 bits owtype =
    match owtype with
    | BFOVERFLOW_WRAP => (1, Some (swrap bits value))
    | BFOVERFLOW_SAT => (1, Some (2 ^ (bits - 1) - 1))
    | BFOVERFLOW_FAIL => (1, None)
    end.
Proof.
  unfold LLONG_MIN. intros Hb Hv. unfold checkSignedBitfieldOverflow. rewrite signed_wrapped, Z.add_0_r by lia.
  rewrite (proj2 (Z.eqb_neq bits 64)), Z.shiftl_1_l by lia.
  assert (2 * 2 ^ (bits - 1) <= 2 ^ 63) as HM by (rewrite <- pow2_half by lia; apply Z.pow_le_mono_r; lia).
  set (M := 2 ^ (bits - 1)) in *. assert (0 < M) by (unfold M; lia).
  rewrite (swrap_congr 64 (M - 1 - value) (M - 1 - value - 2 ^ 64)); [|lia|exists 1; lia].
  rewrite (i64_small (M - 1 - value - 2 ^ 64)) by lia.
  rewrite (proj2 (Z.ltb_lt (M - 1 - value - 2 ^ 64) 0)) by lia. cbn [negb andb orb]. by rewrite orb_true_r.
Qed.
