(* ===== verification/BitfieldProps.v ===== *)
(** * BITFIELD on sequences of bits

    The operations of a BITFIELD command, on the text of the value, are reads
    and updates of numbers in a sequence of bits that continues with zeros. *)

From stdpp Require Import base list option gmap.
From Stdlib Require Import ZArith Lia Bool.
From S2P Require Import Prelude Endian Util UtilFacts Cmd Bitops BitopsFacts.

Local Open Scope Z_scope.

(** ** What the operations mean *)

Definition lowest (sign : bool) (bits : Z) : Z := if sign then - 2 ^ (bits - 1) else 0.
Definition highest (sign : bool) (bits : Z) : Z := if sign then 2 ^ (bits - 1) - 1 else 2 ^ bits - 1.
Definition reduced (sign : bool) (bits t : Z) : Z := if sign then swrap bits t else wrap bits t.

(** The value of the field at [off], bits past the end being zero. *)
Definition field_value (sign : bool) (l : list bool) (off bits : Z) : Z :=
  reduced sign bits (bits_value 0 (take (Z.to_nat bits) (drop (Z.to_nat off) l ++ replicate (Z.to_nat bits) false))).

(** Where a SET saturates at the other end: for a negative number in an unsigned
    field, which is read as a large one, and for one so small that the subtraction
    in [checkSignedBitfieldOverflow] wraps around. *)
Definition wrong_end (o : bitfieldOp) (t : Z) : bool :=
  match bf_opcode o with
  | BITFIELDOP_SET => if bf_sign o then (bf_bits o <? 64) && (t <? 2 ^ (bf_bits o - 1) - 2 ^ 63) else t <? 0
  | _ => false
  end.

(** What is stored for the mathematical result [t]; [None] for FAIL. *)
Definition stored (o : bitfieldOp) (t : Z) : option Z :=
  let lo := lowest (bf_sign o) (bf_bits o) in
  let hi := highest (bf_sign o) (bf_bits o) in
  if (lo <=? t) && (t <=? hi) then Some t
  else match bf_owtype o with
       | BFOVERFLOW_WRAP => Some (reduced (bf_sign o) (bf_bits o) t)
       | BFOVERFLOW_SAT => Some (if (t <? lo) && negb (wrong_end o t) then lo else hi)
       | BFOVERFLOW_FAIL => None
       end.

Definition bitfield_spec (l : list bool) (o : bitfieldOp) : list bool * reply :=
  let old := field_value (bf_sign o) l (bf_offset o) (bf_bits o) in
  match bf_opcode o with
  | BITFIELDOP_GET => (l, RInt old)
  | BITFIELDOP_SET =>
      match stored o (bf_i64 o) with
      | Some v => (put_field l (bf_offset o) (bf_bits o) v, RInt old)
      | None => (l, RNull)
      end
  | BITFIELDOP_INCRBY =>
      match stored o (old + bf_i64 o) with
      | Some v => (put_field l (bf_offset o) (bf_bits o) v, RInt v)
      | None => (l, RNull)
      end
  end.

Fixpoint bitfield_specs (l : list bool) (ops : list bitfieldOp) : list bool * list reply :=
  match ops with
  | [] => (l, [])
  | o :: ops' =>
      let '(l, r) := bitfield_spec l o in
      let '(l, rs) := bitfield_specs l ops' in
      (l, r :: rs)
  end.

Definition is_write (o : bitfieldOp) : bool :=
  match bf_opcode o with BITFIELDOP_GET => false | _ => true end.

(** What the parser guarantees of an operation on a string of [n] bytes. *)
Record op_ok (n : Z) (o : bitfieldOp) : Prop := {
  ok_bits : 1 <= bf_bits o <= if bf_sign o then 64 else 63;
  ok_offset : 0 <= bf_offset o < 2 ^ 63;
  ok_i64 : LLONG_MIN <= bf_i64 o <= LLONG_MAX;
  ok_room : is_write o = true -> bf_offset o + bf_bits o <= 8 * n;
}.

(** ** Reads *)

Lemma pad_lookup (l : list bool) m j : (j < m)%nat -> (l ++ replicate m false) !! j = Some (default false (l !! j)).
Proof.
  intros Hj. destruct (Nat.lt_ge_cases j (length l)) as [Hlt|Hge].
  - rewrite lookup_app_l by done. by destruct (lookup_lt_is_Some_2 l j Hlt) as [x ->].
  - rewrite lookup_app_r, (lookup_ge_None_2 l) by done. by rewrite lookup_replicate_2 by lia.
Qed.

Lemma pad_take (l : list bool) off n m :
  (off + n <= m)%nat ->
  take n (drop off (take m (take m l ++ replicate m false))) = take n (drop off l ++ replicate n false).
Proof.
  intros Hm. apply list_eq. intros i. destruct (Nat.lt_ge_cases i n) as [Hi|Hi].
  - rewrite !lookup_take_lt, lookup_drop, lookup_take_lt, !pad_lookup by lia.
    by rewrite lookup_take_lt, lookup_drop by lia.
  - by rewrite !lookup_take_ge by lia.
Qed.

Lemma reduced_wrap sign bits t : 1 <= bits -> reduced sign bits (wrap bits t) = reduced sign bits t.
Proof. intros. destruct sign; cbn; [by rewrite swrap_wrap by lia|by rewrite wrap_wrap by lia]. Qed.

Lemma bits_value_wrap l n : length l = Z.to_nat n -> 0 <= n -> bits_value 0 l = wrap n (bits_value 0 l).
Proof.
  intros Hl Hn. symmetry. apply wrap_small.
  pose proof (bits_value_range l 0 0 ltac:(lia) ltac:(lia)) as Hr. unfold zlen in Hr. rewrite Hl in Hr.
  by replace (0 + Z.of_nat (Z.to_nat n)) with n in Hr by lia.
Qed.

Lemma bitfield_read_spec s o n : op_ok n o -> Forall is_byte s ->
  bitfield_read s o = Some (RInt (field_value (bf_sign o) (bits_of s) (bf_offset o) (bf_bits o))).
Proof.
  intros [Hbits Hoff _ _] Hs. unfold bitfield_read. rewrite !Z.shiftr_div_pow2 by lia. change (2 ^ 3) with 8.
  set (byte := bf_offset o / 8). set (off := bf_offset o - byte * 8).
  assert (0 <= byte /\ 0 <= off < 8) as [Hby Ho] by (unfold off, byte; dlia).
  set (buf := take 9 _). assert (length buf = 9%nat) as Hl.
  { unfold buf. rewrite length_take, length_app, length_replicate. lia. }
  assert (Forall is_byte buf) as Hb.
  { apply Forall_take, Forall_app. split; [by apply Forall_take, Forall_drop|].
    apply Forall_replicate. unfold is_byte. lia. }
  assert (bf_bits o <= 64) as Hb64 by (destruct (bf_sign o); lia).
  assert (field (bits_of buf) off (bf_bits o) =
    bits_value 0 (take (Z.to_nat (bf_bits o)) (drop (Z.to_nat (bf_offset o)) (bits_of s) ++
      replicate (Z.to_nat (bf_bits o)) false))) as Hf.
  { unfold field, buf. rewrite bits_of_take, bits_of_app, bits_of_take, bits_of_drop.
    change (bits_of (replicate 9 0)) with (replicate 72 false). change (8 * 9)%nat with 72%nat.
    rewrite pad_take by lia. rewrite drop_drop. do 4 f_equal. unfold off, byte in *. lia. }
  unfold field_value. rewrite <- Hf. destruct (bf_sign o); cbn [reduced].
  - by rewrite getSignedBitfield_spec by (done || (unfold zlen; lia)).
  - rewrite getUnsignedBitfield_spec by (done || (unfold zlen; lia)). cbn [mbind option_bind]. do 2 f_equal.
    rewrite Hf. rewrite <- bits_value_wrap by
      (rewrite ?length_take, ?length_app, ?length_replicate; lia).
    apply i64_small. rewrite (bits_value_wrap _ (bf_bits o)) by
      (rewrite ?length_take, ?length_app, ?length_replicate; lia).
    pose proof (wrap_range (bf_bits o) (bits_value 0 (take (Z.to_nat (bf_bits o))
      (drop (Z.to_nat (bf_offset o)) (bits_of s) ++ replicate (Z.to_nat (bf_bits o)) false))) ltac:(lia)).
    assert (2 ^ bf_bits o <= 2 ^ 63) by (apply Z.pow_le_mono_r; lia). lia.
Qed.

(** ** Writes *)

Lemma field_value_inside sign l off bits :
  0 <= off -> 1 <= bits -> off + bits <= zlen l -> field_value sign l off bits = reduced sign bits (field l off bits).
Proof.
  intros Ho Hb Hl. unfold field_value, field. rewrite take_app_le; [done|].
  rewrite length_drop. unfold zlen in Hl. lia.
Qed.

Lemma put_field_u64 l off bits v : 0 <= bits <= 64 -> put_field l off bits (u64 v) = put_field l off bits v.
Proof.
  intros Hb. unfold put_field. do 2 f_equal. apply field_bits_ext. intros i Hi.
  unfold wrap. apply Z.mod_pow2_bits_low. lia.
Qed.

(** The result of an update in terms of what has to be stored. *)
Definition updates (r : Z * Z * Z) (owtype : bfoverflow) (v : option Z) (retval : Z -> Z) : Prop :=
  let '(newval, ret, overflow) := r in
  match v with
  | Some v => newval = v /\ ret = retval v /\ (overflow = 0 \/ owtype <> BFOVERFLOW_FAIL)
  | None => overflow <> 0 /\ owtype = BFOVERFLOW_FAIL
  end.

Lemma reduced_range sign bits t : 1 <= bits -> lowest sign bits <= reduced sign bits t <= highest sign bits.
Proof.
  intros. destruct sign; cbn [lowest highest reduced].
  - pose proof (swrap_range bits t ltac:(lia)). lia.
  - pose proof (wrap_range bits t ltac:(lia)). lia.
Qed.

(** The overflow rule stores what it should. *)
Lemma overflow_rule_stored o t new ret overflow wrapped :
  overflow_rule (bf_owtype o) (lowest (bf_sign o) (bf_bits o))
    (highest (bf_sign o) (bf_bits o)) (reduced (bf_sign o) (bf_bits o) t) t = (overflow, wrapped) ->
  1 <= bf_bits o -> wrong_end o t = false -> new = t \/ (t < lowest (bf_sign o) (bf_bits o) \/ highest (bf_sign o) (bf_bits o) < t) ->
  let newval := if overflow =? 0 then new else default new wrapped in
  updates (newval, ret newval, overflow) (bf_owtype o) (stored o t) ret.
Proof.
  unfold overflow_rule, stored, updates. intros Er Hb Hwe Hnew.
  set (lo := lowest _ _) in *. set (hi := highest _ _) in *.
  assert (lo <= hi) as Hlh.
  { unfold lo, hi. pose proof (reduced_range (bf_sign o) (bf_bits o) 0 Hb). lia. }
  destruct (Z.ltb_spec hi t) as [H1|H1].
  - rewrite (proj2 (Z.leb_gt t hi)), andb_false_r by lia. rewrite (proj2 (Z.ltb_ge t lo)) by lia.
    destruct (bf_owtype o); simplify_eq; cbn; split_and!; (done || by right).
  - destruct (Z.ltb_spec t lo) as [H2|H2].
    + rewrite (proj2 (Z.leb_gt lo t)) by lia. rewrite Hwe. cbn [andb negb]. destruct (bf_owtype o); simplify_eq; cbn; split_and!; (done || by right).
    + rewrite (proj2 (Z.leb_le lo t)), (proj2 (Z.leb_le t hi)) by lia. simplify_eq. cbn. destruct Hnew; [|lia]. subst. split_and!; auto.
Qed.

Lemma signed_update_spec n o old :
  op_ok n o -> bf_sign o = true -> is_write o = true ->
  lowest true (bf_bits o) <= old <= highest true (bf_bits o) ->
  updates (signed_update o old) (bf_owtype o)
    (stored o (match bf_opcode o with BITFIELDOP_INCRBY => old + bf_i64 o | _ => bf_i64 o end))
    (match bf_opcode o with BITFIELDOP_INCRBY => fun v => v | _ => fun _ => old end).
Proof.
  intros [Hbits _ Hi _] Hsign Hw Hold. unfold signed_update.
  pose proof (overflow_rule_stored o) as Hrule. rewrite Hsign in *. unfold LLONG_MIN, LLONG_MAX in *.
  cbn [lowest highest reduced] in *.
  assert (2 ^ (bf_bits o - 1) <= 2 ^ 63) as Hle by (apply Z.pow_le_mono_r; lia).
  assert (0 < 2 ^ (bf_bits o - 1)) as Hpos by lia.
  destruct (bf_opcode o) eqn:Eo; [by unfold is_write in Hw; rewrite Eo in Hw|..].
  - destruct (decide (bf_bits o < 64 /\ bf_i64 o < 2 ^ (bf_bits o - 1) - 2 ^ 63)) as [[Hb64 Hlt]|Hge].
    + rewrite checkSigned_wraps by (unfold LLONG_MIN; lia).
      assert (2 * 2 ^ (bf_bits o - 1) <= 2 ^ 63) as HM by (rewrite <- pow2_half by lia; apply Z.pow_le_mono_r; lia).
      unfold stored. rewrite Hsign. cbn [lowest highest reduced]. rewrite (proj2 (Z.leb_gt _ _)) by lia. cbn [andb].
      assert (wrong_end o (bf_i64 o) = true) as -> by (unfold wrong_end; rewrite Eo, Hsign; lia). rewrite andb_false_r.
      destruct (bf_owtype o) eqn:Ew; cbn; split_and!; (done || by right).
    + assert (bf_bits o = 64 -> 2 ^ (bf_bits o - 1) = 2 ^ 63) as H64 by (by intros ->).
      rewrite checkSigned_spec by (unfold LLONG_MIN, LLONG_MAX; lia). rewrite Z.add_0_r.
      destruct (overflow_rule _ _ _ _ _) as [ov wr] eqn:Er. apply (Hrule (bf_i64 o) (bf_i64 o) (fun _ => old) ov wr); [done|lia| |by left]. unfold wrong_end. rewrite Eo, Hsign. lia.
  - rewrite checkSigned_spec by (unfold LLONG_MIN, LLONG_MAX; lia).
    destruct (overflow_rule _ _ _ _ _) as [ov wr] eqn:Er. apply (Hrule (old + bf_i64 o) (i64 (old + bf_i64 o)) (fun v => v) ov wr); [done|lia|by unfold wrong_end; rewrite Eo|].
    destruct (Z.lt_ge_cases (old + bf_i64 o) (- 2 ^ (bf_bits o - 1))); [right; by left|].
    destruct (Z.lt_ge_cases (2 ^ (bf_bits o - 1) - 1) (old + bf_i64 o)); [right; by right|left; apply i64_small; lia].
Qed.

Lemma unsigned_update_spec n o old :
  op_ok n o -> bf_sign o = false -> is_write o = true ->
  lowest false (bf_bits o) <= old <= highest false (bf_bits o) ->
  updates (unsigned_update o old) (bf_owtype o)
    (stored o (match bf_opcode o with BITFIELDOP_INCRBY => old + bf_i64 o | _ => bf_i64 o end))
    (match bf_opcode o with BITFIELDOP_INCRBY => fun v => v | _ => fun _ => old end).
Proof.
  intros [Hbits _ Hi _] Hsign Hw Hold. unfold unsigned_update.
  pose proof (overflow_rule_stored o) as Hrule. rewrite Hsign in *. cbn [lowest highest reduced] in *.
  assert (2 ^ bf_bits o <= 2 ^ 63) as Hle by (apply Z.pow_le_mono_r; lia).
  destruct (bf_opcode o) eqn:Eo; [by unfold is_write in Hw; rewrite Eo in Hw|..].
  - rewrite checkUnsigned_spec by (try apply wrap_range; unfold LLONG_MIN, LLONG_MAX; lia). rewrite Z.add_0_r.
    unfold LLONG_MIN, LLONG_MAX in Hi. destruct (Z.lt_ge_cases (bf_i64 o) 0) as [Hneg|Hpos].
    + rewrite (wrap_congr 64 (bf_i64 o) (bf_i64 o + 2 ^ 64)) by (lia || (exists (-1); lia)).
      rewrite (u64_small (bf_i64 o + 2 ^ 64)) by lia.
      assert (wrap (bf_bits o) (bf_i64 o + 2 ^ 64) = wrap (bf_bits o) (bf_i64 o)) as ->.
      { apply wrap_congr; [lia|]. exists (2 ^ (64 - bf_bits o)). rewrite <- Z.pow_add_r by lia.
        by replace (64 - bf_bits o + bf_bits o) with 64 by lia. }
      unfold overflow_rule, stored. rewrite Hsign. cbn [lowest highest reduced].
      rewrite (proj2 (Z.ltb_lt _ _)), (proj2 (Z.leb_gt _ _)) by lia. cbn [andb].
      assert (wrong_end o (bf_i64 o) = true) as -> by (unfold wrong_end; rewrite Eo, Hsign; lia). rewrite andb_false_r.
      destruct (bf_owtype o) eqn:Ew; cbn; split_and!; (done || by right).
    + rewrite (u64_small (bf_i64 o)) by lia. destruct (overflow_rule _ _ _ _ _) as [ov wr] eqn:Er. apply (Hrule (bf_i64 o) (bf_i64 o) (fun _ => old) ov wr); [done|lia| |by left]. unfold wrong_end. rewrite Eo, Hsign. lia.
  - rewrite checkUnsigned_spec by (done || lia). 
    rewrite (Z.add_comm old (u64 _)), wrap_add_l, (Z.add_comm _ old) by lia.
    destruct (overflow_rule _ _ _ _ _) as [ov wr] eqn:Er. apply (Hrule (old + bf_i64 o) (u64 (old + bf_i64 o)) (fun v => v) ov wr); [done|lia|by unfold wrong_end; rewrite Eo|]. unfold LLONG_MIN, LLONG_MAX in Hi.
    destruct (Z.lt_ge_cases (old + bf_i64 o) 0); [right; by left|].
    destruct (Z.lt_ge_cases (2 ^ bf_bits o - 1) (old + bf_i64 o)); [right; by right|left; apply u64_small; lia].
Qed.

(** The last part of a write, the same for both signs: [store] is the function
    that stores the new value. *)
Lemma write_result s off bits t (owtype : bfoverflow) (v : option Z) ret (store : Z -> option (list byte)) (out : Z -> Z) :
  Forall is_byte s -> updates t owtype v ret ->
  (forall v, exists s', store v = Some s' /\ Forall is_byte s' /\ length s' = length s /\
    bits_of s' = put_field (bits_of s) off bits v) ->
  exists s', (let '(newval, retval, overflow) := t in
      if negb (overflow =? 0) && is_fail owtype then Some (s, RNull)
      else s ← store newval; Some (s, RInt (out retval))) =
    Some (s', match v with Some v => RInt (out (ret v)) | None => RNull end) /\
    Forall is_byte s' /\ length s' = length s /\
    bits_of s' = match v with Some v => put_field (bits_of s) off bits v | None => bits_of s end.
Proof.
  intros Hs Hu Hstore. destruct t as [[newval retval] overflow]. unfold updates in Hu. destruct v as [v|].
  - destruct Hu as (-> & -> & Hf). replace (negb (overflow =? 0) && is_fail owtype) with false.
    + destruct (Hstore v) as (s' & -> & ? & ? & ?). by exists s'.
    + destruct Hf as [->|Hf]; [done|]. symmetry. apply andb_false_iff. right. by destruct owtype.
  - destruct Hu as [Ho ->]. rewrite (proj2 (Z.eqb_neq overflow 0) Ho). by exists s.
Qed.

Lemma bitfield_write_spec s o :
  op_ok (zlen s) o -> is_write o = true -> Forall is_byte s -> 8 * zlen s < 2 ^ 64 ->
  exists s', bitfield_write s o = Some (s', snd (bitfield_spec (bits_of s) o)) /\
    Forall is_byte s' /\ length s' = length s /\ bits_of s' = fst (bitfield_spec (bits_of s) o).
Proof.
  intros Hok Hw Hs H64. pose proof Hok as [Hbits Hoff Hi Hroom]. specialize (Hroom Hw).
  assert (zlen (bits_of s) = 8 * zlen s) as Hz by (unfold zlen; rewrite bits_of_length; lia).
  assert (bf_bits o <= 64) as Hb64 by (destruct (bf_sign o); lia).
  pose proof (field_value_inside (bf_sign o) (bits_of s) (bf_offset o) (bf_bits o)
    ltac:(lia) ltac:(lia) ltac:(lia)) as Hfv.
  pose proof (reduced_range (bf_sign o) (bf_bits o) (field (bits_of s) (bf_offset o) (bf_bits o)) ltac:(lia)) as Hr.
  rewrite <- Hfv in Hr. unfold bitfield_write, bitfield_spec. rewrite Hfv in *.
  set (old := reduced _ _ _) in *. destruct (bf_sign o) eqn:Es.
  - rewrite getSignedBitfield_spec by (done || lia). cbn [mbind option_bind].
    change (swrap (bf_bits o) (field (bits_of s) (bf_offset o) (bf_bits o))) with old.
    pose proof (signed_update_spec _ o old Hok Es Hw Hr) as Hu.
    destruct (write_result s (bf_offset o) (bf_bits o) (signed_update o old) _ _ _
      (setSignedBitfield s (bf_offset o) (bf_bits o)) (fun v => v) Hs Hu) as (s' & E & ? & ? & E2).
    { intros v. destruct (setUnsignedBitfield_spec s (bf_offset o) (bf_bits o) (u64 v)) as (s' & ? & ? & ? & E);
        [done|lia..|]. exists s'. rewrite put_field_u64 in E by lia. done. }
    exists s'. rewrite E, E2. unfold is_write in Hw. destruct (bf_opcode o); [done|..]; destruct (stored _ _); done.
  - rewrite getUnsignedBitfield_spec by (done || lia). cbn [mbind option_bind].
    assert (field (bits_of s) (bf_offset o) (bf_bits o) = old) as ->.
    { unfold old, reduced, field. apply bits_value_wrap; [|lia].
      by destruct (field_split (bits_of s) (bf_offset o) (bf_bits o) ltac:(lia) ltac:(lia) ltac:(lia)) as (_ & _ & ->). }
    pose proof (unsigned_update_spec _ o old Hok Es Hw Hr) as Hu.
    destruct (write_result s (bf_offset o) (bf_bits o) (unsigned_update o old) _ _ _
      (setUnsignedBitfield s (bf_offset o) (bf_bits o)) i64 Hs Hu) as (s' & E & ? & ? & E2).
    { intros v. destruct (setUnsignedBitfield_spec s (bf_offset o) (bf_bits o) v) as (s' & ? & ? & ? & E);
        [done|lia..|]. by exists s'. }
    assert (2 ^ bf_bits o <= 2 ^ 63) as Hle by (apply Z.pow_le_mono_r; lia). cbn [lowest highest] in Hr.
    exists s'. rewrite E, E2. unfold is_write in Hw. destruct (bf_opcode o); [done|..].
    + destruct (stored _ _); [|done]. by rewrite (i64_small old) by lia.
    + destruct (stored o _) as [v|] eqn:Ev; [|done].
      assert (0 <= v < 2 ^ bf_bits o) as Hv.
      { unfold stored in Ev. rewrite Es in Ev. cbn [lowest highest reduced] in Ev. case_if_in Ev; [simplify_eq; lia|].
        destruct (bf_owtype o); simplify_eq; [by apply wrap_range; lia|]. case_if; lia. }
      by rewrite (i64_small v) by lia.
Qed.

(** ** The claims *)

(** C13. The operations of BITFIELD, in order, on the text of the value: GET
    replies with the signed or unsigned number at any bit offset, bits past the
    end being zero; SET and INCRBY replace exactly the bits of the field by the
    number given or the sum, wrapped, saturated or refused as the overflow type
    says when it does not fit, and reply as documented. Every operation the
    parser lets through succeeds. One case is not as documented: a SET with
    saturation of a number below the range stores the largest value, not the
    smallest, in an unsigned field, and in a signed one of [bits] bits if the
    number is below 2^([bits]-1) - 2^63. *)
Theorem bitfield_exec_refines ops s changes :
  Forall (op_ok (zlen s)) ops -> Forall is_byte s -> 8 * zlen s < 2 ^ 64 ->
  exists s' rs, bitfield_exec ops s changes = Some (s', rs, changes + zlen (filter is_write ops)) /\
    (bits_of s', rs) = bitfield_specs (bits_of s) ops /\ length s' = length s /\ Forall is_byte s'.
Proof.
  revert s changes; induction ops as [|o ops IH]; intros s changes Hok Hs H64.
  { exists s, []. cbn. rewrite Z.add_0_r. done. }
  apply Forall_cons_1 in Hok as [Ho Hok].
  cbn [bitfield_exec bitfield_specs]. destruct (is_write o) eqn:Ew.
  - destruct (bitfield_write_spec s o Ho Ew Hs H64) as (s1 & E1 & Hs1 & Hl1 & Eb).
    destruct (bitfield_spec (bits_of s) o) as [l r]. cbn [fst snd] in *. subst l.
    destruct (IH s1 (changes + 1)) as (s' & rs & E' & Er & Hl & Hs'); [by unfold zlen; rewrite Hl1|done..|by unfold zlen; rewrite Hl1|].
    rewrite <- Er, filter_cons_True by (rewrite Ew; exact I). exists s', (r :: rs). split_and!; [|done|congruence|done].
    rewrite zlen_cons. replace (changes + (1 + zlen (filter is_write ops))) with (changes + 1 + zlen (filter is_write ops)) by lia.
    unfold is_write in Ew. destruct (bf_opcode o); [done|..]; rewrite E1; cbn [mbind option_bind]; by rewrite E'.
  - rewrite filter_cons_False by (rewrite Ew; exact id).
    destruct (IH s changes Hok Hs H64) as (s' & rs & E' & Er & Hl & Hs').
    pose proof (bitfield_read_spec s o _ Ho Hs) as Eread.
    unfold is_write in Ew. unfold bitfield_spec. destruct (bf_opcode o); [|done..].
    rewrite <- Er. eexists s', (_ :: rs). split_and!; [|done|done|done].
    rewrite Eread. cbn [mbind option_bind]. by rewrite E'.
Qed.

(** A number stored in a bit field is read back: both as a signed and as an
    unsigned number of the width, at any offset, with every bit outside the
    field as it was. *)
Theorem bitfield_roundtrip p off bits v :
  Forall is_byte p -> 0 <= off -> 1 <= bits <= 64 -> off + bits <= 8 * zlen p -> 8 * zlen p < 2 ^ 64 ->
  exists p', setSignedBitfield p off bits v = Some p' /\ length p' = length p /\
    getSignedBitfield p' off bits = Some (swrap bits v) /\
    getUnsignedBitfield p' off bits = Some (wrap bits v) /\
    forall i, (i < off \/ off + bits <= i) -> 0 <= i ->
      bits_of p' !! Z.to_nat i = bits_of p !! Z.to_nat i.
Proof.
  intros Hb Ho Hn Hl H64. assert (zlen (bits_of p) = 8 * zlen p) as Hz by (unfold zlen; rewrite bits_of_length; lia).
  destruct (setUnsignedBitfield_spec p off bits (u64 v)) as (p' & E & Hb' & Hlen & Eb); [done|lia..|].
  rewrite put_field_u64 in Eb by lia. assert (zlen p' = zlen p) as Hzl by (unfold zlen; lia).
  exists p'. split_and!; [done|done|..].
  - rewrite getSignedBitfield_spec, Eb, field_put, swrap_wrap by (done || lia). done.
  - rewrite getUnsignedBitfield_spec, Eb, field_put by (done || lia). done.
  - intros i Hi Hi0. rewrite Eb. unfold put_field. unfold zlen in *.
    destruct Hi as [Hi|Hi]; [rewrite lookup_app_l, lookup_take_lt by (rewrite ?length_take; lia); done|].
    rewrite !lookup_app_r by (rewrite ?length_take, ?field_bits_length; lia).
    rewrite lookup_drop, length_take, field_bits_length. f_equal. lia.
Qed.

(** The check for a signed field is wrong where [max - value] overflows: a
    SET far below the range of the field saturates at its maximum, not at its
    minimum. *)
Theorem checkSignedBitfieldOverflow_wrong_end value bits :
  1 <= bits < 64 -> LLONG_MIN <= value < 2 ^ (bits - 1) - 2 ^ 63 ->
  value < - 2 ^ (bits - 1) /\
  checkSignedBitfieldOverflow value 0 bits BFOVERFLOW_SAT = (1, Some (2 ^ (bits - 1) - 1)).
Proof.
  intros Hb Hv. split; [|by rewrite checkSigned_wraps].
  assert (2 * 2 ^ (bits - 1) <= 2 ^ 63) by (rewrite <- pow2_half by lia; apply Z.pow_le_mono_r; lia). lia.
Qed.

(** ** Witnesses *)

Definition demo_text : list byte := [200; 1; 77].
Definition demo_ops : list bitfieldOp := [
  mk_bitfieldOp 0 300 BITFIELDOP_INCRBY BFOVERFLOW_SAT 8 false;
  mk_bitfieldOp 5 (-9) BITFIELDOP_SET BFOVERFLOW_WRAP 4 true;
  mk_bitfieldOp 10 (-1) BITFIELDOP_SET BFOVERFLOW_SAT 5 false;
  mk_bitfieldOp 20 0 BITFIELDOP_GET BFOVERFLOW_WRAP 64 true].

Lemma bitfield_exec_refines_witness :
  exists s' rs, bitfield_exec demo_ops demo_text 0 = Some (s', rs, 3) /\
    (bits_of s', rs) = bitfield_specs (bits_of demo_text) demo_ops /\ length s' = 3%nat /\ Forall is_byte s'.
Proof.
  apply (bitfield_exec_refines demo_ops demo_text 0).
  - repeat constructor; vm_compute; intros; congruence.
  - repeat constructor; vm_compute; intros; congruence.
  - vm_compute. reflexivity.
Defined.

Lemma bitfield_roundtrip_witness :
  exists p', setSignedBitfield demo_text 7 13 (-5) = Some p' /\ length p' = 3%nat /\
    getSignedBitfield p' 7 13 = Some (-5) /\
    getUnsignedBitfield p' 7 13 = Some 8187 /\
    forall i, (i < 7 \/ 20 <= i) -> 0 <= i ->
      bits_of p' !! Z.to_nat i = bits_of demo_text !! Z.to_nat i.
Proof.
  apply (bitfield_roundtrip demo_text 7 13 (-5)).
  - repeat constructor; vm_compute; intros; congruence.
  - vm_compute; congruence.
  - split; vm_compute; congruence.
  - vm_compute; congruence.
  - vm_compute; reflexivity.
Defined.

Lemma checkSignedBitfieldOverflow_wrong_end_witness :
  - 2 ^ 63 < - 2 ^ 7 /\ checkSignedBitfieldOverflow (- 2 ^ 63) 0 8 BFOVERFLOW_SAT = (1, Some 127).
Proof.
  apply (checkSignedBitfieldOverflow_wrong_end (- 2 ^ 63) 8); vm_compute; split; congruence.
Defined.
