(* ===== verification/CmdFacts.v ===== *)
(** * Objects and the keyspace: well-formed worlds *)

From stdpp Require Import base list option gmap.
From Stdlib Require Import ZArith Lia Bool.
From S2P Require Import Prelude Endian Util UtilFacts Cmd.

Local Open Scope Z_scope.

(** A string shorter than 2^60 bytes, or a 64-bit integer. *)
Definition obj_ok (o : robj) : Prop :=
  match o with
  | StrObj s => Forall is_byte s /\ zlen s < 2 ^ 60
  | IntObj v => LLONG_MIN <= v <= LLONG_MAX
  | OtherObj _ => True
  end.

Definition world_ok (w : world) : Prop := map_Forall (fun _ o => obj_ok o) (w_db w).

(** The text of the value of a key, empty if there is none. *)
Definition obj_text (o : robj) : list byte :=
  match o with StrObj s => s | IntObj v => decimal v | OtherObj _ => [] end.
Definition key_text (w : world) (k : key) : list byte :=
  match w_db w !! k with Some o => obj_text o | None => [] end.

(** The key holds a string, if anything. *)
Definition string_key (w : world) (k : key) : Prop :=
  forall o, w_db w !! k = Some o -> is_string o = true.

Lemma dec_rec_bytes fuel : forall v, 0 <= v -> Forall is_byte (dec_rec fuel v).
Proof.
  induction fuel as [|fuel IH]; intros v Hv; cbn [dec_rec]; case_if.
  - apply Forall_cons_2; [unfold is_byte; lia|apply Forall_nil_2].
  - apply Forall_nil_2.
  - apply Forall_cons_2; [unfold is_byte; lia|apply Forall_nil_2].
  - apply Forall_app. split; [apply IH, Z.div_pos; lia|].
    apply Forall_cons_2; [unfold is_byte; pose proof (Z.mod_pos_bound v 10); lia|apply Forall_nil_2].
Qed.

Lemma decimal_bytes v : Forall is_byte (decimal v).
Proof.
  unfold decimal. case_if; [apply Forall_cons_2; [unfold is_byte; lia|]|]; apply dec_rec_bytes; lia.
Qed.

Lemma int_text_spec size v : LLONG_MIN <= v <= LLONG_MAX -> 21 <= size -> int_text size v = decimal v.
Proof.
  intros Hv Hs. pose proof (decimal_short v Hv). unfold int_text. unfold LLONG_MIN, LLONG_MAX in Hv.
  rewrite ll2string_spec by (try (unfold zlen; rewrite length_replicate); lia).
  rewrite (proj2 (Z.leb_gt _ _)) by lia. by rewrite zlen_to_nat, take_app_length.
Qed.

Lemma obj_text_ok o : obj_ok o -> Forall is_byte (obj_text o) /\ zlen (obj_text o) < 2 ^ 60.
Proof.
  destruct o as [s|v|t]; cbn [obj_ok obj_text]; [done| |].
  - intros Hv. split; [apply decimal_bytes|]. pose proof (decimal_short v Hv). lia.
  - intros _. split; [apply Forall_nil_2|done].
Qed.

Lemma getDecodedObject_spec o : obj_ok o -> is_string o = true -> getDecodedObject o = Some (obj_text o).
Proof. destruct o as [s|v|t]; cbn [getDecodedObject obj_text]; [done| |done]. intros Hv _. by rewrite int_text_spec by (done || lia). Qed.

Lemma key_text_ok w k : world_ok w -> Forall is_byte (key_text w k) /\ zlen (key_text w k) < 2 ^ 60.
Proof.
  intros Hw. unfold key_text. destruct (w_db w !! k) as [o|] eqn:E; [|split; [apply Forall_nil_2|done]].
  apply obj_text_ok. by apply (Hw k).
Qed.
