(* ===== verification/BitopProps.v ===== *)
(** * BITOP: the word-at-a-time path computes what the byte-at-a-time path does

    Every byte of the result is the bitwise operation on the bytes of the
    sources at its position, sources shorter than the result being continued
    with zeros. *)

From stdpp Require Import base list option gmap.
From Stdlib Require Import ZArith Lia Bool.
From S2P Require Import Prelude Endian Util UtilFacts Cmd CmdFacts Bitops BitopsFacts.

Local Open Scope Z_scope.

(** ** Words and their bytes *)

Lemma high_bits_range n x : 0 <= n -> (forall i, n <= i -> Z.testbit x i = false) -> 0 <= x < 2 ^ n.
Proof.
  intros Hn Hx. assert (x = x mod 2 ^ n) as ->; [|apply Z.mod_pos_bound; lia].
  apply Z.bits_inj'. intros i Hi. destruct (Z.lt_ge_cases i n).
  - by rewrite Z.mod_pow2_bits_low by lia.
  - rewrite Z.mod_pow2_bits_high by lia. by apply Hx.
Qed.

Lemma byte_high b i : is_byte b -> 8 <= i -> Z.testbit b i = false.
Proof.
  unfold is_byte. intros Hb Hi. rewrite <- (Z.mod_small b (2 ^ 8)) by lia. apply Z.mod_pow2_bits_high. lia.
Qed.

(** What the operations do to bits. *)
Definition bit_op (op : bitop) (a b : bool) : bool :=
  match op with
  | BITOP_AND => a && b
  | BITOP_OR => a || b
  | BITOP_XOR => xorb a b
  | BITOP_NOT => a
  end.

Lemma word_op_bits op a b i : Z.testbit (word_op op a b) i = bit_op op (Z.testbit a i) (Z.testbit b i).
Proof. destruct op; cbn; [apply Z.land_spec|apply Z.lor_spec|apply Z.lxor_spec|done]. Qed.

Lemma bit_op_false op : bit_op op false false = false.
Proof. by destruct op. Qed.

Lemma word_op_byte op a b : is_byte a -> is_byte b -> is_byte (word_op op a b).
Proof.
  intros Ha Hb. apply (high_bits_range 8); [lia|]. intros i Hi.
  by rewrite word_op_bits, !byte_high, bit_op_false by done.
Qed.

Lemma word_op_split op a b m n : is_byte b -> is_byte n ->
  word_op op (b + 256 * a) (n + 256 * m) = word_op op b n + 256 * word_op op a m.
Proof.
  intros Hb Hn. pose proof (word_op_byte op b n Hb Hn) as Hbn. unfold is_byte in *.
  apply Z.bits_inj'. intros i Hi. rewrite word_op_bits.
  replace (b + 256 * a) with (a * 2 ^ 8 + b) by lia. replace (n + 256 * m) with (m * 2 ^ 8 + n) by lia.
  replace (word_op op b n + 256 * word_op op a m) with (word_op op a m * 2 ^ 8 + word_op op b n) by lia.
  rewrite (testbit_split a b 8 i), (testbit_split m n 8 i), (testbit_split (word_op op a m) (word_op op b n) 8 i) by lia.
  case_if; by rewrite word_op_bits.
Qed.

Lemma word_op_join op : forall a b, Forall is_byte a -> Forall is_byte b -> length a = length b ->
  word_op op (le_join a) (le_join b) = le_join (zip_with (word_op op) a b).
Proof.
  induction a as [|x a IH]; intros [|y b] Ha Hb Hl; try done; [by destruct op|].
  apply Forall_cons_1 in Ha as [Hx Ha]. apply Forall_cons_1 in Hb as [Hy Hb].
  cbn [le_join zip_with]. rewrite word_op_split, IH by (done || by injection Hl). done.
Qed.

Lemma zip_bytes op a b : Forall is_byte a -> Forall is_byte b -> Forall is_byte (zip_with (word_op op) a b).
Proof.
  revert b; induction a as [|x a IH]; intros [|y b] Ha Hb; try apply Forall_nil_2.
  apply Forall_cons_1 in Ha as [Hx Ha]. apply Forall_cons_1 in Hb as [Hy Hb].
  apply Forall_cons_2; [by apply word_op_byte|by apply IH].
Qed.

(** ** Buffers *)

Lemma buf_write_lookup l off bs l' i :
  buf_write l off bs = Some l' ->
  l' !! i = if (off <=? Z.of_nat i) && (Z.of_nat i <? off + zlen bs) then bs !! (i - Z.to_nat off)%nat else l !! i.
Proof.
  unfold buf_write. intros E. case_if_in E; [|done]. simplify_eq. unfold zlen in *.
  destruct (Nat.lt_ge_cases i (Z.to_nat off)) as [Hlo|Hlo].
  - rewrite lookup_app_l, lookup_take_lt by (rewrite ?length_take; lia).
    by rewrite (proj2 (Z.leb_gt _ _)) by lia.
  - rewrite (proj2 (Z.leb_le _ _)) by lia. cbn [andb]. rewrite lookup_app_r by (rewrite length_take; lia).
    rewrite length_take, Nat.min_l by lia. destruct (Z.ltb_spec (Z.of_nat i) (off + Z.of_nat (length bs))).
    + by rewrite lookup_app_l by lia.
    + rewrite lookup_app_r, lookup_drop by lia. f_equal. lia.
Qed.

Lemma buf_read_total l off n : 0 <= off -> 0 <= n -> off + n <= zlen l -> Forall is_byte l ->
  exists bs, buf_read l off n = Some bs /\ zlen bs = n /\ Forall is_byte bs /\
    forall k, Z.of_nat k < n -> bs !! k = l !! (Z.to_nat off + k)%nat.
Proof.
  intros Ho Hn Hl Hb. unfold buf_read. rewrite_if_true. eexists. split; [done|]. split_and!.
  - unfold zlen in *. rewrite length_take, length_drop. lia.
  - by apply Forall_take, Forall_drop.
  - intros k Hk. by rewrite lookup_take_lt, lookup_drop by lia.
Qed.

Lemma buf_write_total l off bs : 0 <= off -> off + zlen bs <= zlen l -> Forall is_byte l -> Forall is_byte bs ->
  exists l', buf_write l off bs = Some l' /\ length l' = length l /\ Forall is_byte l'.
Proof.
  intros Ho Hl Hb Hbs. destruct (buf_write l off bs) as [l'|] eqn:E.
  - exists l'. split_and!; [done|by eapply buf_write_length|]. unfold buf_write in E. case_if_in E; [|done]. simplify_eq.
    apply Forall_app. split; [by apply Forall_take|]. apply Forall_app. split; [done|by apply Forall_drop].
  - unfold buf_write in E. case_if_in E; [done|]. lia.
Qed.

(** [res] with the bytes of a range changed by [g]. *)
Definition updated (g : nat -> Z -> Z) (res : list byte) (off n : Z) (res' : list byte) : Prop :=
  length res' = length res /\ Forall is_byte res' /\
  forall i, res' !! i =
    if (off <=? Z.of_nat i) && (Z.of_nat i <? off + n) then g i <$> res !! i else res !! i.

Lemma updated_app g res off n m res1 res2 :
  0 <= n -> 0 <= m -> updated g res off n res1 -> updated g res1 (off + n) m res2 ->
  updated g res off (n + m) res2.
Proof.
  intros Hn Hm (L1 & B1 & U1) (L2 & B2 & U2). split_and!; [congruence|done|]. intros i. rewrite U2, U1.
  destruct (Z.leb_spec off (Z.of_nat i)), (Z.ltb_spec (Z.of_nat i) (off + n)), (Z.leb_spec (off + n) (Z.of_nat i)),
    (Z.ltb_spec (Z.of_nat i) (off + n + m)), (Z.ltb_spec (Z.of_nat i) (off + (n + m))); cbn [andb]; done || lia.
Qed.

Definition byte_at (s : list byte) (i : nat) : Z := default 0 (s !! i).

Section Host.
Context `{Host}.

Lemma native_word_op op a b : length a = 8%nat -> length b = 8%nat -> Forall is_byte a -> Forall is_byte b ->
  native_store 8 (word_op op (native_load a) (native_load b)) = zip_with (word_op op) a b.
Proof.
  intros Hl1 Hl2 Ha Hb. unfold native_store, native_load. destruct big_endian.
  - rewrite word_op_join by (rewrite ?Forall_rev, ?length_rev; (done || lia || by apply Forall_rev)).
    assert (length (zip_with (word_op op) (rev a) (rev b)) = 8%nat) as H8
      by (rewrite length_zip_with_l_eq; rewrite ?length_rev; lia).
    rewrite <- H8 at 1. rewrite le_split_join by (apply zip_bytes; by apply Forall_rev).
    do 8 (destruct a as [|? a]; [done|]; destruct b as [|? b]; [done|]). by destruct a, b.
  - rewrite word_op_join by (done || lia).
    assert (length (zip_with (word_op op) a b) = 8%nat) as H8 by (rewrite length_zip_with_l_eq; lia).
    rewrite <- H8 at 1. apply le_split_join. by apply zip_bytes.
Qed.

Definition not_byte (b : Z) : Z := u8 (Z.lnot b).

Lemma not_byte_range b : is_byte (not_byte b).
Proof. apply wrap_range. lia. Qed.

Lemma not_join l : Forall is_byte l -> wrap (8 * zlen l) (Z.lnot (le_join l)) = le_join (map not_byte l).
Proof.
  intros Hl. unfold wrap. replace (2 ^ (8 * zlen l)) with (256 ^ zlen l) by (rewrite Z.pow_mul_r by zlen; done).
  induction Hl as [|b l Hb Hl IH]; [by rewrite Z.mod_1_r|]. cbn [map le_join]. rewrite <- IH, zlen_cons.
  unfold is_byte in Hb. unfold not_byte, wrap, Z.lnot. rewrite Z.pow_add_r by zlen. change (256 ^ 1) with 256.
  assert (0 < 256 ^ zlen l) by (apply Z.pow_pos_nonneg; zlen).
  rewrite Z.rem_mul_r by lia. change (2 ^ 8) with 256.
  replace (Z.pred (- (b + 256 * le_join l))) with (Z.pred (- b) + (- le_join l) * 256) by lia.
  rewrite Z.mod_add by lia. do 2 f_equal. rewrite Z.div_add by lia.
  replace (Z.pred (- b) / 256) with (-1); [f_equal; lia|].
  apply Z.div_unique with (255 - b); lia.
Qed.

Lemma native_not a : length a = 8%nat -> Forall is_byte a ->
  native_store 8 (u64 (Z.lnot (native_load a))) = map not_byte a.
Proof.
  intros Hl Ha. unfold native_store, native_load.
  assert (forall l, length l = 8%nat -> Forall is_byte l -> le_split 8 (u64 (Z.lnot (le_join l))) = map not_byte l) as Hw.
  { intros l Hl' Hb. pose proof (not_join l Hb) as E. unfold zlen in E. rewrite Hl' in E. change (8 * Z.of_nat 8) with 64 in E.
    rewrite E. assert (length (map not_byte l) = 8%nat) as H8 by (by rewrite length_map). rewrite <- H8 at 1.
    apply le_split_join, Forall_map, Forall_true. intros. apply not_byte_range. }
  destruct big_endian; [|by apply Hw]. rewrite Hw by (rewrite ?length_rev; (done || by apply Forall_rev)).
  by rewrite <- map_rev, rev_involutive.
Qed.

(** ** The fast path, byte by byte *)

Lemma fast_word_spec op res src off :
  Forall is_byte res -> Forall is_byte src -> 0 <= off -> off + 8 <= zlen res -> off + 8 <= zlen src ->
  exists res', fast_word op res src off = Some res' /\ updated (fun i a => word_op op a (byte_at src i)) res off 8 res'.
Proof.
  intros Hr Hs Ho Hlr Hls. unfold fast_word.
  destruct (buf_read_total res off 8) as (a & -> & La & Ba & Ra); [done|lia..|done|].
  destruct (buf_read_total src off 8) as (b & -> & Lb & Bb & Rb); [done|lia..|done|].
  cbn [mbind option_bind]. rewrite native_word_op by (done || unfold zlen in *; lia).
  assert (zlen (zip_with (word_op op) a b) = 8) as Lz by (unfold zlen in *; rewrite length_zip_with_l_eq; lia).
  destruct (buf_write_total res off (zip_with (word_op op) a b)) as (res' & E & L' & B'); [done|lia|done|by apply zip_bytes|].
  exists res'. split; [done|]. split_and!; [done|done|]. intros i. rewrite (buf_write_lookup _ _ _ _ i E), Lz.
  destruct (Z.leb_spec off (Z.of_nat i)), (Z.ltb_spec (Z.of_nat i) (off + 8)); cbn [andb]; try done.
  rewrite lookup_zip_with, Ra, Rb by lia. replace (Z.to_nat off + (i - Z.to_nat off))%nat with i by lia.
  unfold byte_at. destruct (lookup_lt_is_Some_2 src i) as [y ->]; [unfold zlen in *; lia|]. by destruct (res !! i).
Qed.

Lemma not_word_spec res off :
  Forall is_byte res -> 0 <= off -> off + 8 <= zlen res ->
  exists res', not_word res off = Some res' /\ updated (fun _ => not_byte) res off 8 res'.
Proof.
  intros Hr Ho Hlr. unfold not_word.
  destruct (buf_read_total res off 8) as (a & -> & La & Ba & Ra); [done|lia..|done|].
  cbn [mbind option_bind]. rewrite native_not by (done || unfold zlen in *; lia).
  assert (zlen (map not_byte a) = 8) as Lz by (unfold zlen in *; rewrite length_map; lia).
  destruct (buf_write_total res off (map not_byte a)) as (res' & E & L' & B'); [done|lia|done|..].
  { apply Forall_map, Forall_true. intros. apply not_byte_range. }
  exists res'. split; [done|]. split_and!; [done|done|]. intros i. rewrite (buf_write_lookup _ _ _ _ i E), Lz.
  destruct (Z.leb_spec off (Z.of_nat i)), (Z.ltb_spec (Z.of_nat i) (off + 8)); cbn [andb]; try done.
  change (map not_byte a) with (not_byte <$> a). rewrite list_lookup_fmap, Ra by lia.
  by replace (Z.to_nat off + (i - Z.to_nat off))%nat with i by lia.
Qed.

(** Four words in a row. *)
Lemma four_spec g (step : list byte -> Z -> option (list byte)) res off bound :
  (forall res off, Forall is_byte res -> 0 <= off -> off + 8 <= zlen res -> off + 8 <= bound ->
    exists res', step res off = Some res' /\ updated g res off 8 res') ->
  Forall is_byte res -> 0 <= off -> off + 32 <= zlen res -> off + 32 <= bound ->
  exists res', (res ← step res off; res ← step res (off + 8); res ← step res (off + 16); step res (off + 24)) = Some res' /\
    updated g res off 32 res'.
Proof.
  intros Hstep Hr Ho Hlr Hb. unfold zlen in *.
  destruct (Hstep res off) as (r1 & -> & U1); [done|lia..|]. pose proof U1 as (L1 & B1 & _). cbn [mbind option_bind].
  destruct (Hstep r1 (off + 8)) as (r2 & -> & U2); [done|lia..|]. pose proof U2 as (L2 & B2 & _). cbn [mbind option_bind].
  destruct (Hstep r2 (off + 16)) as (r3 & -> & U3); [done|lia..|]. pose proof U3 as (L3 & B3 & _). cbn [mbind option_bind].
  destruct (Hstep r3 (off + 24)) as (r4 & -> & U4); [done|lia..|].
  exists r4. split; [done|]. apply (updated_app _ _ _ 24 8 r3); [lia..| |done].
  apply (updated_app _ _ _ 16 8 r2); [lia..| |done]. by apply (updated_app _ _ _ 8 8 r1).
Qed.

Lemma fast_keys_spec op srcs : forall res off,
  Forall is_byte res -> Forall (fun s => Forall is_byte s /\ off + 32 <= zlen s) srcs -> 0 <= off -> off + 32 <= zlen res ->
  exists res', fast_keys op res srcs off = Some res' /\
    updated (fun i a => foldl (fun a s => word_op op a (byte_at s i)) a srcs) res off 32 res'.
Proof.
  induction srcs as [|s srcs IH]; intros res off Hr Hs Ho Hl; cbn [fast_keys].
  { exists res. split; [done|]. split_and!; [done|done|]. intros i. cbn [foldl]. destruct (_ && _); [|done]. by destruct (res !! i). }
  apply Forall_cons_1 in Hs as [[Hb Hls] Hs].
  destruct (four_spec (fun i a => word_op op a (byte_at s i)) (fun res off => fast_word op res s off) res off (zlen s))
    as (r1 & E1 & L1 & B1 & U1); [|done..|].
  { intros. by apply fast_word_spec. }
  change (fast_four op res s off = Some r1) in E1. rewrite E1. cbn [mbind option_bind].
  destruct (IH r1 off) as (r2 & E2 & L2 & B2 & U2); [done|done|done|unfold zlen in *; lia|].
  exists r2. split; [done|]. split_and!; [congruence|done|]. intros i. rewrite U2, U1. cbn [foldl].
  destruct (_ && _); [|done]. by destruct (res !! i).
Qed.

(** What one step of the fast loop does to the byte at [i]. *)
Definition fast_byte (op : bitop) (srcs : list (list byte)) (i : nat) (a : Z) : Z :=
  match op with
  | BITOP_NOT => not_byte a
  | _ => foldl (fun a s => word_op op a (byte_at s i)) a srcs
  end.

Lemma fast_step_spec op srcs res off :
  Forall is_byte res -> Forall (fun s => Forall is_byte s /\ off + 32 <= zlen s) srcs -> 0 <= off -> off + 32 <= zlen res ->
  exists res', match op with BITOP_NOT => not_four res off | _ => fast_keys op res srcs off end = Some res' /\
    updated (fast_byte op srcs) res off 32 res'.
Proof.
  intros Hr Hs Ho Hl. destruct op; try by apply fast_keys_spec.
  apply (four_spec (fun _ => not_byte) not_word res off (zlen res)); try done. intros. by apply not_word_spec.
Qed.

Lemma fast_loop_spec op srcs fuel : forall res j minlen,
  Forall is_byte res -> Forall (fun s => Forall is_byte s /\ j + minlen <= zlen s) srcs ->
  0 <= j -> 0 <= minlen < 32 * Z.of_nat fuel -> j + minlen <= zlen res ->
  exists res' n, fast_loop fuel op res srcs j minlen = Some (res', j + n) /\ 0 <= n <= minlen /\
    updated (fast_byte op srcs) res j n res'.
Proof.
  induction fuel as [|fuel IH]; intros res j minlen Hr Hs Hj Hm Hl; [lia|]. cbn [fast_loop]. case_if.
  - destruct (fast_step_spec op srcs res j) as (r1 & -> & U1); [done| |lia..|].
    { eapply Forall_impl; [exact Hs|]. intros s [? ?]. split; [done|lia]. }
    pose proof U1 as (L1 & B1 & _). cbn [mbind option_bind].
    destruct (IH r1 (j + 32) (minlen - 32)) as (r2 & n & -> & Hn & U2); [done| |lia..|unfold zlen in *; lia|].
    { eapply Forall_impl; [exact Hs|]. intros s [? ?]. split; [done|lia]. }
    exists r2, (32 + n). split_and!; [do 2 f_equal; lia|lia..|]. apply (updated_app _ _ _ _ _ r1); [lia..|done|done].
  - exists res, 0. rewrite Z.add_0_r. split_and!; [done|lia..|]. split_and!; [done|done|].
    intros i. by destruct (Z.leb_spec j (Z.of_nat i)), (Z.ltb_spec (Z.of_nat i) (j + 0)); cbn [andb]; try lia.
Qed.

(** ** The plain loop *)

(** The byte at [i] of the result. *)
Definition bitop_byte (op : bitop) (src : list (list byte)) (i : nat) : Z :=
  match src with
  | [] => 0
  | s0 :: srcs => fast_byte op srcs i (byte_at s0 i)
  end.

Lemma byte_at_range s i : Forall is_byte s -> is_byte (byte_at s i).
Proof.
  intros Hs. unfold byte_at. destruct (s !! i) as [b|] eqn:E; cbn; [by apply (Forall_lookup_1 is_byte s i)|].
  unfold is_byte. lia.
Qed.

Lemma lor_255 b : is_byte b -> Z.lor 255 b = 255.
Proof.
  intros Hb. assert (Z.lor 255 b =? 255 = true) as E; [|by apply Z.eqb_eq].
  apply (forall_byte (fun b => Z.lor 255 b =? 255)); [vm_compute; reflexivity|done].
Qed.

Lemma slow_keys_spec op srcs i : op <> BITOP_NOT -> Forall (Forall is_byte) srcs ->
  forall a, slow_keys op a srcs i = foldl (fun a s => word_op op a (byte_at s i)) a srcs.
Proof.
  intros Hop. induction 1 as [|s srcs Hs Hsrcs IH]; intros a; [done|]. cbn [slow_keys foldl].
  destruct op; [|..|done]; cbn [word_op]; fold (byte_at s i).
  - case_if; [|apply IH]. rewrite E, <- IH. clear. symmetry. induction srcs as [|t srcs IH]; [done|].
    cbn [slow_keys]. by rewrite Z.land_0_l.
  - case_if; [|apply IH]. rewrite E, <- IH. symmetry. destruct Hsrcs as [|t srcs Ht _]; [done|].
    cbn [slow_keys]. fold (byte_at t i). by rewrite lor_255 by by apply byte_at_range.
  - apply IH.
Qed.

Lemma slow_byte_spec op s0 srcs i : Forall is_byte s0 -> Forall (Forall is_byte) srcs -> op <> BITOP_NOT \/ srcs = [] ->
  slow_byte op s0 srcs i = bitop_byte op (s0 :: srcs) i.
Proof.
  intros H0 Hs Hop. unfold slow_byte, bitop_byte, fast_byte. fold (byte_at s0 i).
  destruct op; try (by rewrite slow_keys_spec). destruct Hop as [| ->]; done.
Qed.

Lemma slow_loop_spec op s0 srcs n : forall res j,
  (j + n = length res)%nat -> Forall is_byte s0 -> Forall (Forall is_byte) srcs -> op <> BITOP_NOT \/ srcs = [] ->
  slow_loop n op res s0 srcs j = Some (take j res ++ map (bitop_byte op (s0 :: srcs)) (seq j n)).
Proof.
  induction n as [|n IH]; intros res j Hl H0 Hs Hop; cbn [slow_loop seq map].
  { by rewrite app_nil_r, take_ge by lia. }
  rewrite slow_byte_spec by done. set (x := bitop_byte _ _ _).
  assert (exists y r, res = take j res ++ y :: r) as (y & r & Er).
  { destruct (lookup_lt_is_Some_2 res j) as [y Hy]; [lia|]. exists y, (drop (S j) res). by rewrite take_drop_middle. }
  assert (length (take j res) = j) as Hj by (rewrite length_take; lia).
  rewrite Er at 1. rewrite (buf_write_app (take j res) [y] [x] r) by (done || unfold zlen; lia).
  cbn [mbind option_bind]. rewrite IH; [|rewrite !length_app; rewrite Er, length_app in Hl; cbn in *; lia|done..].
  f_equal. rewrite <- Hj at 1. replace (S (length (take j res))) with (length (take j res ++ [x])) by (rewrite length_app; cbn; lia).
  by rewrite app_assoc, take_app_length, <- app_assoc.
Qed.

(** ** The computed string *)

Lemma updated_prefix op s0 srcs n res' minlen rest :
  0 <= n <= minlen -> minlen <= zlen s0 ->
  updated (fast_byte op srcs) (take (Z.to_nat minlen) s0 ++ rest) 0 n res' ->
  take (Z.to_nat n) res' = map (bitop_byte op (s0 :: srcs)) (seq 0 (Z.to_nat n)).
Proof.
  intros Hn Hm (L & _ & U). unfold zlen in Hm. apply list_eq. intros i.
  change (map ?f ?l) with (f <$> l). rewrite list_lookup_fmap. destruct (Nat.lt_ge_cases i (Z.to_nat n)) as [Hi|Hi].
  - rewrite lookup_take_lt, U, lookup_seq_lt by lia. rewrite_if_true.
    rewrite lookup_app_l, lookup_take_lt by (rewrite ?length_take; lia). cbn [fmap option_fmap option_map bitop_byte].
    unfold byte_at. rewrite Nat.add_0_l. destruct (lookup_lt_is_Some_2 s0 i) as [y Hy]; [lia|]. by rewrite Hy.
  - by rewrite lookup_take_ge, lookup_seq_ge by lia.
Qed.

Lemma bitop_compute_spec op src maxlen minlen :
  src <> [] -> Forall (Forall is_byte) src -> Forall (fun s => minlen <= zlen s <= maxlen) src -> 0 <= minlen ->
  (op = BITOP_NOT -> length src = 1%nat) ->
  bitop_compute op src maxlen minlen = Some (map (bitop_byte op src) (seq 0 (Z.to_nat maxlen))).
Proof.
  intros Hne Hb Hl Hm Hnot. destruct src as [|s0 srcs]; [done|].
  apply Forall_cons_1 in Hb as [H0 Hb]. apply Forall_cons_1 in Hl as [Hl0 Hl].
  unfold bitop_compute. cbn [lookup list_lookup mbind option_bind drop]. rewrite drop_0. set (zeros := replicate (Z.to_nat maxlen) 0).
  assert (op <> BITOP_NOT \/ srcs = []) as Hop.
  { destruct op; try (by left). right. specialize (Hnot eq_refl). by destruct srcs. }
  assert (length zeros = Z.to_nat maxlen) as Hz by apply length_replicate.
  case_if.
  - destruct (buf_read_total s0 0 minlen) as (bs & Ebs & Lbs & _); [lia..|done|]. rewrite Ebs. cbn [mbind option_bind].
    assert (bs = take (Z.to_nat minlen) s0) as ->.
    { unfold buf_read in Ebs. case_if_in Ebs; [|done]. simplify_eq. done. }
    assert (exists rest, buf_write zeros 0 (take (Z.to_nat minlen) s0) = Some (take (Z.to_nat minlen) s0 ++ rest)) as [rest Ew].
    { assert (zlen zeros = maxlen) by (unfold zlen; lia). unfold buf_write. rewrite_if_true. by eexists. }
    rewrite Ew. cbn [mbind option_bind]. pose proof (buf_write_length _ _ _ _ Ew) as Lr.
    assert (Forall is_byte (take (Z.to_nat minlen) s0 ++ rest)) as Hbr.
    { destruct (buf_write_total zeros 0 (take (Z.to_nat minlen) s0)) as (r & Er & _ & Br);
        [lia|unfold zlen in *; lia|apply Forall_replicate; unfold is_byte; lia|by apply Forall_take|]. congruence. }
    destruct (fast_loop_spec op srcs (S (Z.to_nat (minlen / 32))) (take (Z.to_nat minlen) s0 ++ rest) 0 minlen)
      as (res' & n & -> & Hn & U); [done| |lia| |unfold zlen in *; lia|].
    { apply Forall_forall. intros s Hs. rewrite Forall_forall in Hb, Hl. specialize (Hb s Hs). specialize (Hl s Hs). split; [done|lia]. }
    { split; [lia|]. rewrite Nat2Z.inj_succ, Z2Nat.id by (apply Z.div_pos; lia).
      pose proof (Z.div_mod minlen 32 ltac:(lia)). pose proof (Z.mod_pos_bound minlen 32 ltac:(lia)). lia. }
    cbn [mbind option_bind]. pose proof U as (L' & _ & _). rewrite Z.add_0_l.
    rewrite slow_loop_spec by (done || (rewrite L'; lia)). rewrite (updated_prefix op s0 srcs n res' minlen rest Hn ltac:(lia) U).
    rewrite <- map_app, <- seq_app. do 3 f_equal. lia.
  - cbn [mbind option_bind]. rewrite slow_loop_spec by (done || (rewrite Hz; lia)). cbn [Z.to_nat]. rewrite take_0.
    cbn [app]. by rewrite Z.sub_0_r.
Qed.

(** ** The sources *)

Definition max_len (src : list (list byte)) (m : Z) : Z := foldl (fun m s => Z.max m (zlen s)) m src.

Lemma checkType_string o : is_string o = true -> checkType (Some o) = inl (Some o).
Proof. by destruct o. Qed.

Lemma bitop_sources_spec w keys : forall j src maxlen minlen,
  world_ok w -> Forall (string_key w) keys -> 0 <= minlen ->
  (j <> 0%nat -> Forall (fun s => minlen <= zlen s) src) -> (j = 0%nat -> src = []) -> 0 <= maxlen ->
  exists minlen', bitop_sources w keys j src maxlen minlen =
      Some (inl (src ++ map (key_text w) keys, max_len (map (key_text w) keys) maxlen, minlen')) /\
    0 <= minlen' /\ (j <> 0%nat \/ keys <> [] -> Forall (fun s => minlen' <= zlen s) (src ++ map (key_text w) keys)).
Proof.
  induction keys as [|k keys IH]; intros j src maxlen minlen Hw Hk Hm Hsrc Hj Hx; cbn [bitop_sources map max_len foldl].
  { rewrite app_nil_r. exists minlen. split_and!; [done|done|]. intros [?|?]; [by apply Hsrc|done]. }
  apply Forall_cons_1 in Hk as [Hk Hks]. rewrite (cons_middle (key_text w k) src), app_assoc.
  assert (exists m, 0 <= m /\ Forall (fun s => m <= zlen s) (src ++ [key_text w k]) /\
    bitop_sources w (k :: keys) j src maxlen minlen =
    bitop_sources w keys (S j) (src ++ [key_text w k]) (Z.max maxlen (zlen (key_text w k))) m) as (m & Hm0 & Hml & Estep).
  { cbn [bitop_sources]. unfold lookupKey, key_text. destruct (w_db w !! k) as [o|] eqn:E.
    - rewrite checkType_string, getDecodedObject_spec by (by apply (Hk o) || by apply (Hw k)). cbn [mbind option_bind].
      exists (if Nat.eqb j 0 || (zlen (obj_text o) <? minlen) then zlen (obj_text o) else minlen).
      pose proof (zlen_nonneg (obj_text o)) as Hz. split; [case_if; lia|]. split.
      + destruct j as [|j]; [rewrite Hj by done; cbn; repeat constructor; lia|]. cbn [Nat.eqb orb].
        apply Forall_app. split; [|case_if; repeat constructor; lia].
        eapply Forall_impl; [apply Hsrc; lia|]. intros s Hs. cbn beta in *. case_if; lia.
      + f_equal. destruct (Z.ltb_spec maxlen (zlen (obj_text o))); lia.
    - exists 0. split_and!; [done| |].
      + apply Forall_true. intros; zlen.
      + f_equal. rewrite zlen_nil. lia. }
  cbn [bitop_sources] in Estep. rewrite Estep.
  destruct (IH (S j) (src ++ [key_text w k]) (Z.max maxlen (zlen (key_text w k))) m) as (m' & E' & Hm' & Hl');
    [done|done|done|done|done|lia|].
  exists m'. rewrite E'. split_and!; [done|done|]. intros _. apply Hl'. by left.
Qed.

Lemma max_len_ge src : forall m, m <= max_len src m /\ Forall (fun s => zlen s <= max_len src m) src.
Proof.
  induction src as [|s src IH]; intros m; cbn [max_len foldl]; [split; [lia|apply Forall_nil_2]|].
  destruct (IH (Z.max m (zlen s))) as [H1 H2]. unfold max_len in *. split; [lia|]. apply Forall_cons_2; [lia|done].
Qed.

Lemma bitopCommand_spec w opname target keys op :
  world_ok w -> Forall (string_key w) keys -> keys <> [] -> parse_bitop opname = Some op ->
  (op = BITOP_NOT -> length keys = 1%nat) ->
  let src := map (key_text w) keys in
  let maxlen := max_len src 0 in
  exists w', bitopCommand w (opname :: target :: keys) = Some w' /\
    w_db w' = (if maxlen =? 0 then delete target (w_db w)
               else <[target := StrObj (map (bitop_byte op src) (seq 0 (Z.to_nat maxlen)))]> (w_db w)) /\
    w_replies w' = w_replies w ++ [RInt maxlen].
Proof.
  intros Hw Hk Hne Hop Hnot src maxlen. unfold bitopCommand. cbn [lookup list_lookup mbind option_bind drop].
  rewrite Hop, drop_0. replace (match op with BITOP_NOT => negb (zlen (opname :: target :: keys) =? 3) | _ => false end)
    with false by (destruct op; try done; specialize (Hnot eq_refl); unfold zlen; cbn [length]; rewrite Hnot; done).
  destruct (bitop_sources_spec w keys 0 [] 0 0 Hw Hk) as (m & -> & Hm & Hml); [lia|done|done|lia|].
  cbn [mbind option_bind or_reply app]. fold src. fold maxlen.
  destruct (max_len_ge src 0) as [Hx Hxl]. fold maxlen in Hx, Hxl.
  destruct (Z.ltb_spec 0 maxlen) as [Hpos|Hzero].
  - rewrite bitop_compute_spec; [|by destruct keys| | |done|by unfold src; rewrite length_map].
    + cbn [mbind option_bind]. destruct (setKey_db w target (StrObj (map (bitop_byte op src) (seq 0 (Z.to_nat maxlen)))))
        as (w1 & -> & Ed & Er & _). cbn [mbind option_bind]. eexists. split; [done|].
      rewrite (proj2 (Z.eqb_neq _ _)) by lia. cbn. by rewrite Ed, Er.
    + apply Forall_map, Forall_true. intros k. by apply key_text_ok.
    + specialize (Hml (or_intror Hne)). cbn [app] in Hml. fold src in Hml. apply Forall_forall. intros s Hs.
      rewrite Forall_forall in Hml, Hxl. by split; [apply Hml|apply Hxl].
  - replace maxlen with 0 by lia. cbn [Z.eqb]. unfold dbDelete.
    destruct (w_db w !! target) eqn:E; cbn; eexists; (split; [done|]); cbn; split; try done.
    by rewrite delete_id.
Qed.

(** ** The claim *)

(** C12. BITOP stores at the target the bitwise AND, OR or XOR of the sources, or
    the complement of its one source, as long as the longest source; shorter and
    missing sources count as continued with zero bytes. The path that takes four
    words of every source at a time computes the same bytes as the plain loop,
    on hosts of either byte order. If all sources are empty the target is
    deleted. The reply is the length. *)
Theorem bitopCommand_correct w opname target keys op :
  world_ok w -> Forall (string_key w) keys -> keys <> [] -> parse_bitop opname = Some op ->
  (op = BITOP_NOT -> length keys = 1%nat) ->
  let src := map (key_text w) keys in
  let maxlen := max_len src 0 in
  exists w', bitopCommand w (opname :: target :: keys) = Some w' /\
    w_db w' = (if maxlen =? 0 then delete target (w_db w)
               else <[target := StrObj (map (bitop_byte op src) (seq 0 (Z.to_nat maxlen)))]> (w_db w)) /\
    w_replies w' = w_replies w ++ [RInt maxlen].
Proof. apply bitopCommand_spec. Qed.
End Host.

(** ** Witness *)

Definition demo_keyspace : world :=
  mk_world {[ [97] := StrObj (replicate 40 0xF0 ++ [1; 2; 3]); [98] := IntObj (-12) ; [99] := StrObj (replicate 33 0x3C)]}
    0 [] [] [].

Lemma demo_keyspace_ok : world_ok demo_keyspace.
Proof.
  unfold world_ok, demo_keyspace. cbn [w_db].
  repeat (apply map_Forall_insert_2; [unfold obj_ok; try (split; [|reflexivity]); try (apply Forall_app; split);
    try (apply Forall_replicate; unfold is_byte; lia); try (repeat constructor; unfold is_byte; lia);
    try (vm_compute; split; congruence)|]). apply map_Forall_empty.
Qed.

Lemma bitopCommand_correct_witness :
  let h := {| big_endian := true |} in
  let src := map (key_text demo_keyspace) [[97]; [99]] in
  exists w', bitopCommand demo_keyspace [[65; 110; 100]; [122]; [97]; [99]] = Some w' /\
    w_db w' = <[[122] := StrObj (map (bitop_byte BITOP_AND src) (seq 0 43))]> (w_db demo_keyspace) /\
    w_replies w' = [RInt 43].
Proof.
  intros h src.
  apply (bitopCommand_correct demo_keyspace [65; 110; 100] [122] [[97]; [99]] BITOP_AND demo_keyspace_ok).
  - repeat constructor; intros o E; vm_compute in E; injection E as <-; reflexivity.
  - discriminate.
  - vm_compute. reflexivity.
  - discriminate.
Defined.
