(* ===== verification/BitCmdProps.v ===== *)
(** * The bit commands: SETBIT, GETBIT, BITCOUNT, BITPOS, and safety of them all *)

From stdpp Require Import base list option gmap.
From Stdlib Require Import ZArith Lia Bool.
From S2P Require Import Prelude Endian Util UtilFacts Cmd CmdFacts Bitops BitopsFacts BitfieldProps BitopProps.

Local Open Scope Z_scope.

(** ** The bits of a value *)

(** The bit at [i] of a string continued with zeros. *)
Definition bit_at (s : list byte) (i : Z) : bool := default false (bits_of s !! Z.to_nat i).

Lemma bits_of_lookup s i :
  bits_of s !! i = (b ← s !! (i / 8)%nat; byte_bits b !! (i mod 8)%nat).
Proof.
  revert i; induction s as [|b s IH]; intros i; [by destruct i|]. rewrite bits_of_cons.
  destruct (Nat.lt_ge_cases i 8) as [Hi|Hi].
  - rewrite lookup_app_l by done. by rewrite Nat.div_small, Nat.mod_small by lia.
  - rewrite lookup_app_r by done. change (length (byte_bits b)) with 8%nat. rewrite IH.
    assert (i = (i - 8) + 1 * 8)%nat as Ei by lia.
    assert (i / 8 = S ((i - 8) / 8))%nat as -> by (rewrite Ei at 1; rewrite Nat.div_add by lia; lia).
    assert (i mod 8 = (i - 8) mod 8)%nat as -> by (rewrite Ei at 1; by rewrite Nat.Div0.mod_add). done.
Qed.

Lemma bit_at_pad s n i : 0 <= i -> bit_at (s ++ replicate n 0) i = bit_at s i.
Proof.
  intros Hi. unfold bit_at. rewrite bits_of_app. destruct (Nat.lt_ge_cases (Z.to_nat i) (length (bits_of s))) as [H|H].
  - by rewrite lookup_app_l.
  - rewrite lookup_app_r, (lookup_ge_None_2 (bits_of s)) by done. rewrite bits_of_lookup.
    destruct (replicate n 0 !! _) as [b|] eqn:E; [|done]. apply lookup_replicate in E as [-> _]. cbn [mbind option_bind].
    change (byte_bits 0) with (replicate 8 false). destruct (replicate 8 false !! _) as [x|] eqn:Ex; [|done].
    by apply lookup_replicate in Ex as [-> _].
Qed.

Lemma bit_at_grow s n i : 0 <= i -> bit_at (sdsgrowzero s n) i = bit_at s i.
Proof. intros Hi. unfold sdsgrowzero. case_if; [done|]. by apply bit_at_pad. Qed.

Lemma sdsgrowzero_ok s n : Forall is_byte s -> 0 <= n ->
  Forall is_byte (sdsgrowzero s n) /\ zlen (sdsgrowzero s n) = Z.max n (zlen s).
Proof.
  intros Hs Hn. unfold sdsgrowzero. case_if; [split; [done|lia]|]. split.
  - apply Forall_app. split; [done|]. apply Forall_replicate. unfold is_byte. lia.
  - rewrite zlen_app. unfold zlen at 2. rewrite length_replicate. lia.
Qed.

(** The byte and the mask of a bit offset. *)
Lemma bit_offset off : 0 <= off ->
  Z.to_nat (Z.shiftr off 3) = (Z.to_nat off / 8)%nat /\ 7 - Z.land off 7 = 7 - Z.of_nat (Z.to_nat off mod 8) /\
  (Z.to_nat off mod 8 < 8)%nat.
Proof.
  intros Ho. rewrite Z.shiftr_div_pow2 by lia. change 7 with (Z.ones 3) at 2. rewrite Z.land_ones by lia. change (2 ^ 3) with 8.
  split_and!; [|f_equal|apply Nat.mod_upper_bound; lia].
  - apply Nat2Z.inj. rewrite Nat2Z.inj_div, !Z2Nat.id by (try apply Z.div_pos; lia). done.
  - rewrite Nat2Z.inj_mod, Z2Nat.id by lia. done.
Qed.

(** SETBIT's byte is the one of the bit field functions. *)
Definition setbit_test (b : Z) (k : nat) (v : bool) : bool :=
  let bit := 7 - Z.of_nat k in
  (u8 (Z.lor (Z.land b (Z.lnot (Z.shiftl 1 bit))) (Z.shiftl (Z.land (Z.b2z v) 1) bit)) =? put_bit b bit v) &&
  Bool.eqb (negb (Z.land b (Z.shiftl 1 bit) =? 0)) (default false (byte_bits b !! k)).

Lemma setbit_byte b k v : is_byte b -> (k < 8)%nat ->
  u8 (Z.lor (Z.land b (Z.lnot (Z.shiftl 1 (7 - Z.of_nat k)))) (Z.shiftl (Z.land (Z.b2z v) 1) (7 - Z.of_nat k))) =
    put_bit b (7 - Z.of_nat k) v /\
  (if Z.land b (Z.shiftl 1 (7 - Z.of_nat k)) =? 0 then 0 else 1) = Z.b2z (default false (byte_bits b !! k)).
Proof.
  intros Hb Hk. assert (forallb (fun k => setbit_test b k true && setbit_test b k false) (seq 0 8) = true) as H.
  { apply (forall_byte (fun b => forallb (fun k => setbit_test b k true && setbit_test b k false) (seq 0 8)));
      [vm_compute; reflexivity|done]. }
  rewrite forallb_forall in H. specialize (H k ltac:(apply in_seq; lia)).
  assert (setbit_test b k v = true) as Ht by (destruct v; bool_to_prop; done).
  unfold setbit_test in Ht. apply andb_true_iff in Ht as [E1%Z.eqb_eq E2%eqb_prop]. split; [done|].
  rewrite <- E2. by destruct (_ =? 0).
Qed.

(** One bit replaced. *)
Lemma bit_at_put s off v : Forall is_byte s -> 0 <= off < 8 * zlen s ->
  exists b, s !! (Z.to_nat off / 8)%nat = Some b /\ is_byte b /\
    default false (byte_bits b !! (Z.to_nat off mod 8)%nat) = bit_at s off /\
    let s' := <[(Z.to_nat off / 8)%nat := put_bit b (7 - Z.of_nat (Z.to_nat off mod 8)) v]> s in
    Forall is_byte s' /\ forall i, 0 <= i -> bit_at s' i = if i =? off then v else bit_at s i.
Proof.
  intros Hs Ho. destruct (bit_offset off) as (_ & _ & Hk); [lia|]. set (n := Z.to_nat off) in *.
  assert (n / 8 < length s)%nat as Hn by (apply Nat.Div0.div_lt_upper_bound; unfold n, zlen in *; lia).
  destruct (lookup_lt_is_Some_2 s (n / 8) Hn) as [b Hb]. exists b.
  assert (is_byte b) as Hbb by (by eapply (Forall_lookup_1 is_byte s)).
  destruct (put_bit_spec b (n mod 8) v Hbb Hk) as (Hp & Hbits & _). split_and!; [done|done| |].
  { unfold bit_at. fold n. rewrite bits_of_lookup, Hb. done. }
  split; [by apply Forall_insert|]. intros i Hi. unfold bit_at. rewrite !bits_of_lookup. set (m := Z.to_nat i).
  pose proof (Nat.div_mod_eq m 8) as Em. pose proof (Nat.div_mod_eq n 8) as En.
  destruct (decide (m / 8 = n / 8)%nat) as [E|E].
  - rewrite E, list_lookup_insert_eq, Hb by done. cbn [mbind option_bind].
    rewrite Hbits, <- insert_take_drop by done. destruct (decide (m mod 8 = n mod 8)%nat) as [E'|E'].
    + rewrite E', list_lookup_insert_eq by done. rewrite (proj2 (Z.eqb_eq i off)); [done|]. unfold m, n in *. lia.
    + rewrite list_lookup_insert_ne by done. rewrite (proj2 (Z.eqb_neq i off)); [done|]. intros ->. done.
  - rewrite list_lookup_insert_ne by done. rewrite (proj2 (Z.eqb_neq i off)); [done|]. intros ->. done.
Qed.

(** ** The commands *)

#[global] Instance bitop_eq_dec : EqDecision bitop.
Proof. solve_decision. Defined.

#[global] Instance string_key_dec w k : Decision (string_key w k).
Proof.
  unfold string_key. destruct (w_db w !! k) as [o|]; [|by left].
  destruct (is_string o) eqn:E; [left|right]; [by intros ? [= <-]|].
  intros Hf. specialize (Hf o eq_refl). congruence.
Defined.

Section Commands.
Context `{Host}.
Variable proto_max_bulk_len : Z.
Variable address : list byte -> Z.
Hypothesis Hproto : proto_max_bulk_len <= 2 ^ 59.

(** A world that differs in the value of one key. *)
Definition same_but (w w' : world) (k : key) (s : list byte) : Prop :=
  w_db w' = <[k := StrObj s]> (w_db w) /\ w_replies w' = w_replies w /\ w_dirty w' = w_dirty w /\
  w_modified w' = w_modified w /\ w_events w' = w_events w.

Lemma lookupStringForBitCommand_spec w k maxbit :
  world_ok w -> string_key w k -> 0 <= maxbit ->
  exists w' , lookupStringForBitCommand w k maxbit = Some (inl (w', sdsgrowzero (key_text w k) (Z.shiftr maxbit 3 + 1))) /\
    same_but w w' k (sdsgrowzero (key_text w k) (Z.shiftr maxbit 3 + 1)).
Proof.
  intros Hw Hk Hm. unfold lookupStringForBitCommand, lookupKey, key_text.
  assert (0 <= Z.shiftr maxbit 3) as Hs by (by apply Z.shiftr_nonneg).
  destruct (w_db w !! k) as [o|] eqn:E.
  - rewrite checkType_string by (by apply (Hk o)). unfold dbUnshareStringValue.
    rewrite getDecodedObject_spec by (by apply (Hk o) || by apply (Hw k)). cbn [mbind option_bind].
    unfold dbOverwrite. rewrite E. cbn [mbind option_bind w_db with_db]. rewrite lookup_insert_eq. cbn [mbind option_bind].
    eexists. split; [done|]. unfold same_but. cbn. by rewrite insert_insert_eq.
  - cbn [checkType]. unfold dbAdd. rewrite E. cbn [mbind option_bind].
    assert (sdsgrowzero [] (Z.shiftr maxbit 3 + 1) = replicate (Z.to_nat (Z.shiftr maxbit 3 + 1)) 0) as ->.
    { unfold sdsgrowzero. rewrite zlen_nil. rewrite_if_false. by rewrite Z.sub_0_r. }
    eexists. split; [done|]. done.
Qed.

Lemma wrongtype w k maxbit : ~ string_key w k -> lookupStringForBitCommand w k maxbit = Some (inr WrongType).
Proof.
  intros Hk. unfold lookupStringForBitCommand, lookupKey. unfold string_key in Hk.
  destruct (w_db w !! k) as [o|] eqn:E; [|by destruct Hk].
  destruct o; [by destruct Hk; intros ? [= <-]..|]. done.
Qed.

Lemma offset_arg off : 0 <= off -> Z.shiftr off 3 < proto_max_bulk_len ->
  getBitOffsetFromArgument proto_max_bulk_len (decimal off) false 0 = inl off.
Proof.
  intros Ho Hm. rewrite Z.shiftr_div_pow2 in Hm by lia. change (2 ^ 3) with 8 in Hm.
  assert (LLONG_MIN <= off <= LLONG_MAX) as Hr by (unfold LLONG_MIN, LLONG_MAX; dlia).
  unfold getBitOffsetFromArgument. rewrite andb_false_r. cbn [andb]. rewrite string2ll_complete by done.
  rewrite Z.shiftr_div_pow2 by lia. change (2 ^ 3) with 8. by rewrite_if_false.
Qed.

Lemma long_arg v e : LLONG_MIN <= v <= LLONG_MAX -> getLongFromObjectOrReply (decimal v) e = inl v.
Proof.
  intros Hv. unfold getLongFromObjectOrReply, getLongLongFromObjectOrReply, getLongLongFromObject.
  rewrite string2ll_complete by done. by rewrite_if_false.
Qed.

Lemma world_ok_insert w w' k s :
  world_ok w -> w_db w' = <[k := StrObj s]> (w_db w) -> Forall is_byte s -> zlen s < 2 ^ 60 -> world_ok w'.
Proof. intros Hw E Hs Hl. unfold world_ok. rewrite E. by apply map_Forall_insert_2. Qed.

Lemma setbit_spec w k off (on : bool) :
  world_ok w -> string_key w k -> 0 <= off -> Z.shiftr off 3 < proto_max_bulk_len ->
  exists w' s, setbitCommand proto_max_bulk_len w [k; decimal off; decimal (Z.b2z on)] = Some w' /\
    w_db w' = <[k := StrObj s]> (w_db w) /\ Forall is_byte s /\ zlen s = Z.max (Z.shiftr off 3 + 1) (zlen (key_text w k)) /\
    (forall i, 0 <= i -> bit_at s i = if i =? off then on else bit_at (key_text w k) i) /\
    w_replies w' = w_replies w ++ [RInt (Z.b2z (bit_at (key_text w k) off))].
Proof.
  intros Hw Hk Ho Hm. unfold setbitCommand. cbn [lookup list_lookup mbind option_bind].
  rewrite offset_arg by done. cbn [or_reply]. rewrite long_arg by (unfold LLONG_MIN, LLONG_MAX; destruct on; cbn; lia).
  cbn [or_reply]. replace (negb (Z.land (Z.b2z on) (Z.lnot 1) =? 0)) with false by (by destruct on).
  destruct (lookupStringForBitCommand_spec w k off Hw Hk Ho) as (w1 & -> & E1 & Er & _). cbn [mbind option_bind or_reply].
  destruct (key_text_ok w k Hw) as [Ht Htl].
  assert (0 <= Z.shiftr off 3) as Hs0 by (by apply Z.shiftr_nonneg).
  set (s := sdsgrowzero (key_text w k) (Z.shiftr off 3 + 1)) in *.
  destruct (sdsgrowzero_ok (key_text w k) (Z.shiftr off 3 + 1) Ht ltac:(lia)) as [Hs Hsl]. fold s in Hs, Hsl.
  assert (off < 8 * zlen s) as Hoff.
  { rewrite Hsl, Z.shiftr_div_pow2 in * by lia. change (2 ^ 3) with 8 in *. clear -Ho. dlia. }
  destruct (bit_offset off Ho) as (Ei & Ek & Hk8). rewrite Ei, Ek.
  destruct (bit_at_put s off on Hs ltac:(lia)) as (b & Hb & Hbb & Hold & Hs' & Hnew). rewrite Hb.
  cbn [mbind option_bind]. destruct (setbit_byte b (Z.to_nat off mod 8) on Hbb Hk8) as [-> ->].
  unfold dbOverwrite. rewrite E1, lookup_insert_eq. cbn [mbind option_bind].
  eexists _, _. split; [done|]. split; [cbn; by rewrite insert_insert_eq|]. split_and!; [done| | |].
  - unfold zlen in *. rewrite length_insert. done.
  - intros i Hi. rewrite Hnew by done. case_if; [done|]. by apply bit_at_grow.
  - cbn [w_replies addReplyLongLong addReply add_dirty notifyKeyspaceEvent signalModifiedKey with_db]. rewrite Er, Hold. unfold s. by rewrite bit_at_grow.
Qed.

Lemma text_bit s off : Forall is_byte s -> 0 <= off ->
  (if Z.shiftr off 3 <? zlen s then b ← s !! Z.to_nat (Z.shiftr off 3); Some (Z.land b (Z.shiftl 1 (7 - Z.land off 7)))
   else Some 0) =
  Some (if Z.shiftr off 3 <? zlen s then Z.land (byte_at s (Z.to_nat off / 8)) (Z.shiftl 1 (7 - Z.land off 7)) else 0) /\
  (if (if Z.shiftr off 3 <? zlen s then Z.land (byte_at s (Z.to_nat off / 8)) (Z.shiftl 1 (7 - Z.land off 7)) else 0) =? 0
   then 0 else 1) = Z.b2z (bit_at s off).
Proof.
  intros Hs Ho. destruct (bit_offset off Ho) as (Ei & Ek & Hk8). rewrite Ei, Ek.
  unfold bit_at, byte_at. rewrite bits_of_lookup. assert (0 <= Z.shiftr off 3) by (by apply Z.shiftr_nonneg).
  destruct (Z.ltb_spec (Z.shiftr off 3) (zlen s)) as [Hlt|Hge].
  - destruct (lookup_lt_is_Some_2 s (Z.to_nat off / 8)) as [b Hb]; [unfold zlen in *; lia|]. rewrite Hb.
    cbn [mbind option_bind default]. split; [done|]. refine (proj2 (setbit_byte b _ true _ Hk8)).
    by eapply (Forall_lookup_1 is_byte s).
  - rewrite (lookup_ge_None_2 s) by (unfold zlen in *; lia). done.
Qed.

Lemma getbit_spec w k off :
  world_ok w -> string_key w k -> 0 <= off -> Z.shiftr off 3 < proto_max_bulk_len ->
  getbitCommand proto_max_bulk_len w [k; decimal off] =
    Some (addReplyLongLong w (Z.b2z (bit_at (key_text w k) off))).
Proof.
  intros Hw Hk Ho Hm. unfold getbitCommand. cbn [lookup list_lookup mbind option_bind].
  rewrite offset_arg by done. cbn [or_reply]. unfold lookupKey, key_text.
  destruct (w_db w !! k) as [o|] eqn:E; [|done].
  rewrite checkType_string by (by apply (Hk o)). cbn [or_reply]. pose proof (Hw k o E) as Hob. cbn beta in Hob.
  specialize (Hk o E). destruct o as [s|v|t]; [..|done]; cbn [obj_text].
  - destruct (text_bit s off (proj1 Hob) Ho) as [-> E2]. cbn [mbind option_bind]. by rewrite E2.
  - rewrite int_text_spec by (done || lia). destruct (text_bit (decimal v) off (decimal_bytes v) Ho) as [-> E2].
    cbn [mbind option_bind]. by rewrite E2.
Qed.

(** ** Safety: whatever the arguments *)

Inductive bit_command := CSetbit | CGetbit | CBitop | CBitcount | CBitpos | CBitfield (readonly : bool).

Definition run_bit (c : bit_command) (w : world) (argv : list (list byte)) : option world :=
  match c with
  | CSetbit => setbitCommand proto_max_bulk_len w argv
  | CGetbit => getbitCommand proto_max_bulk_len w argv
  | CBitop => bitopCommand w argv
  | CBitcount => bitcountCommand address w argv
  | CBitpos => bitposCommand address w argv
  | CBitfield ro => bitfieldGeneric proto_max_bulk_len ro w argv
  end.

(** The arity the command table demands (the name not counted). *)
Definition arity_ok (c : bit_command) (argv : list (list byte)) : Prop :=
  match c with
  | CSetbit => length argv = 3%nat
  | CGetbit => length argv = 2%nat
  | CBitop => (3 <= length argv)%nat
  | CBitpos => (2 <= length argv)%nat
  | CBitcount | CBitfield _ => (1 <= length argv)%nat
  end.

Definition safe (r : option world) : Prop := exists w', r = Some w' /\ world_ok w'.

Lemma safe_same w w' : world_ok w -> w_db w' = w_db w -> safe (Some w').
Proof. intros Hw E. exists w'. split; [done|]. unfold world_ok. by rewrite E. Qed.

Lemma safe_reply w r : world_ok w -> safe (Some (addReply w r)).
Proof. intros Hw. by apply (safe_same w). Qed.

(** An error of an argument is a reply. *)
Lemma or_reply_safe {A} w (r : A + err) (f : A -> option world) :
  world_ok w -> (forall x, r = inl x -> safe (f x)) -> safe (or_reply w r f).
Proof. intros Hw Hf. destruct r as [x|e]; cbn [or_reply]; [by apply Hf|by apply safe_reply]. Qed.

Lemma offset_inl p hash bits off :
  getBitOffsetFromArgument proto_max_bulk_len p hash bits = inl off ->
  0 <= off < 2 ^ 62 /\ Z.shiftr off 3 < proto_max_bulk_len.
Proof.
  unfold getBitOffsetFromArgument. destruct (string2ll _) as [l|]; [|done]. set (v := if _ && _ then _ else l).
  clearbody v. intros E. case_if_in E; [done|]. injection E as <-.
  assert (Z.shiftr v 3 = v / 8) as Ed by (by rewrite Z.shiftr_div_pow2 by lia). split; [|lia]. dlia.
Qed.

Lemma type_string w k o : w_db w !! k = Some o -> forall x, checkType (Some o) = inl x -> string_key w k.
Proof. intros E x Hx o' E'. rewrite E in E'. injection E' as <-. by destruct o. Qed.

Lemma getObjectReadOnlyString_spec o : obj_ok o -> is_string o = true -> getObjectReadOnlyString o = Some (obj_text o).
Proof.
  destruct o as [s|v|t]; cbn [getObjectReadOnlyString obj_text]; [done| |done].
  intros Hv _. by rewrite int_text_spec by (done || lia).
Qed.

Lemma setbit_safe w k a b : world_ok w -> safe (setbitCommand proto_max_bulk_len w [k; a; b]).
Proof.
  intros Hw. unfold setbitCommand. cbn [lookup list_lookup mbind option_bind].
  apply or_reply_safe; [done|]. intros off [Ho Hm]%offset_inl. apply or_reply_safe; [done|]. intros on _.
  case_if; [by apply safe_reply|].
  destruct (decide (string_key w k)) as [Hk|Hk]; [|by rewrite wrongtype; [apply safe_reply|]].
  destruct (lookupStringForBitCommand_spec w k off Hw Hk ltac:(lia)) as (w1 & -> & E1 & _). cbn [mbind option_bind or_reply].
  destruct (key_text_ok w k Hw) as [Ht Htl]. assert (0 <= Z.shiftr off 3) as Hs0 by (by apply Z.shiftr_nonneg; lia).
  destruct (sdsgrowzero_ok (key_text w k) (Z.shiftr off 3 + 1) Ht ltac:(lia)) as [Hs Hsl].
  set (s := sdsgrowzero (key_text w k) (Z.shiftr off 3 + 1)) in *.
  destruct (lookup_lt_is_Some_2 s (Z.to_nat (Z.shiftr off 3))) as [b' ->]; [unfold zlen in *; lia|].
  cbn [mbind option_bind]. unfold dbOverwrite. rewrite E1, lookup_insert_eq. cbn [mbind option_bind].
  eexists. split; [done|]. eapply (world_ok_insert w); [done|cbn; by rewrite insert_insert_eq| |].
  - apply Forall_insert; [done|]. apply wrap_range. lia.
  - unfold zlen in *. rewrite length_insert. lia.
Qed.

Lemma getbit_safe w k a : world_ok w -> safe (getbitCommand proto_max_bulk_len w [k; a]).
Proof.
  intros Hw. unfold getbitCommand. cbn [lookup list_lookup mbind option_bind].
  apply or_reply_safe; [done|]. intros off [Ho Hm]%offset_inl. unfold lookupKey.
  destruct (w_db w !! k) as [o|] eqn:E; [|by apply safe_reply].
  apply or_reply_safe; [done|]. intros x Hx. pose proof (Hw k o E) as Hob. cbn beta in Hob.
  destruct o as [s|v|t]; [..|done].
  - destruct (text_bit s off (proj1 Hob) ltac:(lia)) as [-> _]. by apply safe_reply.
  - rewrite int_text_spec by (done || lia). destruct (text_bit (decimal v) off (decimal_bytes v) ltac:(lia)) as [-> _].
    by apply safe_reply.
Qed.

Lemma bitop_sources_err w keys : forall j src maxlen minlen,
  world_ok w -> ~ Forall (string_key w) keys -> bitop_sources w keys j src maxlen minlen = Some (inr WrongType).
Proof.
  induction keys as [|k keys IH]; intros j src maxlen minlen Hw Hk; [destruct Hk; apply Forall_nil_2|].
  cbn [bitop_sources]. unfold lookupKey. destruct (w_db w !! k) as [o|] eqn:E.
  - destruct (is_string o) eqn:Es.
    + rewrite checkType_string, getDecodedObject_spec by (done || by apply (Hw k)). cbn [mbind option_bind]. apply IH; [done|].
      intros Hf. apply Hk, Forall_cons_2; [|done]. intros o' E'. by simplify_eq.
    + by destruct o.
  - apply IH; [done|]. intros Hf. apply Hk, Forall_cons_2; [|done]. intros o' E'. by simplify_eq.
Qed.

Lemma bitop_byte_range op src i : Forall (Forall is_byte) src -> is_byte (bitop_byte op src i).
Proof.
  destruct 1 as [|s0 srcs H0 Hs]; cbn [bitop_byte]; [unfold is_byte; lia|].
  assert (forall a, is_byte a -> is_byte (foldl (fun a s => word_op op a (byte_at s i)) a srcs)) as Hf.
  { induction Hs as [|s srcs Hs _ IH]; intros a Ha; [done|]. apply IH, word_op_byte; [done|]. by apply byte_at_range. }
  unfold fast_byte. destruct op; try (apply Hf; by apply byte_at_range). apply not_byte_range.
Qed.

Lemma max_len_lt src : forall m b, m < b -> Forall (fun s => zlen s < b) src -> max_len src m < b.
Proof.
  induction src as [|s src IH]; intros m b Hm Hs; [done|]. apply Forall_cons_1 in Hs as [? ?]. apply IH; [lia|done].
Qed.

Lemma bitop_safe w argv : world_ok w -> (3 <= length argv)%nat -> safe (bitopCommand w argv).
Proof.
  intros Hw Hl. destruct argv as [|opname [|target keys]]; cbn in Hl; try lia.
  destruct (parse_bitop opname) as [op|] eqn:Eop.
  2: { unfold bitopCommand. cbn [lookup list_lookup mbind option_bind]. rewrite Eop. by apply safe_reply. }
  destruct (decide (op = BITOP_NOT /\ length keys <> 1%nat)) as [[-> Hn]|Hn].
  { unfold bitopCommand. cbn [lookup list_lookup mbind option_bind]. rewrite Eop.
    rewrite (proj2 (Z.eqb_neq _ _)) by (unfold zlen; cbn [length]; lia). by apply safe_reply. }
  destruct (decide (Forall (string_key w) keys)) as [Hk|Hk].
  - destruct (bitopCommand_spec w opname target keys op) as (w' & -> & Ed & _); [done|done|by intros ->; cbn in Hl; lia|done| |].
    { intros ->. destruct (decide (length keys = 1%nat)); [done|]. by destruct Hn. }
    exists w'. split; [done|]. unfold world_ok. rewrite Ed. case_if; [by apply map_Forall_delete|].
    assert (Forall (Forall is_byte) (map (key_text w) keys)) as Hb.
    { apply Forall_map, Forall_true. intros k. by apply key_text_ok. }
    apply map_Forall_insert_2; [|done]. split.
    + apply Forall_map, Forall_true. intros i. by apply bitop_byte_range.
    + unfold zlen. rewrite length_map, length_seq.
      destruct (max_len_ge (map (key_text w) keys) 0) as [H0 _]. rewrite Z2Nat.id by done. apply max_len_lt; [done|].
      apply Forall_map, Forall_true. intros k. by apply key_text_ok.
  - unfold bitopCommand. cbn [lookup list_lookup mbind option_bind drop]. rewrite Eop, drop_0.
    case_if; [by apply safe_reply|]. rewrite bitop_sources_err by done. by apply safe_reply.
Qed.

Lemma count_range_safe w p st en : world_ok w -> Forall is_byte p -> 0 <= st -> en < zlen p ->
  safe (count_range address w p st en).
Proof.
  intros Hw Hp Hst Hen. unfold count_range. case_if; [by apply safe_reply|].
  rewrite redisPopcount_spec; [by apply safe_reply| |by apply Forall_drop]. unfold zlen in *. rewrite length_drop. lia.
Qed.

Lemma range_end start end_ strlen st en :
  range_index start end_ strlen = (st, en) -> 0 <= strlen -> 0 <= st /\ en < strlen.
Proof. unfold range_index. intros E Hl. injection E as <- <-. repeat case_if; lia. Qed.

Lemma bitcount_safe w argv : world_ok w -> (1 <= length argv)%nat -> safe (bitcountCommand address w argv).
Proof.
  intros Hw Hl. destruct argv as [|k args]; [cbn in Hl; lia|]. unfold bitcountCommand. cbn [lookup list_lookup mbind option_bind].
  unfold lookupKey. destruct (w_db w !! k) as [o|] eqn:E; [|by apply safe_reply].
  apply or_reply_safe; [done|]. intros x Hx. pose proof (type_string w k o E x Hx) as Hk. specialize (Hk o E).
  pose proof (Hw k o E) as Hob. cbn beta in Hob. rewrite getObjectReadOnlyString_spec by done. cbn [mbind option_bind].
  destruct (obj_text_ok o Hob) as [Hb _]. pose proof (zlen_nonneg (obj_text o)).
  destruct args as [|a [|b [|]]]; try (by apply safe_reply).
  - apply count_range_safe; [done|done|lia..].
  - apply or_reply_safe; [done|]. intros st _. apply or_reply_safe; [done|]. intros en _.
    case_if; [by apply safe_reply|]. destruct (range_index st en _) as [st' en'] eqn:Er.
    apply range_end in Er as [? ?]; [|done]. by apply count_range_safe.
Qed.

Lemma bitpos_range_safe w p bit st en given : world_ok w -> Forall is_byte p -> 0 <= st -> en < zlen p ->
  safe (bitpos_range address w p bit st en given).
Proof.
  intros Hw Hp Hst Hen. unfold bitpos_range. case_if; [by apply safe_reply|].
  rewrite redisBitpos_spec; [cbn [mbind option_bind]; case_if; by apply safe_reply| |by apply Forall_drop].
  unfold zlen in *. rewrite length_drop. lia.
Qed.

Lemma bitpos_safe w argv : world_ok w -> (2 <= length argv)%nat -> safe (bitposCommand address w argv).
Proof.
  intros Hw Hl. destruct argv as [|k [|b args]]; try (cbn in Hl; lia). unfold bitposCommand.
  cbn [lookup list_lookup mbind option_bind drop]. rewrite drop_0. apply or_reply_safe; [done|]. intros bit _.
  case_if; [by apply safe_reply|]. unfold lookupKey. destruct (w_db w !! k) as [o|] eqn:Eo; [|by apply safe_reply].
  apply or_reply_safe; [done|]. intros x Hx. pose proof (type_string w k o Eo x Hx) as Hk. specialize (Hk o Eo).
  pose proof (Hw k o Eo) as Hob. cbn beta in Hob. rewrite getObjectReadOnlyString_spec by done. cbn [mbind option_bind].
  destruct (obj_text_ok o Hob) as [Hb _]. pose proof (zlen_nonneg (obj_text o)).
  destruct args as [|a [|b' [|]]]; try (by apply safe_reply).
  - apply bitpos_range_safe; [done|done|lia..].
  - apply or_reply_safe; [done|]. intros st _. destruct (range_index st _ _) as [st' en'] eqn:Er.
    apply range_end in Er as [? ?]; [|done]. by apply bitpos_range_safe.
  - apply or_reply_safe; [done|]. intros st _. apply or_reply_safe; [done|]. intros en _.
    destruct (range_index st en _) as [st' en'] eqn:Er. apply range_end in Er as [? ?]; [|done]. by apply bitpos_range_safe.
Qed.

(** *** BITFIELD *)

Lemma bitfield_write_safe s o :
  op_ok (zlen s) o -> is_write o = true -> Forall is_byte s -> 8 * zlen s < 2 ^ 64 ->
  exists s' r, bitfield_write s o = Some (s', r) /\ Forall is_byte s' /\ length s' = length s.
Proof.
  intros [Hbits Hoff _ Hroom] Hw Hs H64. specialize (Hroom Hw).
  assert (bf_bits o <= 64) as Hb64 by (destruct (bf_sign o); lia).
  assert (forall v, exists s', setUnsignedBitfield s (bf_offset o) (bf_bits o) v = Some s' /\ Forall is_byte s' /\
    length s' = length s) as Hset.
  { intros v. destruct (setUnsignedBitfield_spec s (bf_offset o) (bf_bits o) v) as (s' & ? & ? & ? & _); [done|lia..|]. by exists s'. }
  unfold bitfield_write. destruct (bf_sign o).
  - rewrite getSignedBitfield_spec by (done || lia). cbn [mbind option_bind].
    destruct (signed_update o _) as [[newval retval] overflow]. case_if; [by eexists s, _|].
    unfold setSignedBitfield. destruct (Hset (u64 newval)) as (s' & -> & ? & ?). by eexists s', _.
  - rewrite getUnsignedBitfield_spec by (done || lia). cbn [mbind option_bind].
    destruct (unsigned_update o _) as [[newval retval] overflow]. case_if; [by eexists s, _|].
    destruct (Hset newval) as (s' & -> & ? & ?). by eexists s', _.
Qed.

Lemma bitfield_exec_safe ops : forall s changes,
  Forall (op_ok (zlen s)) ops -> Forall is_byte s -> 8 * zlen s < 2 ^ 64 ->
  exists s' rs n, bitfield_exec ops s changes = Some (s', rs, n) /\ Forall is_byte s' /\ length s' = length s.
Proof.
  induction ops as [|o ops IH]; intros s changes Hok Hs H64; [by exists s, [], changes|].
  apply Forall_cons_1 in Hok as [Ho Hok]. cbn [bitfield_exec]. destruct (is_write o) eqn:Ew.
  - destruct (bitfield_write_safe s o Ho Ew Hs H64) as (s1 & r & E1 & Hs1 & Hl1).
    destruct (IH s1 (changes + 1)) as (s' & rs & n & E' & Hs' & Hl'); [by unfold zlen; rewrite Hl1|done|by unfold zlen; rewrite Hl1|].
    exists s', (r :: rs), n. split_and!; [|done|congruence].
    unfold is_write in Ew. destruct (bf_opcode o); [done|..]; rewrite E1; cbn [mbind option_bind]; by rewrite E'.
  - destruct (IH s changes Hok Hs H64) as (s' & rs & n & E' & Hs' & Hl').
    pose proof (bitfield_read_spec s o _ Ho Hs) as Er. eexists s', (_ :: rs), n. split_and!; [|done|done].
    unfold is_write in Ew. destruct (bf_opcode o); [|done..]. rewrite Er. cbn [mbind option_bind]. by rewrite E'.
Qed.

Lemma type_inl p sign bits :
  getBitfieldTypeFromArgument p = inl (sign, bits) -> 1 <= bits <= if (sign : bool) then 64 else 63.
Proof.
  unfold getBitfieldTypeFromArgument. intros E. case_if_in E; [|done]. destruct (string2ll _) as [l|]; [|done].
  destruct (at_ p 0 =? 105); cbn [andb negb orb] in E; rewrite ?orb_false_r in E; (case_if_in E; [done|]);
    injection E as <- <-; rewrite i32_small by lia; lia.
Qed.

(** What the parser has established of the operations so far: [hi] is the last
    bit they write. *)
Definition parsed (ops : list bitfieldOp) (ro : bool) (hi : Z) : Prop :=
  0 <= hi < 2 ^ 62 + 64 /\ Forall (op_ok (Z.shiftr hi 3 + 1)) ops /\
  (ro = true -> Forall (fun o => is_write o = false) ops).

Lemma op_ok_mono n m o : n <= m -> op_ok n o -> op_ok m o.
Proof. intros Hnm [H1 H2 H3 H4]. constructor; try done. intros Hw. specialize (H4 Hw). lia. Qed.

Lemma parsed_get ops ro hi o : parsed ops ro hi -> op_ok (Z.shiftr hi 3 + 1) o -> is_write o = false -> parsed (ops ++ [o]) ro hi.
Proof.
  intros (H1 & H2 & H3) Ho Hw. split_and!; [lia..| |].
  - apply Forall_app. split; [done|]. apply Forall_cons_2; [done|apply Forall_nil_2].
  - intros Hro. apply Forall_app. split; [by apply H3|]. apply Forall_cons_2; [done|apply Forall_nil_2].
Qed.

Lemma parsed_write ops ro hi o : parsed ops ro hi -> 0 <= bf_offset o < 2 ^ 62 ->
  1 <= bf_bits o <= (if bf_sign o then 64 else 63) -> LLONG_MIN <= bf_i64 o <= LLONG_MAX ->
  let last := u64 (bf_offset o + bf_bits o - 1) in
  parsed (ops ++ [o]) false (if hi <? last then last else hi).
Proof.
  intros (H1 & H2 & H3) Ho Hb Hi last. assert (bf_bits o <= 64) as Hb64 by (destruct (bf_sign o); lia).
  assert (last = bf_offset o + bf_bits o - 1) as El by (apply u64_small; lia).
  set (hi' := if hi <? last then last else hi). assert (hi <= hi' /\ last <= hi' /\ hi' < 2 ^ 62 + 64) as (Hh & Hl & Hm)
    by (unfold hi'; case_if; lia).
  assert (Z.shiftr hi 3 <= Z.shiftr hi' 3) as Hmono by (rewrite !Z.shiftr_div_pow2 by lia; apply Z.div_le_mono; lia).
  split_and!; [lia..| |done]. apply Forall_app. split.
  - eapply Forall_impl; [exact H2|]. intros o' Ho'. eapply op_ok_mono; [|exact Ho']. lia.
  - apply Forall_cons_2; [|apply Forall_nil_2]. constructor; [done|lia|done|]. intros _.
    rewrite Z.shiftr_div_pow2 by lia. change (2 ^ 3) with 8. clear -El Hl. dlia.
Qed.

Lemma longlong_inl v e x : getLongLongFromObjectOrReply v e = inl x -> LLONG_MIN <= x <= LLONG_MAX.
Proof.
  unfold getLongLongFromObjectOrReply, getLongLongFromObject. destruct (string2ll v) as [y|] eqn:E; [|done].
  intros [= <-]. by apply string2ll_sound in E as [? _].
Qed.

Lemma bitfield_parse_spec fuel : forall argv ops owtype ro hi,
  (length argv <= fuel)%nat -> parsed ops ro hi ->
  exists r, bitfield_parse proto_max_bulk_len fuel argv ops owtype ro hi = Some r /\
    match r with inl (ops', ro', hi') => parsed ops' ro' hi' | inr _ => True end.
Proof.
  induction fuel as [|fuel IH]; intros [|subcmd args] ops owtype ro hi Hl Hp; cbn [length] in Hl;
    [by eexists|lia|by eexists|]. cbn [bitfield_parse].
  assert (forall opcode, (if is_write (mk_bitfieldOp 0 0 opcode owtype 0 false) then 3 else 2) <= zlen args ->
    exists r, (type ← args !! 0%nat; offset ← args !! 1%nat;
      match getBitfieldTypeFromArgument type with
      | inr e => Some (inr e)
      | inl (sign, bits) =>
          match getBitOffsetFromArgument proto_max_bulk_len offset true bits with
          | inr e => Some (inr e)
          | inl bitoffset =>
              match opcode with
              | BITFIELDOP_GET =>
                  bitfield_parse proto_max_bulk_len fuel (drop 2 args)
                    (ops ++ [mk_bitfieldOp bitoffset 0 opcode owtype bits sign]) owtype ro hi
              | _ =>
                  let last := u64 (bitoffset + bits - 1) in
                  let highest := if hi <? last then last else hi in
                  value ← args !! 2%nat;
                  match getLongLongFromObjectOrReply value NotInteger with
                  | inr e => Some (inr e)
                  | inl v =>
                      bitfield_parse proto_max_bulk_len fuel (drop 3 args)
                        (ops ++ [mk_bitfieldOp bitoffset v opcode owtype bits sign]) owtype false highest
                  end
              end
          end
      end) = Some r /\ match r with inl (ops', ro', hi') => parsed ops' ro' hi' | inr _ => True end) as Hop.
  { intros opcode Hargs. destruct args as [|ty [|offset args]]; [destruct opcode; cbn in Hargs; zlen..|].
    cbn [lookup list_lookup mbind option_bind].
    destruct (getBitfieldTypeFromArgument ty) as [[sign bits]|e] eqn:Et; [|by eexists]. apply type_inl in Et.
    destruct (getBitOffsetFromArgument _ offset true bits) as [off|e] eqn:Eo; [|by eexists]. apply offset_inl in Eo as [Eo _].
    assert (opcode = BITFIELDOP_GET \/ is_write (mk_bitfieldOp 0 0 opcode owtype 0 false) = true) as [->|Hw]
      by (destruct opcode; auto).
    - cbn [drop]. rewrite drop_0. apply IH; [cbn in Hl; lia|]. apply parsed_get; [done| |done].
      constructor; cbn; [done|lia|unfold LLONG_MIN, LLONG_MAX; lia|done].
    - rewrite Hw in Hargs. destruct args as [|value args]; [zlen|]. cbn [drop]. rewrite drop_0.
      cbn [lookup list_lookup mbind option_bind].
      destruct opcode; [done|..]; (destruct (getLongLongFromObjectOrReply value NotInteger) as [v|e] eqn:Ev; [|by eexists]);
        apply longlong_inl in Ev; (apply IH; [cbn in Hl; lia|]);
        exact (parsed_write _ _ _ (mk_bitfieldOp off v _ owtype bits sign) Hp Eo Et Ev). }
  destruct (is_name subcmd s_get && _) eqn:E1; [bool_to_prop; exact (Hop BITFIELDOP_GET ltac:(cbn; lia))|].
  destruct (is_name subcmd s_set && _) eqn:E2; [bool_to_prop; exact (Hop BITFIELDOP_SET ltac:(cbn; lia))|].
  destruct (is_name subcmd s_incrby && _) eqn:E3; [bool_to_prop; exact (Hop BITFIELDOP_INCRBY ltac:(cbn; lia))|].
  destruct (is_name subcmd s_overflow && _) eqn:E4; [bool_to_prop|by eexists].
  destruct args as [|name args]; [zlen|]. cbn [lookup list_lookup mbind option_bind drop]. rewrite drop_0. cbn in Hl.
  do 3 (case_if; [apply IH; [lia|done]|]). by eexists.
Qed.

Lemma replies_db rs : forall w, w_db (foldl addReply w rs) = w_db w.
Proof. induction rs as [|r rs IH]; intros w; [done|]. cbn [foldl]. by rewrite IH. Qed.

Lemma bitfield_safe w argv ro : world_ok w -> (1 <= length argv)%nat -> safe (bitfieldGeneric proto_max_bulk_len ro w argv).
Proof.
  intros Hw Hl. destruct argv as [|k args]; [cbn in Hl; lia|]. unfold bitfieldGeneric.
  cbn [lookup list_lookup mbind option_bind drop]. rewrite drop_0.
  destruct (bitfield_parse_spec (length (k :: args)) args [] BFOVERFLOW_WRAP true 0) as (r & -> & Hr); [cbn; lia| |].
  { split_and!; [lia..|apply Forall_nil_2|intros _; apply Forall_nil_2]. }
  cbn [mbind option_bind]. apply or_reply_safe; [done|]. intros [[ops readonly] hi] ->. destruct Hr as (Hhi & Hops & Hro).
  assert (0 <= Z.shiftr hi 3) as Hs0 by (by apply Z.shiftr_nonneg; lia). destruct readonly.
  - apply or_reply_safe; [done|]. intros o Ho. unfold lookupKey in Ho.
    assert (exists s, match o with None => Some [] | Some o => getObjectReadOnlyString o end = Some s /\
      Forall is_byte s /\ zlen s < 2 ^ 60) as (s & -> & Hs & Hsl).
    { destruct (w_db w !! k) as [o'|] eqn:E; [|injection Ho as <-; exists []; split_and!; [done|apply Forall_nil_2|done]].
      pose proof (type_string w k o' E o Ho o' E) as Hk. rewrite checkType_string in Ho by done. injection Ho as <-.
      exists (obj_text o'). rewrite getObjectReadOnlyString_spec by (by apply (Hw k) || done). split; [done|].
      apply obj_text_ok. by apply (Hw k). }
    cbn [mbind option_bind]. destruct (bitfield_exec_safe ops s 0) as (s' & rs & n & -> & _); [|done|lia|].
    { specialize (Hro eq_refl). apply Forall_forall. intros x Hx. rewrite Forall_forall in Hops, Hro.
      destruct (Hops x Hx) as [? ? ? _]. constructor; try done. intros Hwr. rewrite (Hro x Hx) in Hwr. done. }
    cbn [mbind option_bind]. eapply safe_same; [exact Hw|apply (replies_db (_ :: rs))].
  - destruct ro; [by apply safe_reply|].
    destruct (decide (string_key w k)) as [Hk|Hk]; [|by rewrite wrongtype; [apply safe_reply|]].
    destruct (lookupStringForBitCommand_spec w k hi Hw Hk ltac:(lia)) as (w1 & -> & E1 & _). cbn [mbind option_bind or_reply].
    destruct (key_text_ok w k Hw) as [Ht Htl].
    destruct (sdsgrowzero_ok (key_text w k) (Z.shiftr hi 3 + 1) Ht ltac:(lia)) as [Hs Hsl].
    set (s := sdsgrowzero (key_text w k) (Z.shiftr hi 3 + 1)) in *.
    assert (Z.shiftr hi 3 = hi / 8) as E8 by (by rewrite Z.shiftr_div_pow2 by lia).
    assert (zlen s < 2 ^ 60) as Hs60 by (rewrite Hsl; clear -Hhi Htl E8; dlia).
    destruct (bitfield_exec_safe ops s 0) as (s' & rs & n & -> & Hs' & Hl'); [|done|lia|].
    { eapply Forall_impl; [exact Hops|]. intros x. apply op_ok_mono. lia. }
    cbn [mbind option_bind]. unfold dbOverwrite. rewrite E1, lookup_insert_eq. cbn [mbind option_bind]. rewrite insert_insert_eq.
    set (w2 := with_db w1 (<[k := StrObj s']> (w_db w))).
    assert (forall w3, w_db w3 = w_db w2 -> world_ok w3) as Hw3.
    { intros w3 E3. apply (world_ok_insert w w3 k s'); [done|done|done|]. unfold zlen in *. lia. }
    case_if; (eexists; split; [done|]; apply Hw3; cbn [w_db add_dirty notifyKeyspaceEvent signalModifiedKey]; apply (replies_db (_ :: rs))).
Qed.

(** ** The claims *)

(** C17. Every bit command, on any arguments of its arity, runs without an access
    outside a string or a failed assertion, and leaves every value of the
    database well formed: strings of bytes and 64-bit integers. *)
Theorem bit_commands_safe c w argv :
  world_ok w -> arity_ok c argv -> exists w', run_bit c w argv = Some w' /\ world_ok w'.
Proof.
  intros Hw Ha. destruct c; cbn [arity_ok run_bit] in *.
  - destruct argv as [|? [|? [|? [|]]]]; try done. by apply setbit_safe.
  - destruct argv as [|? [|? [|]]]; try done. by apply getbit_safe.
  - by apply bitop_safe.
  - by apply bitcount_safe.
  - by apply bitpos_safe.
  - by apply bitfield_safe.
Qed.

(** SETBIT and GETBIT: SETBIT replies with the old bit, changes only its key,
    and afterwards GETBIT at any offset replies with the bit set at its offset
    and with the former bit everywhere else, whatever the encoding of the value
    was and however far the string had to grow. *)
Theorem setbit_getbit w k off on :
  world_ok w -> string_key w k -> 0 <= off -> Z.shiftr off 3 < proto_max_bulk_len ->
  exists w', setbitCommand proto_max_bulk_len w [k; decimal off; decimal (Z.b2z on)] = Some w' /\
    w_replies w' = w_replies w ++ [RInt (Z.b2z (bit_at (key_text w k) off))] /\
    (forall k', k' <> k -> w_db w' !! k' = w_db w !! k') /\
    forall i, 0 <= i -> Z.shiftr i 3 < proto_max_bulk_len ->
      getbitCommand proto_max_bulk_len w' [k; decimal i] =
        Some (addReplyLongLong w' (if i =? off then Z.b2z on else Z.b2z (bit_at (key_text w k) i))).
Proof.
  intros Hw Hk Ho Hm. destruct (setbit_spec w k off on Hw Hk Ho Hm) as (w' & s & E & Ed & Hs & Hl & Hbits & Er).
  exists w'. split_and!; [done|done| |].
  - intros k' Hne. rewrite Ed. by apply lookup_insert_ne.
  - intros i Hi Hmi. destruct (key_text_ok w k Hw) as [_ Htl].
    rewrite getbit_spec; [|eapply world_ok_insert; [exact Hw|exact Ed|done|lia]| |done|done].
    + do 2 f_equal. assert (key_text w' k = s) as -> by (unfold key_text; by rewrite Ed, lookup_insert_eq).
      rewrite Hbits by done. by case_if.
    + intros o Eo. rewrite Ed, lookup_insert_eq in Eo. by injection Eo as <-.
Qed.
End Commands.

(** C37. [redisPopcount] counts the bits set in the first [count] bytes, at every
    address and on hosts of either byte order: the parallel count of seven words
    at a time and the table agree with the definition. *)
Theorem redisPopcount_correct `{Host} a s count :
  0 <= count <= zlen s -> Forall is_byte s ->
  redisPopcount a s count = Some (ones (bits_of (take (Z.to_nat count) s))).
Proof. apply redisPopcount_spec. Qed.

(** C38. [redisBitpos] finds the first bit equal to the one asked for, at every
    address; without one it returns -1 for a set bit and the length for a clear
    one. The panic at its end is not reached. *)
Theorem redisBitpos_correct `{Host} a s count bit :
  0 <= count <= zlen s -> Forall is_byte s ->
  redisBitpos a s count bit =
    Some (match first_bit bit (bits_of (take (Z.to_nat count) s)) with
          | Some i => i
          | None => if bit then -1 else 8 * count
          end).
Proof. apply redisBitpos_spec. Qed.

(** ** Witnesses *)

Definition demo_host : Host := {| big_endian := false |}.

Lemma bit_commands_safe_witness :
  2 ^ 29 <= 2 ^ 59 /\
  exists w', run_bit (H := demo_host) (2 ^ 29) (fun _ => 3) CBitcount demo_keyspace [[97]] = Some w' /\ world_ok w'.
Proof.
  split; [vm_compute; congruence|].
  apply (bit_commands_safe (H := demo_host) (2 ^ 29) (fun _ => 3) ltac:(vm_compute; congruence) CBitcount demo_keyspace [[97]] demo_keyspace_ok).
  cbn. lia.
Defined.

Lemma setbit_getbit_witness :
  exists w', setbitCommand (2 ^ 29) demo_keyspace [[98]; decimal 100; decimal (Z.b2z true)] = Some w' /\
    w_replies w' = [RInt (Z.b2z (bit_at (decimal (-12)) 100))] /\
    (forall k', k' <> [98] -> w_db w' !! k' = w_db demo_keyspace !! k') /\
    forall i, 0 <= i -> Z.shiftr i 3 < 2 ^ 29 ->
      getbitCommand (2 ^ 29) w' [[98]; decimal i] =
        Some (addReplyLongLong w' (if i =? 100 then Z.b2z true else Z.b2z (bit_at (decimal (-12)) i))).
Proof.
  apply (setbit_getbit (2 ^ 29) ltac:(vm_compute; congruence) demo_keyspace [98] 100 true demo_keyspace_ok).
  - intros o E. vm_compute in E. injection E as <-. reflexivity.
  - lia.
  - vm_compute. reflexivity.
Defined.

Lemma redisPopcount_correct_witness :
  redisPopcount (H := demo_host) 3 (replicate 40 7) 35 = Some 105.
Proof.
  apply (redisPopcount_correct (H := demo_host) 3 (replicate 40 7) 35).
  - vm_compute. split; congruence.
  - apply Forall_replicate. unfold is_byte. lia.
Defined.

Lemma redisBitpos_correct_witness :
  redisBitpos (H := demo_host) 5 (replicate 20 0 ++ [16]) 21 true = Some 163.
Proof.
  apply (redisBitpos_correct (H := demo_host) 5 (replicate 20 0 ++ [16]) 21 true).
  - vm_compute. split; congruence.
  - apply Forall_app. split; [apply Forall_replicate; unfold is_byte; lia|]. repeat constructor; unfold is_byte; lia.
Defined.
