(* ===== verification/Zskiplist.v ===== *)
(** * Skip lists of sorted sets ([t_zset.c], [server.h], [sds.c])

    The nodes live in a heap; a node has as many levels as it was given, each
    with a forward pointer and the number of nodes it skips. An access through
    NULL, to a freed node or to a level a node does not have, and a failed
    assertion, have no result. Scores are doubles that are not NaN: of them the
    code uses the comparisons only, which the class [Score] provides. *)

From stdpp Require Import base list option gmap.
From Stdlib Require Import ZArith Lia Bool.
From S2P Require Import Prelude.

Local Open Scope Z_scope.

(** [<] and [==] on numbers that are not NaN: a strict weak order and its
    equivalence. *)
Class Score (S : Type) := {
  score_lt : S -> S -> bool;
  score_eq : S -> S -> bool;
  score_lt_irrefl s : score_lt s s = false;
  score_lt_trans s t u : score_lt s t = true -> score_lt t u = true -> score_lt s u = true;
  score_lt_cotrans s t u : score_lt s u = true -> score_lt s t = true \/ score_lt t u = true;
  score_eq_spec s t : score_eq s t = negb (score_lt s t) && negb (score_lt t s);
}.

Abbreviation sds := (list Z) (only parsing).

(** [memcmp]: the difference of the first bytes that differ. *)
Fixpoint memcmp (s t : list Z) (n : nat) : Z :=
  match n, s, t with
  | S n', a :: s', b :: t' => if a =? b then memcmp s' t' n' else a - b
  | _, _, _ => 0
  end.

Definition sdscmp (s1 s2 : sds) : Z :=
  let l1 := zlen s1 in
  let l2 := zlen s2 in
  let minlen := if l1 <? l2 then l1 else l2 in
  let cmp := memcmp s1 s2 (Z.to_nat minlen) in
  if cmp =? 0 then if l2 <? l1 then 1 else if l1 <? l2 then -1 else 0 else cmp.

Definition ZSKIPLIST_MAXLEVEL : Z := 32.

Record zskiplistLevel := mk_level {
  forward : option positive;
  span : Z;
}.

Record zskiplistNode {S : Type} := mk_znode {
  ele : option sds;
  score : S;
  backward : option positive;
  level : list zskiplistLevel;
}.
Arguments zskiplistNode : clear implicits.
Arguments mk_znode {S} _ _ _ _.

Record zskiplist := mk_zsl {
  header : positive;
  tail : option positive;
  zlength : Z;
  zlevel : Z;
}.

(** [ZSKIPLIST_P * 0xFFFF] is 16383.75; the results of [random] are the list. *)
Fixpoint random_level (draws : list Z) (level : Z) : option Z :=
  match draws with
  | [] => None
  | r :: draws' => if Z.land r 0xFFFF <=? 16383 then random_level draws' (level + 1) else Some level
  end.

Definition zslRandomLevel (draws : list Z) : option Z :=
  level ← random_level draws 1;
  Some (if level <? ZSKIPLIST_MAXLEVEL then level else ZSKIPLIST_MAXLEVEL).

Section Ops.
Context {S : Type} `{Score S}.

Abbreviation node := (zskiplistNode S).
Abbreviation heap := (gmap positive (zskiplistNode S)).
Implicit Types (h : heap) (zsl : zskiplist).

(** ** Fields *)

Definition get_level h (p : positive) (i : nat) : option zskiplistLevel :=
  n ← h !! p; level n !! i.

Definition set_level h (p : positive) (i : nat) (l : zskiplistLevel) : option heap :=
  n ← h !! p;
  _ ← level n !! i;
  Some (<[p := mk_znode (ele n) (score n) (backward n) (<[i := l]> (level n))]> h).

Definition set_backward h (p : positive) (q : option positive) : option heap :=
  n ← h !! p; Some (<[p := mk_znode (ele n) (score n) q (level n)]> h).

Definition set_score h (p : positive) (s : S) : option heap :=
  n ← h !! p; Some (<[p := mk_znode (ele n) s (backward n) (level n)]> h).

(** ** Creation *)

(** The backward pointer and the levels of a new node are not initialised: they
    hold the pointer and the span of [junk]. *)
Definition zslCreateNode (junk : zskiplistLevel) (level : Z) (s : S) (e : option sds) : node :=
  mk_znode e s (forward junk) (replicate (Z.to_nat level) junk).

(** [zero] is the score 0; [p] the block of the header. *)
Definition zslCreate (p : positive) (zero : S) h : heap * zskiplist :=
  let n := mk_znode None zero None (replicate (Z.to_nat ZSKIPLIST_MAXLEVEL) (mk_level None 0)) in
  (<[p := n]> h, mk_zsl p None 0 1).

(** The loop over level 0, [fuel] nodes at most. *)
Fixpoint free_loop (fuel : nat) h (x : option positive) : option heap :=
  match x with
  | None => Some h
  | Some p =>
      match fuel with
      | O => None
      | Datatypes.S fuel' =>
          l ← get_level h p 0;
          free_loop fuel' (delete p h) (forward l)
      end
  end.

Definition zslFree h zsl : option heap :=
  l ← get_level h (header zsl) 0;
  free_loop (Z.to_nat (zlength zsl)) (delete (header zsl) h) (forward l).

(** ** Walking

    [while (x->level[i].forward && go(...)) { rank += span; x = forward; }]: the
    condition sees the rank so far, the span and the next node; ranks are
    integers of [w] bits. *)
Fixpoint walk (w : Z) (go : Z -> Z -> node -> bool) (fuel : nat) h (i : nat) (x : positive) (rank : Z)
    : option (positive * Z) :=
  l ← get_level h x i;
  match forward l with
  | None => Some (x, rank)
  | Some f =>
      n ← h !! f;
      if go rank (span l) n then
        match fuel with
        | O => None
        | Datatypes.S fuel' => walk w go fuel' h i f (wrap w (rank + span l))
        end
      else Some (x, rank)
  end.

(** [for (i = level-1; i >= 0; i--)]: for every level the node where the walk
    stopped ([update[i]]) and the rank there. *)
Fixpoint search (w : Z) (go : Z -> Z -> node -> bool) (fuel : nat) h (levels : nat) (x : positive) (rank : Z)
    : option (list (positive * Z)) :=
  match levels with
  | O => Some []
  | Datatypes.S i =>
      '(x, rank) ← walk w go fuel h i x rank;
      rest ← search w go fuel h i x rank;
      Some (rest ++ [(x, rank)])
  end.

Definition search_from_header (w : Z) (go : Z -> Z -> node -> bool) h zsl : option (list (positive * Z)) :=
  search w go (Z.to_nat (zlength zsl)) h (Z.to_nat (zlevel zsl)) (header zsl) 0.

(** [score < s || (score == s && sdscmp(ele, e) < 0)], the node having an element. *)
Definition node_before (s : S) (e : sds) (n : node) : bool :=
  score_lt (score n) s || (score_eq (score n) s && match ele n with Some e' => sdscmp e' e <? 0 | None => false end).

(** ** Insertion *)

(** [for (i = zsl->level; i < level; i++)] the span of the header; [k] levels. *)
Fixpoint raise_levels (k : nat) (i : nat) h (hd : positive) (len : Z) : option heap :=
  match k with
  | O => Some h
  | Datatypes.S k' =>
      l ← get_level h hd i;
      h ← set_level h hd i (mk_level (forward l) len);
      raise_levels k' (Datatypes.S i) h hd len
  end.

(** [for (i = 0; i < level; i++)] linking [x]; [rank0] is [rank[0]]. *)
Fixpoint link_levels (update : list (positive * Z)) (i : nat) h (x : positive) (rank0 : Z) : option heap :=
  match update with
  | [] => Some h
  | (u, rank) :: update' =>
      l ← get_level h u i;
      h ← set_level h x i (mk_level (forward l) (u64 (span l - u32 (rank0 - rank))));
      h ← set_level h u i (mk_level (Some x) (u32 (u32 (rank0 - rank) + 1)));
      link_levels update' (Datatypes.S i) h x rank0
  end.

(** [for (i = level; i < zsl->level; i++) update[i]->level[i].span++] *)
Fixpoint bump_levels (update : list (positive * Z)) (i : nat) h : option heap :=
  match update with
  | [] => Some h
  | (u, _) :: update' =>
      l ← get_level h u i;
      h ← set_level h u i (mk_level (forward l) (u64 (span l + 1)));
      bump_levels update' (Datatypes.S i) h
  end.

(** [p] is the block of the new node, [level] the level drawn. *)
Definition zslInsert (p : positive) (junk : zskiplistLevel) (level : Z) h zsl (s : S) (e : sds) : option (heap * zskiplist) :=
  update ← search_from_header 32 (fun _ _ => node_before s e) h zsl;
  '(h, update, top) ← (if zlevel zsl <? level then
      let k := Z.to_nat (level - zlevel zsl) in
      h ← raise_levels k (Z.to_nat (zlevel zsl)) h (header zsl) (zlength zsl);
      Some (h, update ++ replicate k (header zsl, 0), level)
    else Some (h, update, zlevel zsl));
  '(u0, rank0) ← update !! 0%nat;
  let h := <[p := zslCreateNode junk level s (Some e)]> h in
  h ← link_levels (take (Z.to_nat level) update) 0 h p rank0;
  h ← bump_levels (drop (Z.to_nat level) update) (Z.to_nat level) h;
  h ← set_backward h p (if bool_decide (u0 = header zsl) then None else Some u0);
  l ← get_level h p 0;
  '(h, tl) ← match forward l with
             | Some f => h ← set_backward h f (Some p); Some (h, tail zsl)
             | None => Some (h, Some p)
             end;
  Some (h, mk_zsl (header zsl) tl (u64 (zlength zsl + 1)) top).

(** ** Deletion *)

(** [for (i = 0; i < zsl->level; i++)] *)
Fixpoint unlink_levels (update : list (positive * Z)) (i : nat) h (x : positive) : option heap :=
  match update with
  | [] => Some h
  | (u, _) :: update' =>
      l ← get_level h u i;
      h ← (if bool_decide (forward l = Some x) then
             lx ← get_level h x i;
             set_level h u i (mk_level (forward lx) (u64 (span l + u64 (span lx - 1))))
           else set_level h u i (mk_level (forward l) (u64 (span l - 1))));
      unlink_levels update' (Datatypes.S i) h x
  end.

(** [while(zsl->level > 1 && ...) zsl->level--], at most [fuel] times. *)
Fixpoint lower_level (fuel : nat) h (hd : positive) (lv : Z) : option Z :=
  if 1 <? lv then
    l ← get_level h hd (Z.to_nat (lv - 1));
    match forward l with
    | Some _ => Some lv
    | None => match fuel with O => None | Datatypes.S fuel' => lower_level fuel' h hd (lv - 1) end
    end
  else Some lv.

Definition zslDeleteNode h zsl (x : positive) (update : list (positive * Z)) : option (heap * zskiplist) :=
  h ← unlink_levels (take (Z.to_nat (zlevel zsl)) update) 0 h x;
  l ← get_level h x 0;
  n ← h !! x;
  '(h, tl) ← match forward l with
             | Some f => h ← set_backward h f (backward n); Some (h, tail zsl)
             | None => Some (h, backward n)
             end;
  lv ← lower_level (Z.to_nat (zlevel zsl)) h (header zsl) (zlevel zsl);
  Some (h, mk_zsl (header zsl) tl (u64 (zlength zsl - 1)) lv).

(** [x = x->level[0].forward] after a search. *)
Definition next_of h (update : list (positive * Z)) : option (option positive) :=
  '(u0, _) ← update !! 0%nat;
  l ← get_level h u0 0;
  Some (forward l).

Definition node_is (s : S) (e : sds) (n : node) : bool :=
  score_eq s (score n) && match ele n with Some e' => sdscmp e' e =? 0 | None => false end.

(** The flag is the result; [keep] says that the caller passes [node] and the
    node is not freed. *)
Definition zslDelete h zsl (s : S) (e : sds) (keep : bool) : option (heap * zskiplist * bool) :=
  update ← search_from_header 64 (fun _ _ => node_before s e) h zsl;
  x ← next_of h update;
  match x with
  | None => Some (h, zsl, false)
  | Some x =>
      n ← h !! x;
      if node_is s e n then
        '(h, zsl) ← zslDeleteNode h zsl x update;
        Some (if keep then h else delete x h, zsl, true)
      else Some (h, zsl, false)
  end.

Definition zslUpdateScore (p : positive) (junk : zskiplistLevel) (level : Z) h zsl (curscore : S) (e : sds) (newscore : S)
    : option (heap * zskiplist * positive) :=
  update ← search_from_header 64 (fun _ _ => node_before curscore e) h zsl;
  x ← next_of h update;
  x ← x;
  n ← h !! x;
  if node_is curscore e n then
    before ← match backward n with
             | None => Some true
             | Some b => nb ← h !! b; Some (score_lt (score nb) newscore)
             end;
    l ← get_level h x 0;
    after ← match forward l with
            | None => Some true
            | Some f => nf ← h !! f; Some (score_lt newscore (score nf))
            end;
    if (before : bool) && after then
      h ← set_score h x newscore;
      Some (h, zsl, x)
    else
      '(h, zsl) ← zslDeleteNode h zsl x update;
      xele ← ele n;
      '(h, zsl) ← zslInsert p junk level h zsl newscore xele;
      Some (delete x h, zsl, p)
  else None.

(** ** Ranges by score *)

Record zrangespec := mk_zrangespec {
  zmin : S;
  zmax : S;
  minex : bool;
  maxex : bool;
}.

(** [value > min] is [min < value]; [value >= min] is its negation. *)
Definition zslValueGteMin (value : S) (spec : zrangespec) : bool :=
  if minex spec then score_lt (zmin spec) value else negb (score_lt value (zmin spec)).
Definition zslValueLteMax (value : S) (spec : zrangespec) : bool :=
  if maxex spec then score_lt value (zmax spec) else negb (score_lt (zmax spec) value).

Definition first_node h zsl : option (option positive) :=
  l ← get_level h (header zsl) 0; Some (forward l).

(** The test of the ends of the list, for a range given by its two tests. *)
Definition ends_in_range (gte lte : node -> bool) h zsl : option bool :=
  match tail zsl with
  | None => Some false
  | Some x =>
      n ← h !! x;
      if negb (gte n) then Some false
      else
        x ← first_node h zsl;
        match x with
        | None => Some false
        | Some x => n ← h !! x; Some (lte n)
        end
  end.

Definition zslIsInRange h zsl (range : zrangespec) : option bool :=
  if score_lt (zmax range) (zmin range) || (score_eq (zmin range) (zmax range) && (minex range || maxex range))
  then Some false
  else ends_in_range (fun n => zslValueGteMin (score n) range) (fun n => zslValueLteMax (score n) range) h zsl.

Definition zslFirstInRange h zsl (range : zrangespec) : option (option positive) :=
  inside ← zslIsInRange h zsl range;
  if negb inside then Some None
  else
    update ← search_from_header 64 (fun _ _ n => negb (zslValueGteMin (score n) range)) h zsl;
    x ← next_of h update;
    x ← x;
    n ← h !! x;
    Some (if zslValueLteMax (score n) range then Some x else None).

Definition zslLastInRange h zsl (range : zrangespec) : option (option positive) :=
  inside ← zslIsInRange h zsl range;
  if negb inside then Some None
  else
    update ← search_from_header 64 (fun _ _ n => zslValueLteMax (score n) range) h zsl;
    '(x, _) ← update !! 0%nat;
    n ← h !! x;
    Some (if zslValueGteMin (score n) range then Some x else None).

(** [while (x && in range)]: the nodes deleted from [x] on; the elements taken
    out of the dictionary are returned in order. *)
Fixpoint delete_while (inside : Z -> node -> bool) (fuel : nat) h zsl (x : option positive) (update : list (positive * Z))
    (traversed : Z) (removed : list sds) : option (heap * zskiplist * list sds) :=
  match x with
  | None => Some (h, zsl, removed)
  | Some p =>
      n ← h !! p;
      if inside traversed n then
        match fuel with
        | O => None
        | Datatypes.S fuel' =>
            l ← get_level h p 0;
            '(h, zsl) ← zslDeleteNode h zsl p update;
            e ← ele n;
            delete_while inside fuel' (delete p h) zsl (forward l) update (u64 (traversed + 1)) (removed ++ [e])
        end
      else Some (h, zsl, removed)
  end.

Definition zslDeleteRangeByScore h zsl (range : zrangespec) : option (heap * zskiplist * list sds) :=
  update ← search_from_header 64 (fun _ _ n => negb (zslValueGteMin (score n) range)) h zsl;
  x ← next_of h update;
  delete_while (fun _ n => zslValueLteMax (score n) range) (Z.to_nat (zlength zsl)) h zsl x update 0 [].

(** ** Ranks *)

Definition zslDeleteRangeByRank h zsl (start end_ : Z) : option (heap * zskiplist * list sds) :=
  update ← search_from_header 64 (fun traversed sp _ => u64 (traversed + sp) <? start) h zsl;
  '(_, traversed) ← update !! 0%nat;
  x ← next_of h update;
  delete_while (fun traversed _ => traversed <=? end_) (Z.to_nat (zlength zsl)) h zsl x update (u64 (traversed + 1)) [].

(** The loop over the levels, with the return inside it. *)
Fixpoint rank_levels (s : S) (e : sds) (fuel : nat) h (levels : nat) (x : positive) (rank : Z) : option Z :=
  match levels with
  | O => Some 0
  | Datatypes.S i =>
      '(x, rank) ← walk 64 (fun _ _ n => score_lt (score n) s || (score_eq (score n) s &&
                     match ele n with Some e' => sdscmp e' e <=? 0 | None => false end)) fuel h i x rank;
      n ← h !! x;
      if match ele n with Some e' => sdscmp e' e =? 0 | None => false end then Some rank
      else rank_levels s e fuel h i x rank
  end.

Definition zslGetRank h zsl (s : S) (e : sds) : option Z :=
  rank_levels s e (Z.to_nat (zlength zsl)) h (Z.to_nat (zlevel zsl)) (header zsl) 0.

Fixpoint element_levels (rank : Z) (fuel : nat) h (levels : nat) (x : positive) (traversed : Z) : option (option positive) :=
  match levels with
  | O => Some None
  | Datatypes.S i =>
      '(x, traversed) ← walk 64 (fun traversed sp _ => u64 (traversed + sp) <=? rank) fuel h i x traversed;
      if traversed =? rank then Some (Some x) else element_levels rank fuel h i x traversed
  end.

Definition zslGetElementByRank h zsl (rank : Z) : option (option positive) :=
  element_levels rank (Z.to_nat (zlength zsl)) h (Z.to_nat (zlevel zsl)) (header zsl) 0.

(** ** Ranges by element *)

(** [shared.minstring], [shared.maxstring] or a string. *)
Inductive lexstring := MinString | MaxString | LexString (s : sds).

Record zlexrangespec := mk_zlexrangespec {
  lexmin : lexstring;
  lexmax : lexstring;
  lminex : bool;
  lmaxex : bool;
}.

Definition zslParseLexRangeItem (item : list Z) : option (lexstring * bool) :=
  let c0 := default 0 (item !! 0%nat) in
  let c1 := default 0 (item !! 1%nat) in
  if c0 =? 43 then if c1 =? 0 then Some (MaxString, true) else None
  else if c0 =? 45 then if c1 =? 0 then Some (MinString, true) else None
  else if c0 =? 40 then Some (LexString (drop 1 item), true)
  else if c0 =? 91 then Some (LexString (drop 1 item), false)
  else None.

Definition sdscmplex (a b : lexstring) : Z :=
  match a, b with
  | MinString, MinString => 0
  | MaxString, MaxString => 0
  | MinString, _ => -1
  | _, MaxString => -1
  | MaxString, _ => 1
  | _, MinString => 1
  | LexString a, LexString b => sdscmp a b
  end.

Definition zslLexValueGteMin (value : sds) (spec : zlexrangespec) : bool :=
  if lminex spec then 0 <? sdscmplex (LexString value) (lexmin spec)
  else 0 <=? sdscmplex (LexString value) (lexmin spec).
Definition zslLexValueLteMax (value : sds) (spec : zlexrangespec) : bool :=
  if lmaxex spec then sdscmplex (LexString value) (lexmax spec) <? 0
  else sdscmplex (LexString value) (lexmax spec) <=? 0.

(** The tests on a node (the header has no element). *)
Definition lex_gte (range : zlexrangespec) (n : node) : bool :=
  match ele n with Some e => zslLexValueGteMin e range | None => false end.
Definition lex_lte (range : zlexrangespec) (n : node) : bool :=
  match ele n with Some e => zslLexValueLteMax e range | None => false end.

Definition zslIsInLexRange h zsl (range : zlexrangespec) : option bool :=
  let cmp := sdscmplex (lexmin range) (lexmax range) in
  if (0 <? cmp) || ((cmp =? 0) && (lminex range || lmaxex range)) then Some false
  else ends_in_range (lex_gte range) (lex_lte range) h zsl.

Definition zslFirstInLexRange h zsl (range : zlexrangespec) : option (option positive) :=
  inside ← zslIsInLexRange h zsl range;
  if negb inside then Some None
  else
    update ← search_from_header 64 (fun _ _ n => negb (lex_gte range n)) h zsl;
    x ← next_of h update;
    x ← x;
    n ← h !! x;
    Some (if lex_lte range n then Some x else None).

Definition zslLastInLexRange h zsl (range : zlexrangespec) : option (option positive) :=
  inside ← zslIsInLexRange h zsl range;
  if negb inside then Some None
  else
    update ← search_from_header 64 (fun _ _ => lex_lte range) h zsl;
    '(x, _) ← update !! 0%nat;
    n ← h !! x;
    Some (if lex_gte range n then Some x else None).

Definition zslDeleteRangeByLex h zsl (range : zlexrangespec) : option (heap * zskiplist * list sds) :=
  update ← search_from_header 64 (fun _ _ n => negb (lex_gte range n)) h zsl;
  x ← next_of h update;
  delete_while (fun _ => lex_lte range) (Z.to_nat (zlength zsl)) h zsl x update 0 [].

End Ops.
