(* ===== verification/ZskiplistFacts.v ===== *)
(** * Skip lists: the representation of a sequence of elements

    An entry is an element with its score, the address of its node and the
    number of its levels. The forward pointer and the span of every level of
    every node are determined by the entries that follow it ([link]). *)

From stdpp Require Import base list option gmap sorting.
From Stdlib Require Import ZArith Lia Bool.
From S2P Require Import Prelude Zskiplist.

Local Open Scope Z_scope.

(** ** The order of the elements *)

(** Lexicographic comparison. *)
Fixpoint lex (a b : list Z) : Z :=
  match a, b with
  | [], [] => 0
  | [], _ => -1
  | _, [] => 1
  | x :: a', y :: b' => if x =? y then lex a' b' else x - y
  end.

Lemma sdscmp_lex a b : sdscmp a b = lex a b.
Proof.
  unfold sdscmp. revert b; induction a as [|x a IH]; intros b.
  - destruct b as [|y b]; [done|]. change (zlen (@nil Z)) with 0. rewrite (proj2 (Z.ltb_lt 0 (zlen (y :: b)))) by zlen.
    cbn [Z.to_nat memcmp Z.eqb lex]. by rewrite (proj2 (Z.ltb_ge (zlen (y :: b)) 0)) by zlen.
  - destruct b as [|y b]; [change (zlen (@nil Z)) with 0; rewrite (proj2 (Z.ltb_ge (zlen (x :: a)) 0)) by zlen|].
    + cbn [Z.to_nat memcmp Z.eqb lex]. by rewrite (proj2 (Z.ltb_lt 0 (zlen (x :: a)))) by zlen.
    + specialize (IH b). cbn [lex].
      replace (Z.to_nat (if zlen (x :: a) <? zlen (y :: b) then zlen (x :: a) else zlen (y :: b)))
        with (S (Z.to_nat (if zlen a <? zlen b then zlen a else zlen b))).
      2: { destruct (Z.ltb_spec (zlen a) (zlen b)), (Z.ltb_spec (zlen (x :: a)) (zlen (y :: b))); zlen. }
      cbn [memcmp]. destruct (Z.eqb_spec x y); [|by rewrite (proj2 (Z.eqb_neq (x - y) 0)) by lia].
      rewrite <- IH. rewrite !zlen_cons.
      replace (1 + zlen b <? 1 + zlen a) with (zlen b <? zlen a) by lia.
      by replace (1 + zlen a <? 1 + zlen b) with (zlen a <? zlen b) by lia.
Qed.

Lemma lex_eq a b : lex a b = 0 <-> a = b.
Proof.
  revert b; induction a as [|x a IH]; intros [|y b]; cbn [lex]; try (split; [lia|done]); [done|].
  destruct (Z.eqb_spec x y) as [->|Hne]; [rewrite IH|].
  - split; [by intros ->|by intros [= ->]].
  - split; [lia|]. intros [= -> _]. done.
Qed.

Lemma lex_refl a : lex a a = 0.
Proof. by apply lex_eq. Qed.

Lemma lex_antisym a b : lex a b < 0 <-> 0 < lex b a.
Proof.
  revert b; induction a as [|x a IH]; intros [|y b]; cbn [lex]; try lia.
  destruct (Z.eqb_spec x y), (Z.eqb_spec y x); try lia. apply IH.
Qed.

Lemma lex_trans a b c : lex a b < 0 -> lex b c < 0 -> lex a c < 0.
Proof.
  revert b c; induction a as [|x a IH]; intros [|y b] [|z c]; cbn [lex]; try lia.
  destruct (Z.eqb_spec x y), (Z.eqb_spec y z), (Z.eqb_spec x z); try lia. apply IH.
Qed.

Section Order.
Context {S : Type} `{Score S}.

(** The order of scores, then elements. *)
Definition key_lt (k1 k2 : S * sds) : bool :=
  score_lt k1.1 k2.1 || (score_eq k1.1 k2.1 && (lex k1.2 k2.2 <? 0)).

Definition same_key (k1 k2 : S * sds) : Prop := score_eq k1.1 k2.1 = true /\ k1.2 = k2.2.

Lemma score_eq_iff s t : score_eq s t = true <-> score_lt s t = false /\ score_lt t s = false.
Proof. rewrite score_eq_spec, andb_true_iff, !negb_true_iff. done. Qed.

Lemma score_eq_sym s t : score_eq s t = score_eq t s.
Proof. rewrite !score_eq_spec. apply andb_comm. Qed.

Lemma score_lt_eq_l s t u : score_eq s t = true -> score_lt t u = true -> score_lt s u = true.
Proof.
  rewrite score_eq_iff. intros [H1 H2] H3. destruct (score_lt_cotrans t s u H3) as [H4|H4]; [congruence|done].
Qed.

Lemma score_lt_eq_r s t u : score_lt s t = true -> score_eq t u = true -> score_lt s u = true.
Proof.
  rewrite score_eq_iff. intros H3 [H1 H2]. destruct (score_lt_cotrans s u t H3) as [H4|H4]; [done|congruence].
Qed.

Lemma score_eq_trans s t u : score_eq s t = true -> score_eq t u = true -> score_eq s u = true.
Proof.
  intros H1 H2. apply score_eq_iff. split; apply not_true_iff_false; intros H3.
  - rewrite score_eq_sym in H1. pose proof (score_lt_eq_l _ _ _ H1 H3) as H4. apply score_eq_iff in H2 as [H5 _]. congruence.
  - pose proof (score_lt_eq_r _ _ _ H3 H1) as H4. apply score_eq_iff in H2 as [_ H5]. congruence.
Qed.

Lemma key_lt_irrefl k : key_lt k k = false.
Proof. unfold key_lt. rewrite score_lt_irrefl, lex_refl. cbn. apply andb_false_r. Qed.

Lemma key_lt_trans k1 k2 k3 : key_lt k1 k2 = true -> key_lt k2 k3 = true -> key_lt k1 k3 = true.
Proof.
  unfold key_lt. rewrite !orb_true_iff, !andb_true_iff, !Z.ltb_lt. intros [H1|[H1 H1']] [H2|[H2 H2']].
  - left. by eapply score_lt_trans.
  - left. by eapply score_lt_eq_r.
  - left. by eapply score_lt_eq_l.
  - right. split; [by eapply score_eq_trans|by eapply lex_trans].
Qed.

Lemma key_lt_asym k1 k2 : key_lt k1 k2 = true -> key_lt k2 k1 = false.
Proof.
  intros H1. apply not_true_iff_false. intros H2. pose proof (key_lt_trans _ _ _ H1 H2) as H3. by rewrite key_lt_irrefl in H3.
Qed.

(** Two keys neither of which is before the other are the same. *)
Lemma key_total k1 k2 : key_lt k1 k2 = false -> key_lt k2 k1 = false -> same_key k1 k2.
Proof.
  unfold key_lt, same_key. rewrite !orb_false_iff, !andb_false_iff. intros [H1 H1'] [H2 H2'].
  assert (score_eq k1.1 k2.1 = true) as He by (by apply score_eq_iff). split; [done|].
  rewrite score_eq_sym in H2'. rewrite He in *. destruct H1' as [|H1'], H2' as [|H2']; try done.
  rewrite Z.ltb_ge in *. apply lex_eq. pose proof (lex_antisym k1.2 k2.2). pose proof (lex_antisym k2.2 k1.2). lia.
Qed.

Lemma same_key_not_lt k1 k2 : same_key k1 k2 -> key_lt k1 k2 = false.
Proof.
  intros [H1 H2]. unfold key_lt. apply score_eq_iff in H1 as H1'. destruct H1' as [-> _]. rewrite H1, H2, lex_refl. done.
Qed.
End Order.

(** ** Entries and links *)

Record entry {S : Type} := mk_entry {
  e_addr : positive;
  e_score : S;
  e_ele : sds;
  e_height : nat;
}.
Arguments entry : clear implicits.
Arguments mk_entry {S} _ _ _ _.

Section Rep.
Context {S : Type} `{Score S}.

Abbreviation node := (zskiplistNode S).
Abbreviation heap := (gmap positive (zskiplistNode S)).
Implicit Types (h : heap) (zsl : zskiplist) (ns A B P Q : list (entry S)) (e : entry S).

Definition e_key e : S * sds := (e_score e, e_ele e).

(** No entry reaches level [i]. *)
Definition low (i : nat) (Q : list (entry S)) : Prop := Forall (fun e => (e_height e <= i)%nat) Q.

(** The level [i] of a node followed by [Q]. *)
Fixpoint link (i : nat) (Q : list (entry S)) : zskiplistLevel :=
  match Q with
  | [] => mk_level None 0
  | e :: Q' =>
      if Nat.ltb i (e_height e) then mk_level (Some (e_addr e)) 1
      else mk_level (forward (link i Q')) (span (link i Q') + 1)
  end.

Definition shift (n : Z) (l : zskiplistLevel) : zskiplistLevel := mk_level (forward l) (span l + n).

Lemma low_or_split i Q : low i Q \/ exists Q1 e Q2, Q = Q1 ++ e :: Q2 /\ low i Q1 /\ (i < e_height e)%nat.
Proof.
  induction Q as [|e Q IH]; [left; apply Forall_nil_2|]. destruct (Nat.lt_ge_cases i (e_height e)) as [Hi|Hi].
  - right. exists [], e, Q. split_and!; [done|apply Forall_nil_2|done].
  - destruct IH as [IH|(Q1 & e' & Q2 & -> & H1 & H2)]; [left; by apply Forall_cons_2|].
    right. exists (e :: Q1), e', Q2. split_and!; [done|by apply Forall_cons_2|done].
Qed.

Lemma link_low i Q B : low i Q -> link i (Q ++ B) = shift (zlen Q) (link i B).
Proof.
  induction 1 as [|e Q He Hq IH]; cbn [app link].
  - unfold shift. rewrite zlen_nil, Z.add_0_r. by destruct (link i B).
  - rewrite (proj2 (Nat.ltb_ge _ _)) by done. rewrite IH. unfold shift. cbn [forward span]. f_equal. zlen.
Qed.

Lemma link_high i Q1 e Q2 : low i Q1 -> (i < e_height e)%nat -> link i (Q1 ++ e :: Q2) = mk_level (Some (e_addr e)) (zlen Q1 + 1).
Proof.
  intros Hl Hi. rewrite link_low by done. cbn [link]. rewrite (proj2 (Nat.ltb_lt _ _)) by done. unfold shift. cbn. f_equal. lia.
Qed.

Lemma link_not_low i Q B B' : ~ low i Q -> link i (Q ++ B) = link i (Q ++ B').
Proof.
  intros Hn. destruct (low_or_split i Q) as [|(Q1 & e & Q2 & -> & H1 & H2)]; [done|].
  rewrite <- !app_assoc. cbn [app]. by rewrite !link_high.
Qed.

Lemma link_span i Q : 0 <= span (link i Q) <= zlen Q.
Proof. induction Q as [|e Q IH]; cbn [link]; [done|]. case_if; cbn [span]; zlen. Qed.

Lemma link_forward i Q q : forward (link i Q) = Some q ->
  exists Q1 e Q2, Q = Q1 ++ e :: Q2 /\ low i Q1 /\ (i < e_height e)%nat /\ e_addr e = q.
Proof.
  intros Hf. destruct (low_or_split i Q) as [Hl|(Q1 & e & Q2 & -> & H1 & H2)].
  - rewrite <- (app_nil_r Q), link_low in Hf by done. done.
  - exists Q1, e, Q2. rewrite link_high in Hf by done. cbn in Hf. split_and!; [done..|congruence].
Qed.

(** ** Updates of levels *)

(** [U p i] is the new level [i] of the node at [p], if it changes. *)
Definition relevel (U : positive -> nat -> option zskiplistLevel) (p : positive) (n : node) : node :=
  mk_znode (ele n) (score n) (backward n) (imap (fun i l => default l (U p i)) (level n)).

Definition apply_upd (U : positive -> nat -> option zskiplistLevel) h : heap :=
  map_imap (fun p n => Some (relevel U p n)) h.

Lemma apply_upd_lookup U h p : apply_upd U h !! p = relevel U p <$> h !! p.
Proof. unfold apply_upd. rewrite map_lookup_imap. by destruct (h !! p). Qed.

Lemma get_level_upd U h p i : get_level (apply_upd U h) p i = (fun l => default l (U p i)) <$> get_level h p i.
Proof.
  unfold get_level. rewrite apply_upd_lookup. destruct (h !! p) as [n|]; [|done]. cbn. apply list_lookup_imap.
Qed.

Definition single (p : positive) (i : nat) (l : zskiplistLevel) (q : positive) (j : nat) : option zskiplistLevel :=
  if decide (q = p /\ j = i) then Some l else None.

Lemma single_eq p i l : single p i l p i = Some l.
Proof. unfold single. by rewrite decide_True. Qed.
Lemma single_ne p i l q j : ~ (q = p /\ j = i) -> single p i l q j = None.
Proof. intros. unfold single. by rewrite decide_False. Qed.

Lemma set_level_upd h p i l : is_Some (get_level h p i) -> set_level h p i l = Some (apply_upd (single p i l) h).
Proof.
  unfold get_level, set_level. destruct (h !! p) as [n|] eqn:E; cbn [mbind option_bind]; [|by intros [? ?]].
  intros [l0 El]. rewrite El. cbn [mbind option_bind]. f_equal. apply map_eq. intros q. rewrite apply_upd_lookup.
  destruct (decide (q = p)) as [->|Hq].
  - rewrite lookup_insert_eq, E. cbn. f_equal. unfold relevel. f_equal. apply list_eq. intros j. rewrite list_lookup_imap.
    destruct (decide (j = i)) as [->|Hj].
    + rewrite list_lookup_insert_eq by (by eapply lookup_lt_Some). by rewrite El, single_eq.
    + rewrite list_lookup_insert_ne by done. rewrite single_ne by tauto. by destruct (level n !! j).
  - rewrite lookup_insert_ne by done. destruct (h !! q) as [m|]; [|done]. cbn. f_equal. destruct m as [me ms mb ml].
    unfold relevel. cbn. f_equal. apply list_eq. intros j. rewrite list_lookup_imap, single_ne by tauto. by destruct (ml !! j).
Qed.

(** One update after another. *)
Definition upd_then (U V : positive -> nat -> option zskiplistLevel) (p : positive) (i : nat) : option zskiplistLevel :=
  match V p i with Some l => Some l | None => U p i end.

Lemma apply_upd_then U V h : apply_upd V (apply_upd U h) = apply_upd (upd_then U V) h.
Proof.
  apply map_eq. intros p. rewrite !apply_upd_lookup. destruct (h !! p) as [n|]; [|done]. cbn. f_equal. unfold relevel. cbn.
  f_equal. apply list_eq. intros i. rewrite !list_lookup_imap. destruct (level n !! i); [|done]. cbn. unfold upd_then.
  by destruct (V p i).
Qed.

Lemma apply_upd_ext U V h : (forall p i, is_Some (get_level h p i) -> U p i = V p i) -> apply_upd U h = apply_upd V h.
Proof.
  intros E. apply map_eq. intros p. rewrite !apply_upd_lookup. destruct (h !! p) as [n|] eqn:En; [|done]. cbn. f_equal.
  unfold relevel. f_equal. apply list_eq. intros i. rewrite !list_lookup_imap. destruct (level n !! i) eqn:El; [|done]. cbn.
  rewrite E; [done|]. unfold get_level. rewrite En. cbn. by eexists.
Qed.

Lemma apply_upd_none h : apply_upd (fun _ _ => None) h = h.
Proof.
  apply map_eq. intros p. rewrite apply_upd_lookup. destruct (h !! p) as [[]|]; [|done]. cbn. f_equal. unfold relevel. cbn.
  f_equal. apply list_eq. intros i. rewrite list_lookup_imap. by destruct (_ !! i).
Qed.

(** A loop that changes one node per level, from level [i] on. *)
Fixpoint modify_levels (f : nat -> Z -> zskiplistLevel -> zskiplistLevel) (update : list (positive * Z)) (i : nat) h : option heap :=
  match update with
  | [] => Some h
  | (u, r) :: update' =>
      l ← get_level h u i;
      h ← set_level h u i (f i r l);
      modify_levels f update' (Datatypes.S i) h
  end.

Definition modified (f : nat -> Z -> zskiplistLevel -> zskiplistLevel) (update : list (positive * Z)) (i : nat) h
    (p : positive) (j : nat) : option zskiplistLevel :=
  if Nat.leb i j then
    match update !! (j - i)%nat with
    | Some (u, r) => if decide (p = u) then f j r <$> get_level h p j else None
    | None => None
    end
  else None.

Lemma modify_levels_spec f update : forall i h,
  (forall k u r, update !! k = Some (u, r) -> is_Some (get_level h u (i + k))) ->
  modify_levels f update i h = Some (apply_upd (modified f update i h) h).
Proof.
  induction update as [|[u r] update IH]; intros i h Hu; cbn [modify_levels].
  { f_equal. rewrite <- (apply_upd_none h) at 1. apply apply_upd_ext. intros p j _. unfold modified. by destruct (Nat.leb i j). }
  destruct (Hu 0%nat u r eq_refl) as [l Hl]. rewrite Nat.add_0_r in Hl. rewrite Hl. cbn [mbind option_bind].
  rewrite set_level_upd by (by eexists). cbn [mbind option_bind]. rewrite IH.
  2: { intros k u' r' Hk. rewrite get_level_upd. replace (Datatypes.S i + k)%nat with (i + Datatypes.S k)%nat by lia.
       apply fmap_is_Some. by apply (Hu (Datatypes.S k) u' r'). }
  f_equal. rewrite apply_upd_then. apply apply_upd_ext. intros p j [lj Hj]. unfold upd_then, modified at 1 2.
  destruct (Nat.leb_spec (Datatypes.S i) j) as [Hlt|Hge].
  - rewrite (proj2 (Nat.leb_le i j)) by lia. replace (j - i)%nat with (Datatypes.S (j - Datatypes.S i)) by lia.
    cbn [lookup list_lookup]. destruct (update !! _) as [[u' r']|].
    + rewrite get_level_upd, single_ne by lia. destruct (decide (p = u')); [by rewrite Hj|done].
    + by rewrite single_ne by lia.
  - destruct (Nat.leb_spec i j) as [Hle|Hgt].
    + replace j with i in * by lia. rewrite Nat.sub_diag. cbn [lookup list_lookup]. destruct (decide (p = u)) as [->|Hp].
      * by rewrite single_eq, Hl.
      * by rewrite single_ne by tauto.
    + by rewrite single_ne by lia.
Qed.

Lemma bump_levels_modify update : forall i h,
  bump_levels update i h = modify_levels (fun _ _ l => mk_level (forward l) (u64 (span l + 1))) update i h.
Proof.
  induction update as [|[u r] update IH]; intros i h; [done|]. cbn [bump_levels modify_levels].
  destruct (get_level h u i); [|done]. cbn [mbind option_bind]. destruct (set_level _ _ _ _); [|done]. apply IH.
Qed.

Lemma raise_levels_modify k : forall i h hd len,
  raise_levels k i h hd len = modify_levels (fun _ _ l => mk_level (forward l) len) (replicate k (hd, 0)) i h.
Proof.
  induction k as [|k IH]; intros i h hd len; [done|]. cbn [raise_levels replicate modify_levels].
  destruct (get_level h hd i); [|done]. cbn [mbind option_bind]. destruct (set_level _ _ _ _); [|done]. apply IH.
Qed.

(** What unlinking [x] makes of a level; [lx] are the levels of [x]. *)
Definition unlinked (lx : nat -> zskiplistLevel) (x : positive) (j : nat) (_ : Z) (l : zskiplistLevel) : zskiplistLevel :=
  if bool_decide (forward l = Some x) then mk_level (forward (lx j)) (u64 (span l + u64 (span (lx j) - 1)))
  else mk_level (forward l) (u64 (span l - 1)).

Lemma unlink_levels_modify update : forall i h x lx,
  (forall k u r, update !! k = Some (u, r) -> u <> x) ->
  (forall k u r l, update !! k = Some (u, r) -> get_level h u (i + k) = Some l -> forward l = Some x ->
    get_level h x (i + k) = Some (lx (i + k)%nat)) ->
  unlink_levels update i h x = modify_levels (unlinked lx x) update i h.
Proof.
  induction update as [|[u r] update IH]; intros i h x lx Hne Hlx; [done|]. cbn [unlink_levels modify_levels].
  destruct (get_level h u i) as [l|] eqn:El; [|done]. cbn [mbind option_bind].
  assert ((if bool_decide (forward l = Some x) then
      lx0 ← get_level h x i; set_level h u i (mk_level (forward lx0) (u64 (span l + u64 (span lx0 - 1))))
    else set_level h u i (mk_level (forward l) (u64 (span l - 1)))) = set_level h u i (unlinked lx x i r l)) as ->.
  { unfold unlinked. case_bool_decide as Hf; [|done].
    pose proof (Hlx 0%nat u r l eq_refl) as H1. rewrite Nat.add_0_r in H1. by rewrite H1. }
  rewrite set_level_upd by (by eexists). cbn [mbind option_bind]. apply IH.
  - intros k u' r' Hk. by apply (Hne (Datatypes.S k) u' r').
  - intros k u' r' l' Hk Hl' Hf. rewrite get_level_upd, single_ne in Hl' by lia.
    rewrite get_level_upd, single_ne by lia. replace (Datatypes.S i + k)%nat with (i + Datatypes.S k)%nat in * by lia.
    destruct (get_level h u' (i + Datatypes.S k)) as [l0|] eqn:E0; [|done]. cbn in Hl'. injection Hl' as ->.
    by rewrite (Hlx (Datatypes.S k) u' r' l' Hk E0 Hf).
Qed.

(** The levels after linking [x]. *)
Definition linked (update : list (positive * Z)) (i : nat) h (x : positive) (rank0 : Z) (p : positive) (j : nat)
    : option zskiplistLevel :=
  if Nat.leb i j then
    match update !! (j - i)%nat with
    | Some (u, r) =>
        if decide (p = x) then (fun l => mk_level (forward l) (u64 (span l - u32 (rank0 - r)))) <$> get_level h u j
        else if decide (p = u) then Some (mk_level (Some x) (u32 (u32 (rank0 - r) + 1))) else None
    | None => None
    end
  else None.

Lemma link_levels_spec update x rank0 : forall i h,
  (forall k u r, update !! k = Some (u, r) -> u <> x /\ is_Some (get_level h u (i + k)) /\ is_Some (get_level h x (i + k))) ->
  link_levels update i h x rank0 = Some (apply_upd (linked update i h x rank0) h).
Proof.
  induction update as [|[u r] update IH]; intros i h Hu; cbn [link_levels].
  { f_equal. rewrite <- (apply_upd_none h) at 1. apply apply_upd_ext. intros p j _. unfold linked. by destruct (Nat.leb i j). }
  destruct (Hu 0%nat u r eq_refl) as (Hne & [l Hl] & Hx). rewrite Nat.add_0_r in *. rewrite Hl. cbn [mbind option_bind].
  rewrite set_level_upd by done. cbn [mbind option_bind]. rewrite set_level_upd by (rewrite get_level_upd, Hl; by eexists).
  cbn [mbind option_bind]. rewrite apply_upd_then. set (U := upd_then _ _).
  assert (forall q j, j <> i -> U q j = None) as HU by (intros q j Hj; unfold U, upd_then; by rewrite !single_ne by lia).
  rewrite IH.
  2: { intros k u' r' Hk. rewrite !get_level_upd. replace (Datatypes.S i + k)%nat with (i + Datatypes.S k)%nat by lia.
       destruct (Hu (Datatypes.S k) u' r' Hk) as (? & ? & ?). split_and!; [done|by apply fmap_is_Some..]. }
  f_equal. rewrite apply_upd_then. apply apply_upd_ext. intros p j [lj Hj]. unfold upd_then at 1, linked.
  destruct (Nat.leb_spec (Datatypes.S i) j) as [Hlt|Hge].
  - rewrite (proj2 (Nat.leb_le i j)) by lia. replace (j - i)%nat with (Datatypes.S (j - Datatypes.S i)) by lia.
    cbn [lookup list_lookup]. destruct (update !! _) as [[u' r']|] eqn:Eu; [|by rewrite HU by lia].
    rewrite get_level_upd, HU by lia. destruct (Hu (Datatypes.S (j - Datatypes.S i)) u' r' Eu) as (_ & [l' Hl'] & _).
    replace (i + Datatypes.S (j - Datatypes.S i))%nat with j in Hl' by lia. rewrite Hl'. cbn.
    destruct (decide (p = x)); [done|]. destruct (decide (p = u')); [done|by rewrite HU by lia].
  - destruct (Nat.leb_spec i j) as [Hle|Hgt]; [|by rewrite HU by lia].
    replace j with i in * by lia. rewrite Nat.sub_diag. cbn [lookup list_lookup]. unfold U, upd_then. rewrite Hl.
    destruct (decide (p = x)) as [->|Hpx].
    + rewrite (single_ne u) by (intros [? _]; congruence). by rewrite single_eq.
    + destruct (decide (p = u)) as [->|Hpu]; [by rewrite single_eq|]. by rewrite !single_ne by tauto.
Qed.

(** ** The representation *)

Definition last_addr (P : list (entry S)) : option positive := e_addr <$> last P.

(** The node reached after the entries [D]: the last one, or the header. *)
Definition cursor (hd : positive) D : positive := default hd (last_addr D).

(** That node has a level [i]. *)
Definition reaches (i : nat) D : Prop := forall e, last D = Some e -> (i < e_height e)%nat.

(** The fields of a node other than the pointers. *)
Definition shape h e : Prop :=
  exists bw ls, h !! e_addr e = Some (mk_znode (Some (e_ele e)) (e_score e) bw ls) /\ length ls = e_height e.

(** Backward pointers, [bw] being that of the first node. *)
Fixpoint backs_ok h (bw : option positive) ns : Prop :=
  match ns with
  | [] => True
  | e :: ns' => backward <$> h !! e_addr e = Some bw /\ backs_ok h (Some (e_addr e)) ns'
  end.

Definition levels_ok h (hd : positive) (lv : nat) ns : Prop :=
  forall D Q i, ns = D ++ Q -> reaches i D -> (i < lv)%nat -> get_level h (cursor hd D) i = Some (link i Q).

(** Levels of the header above the level of the list have no forward pointer. *)
Definition header_ok h (hd : positive) (lv : nat) : Prop :=
  exists s ls, h !! hd = Some (mk_znode None s None ls) /\ length ls = 32%nat /\
    forall i l, (lv <= i)%nat -> ls !! i = Some l -> forward l = None.

Definition before (e e' : entry S) : Prop := key_lt (e_key e) (e_key e') = true.

(** The pointers, for the level [lv]. *)
Record nodes_ok h (hd : positive) (lv : nat) ns : Prop := {
  no_nodup : NoDup (hd :: map e_addr ns);
  no_shape : Forall (shape h) ns;
  no_backs : backs_ok h None ns;
  no_levels : levels_ok h hd lv ns;
  no_header : header_ok h hd lv;
  no_heights : Forall (fun e => (1 <= e_height e <= lv)%nat) ns;
  no_level : (1 <= lv <= 32)%nat;
}.

Record zrep h zsl ns : Prop := {
  zr_nodes : nodes_ok h (header zsl) (Z.to_nat (zlevel zsl)) ns;
  zr_tight : 1 < zlevel zsl -> exists e, e ∈ ns /\ e_height e = Z.to_nat (zlevel zsl);
  zr_level : 1 <= zlevel zsl;
  zr_tail : tail zsl = last_addr ns;
  zr_length : zlength zsl = zlen ns;
  zr_bound : zlen ns < 2 ^ 32;
  zr_sorted : StronglySorted before ns;
}.

Lemma last_addr_snoc P e : last_addr (P ++ [e]) = Some (e_addr e).
Proof. unfold last_addr. by rewrite last_snoc. Qed.

Lemma cursor_snoc hd D e : cursor hd (D ++ [e]) = e_addr e.
Proof. unfold cursor. by rewrite last_addr_snoc. Qed.

Lemma cursor_app hd P D : cursor hd (P ++ D) = cursor (cursor hd P) D.
Proof.
  destruct D as [|e D _] using rev_ind; [by rewrite app_nil_r|]. by rewrite app_assoc, !cursor_snoc.
Qed.

Lemma reaches_snoc i D e : reaches i (D ++ [e]) <-> (i < e_height e)%nat.
Proof. unfold reaches. rewrite last_snoc. split; [auto|by intros ? ? [= <-]]. Qed.

Lemma reaches_nil i : reaches i [].
Proof. by intros e. Qed.

Lemma reaches_app i P D : D <> [] -> reaches i (P ++ D) <-> reaches i D.
Proof. destruct D as [|e D _] using rev_ind; [done|]. intros _. by rewrite app_assoc, !reaches_snoc. Qed.

Lemma reaches_le i j D : (j <= i)%nat -> reaches i D -> reaches j D.
Proof. intros Hij Hr e He. specialize (Hr e He). lia. Qed.

(** ** Walking *)

(** [go] lets the walk pass exactly the nodes of [A]. *)
Definition cuts (go : Z -> Z -> node -> bool) h A B : Prop :=
  forall P e Q n r sp, A ++ B = P ++ e :: Q -> h !! e_addr e = Some n -> r + sp = zlen P + 1 ->
    go r sp n = bool_decide (zlen P < zlen A).

(** Where a walk through [A] stops at level [i]. *)
Definition stops (hd : positive) A (i : nat) (u : positive * Z) : Prop :=
  exists D Q, A = D ++ Q /\ u = (cursor hd D, zlen D) /\ reaches i D /\ low i Q.

Lemma stop_unique i D Q D' Q' :
  D ++ Q = D' ++ Q' -> reaches i D -> reaches i D' -> low i Q -> low i Q' -> D = D' /\ Q = Q'.
Proof.
  revert Q D' Q'. assert (forall D k Q', reaches i (D ++ k) -> low i (k ++ Q') -> k = []) as Hk.
  { intros D0 k Q' Hr Hl. destruct k as [|e k _] using rev_ind; [done|]. rewrite app_assoc in Hr. apply reaches_snoc in Hr.
    apply Forall_app in Hl as [Hl _]. apply Forall_app in Hl as [_ Hl]. apply Forall_inv in Hl. lia. }
  intros Q D' Q' E H1 H2 H3 H4. apply app_eq_inv in E as [(k & -> & ->)|(k & -> & ->)].
  - rewrite (Hk _ _ _ H1 H4). by rewrite app_nil_r.
  - rewrite (Hk _ _ _ H2 H3). by rewrite app_nil_r.
Qed.

Section Walk.
Context (h : heap) (hd : positive) (lv : nat) (A B : list (entry S)) (go : Z -> Z -> node -> bool) (w : Z).
Hypothesis Hn : nodes_ok h hd lv (A ++ B).
Hypothesis Hcut : cuts go h A B.
Hypothesis Hw : zlen (A ++ B) < 2 ^ w.

Lemma walk_level i D Q : A = D ++ Q -> reaches i D -> (i < lv)%nat -> get_level h (cursor hd D) i = Some (link i (Q ++ B)).
Proof. intros EA Hr Hi. apply (no_levels _ _ _ _ Hn); [by rewrite EA, app_assoc|done..]. Qed.

Lemma walk_node P e Q : A ++ B = P ++ e :: Q -> exists n, h !! e_addr e = Some n /\
  forall r sp, r + sp = zlen P + 1 -> go r sp n = bool_decide (zlen P < zlen A).
Proof.
  intros E. pose proof (no_shape _ _ _ _ Hn) as Hs. rewrite E in Hs. apply Forall_app in Hs as [_ Hs].
  apply Forall_inv in Hs as (bw & ls & En & _). eexists. split; [done|]. intros r sp Hr. by eapply Hcut.
Qed.

Lemma walk_stop i fuel D Q :
  A = D ++ Q -> reaches i D -> (i < lv)%nat -> low i Q ->
  walk w go fuel h i (cursor hd D) (zlen D) = Some (cursor hd D, zlen D).
Proof.
  intros EA Hr Hi Hl. assert (forall (b : bool) (k : option (positive * Z)), b = false ->
    (if b then k else Some (cursor hd D, zlen D)) = Some (cursor hd D, zlen D)) as Hif by (by intros [] k).
  destruct fuel; cbn [walk]; rewrite (walk_level i D Q) by done; cbn [mbind option_bind];
    rewrite link_low by done; cbn [shift forward span];
    (destruct (low_or_split i B) as [HB|(B1 & e & B2 & EB & H1 & H2)];
      [rewrite <- (app_nil_r B), link_low by done; done|]); rewrite EB, link_high by done; cbn [forward span];
    (destruct (walk_node (A ++ B1) e B2) as (n & -> & Hgo); [by rewrite EB, <- app_assoc|]); cbn [mbind option_bind];
    apply Hif; (rewrite Hgo by (rewrite EA; zlen)); apply bool_decide_false; zlen.
Qed.

Lemma walk_step i fuel D Q1 e Q2 :
  A = D ++ Q1 ++ e :: Q2 -> reaches i D -> (i < lv)%nat -> low i Q1 -> (i < e_height e)%nat ->
  walk w go (Datatypes.S fuel) h i (cursor hd D) (zlen D) =
    walk w go fuel h i (cursor hd ((D ++ Q1) ++ [e])) (zlen ((D ++ Q1) ++ [e])).
Proof.
  intros EA Hr Hi H1 H2. cbn [walk]. rewrite (walk_level i D (Q1 ++ e :: Q2)) by done. cbn [mbind option_bind].
  rewrite <- app_assoc, <- app_comm_cons, link_high by done. cbn [forward span]. set (P := D ++ Q1).
  assert (zlen P = zlen D + zlen Q1) as Hz by apply zlen_app.
  destruct (walk_node P e (Q2 ++ B)) as (n & -> & Hgo); [unfold P; rewrite EA, <- !app_assoc; done|]. cbn [mbind option_bind].
  rewrite Hgo by lia. rewrite bool_decide_true by (rewrite EA; zlen). rewrite cursor_snoc. f_equal.
  rewrite wrap_small; [zlen|]. rewrite EA in Hw. zlen.
Qed.

Lemma walk_spec i fuel : forall D Q,
  A = D ++ Q -> reaches i D -> (i < lv)%nat -> (length Q <= fuel)%nat ->
  exists D' Q', A = D' ++ Q' /\ reaches i D' /\ low i Q' /\
    walk w go fuel h i (cursor hd D) (zlen D) = Some (cursor hd D', zlen D').
Proof.
  induction fuel as [|fuel IH]; intros D Q EA Hr Hi Hf;
    (destruct (low_or_split i Q) as [Hl|(Q1 & e & Q2 & -> & H1 & H2)];
      [exists D, Q; split_and!; try done; by eapply walk_stop|]);
    rewrite length_app in Hf; cbn [length] in Hf; [lia|].
  rewrite (walk_step i fuel D Q1 e Q2) by done. apply (IH ((D ++ Q1) ++ [e]) Q2); [|by apply reaches_snoc|done|lia].
  by rewrite EA, <- !app_assoc.
Qed.

Lemma search_spec fuel levels : forall D Q,
  A = D ++ Q -> reaches (levels - 1) D -> (levels <= lv)%nat -> (length A <= fuel)%nat ->
  exists update, search w go fuel h levels (cursor hd D) (zlen D) = Some update /\ length update = levels /\
    forall i u, update !! i = Some u -> stops hd A i u.
Proof.
  induction levels as [|i IH]; intros D Q EA Hr Hl Hf; cbn [search]; [by exists []|].
  replace (Datatypes.S i - 1)%nat with i in Hr by lia.
  destruct (walk_spec i fuel D Q EA Hr ltac:(lia)) as (D' & Q' & EA' & Hr' & Hlow & ->).
  { rewrite EA, length_app in Hf. lia. }
  cbn [mbind option_bind]. destruct (IH D' Q' EA') as (update & -> & Hlen & Hst); [|lia|done|].
  { by apply (reaches_le i); [lia|]. }
  cbn [mbind option_bind]. eexists. split; [done|]. split; [rewrite length_app; cbn; lia|].
  intros j u Hj. apply lookup_app_Some in Hj as [Hj|[Hj1 Hj2]]; [by apply Hst|].
  destruct (j - length update)%nat as [|k] eqn:Ej; [|by destruct k]. cbn in Hj2. injection Hj2 as <-.
  replace j with i by lia. by exists D', Q'.
Qed.
End Walk.
End Rep.
