(* ===== verification/ZskiplistOps.v ===== *)
(** * Skip lists: insertion and deletion of a node

    The loops of [zslInsert] and [zslDeleteNode] change one level of one node
    per level of the list: the place where the search stopped. *)

From stdpp Require Import base list option gmap sorting.
From Stdlib Require Import ZArith Lia Bool.
From S2P Require Import Prelude Zskiplist ZskiplistFacts.

Local Open Scope Z_scope.

Section Core.
Context {S : Type} `{Score S}.

Abbreviation node := (zskiplistNode S).
Abbreviation heap := (gmap positive (zskiplistNode S)).
Implicit Types (h : heap) (zsl : zskiplist) (ns A B P Q D : list (entry S)) (e x : entry S).

(** ** Lists with an element in the middle *)

Lemma app_cons_split D Q A x B :
  D ++ Q = A ++ x :: B -> (exists A2, A = D ++ A2 /\ Q = A2 ++ x :: B) \/ (exists B1, D = A ++ x :: B1 /\ B = B1 ++ Q).
Proof.
  intros E. apply app_eq_inv in E as [(k & -> & Ek)|(k & -> & ->)]; [|left; by exists k].
  destruct k as [|y k]; [left; exists []; rewrite !app_nil_r; done|]. injection Ek as -> ->. right. by exists k.
Qed.

Lemma cursor_in hd D : cursor hd D ∈ hd :: map e_addr D.
Proof.
  destruct D as [|e D _] using rev_ind; [by left|]. rewrite cursor_snoc, map_app. right. apply elem_of_app. right. by left.
Qed.

Lemma cursor_inj hd D Q D' Q' :
  NoDup (hd :: map e_addr (D ++ Q)) -> D ++ Q = D' ++ Q' -> cursor hd D = cursor hd D' -> D = D'.
Proof.
  assert (forall D k Q', NoDup (hd :: map e_addr ((D ++ k) ++ Q')) -> cursor hd D = cursor hd (D ++ k) -> k = []) as Hk.
  { intros D0 k Q0 Hn E. destruct k as [|e k _] using rev_ind; [done|]. rewrite app_assoc, cursor_snoc in E.
    rewrite app_assoc, map_app, app_comm_cons, NoDup_app in Hn. destruct Hn as [Hn _].
    rewrite map_app, app_comm_cons, NoDup_app in Hn. destruct Hn as (_ & Hn & _).
    destruct (Hn (e_addr e)); [|by left]. rewrite <- E, map_app, app_comm_cons. apply elem_of_app. left. apply cursor_in. }
  intros Hn E Ec. apply app_eq_inv in E as [(k & -> & ->)|(k & -> & ->)].
  - symmetry in Ec. by rewrite (Hk _ _ _ Hn Ec), app_nil_r.
  - rewrite app_assoc in Hn. by rewrite (Hk _ _ _ Hn Ec), app_nil_r.
Qed.

Lemma cursor_fresh hd D Q p : p ∉ hd :: map e_addr (D ++ Q) -> cursor hd D <> p.
Proof.
  intros Hp E. apply Hp. rewrite <- E, map_app, app_comm_cons. apply elem_of_app. left. apply cursor_in.
Qed.

Lemma cursor_right hd D Q B e : NoDup (hd :: map e_addr ((D ++ Q) ++ B)) -> e ∈ B -> e_addr e <> cursor hd D.
Proof.
  intros Hn He E. rewrite map_app, app_comm_cons, NoDup_app in Hn. destruct Hn as (_ & Hn & _).
  apply (Hn (e_addr e)); [|by apply list_elem_of_fmap_2]. rewrite E, map_app, app_comm_cons. apply elem_of_app. left. apply cursor_in.
Qed.

Lemma last_addr_app P D : D <> [] -> last_addr (P ++ D) = last_addr D.
Proof. destruct D as [|e D _] using rev_ind; [done|]. intros _. by rewrite app_assoc, !last_addr_snoc. Qed.

Lemma nodup_middle hd A x B :
  NoDup (hd :: map e_addr (A ++ x :: B)) <-> NoDup (hd :: map e_addr (A ++ B)) /\ e_addr x ∉ hd :: map e_addr (A ++ B).
Proof.
  assert (hd :: map e_addr (A ++ x :: B) ≡ₚ e_addr x :: hd :: map e_addr (A ++ B)) as ->; [|rewrite NoDup_cons; tauto].
  rewrite !map_app. cbn [map]. by rewrite <- Permutation_middle, Permutation_swap.
Qed.

Lemma nodup_addr hd A x B e : NoDup (hd :: map e_addr (A ++ x :: B)) -> e ∈ A \/ e ∈ B -> e_addr e <> e_addr x.
Proof.
  intros Hn He E. apply nodup_middle in Hn as [_ Hn]. apply Hn. rewrite <- E. right.
  apply (list_elem_of_fmap_2 e_addr). by apply elem_of_app.
Qed.

(** ** Backward pointers *)

Lemma backs_ext h h' ns : forall bw,
  (forall e, e ∈ ns -> backward <$> h' !! e_addr e = backward <$> h !! e_addr e) -> backs_ok h bw ns -> backs_ok h' bw ns.
Proof.
  induction ns as [|e ns IH]; intros bw He; [done|]. cbn. intros [H1 H2]. split; [rewrite He; [done|by left]|].
  apply IH; [|done]. intros e' He'. apply He. by right.
Qed.

(** The backward pointer of a node after [P]. *)
Definition prev_addr (bw : option positive) P : option positive := match last_addr P with Some p => Some p | None => bw end.

Lemma prev_none P : prev_addr None P = last_addr P.
Proof. unfold prev_addr. by destruct (last_addr P). Qed.

Lemma prev_cons bw e P : prev_addr (Some (e_addr e)) P = prev_addr bw (e :: P).
Proof.
  unfold prev_addr. destruct P as [|e' P _] using rev_ind; [done|]. 
  change (e :: P ++ [e']) with ((e :: P) ++ [e']). by rewrite !last_addr_snoc.
Qed.

Lemma backs_app h A B : forall bw, backs_ok h bw (A ++ B) <-> backs_ok h bw A /\ backs_ok h (prev_addr bw A) B.
Proof.
  induction A as [|e A IH]; intros bw; cbn [app backs_ok]; [split; [done|by intros []]|].
  rewrite IH, (prev_cons bw). tauto.
Qed.

(** ** Fields after an update of levels or of a backward pointer *)

Lemma shape_upd U h e : shape h e -> shape (apply_upd U h) e.
Proof.
  intros (bw & ls & E & Hl). exists bw. eexists. rewrite apply_upd_lookup, E. cbn. split; [done|]. by rewrite length_imap.
Qed.

Lemma backward_upd U h p : backward <$> apply_upd U h !! p = backward <$> h !! p.
Proof. rewrite apply_upd_lookup. by destruct (h !! p). Qed.

Lemma dom_upd U h : dom (apply_upd U h) = dom h.
Proof. apply set_eq. intros p. rewrite !elem_of_dom, apply_upd_lookup. apply fmap_is_Some. Qed.

Lemma header_upd U h hd lv :
  header_ok h hd lv -> (forall i, (lv <= i)%nat -> U hd i = None) -> header_ok (apply_upd U h) hd lv.
Proof.
  intros (s & ls & E & Hl & Hf) HU. exists s. eexists. rewrite apply_upd_lookup, E. cbn. split_and!; [done|by rewrite length_imap|].
  intros i l Hi Hm. rewrite list_lookup_imap in Hm. apply fmap_Some in Hm as (l0 & El & ->). rewrite HU by done. by apply (Hf i).
Qed.

Definition put_back (p : positive) (q : option positive) h : heap :=
  alter (fun n => mk_znode (ele n) (score n) q (level n)) p h.

Lemma set_backward_put h p q : is_Some (h !! p) -> set_backward h p q = Some (put_back p q h).
Proof.
  intros [n E]. unfold set_backward, put_back. rewrite E. cbn. f_equal. apply map_eq. intros k. destruct (decide (k = p)) as [->|Hk].
  - by rewrite lookup_insert_eq, lookup_alter_eq, E.
  - by rewrite lookup_insert_ne, lookup_alter_ne.
Qed.

Lemma put_back_level h p q k i : get_level (put_back p q h) k i = get_level h k i.
Proof.
  unfold get_level, put_back. destruct (decide (k = p)) as [->|Hk]; [|by rewrite lookup_alter_ne].
  rewrite lookup_alter_eq. by destruct (h !! p).
Qed.

Lemma put_back_shape h p q e : shape h e -> shape (put_back p q h) e.
Proof.
  intros (bw & ls & E & Hl). unfold shape, put_back. destruct (decide (e_addr e = p)) as [Hk|Hk].
  - rewrite <- Hk, lookup_alter_eq, E. cbn. by exists q, ls.
  - rewrite lookup_alter_ne by done. by exists bw, ls.
Qed.

Lemma put_back_header h p q hd lv : p <> hd -> header_ok h hd lv -> header_ok (put_back p q h) hd lv.
Proof. intros Hp (s & ls & E & Hl & Hf). exists s, ls. split; [|done]. unfold put_back. by rewrite lookup_alter_ne. Qed.

Lemma put_back_eq h p q : is_Some (h !! p) -> backward <$> put_back p q h !! p = Some q.
Proof. intros [n E]. unfold put_back. by rewrite lookup_alter_eq, E. Qed.

Lemma put_back_ne h p q k : k <> p -> put_back p q h !! k = h !! k.
Proof. intros. unfold put_back. by rewrite lookup_alter_ne. Qed.

Lemma dom_put_back h p q : dom (put_back p q h) = dom h.
Proof. apply dom_alter_L. Qed.

Lemma shape_lookup h e : shape h e -> is_Some (h !! e_addr e).
Proof. intros (bw & ls & -> & _). by eexists. Qed.

(** ** Raising the level *)

Lemma heights_low lv ns : Forall (fun e => (1 <= e_height e <= lv)%nat) ns -> forall i, (lv <= i)%nat -> low i ns.
Proof. intros Hf i Hi. eapply Forall_impl; [exact Hf|]. cbn. lia. Qed.

Lemma reaches_high lv D Q i :
  Forall (fun e => (1 <= e_height e <= lv)%nat) (D ++ Q) -> (lv <= i)%nat -> reaches i D -> D = [].
Proof.
  intros Hf Hi Hr. destruct D as [|e D _] using rev_ind; [done|]. apply reaches_snoc in Hr.
  apply Forall_app in Hf as [Hf _]. apply Forall_app in Hf as [_ Hf]. apply Forall_inv in Hf. lia.
Qed.

Lemma raise_levels_spec h hd lv lv' ns :
  nodes_ok h hd lv ns -> (lv <= lv' <= 32)%nat ->
  exists h', raise_levels (lv' - lv) lv h hd (zlen ns) = Some h' /\ nodes_ok h' hd lv' ns /\ dom h' = dom h.
Proof.
  intros [Hnd Hsh Hbk Hlv Hhd Hht Hlev] Hle. destruct Hhd as (s & ls & Eh & Hls & Hf).
  assert (forall i, (i < 32)%nat -> exists l, get_level h hd i = Some l /\ ((lv <= i)%nat -> forward l = None)) as Hget.
  { intros i Hi. unfold get_level. rewrite Eh. cbn. destruct (lookup_lt_is_Some_2 ls i) as [l El]; [lia|].
    exists l. split; [done|]. intros Hi'. by apply (Hf i). }
  eexists. rewrite raise_levels_modify, modify_levels_spec.
  2: { intros k u r Hk. apply lookup_replicate in Hk as [[= -> ->] Hk]. destruct (Hget (lv + k)%nat) as (l & -> & _); [lia|by eexists]. }
  split; [done|]. split; [|apply dom_upd]. split.
  - done.
  - eapply Forall_impl; [exact Hsh|]. intros e. apply shape_upd.
  - eapply backs_ext; [|exact Hbk]. intros e _. apply backward_upd.
  - intros D Q i E Hr Hi. rewrite get_level_upd. unfold modified. destruct (Nat.leb_spec lv i) as [Hi'|Hi'].
    + rewrite lookup_replicate_2 by lia. rewrite E in Hht. pose proof (reaches_high lv D Q i Hht Hi' Hr) as ->.
      change (cursor hd []) with hd. rewrite decide_True by done. destruct (Hget i) as (l & -> & Hl); [lia|].
      cbn [fmap option_fmap option_map default]. rewrite Hl by done. rewrite E. cbn [app]. rewrite <- (app_nil_r Q) at 2.
      rewrite link_low by (eapply heights_low; done). done.
    + rewrite (Hlv D Q i E Hr Hi'). done.
  - apply header_upd; [by exists s, ls; split_and!; [..|intros; eapply Hf; [|done]; lia]|].
    intros i Hi. unfold modified. destruct (Nat.leb_spec lv i); [|done]. rewrite (proj1 (lookup_replicate_None _ _ _)) by lia. done.
  - eapply Forall_impl; [exact Hht|]. cbn. lia.
  - lia.
Qed.

(** ** Linking a new node *)

(** The level of the node where the search stops, for the sequence [A ++ B]. *)
Lemma stop_level h hd lv A B i u r :
  nodes_ok h hd lv (A ++ B) -> (i < lv)%nat -> stops hd A i (u, r) ->
  exists D Q, A = D ++ Q /\ u = cursor hd D /\ r = zlen D /\ reaches i D /\ low i Q /\
    get_level h u i = Some (shift (zlen Q) (link i B)).
Proof.
  intros Hn Hi (D & Q & -> & [= -> ->] & Hr & Hl). exists D, Q. split_and!; try done.
  rewrite (no_levels _ _ _ _ Hn D (Q ++ B)) by (rewrite ?app_assoc; done). by rewrite link_low.
Qed.

(** The levels of the nodes of [A], changed where the search stops. *)
Lemma stops_cover h h' hd lv A B B' update :
  nodes_ok h hd lv (A ++ B) -> length update = lv -> (forall i u, update !! i = Some u -> stops hd A i u) ->
  (forall i D Q, A = D ++ Q -> update !! i = Some (cursor hd D, zlen D) -> reaches i D -> low i Q ->
    get_level h' (cursor hd D) i = Some (link i (Q ++ B'))) ->
  (forall i D Q, A = D ++ Q -> (forall u r, update !! i = Some (u, r) -> cursor hd D <> u) ->
    get_level h' (cursor hd D) i = get_level h (cursor hd D) i) ->
  forall D Q i, A = D ++ Q -> reaches i D -> (i < lv)%nat -> get_level h' (cursor hd D) i = Some (link i (Q ++ B')).
Proof.
  intros Hn Hlen Hst Hin Hout D Q i EA Hr Hi. destruct (lookup_lt_is_Some_2 update i) as [[u r] Hu]; [lia|].
  destruct (Hst i _ Hu) as (D' & Q' & EA' & [= -> ->] & Hr' & Hl').
  assert (low i Q \/ ~ low i Q) as [Hl|Hl] by (unfold low; destruct (decide (Forall (fun e => (e_height e <= i)%nat) Q)); tauto).
  - destruct (stop_unique i D Q D' Q') as [<- <-]; [congruence|done..|]. by apply Hin.
  - rewrite (link_not_low i Q B' B Hl), (Hout i D Q EA).
    + apply (no_levels _ _ _ _ Hn); [by rewrite EA, app_assoc|done..].
    + intros u r Hu'. rewrite Hu in Hu'. injection Hu' as <- <-. intros Ec. apply Hl.
      pose proof (no_nodup _ _ _ _ Hn) as Hnd. rewrite EA, <- app_assoc in Hnd.
      pose proof (cursor_inj hd D (Q ++ B) D' (Q' ++ B) Hnd) as Hd.
      rewrite !app_assoc, <- EA, <- EA' in Hd. specialize (Hd eq_refl Ec). subst D'.
      rewrite EA in EA'. apply app_inv_head in EA' as ->. done.
Qed.

Section Insert.
Context (h : heap) (hd : positive) (lv : nat) (A B : list (entry S)) (x : entry S) (junk : zskiplistLevel).
Context (update : list (positive * Z)).
Hypothesis Hn : nodes_ok h hd lv (A ++ B).
Hypothesis Hfresh : e_addr x ∉ hd :: map e_addr (A ++ B).
Hypothesis Hx : (1 <= e_height x <= lv)%nat.
Hypothesis Hlen : length update = lv.
Hypothesis Hst : forall i u, update !! i = Some u -> stops hd A i u.
Hypothesis Hbound : zlen (A ++ B) + 1 < 2 ^ 32.

Definition with_node : heap := <[e_addr x := mk_znode (Some (e_ele x)) (e_score x) (forward junk) (replicate (e_height x) junk)]> h.

Definition with_links : heap := apply_upd (linked (take (e_height x) update) 0 with_node (e_addr x) (zlen A)) with_node.

Definition with_bumps : heap :=
  apply_upd (modified (fun _ _ l => mk_level (forward l) (u64 (span l + 1))) (drop (e_height x) update) (e_height x) with_links)
    with_links.

Lemma with_node_ne q i : q <> e_addr x -> get_level with_node q i = get_level h q i.
Proof. intros Hq. unfold get_level, with_node. by rewrite lookup_insert_ne. Qed.

Lemma with_node_new i : (i < e_height x)%nat -> get_level with_node (e_addr x) i = Some junk.
Proof. intros Hi. unfold get_level, with_node. rewrite lookup_insert_eq. cbn. by rewrite lookup_replicate_2. Qed.

Lemma update_level i u r : update !! i = Some (u, r) ->
  exists D Q, A = D ++ Q /\ u = cursor hd D /\ r = zlen D /\ reaches i D /\ low i Q /\ u <> e_addr x /\
    get_level with_node u i = Some (shift (zlen Q) (link i B)).
Proof.
  intros Hu. assert (i < lv)%nat as Hi by (apply lookup_lt_Some in Hu; lia).
  destruct (stop_level h hd lv A B i u r Hn Hi (Hst i _ Hu)) as (D & Q & EA & -> & -> & Hr & Hl & E). exists D, Q.
  assert (cursor hd D <> e_addr x) as Hne by (apply (cursor_fresh hd D (Q ++ B)); by rewrite app_assoc, <- EA).
  split_and!; try done. by rewrite with_node_ne.
Qed.

Lemma link_levels_ok : link_levels (take (e_height x) update) 0 with_node (e_addr x) (zlen A) = Some with_links.
Proof.
  apply link_levels_spec. intros k u r Hk. apply lookup_take_Some in Hk as [Hk Hlt]. cbn [Nat.add].
  destruct (update_level k u r Hk) as (D & Q & _ & _ & _ & _ & _ & Hne & E). rewrite E, with_node_new by done. by split_and!.
Qed.

Lemma bump_levels_ok : bump_levels (drop (e_height x) update) (e_height x) with_links = Some with_bumps.
Proof.
  rewrite bump_levels_modify. apply modify_levels_spec. intros k u r Hk. rewrite lookup_drop in Hk.
  destruct (update_level _ u r Hk) as (D & Q & _ & _ & _ & _ & _ & _ & E). unfold with_links.
  rewrite get_level_upd, E. by eexists.
Qed.

(** What one level of one node becomes. *)
Lemma with_bumps_level q i : get_level with_bumps q i =
  if Nat.ltb i (e_height x) then
    (fun l => default l (linked (take (e_height x) update) 0 with_node (e_addr x) (zlen A) q i)) <$> get_level with_node q i
  else
    (fun l => match update !! i with Some (u, r) => if decide (q = u) then mk_level (forward l) (u64 (span l + 1)) else l | None => l end)
      <$> get_level with_node q i.
Proof.
  unfold with_bumps. rewrite get_level_upd. unfold modified. destruct (Nat.ltb_spec i (e_height x)) as [Hi|Hi].
  - rewrite (proj2 (Nat.leb_gt _ _)) by done. unfold with_links. rewrite get_level_upd. by destruct (get_level with_node q i).
  - rewrite (proj2 (Nat.leb_le _ _)) by done. rewrite lookup_drop. replace (e_height x + (i - e_height x))%nat with i by lia.
    assert (get_level with_links q i = get_level with_node q i) as ->.
    { unfold with_links. rewrite get_level_upd. unfold linked. cbn [Nat.leb]. rewrite Nat.sub_0_r, lookup_take_ge by done.
      by destruct (get_level with_node q i). }
    destruct (update !! i) as [[u r]|]; [|by destruct (get_level with_node q i)].
    destruct (decide (q = u)); by destruct (get_level with_node q i).
Qed.

Lemma inserted_stop i D Q :
  A = D ++ Q -> update !! i = Some (cursor hd D, zlen D) -> reaches i D -> low i Q ->
  get_level with_bumps (cursor hd D) i = Some (link i (Q ++ x :: B)).
Proof.
  intros EA Hu Hr Hl. destruct (update_level i _ _ Hu) as (D' & Q' & EA' & Ec & Ez & Hr' & Hl' & Hne & E).
  destruct (stop_unique i D Q D' Q') as [<- <-]; [congruence|done..|].
  rewrite with_bumps_level. destruct (Nat.ltb_spec i (e_height x)) as [Hi|Hi]; rewrite E; cbn [fmap option_fmap option_map].
  - unfold linked. cbn [Nat.leb]. rewrite Nat.sub_0_r, lookup_take_lt, Hu by done. rewrite decide_False, decide_True by done.
    cbn [default from_option id]. rewrite link_high by done. do 2 f_equal. rewrite EA in *. rewrite (u32_small (_ - _)); [|zlen].
    rewrite u32_small; zlen.
  - rewrite Hu, decide_True by done. rewrite link_low by done. cbn [link]. rewrite (proj2 (Nat.ltb_ge _ _)) by done.
    unfold shift. cbn [forward span]. do 2 f_equal. pose proof (link_span i B). rewrite EA in *. rewrite u64_small; zlen.
Qed.

Lemma inserted_other q i :
  q <> e_addr x -> (forall u r, update !! i = Some (u, r) -> q <> u) -> get_level with_bumps q i = get_level h q i.
Proof.
  intros Hq Hu. rewrite with_bumps_level, with_node_ne by done. destruct (Nat.ltb_spec i (e_height x)) as [Hi|Hi].
  - unfold linked. cbn [Nat.leb]. rewrite Nat.sub_0_r, lookup_take_lt by done.
    destruct (update !! i) as [[u r]|]; [rewrite !decide_False by eauto|]; by destruct (get_level h q i).
  - destruct (get_level h q i); [|done]. cbn [fmap option_fmap option_map].
    destruct (update !! i) as [[u r]|]; [by rewrite !decide_False by eauto|done].
Qed.

Lemma inserted_new i : (i < e_height x)%nat -> get_level with_bumps (e_addr x) i = Some (link i B).
Proof.
  intros Hi. rewrite with_bumps_level, (proj2 (Nat.ltb_lt _ _)), with_node_new by done. cbn [fmap option_fmap option_map].
  destruct (lookup_lt_is_Some_2 update i) as [[u r] Hu]; [lia|].
  destruct (update_level i _ _ Hu) as (D & Q & EA & -> & -> & Hr & Hl & Hne & E).
  unfold linked. cbn [Nat.leb]. rewrite Nat.sub_0_r, lookup_take_lt, Hu, decide_True, E by done. cbn [fmap option_fmap option_map default from_option id].
  unfold shift. cbn [forward span]. pose proof (link_span i B). rewrite EA in *.
  rewrite (u32_small (_ - _)), u64_small by zlen. destruct (link i B). cbn. do 2 f_equal. zlen.
Qed.

Lemma inserted_levels : levels_ok with_bumps hd lv (A ++ x :: B).
Proof.
  intros D Q i E Hr Hi. symmetry in E. apply app_cons_split in E as [(A2 & EA & ->)|(B1 & -> & EB)].
  - apply (stops_cover h with_bumps hd lv A B (x :: B) update); try done; [apply inserted_stop|].
    intros j D' Q' EA' Hu. apply inserted_other; [|done].
    apply (cursor_fresh hd D' (Q' ++ B)). by rewrite app_assoc, <- EA'.
  - destruct B1 as [|e B1 _] using rev_ind.
    + rewrite cursor_snoc. apply reaches_snoc in Hr. cbn [app] in EB. subst Q. by apply inserted_new.
    + assert (e ∈ B) as He by (rewrite EB; set_solver).
      change (A ++ x :: B1 ++ [e]) with (A ++ (x :: B1) ++ [e]) in *. rewrite app_assoc in *. rewrite cursor_snoc.
      apply reaches_snoc in Hr. rewrite inserted_other.
      * rewrite <- (cursor_snoc hd (A ++ B1) e). apply (no_levels _ _ _ _ Hn); [by rewrite EB, <- !app_assoc|by apply reaches_snoc|done].
      * intros E. apply Hfresh. rewrite <- E. right. apply (list_elem_of_fmap_2 e_addr). set_solver.
      * intros u r Hu. destruct (update_level i u r Hu) as (D & Q' & EA & -> & _).
        apply (cursor_right hd D Q' B); [rewrite <- EA; apply (no_nodup _ _ _ _ Hn)|done].
Qed.

Lemma inserted_header : header_ok with_bumps hd lv.
Proof.
  assert (hd <> e_addr x) as Hne by (intros E; apply Hfresh; rewrite <- E; by left).
  unfold with_bumps, with_links. repeat apply header_upd.
  - destruct (no_header _ _ _ _ Hn) as (s & ls & E & Hh). exists s, ls. split; [|done]. unfold with_node. by rewrite lookup_insert_ne.
  - intros i Hi. unfold linked. cbn [Nat.leb]. rewrite lookup_ge_None_2; [done|]. rewrite length_take. lia.
  - intros i Hi. unfold modified. destruct (Nat.leb _ _); [|done]. rewrite lookup_ge_None_2; [done|]. rewrite length_drop. lia.
Qed.

Lemma inserted_shape : Forall (shape with_bumps) (A ++ x :: B).
Proof.
  assert (Forall (shape with_node) (A ++ B)) as Hs.
  { apply Forall_forall. intros e He. assert (e_addr e <> e_addr x).
    { intros E. apply Hfresh. rewrite <- E. right. by apply (list_elem_of_fmap_2 e_addr). }
    pose proof (no_shape _ _ _ _ Hn) as Hs. rewrite Forall_forall in Hs. destruct (Hs e He) as (bw & ls & E & Hl).
    exists bw, ls. split; [|done]. unfold with_node. by rewrite lookup_insert_ne. }
  assert (shape with_node x).
  { eexists _, _. unfold with_node. rewrite lookup_insert_eq. split; [done|]. apply length_replicate. }
  eapply (Forall_impl (shape with_node)); [|intros e He; by repeat apply shape_upd].
  apply Forall_app in Hs as [H1 H2]. apply Forall_app. split; [done|]. by apply Forall_cons_2.
Qed.

Lemma inserted_backs : backs_ok with_bumps None (A ++ B).
Proof.
  eapply backs_ext; [|apply (no_backs _ _ _ _ Hn)]. intros e He. unfold with_bumps, with_links. rewrite !backward_upd.
  unfold with_node. rewrite lookup_insert_ne; [done|]. intros Ex. apply Hfresh. rewrite Ex. right.
  by apply (list_elem_of_fmap_2 e_addr).
Qed.

Lemma inserted_dom : dom with_bumps = {[e_addr x]} ∪ dom h.
Proof. unfold with_bumps, with_links, with_node. rewrite !dom_upd. apply dom_insert_L. Qed.
End Insert.

(** ** The backward pointer after an insertion or a deletion *)

(** The backward pointer of the first node of [B], or none. *)
Definition put_back_head B (q : option positive) h : heap :=
  match B with [] => h | b :: _ => put_back (e_addr b) q h end.

Lemma put_back_head_nodes h B q hd lv ns :
  hd ∉ map e_addr B ->
  Forall (shape h) ns /\ levels_ok h hd lv ns /\ header_ok h hd lv ->
  Forall (shape (put_back_head B q h)) ns /\ levels_ok (put_back_head B q h) hd lv ns /\ header_ok (put_back_head B q h) hd lv.
Proof.
  intros Hb (H1 & H2 & H3). destruct B as [|b B]; [done|]. cbn [put_back_head]. split_and!.
  - eapply Forall_impl; [exact H1|]. intros e. apply put_back_shape.
  - intros D Q i E Hr Hi. rewrite put_back_level. by apply H2.
  - apply put_back_header; [|done]. cbn in Hb. set_solver.
Qed.

Lemma put_back_head_dom h B q : dom (put_back_head B q h) = dom h.
Proof. destruct B; [done|apply dom_put_back]. Qed.

Lemma put_back_head_ne h B q k : k ∉ map e_addr B -> put_back_head B q h !! k = h !! k.
Proof. destruct B as [|b B]; [done|]. cbn. intros Hk. apply put_back_ne. set_solver. Qed.

Lemma put_back_head_backs h B q bw :
  NoDup (map e_addr B) -> backs_ok h bw B -> backs_ok (put_back_head B q h) q B.
Proof.
  destruct B as [|b B]; [done|]. cbn [map put_back_head backs_ok]. intros Hn [H1 H2]. apply NoDup_cons in Hn as [Hn _]. split.
  - apply put_back_eq. destruct (h !! e_addr b); [by eexists|done].
  - eapply backs_ext; [|exact H2]. intros e He. rewrite put_back_ne; [done|]. intros E. apply Hn. rewrite <- E.
    by apply (list_elem_of_fmap_2 e_addr).
Qed.

Lemma insert_backs h hd A x B :
  NoDup (hd :: map e_addr (A ++ x :: B)) -> is_Some (h !! e_addr x) -> backs_ok h None (A ++ B) ->
  backs_ok (put_back_head B (Some (e_addr x)) (put_back (e_addr x) (last_addr A) h)) None (A ++ x :: B).
Proof.
  intros Hn Hx Hb. apply backs_app in Hb as [H1 H2]. set (h1 := put_back _ _ h).
  assert (forall e, e ∈ A \/ e ∈ B -> h1 !! e_addr e = h !! e_addr e) as Hh1.
  { intros e He. apply put_back_ne. by eapply nodup_addr. }
  assert (NoDup (map e_addr B) /\ forall e, e ∈ A ++ [x] -> e_addr e ∉ map e_addr B) as [HnB HAB].
  { replace (A ++ x :: B) with ((A ++ [x]) ++ B) in Hn by (by rewrite <- app_assoc).
    rewrite map_app, app_comm_cons, NoDup_app in Hn. destruct Hn as (_ & Hn1 & Hn2). split; [done|].
    intros e He. apply Hn1. right. by apply (list_elem_of_fmap_2 e_addr). }
  apply backs_app. split; [|cbn [backs_ok]; split].
  - eapply backs_ext; [|exact H1]. intros e He. rewrite put_back_head_ne, Hh1; [done|by left|]. apply HAB. set_solver.
  - rewrite put_back_head_ne by (apply HAB; set_solver). rewrite prev_none. by apply put_back_eq.
  - eapply put_back_head_backs; [done|]. eapply backs_ext; [|exact H2]. intros e He. by rewrite Hh1 by (by right).
Qed.

Lemma delete_backs h hd A x B :
  NoDup (hd :: map e_addr (A ++ x :: B)) -> backs_ok h None (A ++ x :: B) ->
  backs_ok (put_back_head B (last_addr A) h) None (A ++ B).
Proof.
  intros Hn Hb. apply backs_app in Hb as [H1 [_ H2]]. apply nodup_middle in Hn as [Hn _].
  rewrite map_app, app_comm_cons, NoDup_app in Hn. destruct Hn as (_ & Hn1 & Hn2). apply backs_app. split.
  - eapply backs_ext; [|exact H1]. intros e He. rewrite put_back_head_ne; [done|]. apply Hn1. right.
    by apply (list_elem_of_fmap_2 e_addr).
  - rewrite prev_none. by eapply put_back_head_backs.
Qed.

(** ** The search *)

Lemma search_from_header_spec w go h zsl A B :
  zrep h zsl (A ++ B) -> cuts go h A B -> zlen (A ++ B) < 2 ^ w ->
  exists update, search_from_header w go h zsl = Some update /\ length update = Z.to_nat (zlevel zsl) /\
    forall i u, update !! i = Some u -> stops (header zsl) A i u.
Proof.
  intros Hz Hc Hw. unfold search_from_header. rewrite (zr_length _ _ _ Hz).
  apply (search_spec h _ _ A B go w (zr_nodes _ _ _ Hz) Hc Hw _ _ [] A); [done|apply reaches_nil|lia|unfold zlen; rewrite length_app; lia].
Qed.

Lemma low_0 lv Q : Forall (fun e => (1 <= e_height e <= lv)%nat) Q -> low 0 Q -> Q = [].
Proof. destruct Q as [|e Q]; [done|]. intros H1 H2. apply Forall_inv in H1, H2. lia. Qed.

Lemma stops_0 h hd lv A B u : nodes_ok h hd lv (A ++ B) -> stops hd A 0 u -> u = (cursor hd A, zlen A).
Proof.
  intros Hn (D & Q & -> & -> & _ & Hl). apply low_0 with (lv := lv) in Hl as ->; [by rewrite app_nil_r|].
  pose proof (no_heights _ _ _ _ Hn) as Hh. rewrite !Forall_app in Hh. tauto.
Qed.

Lemma search_0 h hd lv A B update :
  nodes_ok h hd lv (A ++ B) -> length update = lv -> (forall i u, update !! i = Some u -> stops hd A i u) ->
  update !! 0%nat = Some (cursor hd A, zlen A).
Proof.
  intros Hn Hlen Hst. pose proof (no_level _ _ _ _ Hn). destruct (lookup_lt_is_Some_2 update 0) as [u Hu]; [lia|].
  rewrite Hu. f_equal. by eapply stops_0, Hst.
Qed.

Lemma nodes_dom h hd lv ns p : nodes_ok h hd lv ns -> h !! p = None -> p ∉ hd :: map e_addr ns.
Proof.
  intros Hn Hp Hin. apply elem_of_cons in Hin as [->|Hin].
  - destruct (no_header _ _ _ _ Hn) as (? & ? & ? & _). congruence.
  - apply (list_elem_of_fmap_1 e_addr) in Hin as (e & -> & He). pose proof (no_shape _ _ _ _ Hn) as Hs. rewrite Forall_forall in Hs.
    destruct (shape_lookup h e (Hs e He)). congruence.
Qed.

(** ** Insertion *)

Lemma insert_nodes h hd lv A B x junk update :
  nodes_ok h hd lv (A ++ B) -> e_addr x ∉ hd :: map e_addr (A ++ B) -> (1 <= e_height x <= lv)%nat -> length update = lv ->
  (forall i u, update !! i = Some u -> stops hd A i u) -> zlen (A ++ B) + 1 < 2 ^ 32 ->
  nodes_ok (put_back_head B (Some (e_addr x)) (put_back (e_addr x) (last_addr A) (with_bumps h A x junk update))) hd lv (A ++ x :: B).
Proof.
  intros Hn Hf Hx Hlen Hst Hb.
  assert (NoDup (hd :: map e_addr (A ++ x :: B))) as Hnd by (apply nodup_middle; split; [apply (no_nodup _ _ _ _ Hn)|done]).
  pose proof (inserted_shape h hd lv A B x junk update Hn Hf) as Hs.
  assert (hd ∉ map e_addr B /\ hd <> e_addr x) as [HhB Hhx].
  { apply NoDup_cons in Hnd as [Hnd _]. rewrite map_app in Hnd. cbn in Hnd. set_solver. }
  destruct (put_back_head_nodes (put_back (e_addr x) (last_addr A) (with_bumps h A x junk update)) B (Some (e_addr x)) hd lv (A ++ x :: B) HhB)
    as (H1 & H2 & H3).
  { split_and!.
    - eapply Forall_impl; [exact Hs|]. intros e. apply put_back_shape.
    - intros D Q i E Hr Hi. rewrite put_back_level. by eapply inserted_levels.
    - apply put_back_header; [done|]. by eapply inserted_header. }
  split; try done.
  - apply (insert_backs _ hd); [done| |by eapply inserted_backs]. apply shape_lookup. rewrite Forall_forall in Hs. apply Hs. set_solver.
  - pose proof (no_heights _ _ _ _ Hn) as Hh. apply Forall_app in Hh as [Hh1 Hh2]. apply Forall_app. split; [done|by apply Forall_cons_2].
  - apply (no_level _ _ _ _ Hn).
Qed.

(** The levels above that of the list: the search stops at the header. *)
Lemma raise_stops hd lv A update k :
  Forall (fun e => (1 <= e_height e <= lv)%nat) A -> length update = lv -> (forall i u, update !! i = Some u -> stops hd A i u) ->
  forall i u, (update ++ replicate k (hd, 0)) !! i = Some u -> stops hd A i u.
Proof.
  intros Hh Hlen Hst i u Hu. apply lookup_app_Some in Hu as [Hu|[Hi Hu]]; [by apply Hst|].
  apply lookup_replicate in Hu as [-> _]. exists [], A. split_and!; [done..|apply reaches_nil|]. eapply heights_low; [done|lia].
Qed.

(** The first part of [zslInsert]: the level of the list is at least that of
    the node. *)
Definition raise (level : Z) h zsl (update : list (positive * Z)) : option (heap * list (positive * Z) * Z) :=
  if zlevel zsl <? level then
    let k := Z.to_nat (level - zlevel zsl) in
    h ← raise_levels k (Z.to_nat (zlevel zsl)) h (header zsl) (zlength zsl);
    Some (h, update ++ replicate k (header zsl, 0), level)
  else Some (h, update, zlevel zsl).

Lemma raise_spec level h zsl A B update :
  zrep h zsl (A ++ B) -> 1 <= level <= 32 -> length update = Z.to_nat (zlevel zsl) ->
  (forall i u, update !! i = Some u -> stops (header zsl) A i u) ->
  exists h' update', raise level h zsl update = Some (h', update', Z.max (zlevel zsl) level) /\ dom h' = dom h /\
    nodes_ok h' (header zsl) (Z.to_nat (Z.max (zlevel zsl) level)) (A ++ B) /\
    length update' = Z.to_nat (Z.max (zlevel zsl) level) /\ (forall i u, update' !! i = Some u -> stops (header zsl) A i u).
Proof.
  intros Hz Hl Hlen Hst. unfold raise. pose proof (zr_nodes _ _ _ Hz) as Hn. pose proof (zr_level _ _ _ Hz).
  destruct (Z.ltb_spec (zlevel zsl) level) as [Hlt|Hge].
  - rewrite (zr_length _ _ _ Hz). destruct (raise_levels_spec h (header zsl) (Z.to_nat (zlevel zsl)) (Z.to_nat level) (A ++ B) Hn) as (h' & E & Hn' & Hd); [lia|].
    rewrite <- Z2Nat.inj_sub in E by lia. rewrite E. cbn [mbind option_bind]. rewrite Z.max_r by lia. do 2 eexists.
    split; [done|]. split_and!; [done..| |].
    + rewrite length_app, length_replicate. lia.
    + eapply raise_stops; [|exact Hlen|done]. pose proof (no_heights _ _ _ _ Hn) as Hh. apply Forall_app in Hh. tauto.
  - rewrite Z.max_l by lia. by exists h, update.
Qed.

Lemma cursor_back hd A B : NoDup (hd :: map e_addr (A ++ B)) ->
  (if bool_decide (cursor hd A = hd) then None else Some (cursor hd A)) = last_addr A.
Proof.
  destruct A as [|e A _] using rev_ind; [by rewrite bool_decide_true|]. rewrite cursor_snoc, last_addr_snoc. intros Hn.
  rewrite bool_decide_false; [done|]. intros E. apply NoDup_cons in Hn as [Hn _]. apply Hn. rewrite <- E.
  apply (list_elem_of_fmap_2 e_addr). set_solver.
Qed.

Lemma last_addr_middle A x B : last_addr (A ++ x :: B) = prev_addr (Some (e_addr x)) B.
Proof. rewrite (prev_cons None), prev_none. by apply last_addr_app. Qed.

(** The successor of the new node, if any, points back to it. *)
Lemma next_backward h h' hd lv A B x :
  nodes_ok h hd lv (A ++ B) -> Forall (shape h') B ->
  match forward (link 0 B) with
  | Some f => h ← set_backward h' f (Some (e_addr x)); Some (h, last_addr (A ++ B))
  | None => Some (h', Some (e_addr x))
  end = Some (put_back_head B (Some (e_addr x)) h', prev_addr (Some (e_addr x)) B).
Proof.
  intros Hn Hs. destruct B as [|b B]; [done|]. cbn [link put_back_head].
  pose proof (no_heights _ _ _ _ Hn) as Hh. apply Forall_app in Hh as [_ Hh]. apply Forall_inv in Hh.
  rewrite (proj2 (Nat.ltb_lt _ _)) by lia. cbn [forward]. rewrite set_backward_put by (apply shape_lookup; by apply Forall_inv in Hs).
  cbn [mbind option_bind]. do 2 f_equal. rewrite last_addr_middle. by rewrite <- (prev_cons (Some (e_addr x))).
Qed.

Lemma zslInsert_spec p junk level h zsl (s : S) (el : list Z) A B :
  let x := mk_entry p s el (Z.to_nat level) in
  zrep h zsl (A ++ B) -> cuts (fun _ _ => node_before s el) h A B -> h !! p = None -> 1 <= level <= 32 ->
  zlen (A ++ B) + 1 < 2 ^ 32 -> StronglySorted before (A ++ x :: B) ->
  exists h' zsl', zslInsert p junk level h zsl s el = Some (h', zsl') /\ zrep h' zsl' (A ++ x :: B) /\
    header zsl' = header zsl /\ dom h' = {[p]} ∪ dom h.
Proof.
  intros x Hz Hc Hp Hl Hb Hso. unfold zslInsert.
  destruct (search_from_header_spec 32 _ h zsl A B Hz Hc ltac:(lia)) as (update & -> & Hlen & Hst). cbn [mbind option_bind].
  fold (raise level h zsl update). destruct (raise_spec level h zsl A B update Hz Hl Hlen Hst) as (h1 & up & -> & Hd & Hn & Hlen' & Hst').
  cbn [mbind option_bind]. rewrite (search_0 h1 _ _ A B up Hn Hlen' Hst'). cbn [mbind option_bind].
  assert (h1 !! p = None) as Hp1 by (apply not_elem_of_dom; rewrite Hd; by apply not_elem_of_dom).
  pose proof (nodes_dom _ _ _ _ p Hn Hp1) as Hf. assert (1 <= e_height x <= Z.to_nat (Z.max (zlevel zsl) level))%nat as Hx by (cbn; lia).
  change (<[p := _]> h1) with (with_node h1 x junk). change p with (e_addr x) in Hf |- *.
  change (Z.to_nat level) with (e_height x).
  rewrite (link_levels_ok h1 (header zsl) _ A B x junk up Hn Hf Hx Hlen' Hst'). cbn [mbind option_bind].
  rewrite (bump_levels_ok h1 (header zsl) _ A B x junk up Hn Hf Hx Hlen' Hst'). cbn [mbind option_bind].
  pose proof (insert_nodes h1 _ _ A B x junk up Hn Hf Hx Hlen' Hst' Hb) as Hn'.
  pose proof (inserted_shape h1 _ _ A B x junk up Hn Hf) as Hs.
  rewrite set_backward_put by (apply shape_lookup; rewrite Forall_forall in Hs; apply Hs; set_solver). cbn [mbind option_bind].
  rewrite put_back_level, (inserted_new h1 (header zsl) _ A B x junk up Hn Hf Hx Hlen' Hst' Hb) by lia. cbn [mbind option_bind].
  rewrite (cursor_back _ A B (no_nodup _ _ _ _ Hn)).
  rewrite (zr_tail _ _ _ Hz), (next_backward h1 _ _ _ A B x Hn).
  2: { apply Forall_app in Hs as [_ Hs]. apply Forall_cons_1 in Hs as [_ Hs]. eapply Forall_impl; [exact Hs|]. intros. by apply put_back_shape. }
  cbn [mbind option_bind].
  do 2 eexists. split; [done|]. split_and!; [|done|].
  - destruct Hz as [_ Ht H1 _ Hlg _ _]. split; cbn; try done.
    + intros H2. destruct (Z.max_spec (zlevel zsl) level) as [[H3 ->]|[H3 E]]; [exists x; split; [set_solver|done]|].
      rewrite E in *. destruct (Ht H2) as (y & Hy & Hh). exists y. split; [|done]. set_solver.
    + lia.
    + by rewrite last_addr_middle.
    + rewrite Hlg, u64_small; zlen.
    + zlen.
  - rewrite put_back_head_dom, dom_put_back, inserted_dom, Hd. done.
Qed.

(** ** Unlinking a node *)

Section Delete.
Context (h : heap) (hd : positive) (lv : nat) (A B : list (entry S)) (x : entry S).
Context (update : list (positive * Z)).
Hypothesis Hn : nodes_ok h hd lv (A ++ x :: B).
Hypothesis Hlen : length update = lv.
Hypothesis Hst : forall i u, update !! i = Some u -> stops hd A i u.
Hypothesis Hbound : zlen (A ++ x :: B) < 2 ^ 32.

Definition without_links : heap :=
  apply_upd (modified (unlinked (fun j => link j B) (e_addr x)) update 0 h) h.

Lemma stop_not_x D Q : A = D ++ Q -> cursor hd D <> e_addr x.
Proof using Hn.
  clear Hlen Hst Hbound update.
  intros EA E. apply (cursor_right hd D Q (x :: B) x); [rewrite <- EA; apply (no_nodup _ _ _ _ Hn)|by left|done].
Qed.

Lemma link_to_x i Q : low i Q -> forward (link i (Q ++ x :: B)) = Some (e_addr x) <-> (i < e_height x)%nat.
Proof using Hn.
  clear Hlen Hst Hbound update.
  intros Hl. split; [|intros Hi; by rewrite link_high]. intros Hf. apply Nat.lt_nge. intros Hi. rewrite link_low in Hf by done.
  cbn [shift forward link] in Hf. rewrite (proj2 (Nat.ltb_ge _ _)) in Hf by done. cbn [forward] in Hf.
  apply link_forward in Hf as (B1 & e & B2 & EB & _ & _ & Ee).
  apply (nodup_addr hd A x B e (no_nodup _ _ _ _ Hn)); [right; rewrite EB; set_solver|done].
Qed.

Lemma x_level i : (i < e_height x)%nat -> get_level h (e_addr x) i = Some (link i B).
Proof using Hn.
  clear Hlen Hst Hbound update.
  intros Hi. rewrite <- (cursor_snoc hd A x). apply (no_levels _ _ _ _ Hn); [by rewrite <- app_assoc|by apply reaches_snoc|].
  pose proof (no_heights _ _ _ _ Hn) as Hh. apply Forall_app in Hh as [_ Hh]. apply Forall_inv in Hh. lia.
Qed.

Lemma unlink_level i u r : update !! i = Some (u, r) ->
  exists D Q, A = D ++ Q /\ u = cursor hd D /\ r = zlen D /\ reaches i D /\ low i Q /\ get_level h u i = Some (link i (Q ++ x :: B)).
Proof using Hn Hlen Hst.
  clear Hbound.
  intros Hu. assert (i < lv)%nat as Hi by (apply lookup_lt_Some in Hu; lia).
  destruct (stop_level h hd lv A (x :: B) i u r Hn Hi (Hst i _ Hu)) as (D & Q & EA & -> & -> & Hr & Hl & E). exists D, Q.
  rewrite link_low by done. by split_and!.
Qed.

Lemma unlink_levels_ok : unlink_levels update 0 h (e_addr x) = Some without_links.
Proof using Hn Hlen Hst.
  clear Hbound.
  rewrite (unlink_levels_modify _ _ _ _ (fun j => link j B)).
  - apply modify_levels_spec. intros k u r Hk. destruct (unlink_level k u r Hk) as (D & Q & _ & _ & _ & _ & _ & E). by eexists.
  - intros k u r Hk. destruct (unlink_level k u r Hk) as (D & Q & EA & -> & _). by eapply stop_not_x.
  - intros k u r l Hk Hl Hf. cbn [Nat.add] in *. destruct (unlink_level k u r Hk) as (D & Q & EA & -> & _ & Hr & Hq & E).
    apply x_level. apply (link_to_x k Q Hq). congruence.
Qed.

Lemma deleted_stop i D Q :
  A = D ++ Q -> update !! i = Some (cursor hd D, zlen D) -> reaches i D -> low i Q ->
  get_level without_links (cursor hd D) i = Some (link i (Q ++ B)).
Proof.
  intros EA Hu Hr Hl. destruct (unlink_level i _ _ Hu) as (D' & Q' & EA' & _ & _ & Hr' & Hl' & E).
  destruct (stop_unique i D Q D' Q') as [<- <-]; [congruence|done..|].
  unfold without_links. rewrite get_level_upd. unfold modified. cbn [Nat.leb]. rewrite Nat.sub_0_r, Hu, decide_True, E by done.
  cbn [fmap option_fmap option_map default from_option id]. f_equal. unfold unlinked. pose proof (link_span i B).
  assert (zlen A = zlen D + zlen Q) by (rewrite EA; zlen). destruct (decide (i < e_height x)%nat) as [Hi|Hi].
  - rewrite bool_decide_true by (by apply link_to_x). rewrite link_high, link_low by done. unfold shift. cbn [forward span]. f_equal.
    transitivity (u64 (zlen Q + 1 + (span (link i B) - 1))); [unfold u64, wrap; by rewrite Zplus_mod_idemp_r|]. rewrite u64_small; zlen.
  - rewrite bool_decide_false by (rewrite link_to_x by done; lia). rewrite !link_low by done. cbn [link].
    rewrite (proj2 (Nat.ltb_ge _ _)) by lia. unfold shift. cbn [forward span]. f_equal. rewrite u64_small; zlen.
Qed.

Lemma deleted_other q i :
  (forall u r, update !! i = Some (u, r) -> q <> u) -> get_level without_links q i = get_level h q i.
Proof using.
  intros Hu. unfold without_links. rewrite get_level_upd. unfold modified. cbn [Nat.leb]. rewrite Nat.sub_0_r.
  destruct (update !! i) as [[u r]|]; [rewrite !decide_False by eauto|]; by destruct (get_level h q i).
Qed.

Lemma right_not_stop e i u r : e ∈ x :: B -> update !! i = Some (u, r) -> e_addr e <> u.
Proof using Hn Hlen Hst.
  clear Hbound.
  intros He Hu. destruct (unlink_level i u r Hu) as (D & Q & EA & -> & _).
  apply (cursor_right hd D Q (x :: B)); [rewrite <- EA; apply (no_nodup _ _ _ _ Hn)|done].
Qed.

Lemma deleted_levels : levels_ok without_links hd lv (A ++ B).
Proof.
  intros D Q i E Hr Hi. assert (forall A2, A = D ++ A2 -> Q = A2 ++ B -> get_level without_links (cursor hd D) i = Some (link i Q)) as Hleft.
  { intros A2 EA ->. eapply (stops_cover h without_links hd lv A (x :: B) B update); try done; [apply deleted_stop|].
    intros j D' Q' EA' Hu. by apply deleted_other. }
  apply app_eq_inv in E as [(k & EA & ->)|(k & -> & EB)]; [by apply (Hleft k)|].
  destruct k as [|e k _] using rev_ind; [apply (Hleft []); [by rewrite !app_nil_r|done]|].
  rewrite app_assoc in *. rewrite cursor_snoc. apply reaches_snoc in Hr. rewrite deleted_other.
  - rewrite <- (cursor_snoc hd (A ++ x :: k) e). apply (no_levels _ _ _ _ Hn); [|by apply reaches_snoc|done].
    by rewrite EB, <- !app_assoc.
  - intros u r. apply right_not_stop. rewrite EB. set_solver.
Qed.

Lemma deleted_header : header_ok without_links hd lv.
Proof.
  apply header_upd; [apply (no_header _ _ _ _ Hn)|]. intros i Hi. unfold modified. cbn [Nat.leb].
  by rewrite Nat.sub_0_r, lookup_ge_None_2 by lia.
Qed.

Lemma deleted_nodes : nodes_ok (put_back_head B (last_addr A) without_links) hd lv (A ++ B).
Proof.
  pose proof (no_nodup _ _ _ _ Hn) as Hnd. pose proof Hnd as Hnd'. apply nodup_middle in Hnd' as [Hnd' _].
  assert (hd ∉ map e_addr B) as HhB by (apply NoDup_cons in Hnd as [Hnd _]; rewrite map_app in Hnd; cbn in Hnd; set_solver).
  destruct (put_back_head_nodes without_links B (last_addr A) hd lv (A ++ B) HhB) as (H1 & H2 & H3).
  { split_and!; [|apply deleted_levels|apply deleted_header].
    pose proof (no_shape _ _ _ _ Hn) as Hs. apply Forall_app in Hs as [Hs1 Hs2]. apply Forall_cons_1 in Hs2 as [_ Hs2].
    eapply (Forall_impl (shape h)); [by apply Forall_app|]. intros e. apply shape_upd. }
  split; try done.
  - apply (delete_backs _ hd A x B Hnd). eapply backs_ext; [|apply (no_backs _ _ _ _ Hn)]. intros e _. apply backward_upd.
  - pose proof (no_heights _ _ _ _ Hn) as Hh. apply Forall_app in Hh as [Hh1 Hh2]. apply Forall_cons_1 in Hh2 as [_ Hh2]. by apply Forall_app.
  - apply (no_level _ _ _ _ Hn).
Qed.
End Delete.

(** ** Lowering the level *)

Lemma lower_level_spec fuel : forall h hd lv ns,
  nodes_ok h hd (Z.to_nat lv) ns -> 1 <= lv <= Z.of_nat fuel ->
  exists lv', lower_level fuel h hd lv = Some lv' /\ 1 <= lv' <= lv /\ nodes_ok h hd (Z.to_nat lv') ns /\
    (1 < lv' -> exists e, e ∈ ns /\ e_height e = Z.to_nat lv').
Proof.
  induction fuel as [|fuel IH]; intros h hd lv ns Hn Hlv; [lia|]. cbn [lower_level].
  destruct (Z.ltb_spec 1 lv) as [Hgt|Hle]; [|exists lv; split_and!; [done|lia..|done|lia]].
  destruct Hn as [Hnd Hsh Hbk Hl Hhd Hht Hlev].
  pose proof (Hl [] ns (Z.to_nat (lv - 1)) eq_refl (reaches_nil _) ltac:(lia)) as E. change (cursor hd []) with hd in E.
  rewrite E. cbn [mbind option_bind]. destruct (low_or_split (Z.to_nat (lv - 1)) ns) as [Hlow|(Q1 & e & Q2 & -> & H1 & H2)].
  - assert (forward (link (Z.to_nat (lv - 1)) ns) = None) as Hf by (rewrite <- (app_nil_r ns), link_low; done). rewrite Hf.
    destruct (IH h hd (lv - 1) ns) as (lv' & E' & Hlv' & Hn' & Ht); [|lia|exists lv'; split_and!; try done; lia].
    split; try done; [intros D Q i ED Hr Hi; apply Hl; [done..|lia]| | |lia].
    + destruct Hhd as (s & ls & Eh & Hlen & Hab). exists s, ls. split_and!; [done..|]. intros i l Hi Hil.
      destruct (decide (i = Z.to_nat (lv - 1))) as [->|Hne]; [|apply (Hab i); [lia|done]].
      unfold get_level in E. rewrite Eh in E. cbn in E. congruence.
    + apply Forall_forall. intros e He. unfold low in Hlow. rewrite !Forall_forall in *. specialize (Hht e He). specialize (Hlow e He). lia.
  - rewrite link_high by done. cbn [forward]. exists lv. split_and!; [done|lia..|done|]. intros _. exists e. split; [set_solver|].
    rewrite Forall_forall in Hht. specialize (Hht e ltac:(set_solver)). lia.
Qed.

Lemma nodes_ext h h' hd lv ns :
  (forall q, q ∈ hd :: map e_addr ns -> h' !! q = h !! q) -> nodes_ok h hd lv ns -> nodes_ok h' hd lv ns.
Proof.
  intros E [Hnd Hsh Hbk Hl Hhd Hht Hlev]. assert (forall e, e ∈ ns -> h' !! e_addr e = h !! e_addr e) as En.
  { intros e He. apply E. right. by apply (list_elem_of_fmap_2 e_addr). }
  split; try done.
  - rewrite Forall_forall in *. intros e He. destruct (Hsh e He) as (bw & ls & Ee & Hls). exists bw, ls. by rewrite En.
  - eapply backs_ext; [|done]. intros e He. by rewrite En.
  - intros D Q i ED Hr Hi. unfold get_level. rewrite E; [by apply Hl|]. rewrite ED, map_app, app_comm_cons. apply elem_of_app. left. apply cursor_in.
  - destruct Hhd as (s & ls & Eh & Hh). exists s, ls. split; [|done]. rewrite E; [done|by left].
Qed.

(** ** Deletion *)

Lemma stops_take hd A update n :
  (forall i u, update !! i = Some u -> stops hd A i u) -> forall i u, take n update !! i = Some u -> stops hd A i u.
Proof. intros Hst i u Hu. apply lookup_take_Some in Hu as [Hu _]. by apply Hst. Qed.

(** The successor of the deleted node, if any, points back to its predecessor. *)
Lemma next_forward h h' hd lv A x B :
  nodes_ok h hd lv (A ++ x :: B) -> Forall (shape h') B ->
  match forward (link 0 B) with
  | Some f => h ← set_backward h' f (last_addr A); Some (h, last_addr (A ++ x :: B))
  | None => Some (h', last_addr A)
  end = Some (put_back_head B (last_addr A) h', last_addr (A ++ B)).
Proof.
  intros Hn Hs. destruct B as [|b B]; [by rewrite app_nil_r|]. cbn [link put_back_head].
  pose proof (no_heights _ _ _ _ Hn) as Hh. apply Forall_app in Hh as [_ Hh]. apply Forall_cons_1 in Hh as [_ Hh]. apply Forall_inv in Hh.
  rewrite (proj2 (Nat.ltb_lt _ _)) by lia. cbn [forward]. rewrite set_backward_put by (apply shape_lookup; by apply Forall_inv in Hs).
  cbn [mbind option_bind]. do 2 f_equal. rewrite last_addr_middle, last_addr_app by done. 
  by rewrite <- (prev_none (b :: B)), <- (prev_cons None b), <- (prev_cons (Some (e_addr x)) b).
Qed.

Lemma sorted_delete A x B : StronglySorted before (A ++ x :: B) -> StronglySorted before (A ++ B).
Proof.
  induction A as [|y A IH]; cbn [app]; intros Hs; apply StronglySorted_inv in Hs as [Hs Hf]; [done|].
  constructor; [by apply IH|]. apply Forall_app in Hf as [H1 H2]. apply Forall_cons_1 in H2 as [_ H2]. by apply Forall_app.
Qed.

Lemma zslDeleteNode_spec h zsl A x B update :
  zrep h zsl (A ++ x :: B) -> (Z.to_nat (zlevel zsl) <= length update)%nat ->
  (forall i u, update !! i = Some u -> stops (header zsl) A i u) ->
  exists h' zsl', zslDeleteNode h zsl (e_addr x) update = Some (h', zsl') /\ zrep h' zsl' (A ++ B) /\
    header zsl' = header zsl /\ zlevel zsl' <= zlevel zsl /\ dom h' = dom h.
Proof.
  intros Hz Hlen Hst. unfold zslDeleteNode. destruct Hz as [Hn Ht Hlv Htl Hlg Hbd Hso].
  set (up := take _ update). assert (length up = Z.to_nat (zlevel zsl)) as Hup by (unfold up; rewrite length_take; lia).
  pose proof (stops_take _ A update (Z.to_nat (zlevel zsl)) Hst) as Hst'. fold up in Hst'.
  rewrite (unlink_levels_ok h _ _ A B x up Hn Hup Hst'). cbn [mbind option_bind].
  pose proof (no_heights _ _ _ _ Hn) as Hh. apply Forall_app in Hh as [_ Hh]. apply Forall_cons_1 in Hh as [Hx _].
  rewrite (deleted_other h B x up), (x_level h (header zsl) _ A B x Hn); [|lia|].
  2: { intros u r. apply (right_not_stop h _ _ A B x up Hn Hup Hst'). by left. }
  cbn [mbind option_bind].
  pose proof (no_shape _ _ _ _ Hn) as Hs. apply Forall_app in Hs as [_ Hs]. apply Forall_cons_1 in Hs as [(bw & ls & Ex & _) Hs].
  pose proof (no_backs _ _ _ _ Hn) as Hb. apply backs_app in Hb as [_ [Hb _]]. rewrite Ex, prev_none in Hb. cbn in Hb. injection Hb as ->.
  set (without := without_links h B x up). assert (without !! e_addr x = relevel (modified (unlinked (fun j => link j B) (e_addr x)) up 0 h) (e_addr x) <$> h !! e_addr x) as -> by apply apply_upd_lookup.
  rewrite Ex. cbn [fmap option_fmap option_map mbind option_bind relevel backward].
  pose proof (deleted_nodes h _ _ A B x up Hn Hup Hst' Hbd) as Hn'.  fold without in Hn'.
  rewrite Htl, (next_forward h without _ _ A x B Hn) by (eapply Forall_impl; [exact Hs|]; intros e; apply shape_upd).
  cbn [mbind option_bind].
  destruct (lower_level_spec (Z.to_nat (zlevel zsl)) _ _ (zlevel zsl) _ Hn') as (lv' & -> & Hlv' & Hn'' & Ht'); [lia|].
  cbn [mbind option_bind]. do 2 eexists. split; [done|]. split_and!; [|done|cbn; lia|by rewrite put_back_head_dom; apply dom_upd].
  split; cbn; try done; [lia| |zlen|by eapply sorted_delete]. rewrite Hlg, u64_small; zlen.
Qed.

Lemma zrep_free h zsl ns p : p ∉ header zsl :: map e_addr ns -> zrep h zsl ns -> zrep (delete p h) zsl ns.
Proof.
  intros Hp [Hn Ht Hlv Htl Hlg Hbd Hso]. split; try done. eapply nodes_ext; [|done]. intros q Hq. apply lookup_delete_ne. by intros ->.
Qed.
End Core.
