(* ===== verification/ZskiplistSeq.v ===== *)
(** * Skip lists: insertion, deletion and update on the sorted sequence

    The operations of the skip list against operations on the sequence of its
    keys: a key is a score and an element. *)

From stdpp Require Import base list option gmap sorting.
From Stdlib Require Import ZArith Lia Bool.
From S2P Require Import Prelude Zskiplist ZskiplistFacts ZskiplistOps.

Local Open Scope Z_scope.

Section Seq.
Context {S : Type} `{Score S}.

Abbreviation node := (zskiplistNode S).
Abbreviation heap := (gmap positive (zskiplistNode S)).
Abbreviation key := (S * list Z)%type.
Implicit Types (h : heap) (zsl : zskiplist) (ns A B M P Q D : list (entry S)) (e x : entry S) (k : key) (l : list key).

Definition keys ns : list key := map e_key ns.

(** ** Operations on the sequence of keys *)

Definition same_keyb k k' : bool := score_eq k.1 k'.1 && bool_decide (k.2 = k'.2).

Definition seq_insert k l : list key :=
  List.filter (fun k' => key_lt k' k) l ++ k :: List.filter (fun k' => negb (key_lt k' k)) l.

Definition seq_delete k l : list key := List.filter (fun k' => negb (same_keyb k' k)) l.

(** ** Cutting a sorted sequence *)

(** A test of keys that holds before a place of the sequence and not after it. *)
Definition downward (f : key -> bool) ns : Prop :=
  forall e e', e ∈ ns -> e' ∈ ns -> before e e' -> f (e_key e') = true -> f (e_key e) = true.

Lemma sorted_cut (f : key -> bool) ns : downward f ns -> StronglySorted before ns ->
  exists A B, ns = A ++ B /\ Forall (fun e => f (e_key e) = true) A /\ Forall (fun e => f (e_key e) = false) B.
Proof.
  induction ns as [|e ns IH]; intros Hf Hs; [by exists [], []|]. apply StronglySorted_inv in Hs as [Hs He].
  destruct (f (e_key e)) eqn:Ef.
  - destruct IH as (A & B & -> & HA & HB); [intros e1 e2 H1 H2; apply Hf; by right|done|].
    exists (e :: A), B. split_and!; [done|by apply Forall_cons_2|done].
  - exists [], (e :: ns). split_and!; [done..|apply Forall_cons_2; [done|]]. apply Forall_forall. intros e' He'.
    rewrite Forall_forall in He. destruct (f (e_key e')) eqn:Ef'; [|done].
    rewrite (Hf e e') in Ef; [done|by left|by right|by apply He|done].
Qed.

Lemma filter_all (f : key -> bool) ns : Forall (fun e => f (e_key e) = true) ns -> List.filter f (keys ns) = keys ns.
Proof. induction 1 as [|e ns He Hns IH]; [done|]. cbn. rewrite He. by f_equal. Qed.

Lemma filter_none (f : key -> bool) ns : Forall (fun e => f (e_key e) = false) ns -> List.filter f (keys ns) = [].
Proof. induction 1 as [|e ns He Hns IH]; [done|]. cbn. by rewrite He. Qed.

Lemma filter_cut (f : key -> bool) A B :
  Forall (fun e => f (e_key e) = true) A -> Forall (fun e => f (e_key e) = false) B ->
  List.filter f (keys (A ++ B)) = keys A /\ List.filter (fun k => negb (f k)) (keys (A ++ B)) = keys B.
Proof.
  intros HA HB. unfold keys. rewrite map_app, !List.filter_app. fold (keys A) (keys B). rewrite filter_all, filter_none by done.
  rewrite filter_none, filter_all; [by rewrite app_nil_r| |].
  - eapply Forall_impl; [exact HB|]. intros e He. cbn in *. by rewrite He.
  - eapply Forall_impl; [exact HA|]. intros e He. cbn in *. by rewrite He.
Qed.

Lemma cut_test (f : key -> bool) A B P e Q :
  Forall (fun e => f (e_key e) = true) A -> Forall (fun e => f (e_key e) = false) B -> A ++ B = P ++ e :: Q ->
  f (e_key e) = bool_decide (zlen P < zlen A).
Proof.
  intros HA HB E. assert ((A ++ B) !! length P = Some e) as He by (rewrite E; by apply list_lookup_middle).
  unfold zlen. case_bool_decide as Hc.
  - rewrite lookup_app_l in He by lia. rewrite Forall_lookup in HA. by eapply HA.
  - rewrite lookup_app_r in He by lia. rewrite Forall_lookup in HB. by eapply HB.
Qed.

(** A walk whose condition is a test of the next key. *)
Lemma cuts_keys (f : key -> bool) (go : Z -> Z -> node -> bool) h zsl A B :
  zrep h zsl (A ++ B) ->
  (forall r sp n e, ele n = Some (e_ele e) -> score n = e_score e -> go r sp n = f (e_key e)) ->
  Forall (fun e => f (e_key e) = true) A -> Forall (fun e => f (e_key e) = false) B -> cuts go h A B.
Proof.
  intros Hz Hgo HA HB P e Q n r sp E En _. assert (go r sp n = f (e_key e)) as ->.
  { pose proof (no_shape _ _ _ _ (zr_nodes _ _ _ Hz)) as Hs. rewrite Forall_forall in Hs.
    destruct (Hs e) as (bw & ls & En' & _); [rewrite E; set_solver|]. rewrite En in En'. injection En' as ->. by apply Hgo. }
  by apply (cut_test f A B P e Q).
Qed.

Definition head_addr ns : option positive := e_addr <$> head ns.

Lemma next_of_spec h zsl A B update :
  zrep h zsl (A ++ B) -> length update = Z.to_nat (zlevel zsl) -> (forall i u, update !! i = Some u -> stops (header zsl) A i u) ->
  next_of h update = Some (head_addr B).
Proof.
  intros Hz Hlen Hst. pose proof (zr_nodes _ _ _ Hz) as Hn. unfold next_of.
  rewrite (search_0 h _ _ A B update Hn Hlen Hst). cbn [mbind option_bind].
  pose proof (no_heights _ _ _ _ Hn) as Hh. apply Forall_app in Hh as [HhA HhB].
  rewrite (no_levels _ _ _ _ Hn A B 0%nat); [|done| |pose proof (zr_level _ _ _ Hz); lia].
  - cbn [mbind option_bind]. f_equal. destruct B as [|b B]; [done|]. cbn [link]. apply Forall_inv in HhB.
    rewrite (proj2 (Nat.ltb_lt _ _)) by lia. done.
  - intros e He. rewrite Forall_forall in HhA. specialize (HhA e). destruct HhA; [|lia]. by apply last_Some_elem_of.
Qed.

(** The heap holds the nodes of the list and nothing else. *)
Definition owns h zsl ns : Prop := zrep h zsl ns /\ dom h = (list_to_set (header zsl :: map e_addr ns) : gset positive).

Lemma owns_insert h h' zsl zsl' A x B :
  owns h zsl (A ++ B) -> zrep h' zsl' (A ++ x :: B) -> header zsl' = header zsl -> dom h' = {[e_addr x]} ∪ dom h ->
  owns h' zsl' (A ++ x :: B).
Proof.
  intros [_ Hd] Hz' Hh Hd'. split; [done|]. rewrite Hd', Hd, Hh. apply set_eq. intros q. rewrite !map_app. cbn [map list_to_set].
  set_solver.
Qed.

Lemma owns_delete h h' zsl zsl' A x B :
  owns h zsl (A ++ x :: B) -> zrep h' zsl' (A ++ B) -> header zsl' = header zsl -> dom h' = dom h ->
  owns (delete (e_addr x) h') zsl' (A ++ B).
Proof.
  intros [Hz Hd] Hz' Hh Hd'. pose proof (no_nodup _ _ _ _ (zr_nodes _ _ _ Hz)) as Hn. apply nodup_middle in Hn as [_ Hn].
  split; [apply zrep_free; [by rewrite Hh|done]|]. rewrite dom_delete_L, Hd', Hd, Hh. apply set_eq. intros q.
  rewrite map_app in *. cbn [map list_to_set] in *. set_solver.
Qed.

(** A node of another address replaces [x]. *)
Lemma owns_replace h h' zsl zsl' A x B A' y B' :
  owns h zsl (A ++ x :: B) -> h !! e_addr y = None -> A ++ B = A' ++ B' -> zrep h' zsl' (A' ++ y :: B') ->
  header zsl' = header zsl -> dom h' = {[e_addr y]} ∪ dom h -> owns (delete (e_addr x) h') zsl' (A' ++ y :: B').
Proof.
  intros [Hz Hd] Hy E Hz' Hh Hd'. pose proof (no_nodup _ _ _ _ (zr_nodes _ _ _ Hz)) as Hn. apply nodup_middle in Hn as [_ Hn].
  assert (e_addr y <> e_addr x) as Hyx. { apply not_elem_of_dom in Hy. rewrite Hd, map_app in Hy. cbn in Hy. set_solver. }
  assert (forall q, q ∈ map e_addr (A ++ x :: B) <-> q = e_addr x \/ q ∈ map e_addr (A ++ B)) as HA.
  { intros q. rewrite !map_app. cbn [map]. set_solver. }
  assert (forall q, q ∈ map e_addr (A' ++ y :: B') <-> q = e_addr y \/ q ∈ map e_addr (A ++ B)) as HB.
  { intros q. rewrite E, !map_app. cbn [map]. set_solver. }
  split; [apply zrep_free; [|done]|].
  - rewrite elem_of_cons, HB, Hh. rewrite elem_of_cons in Hn. tauto || (intros [?|[?|?]]; [apply Hn; by left|by apply Hyx|apply Hn; by right]).
  - rewrite dom_delete_L, Hd', Hd, Hh. apply set_eq. intros q. rewrite elem_of_difference, elem_of_union, !elem_of_list_to_set, !elem_of_cons.
    rewrite HA, HB, !elem_of_singleton. rewrite elem_of_cons in Hn. set_solver.
Qed.

(** ** Insertion *)

Lemma key_lt_node s (el : list Z) n e :
  ele n = Some (e_ele e) -> score n = e_score e -> node_before s el n = key_lt (e_key e) (s, el).
Proof. intros E1 E2. unfold node_before, key_lt. rewrite E1, E2, sdscmp_lex. done. Qed.

Lemma downward_lt k ns : downward (fun k' => key_lt k' k) ns.
Proof. intros e1 e2 _ _ H1 H2. by eapply key_lt_trans. Qed.

Lemma sorted_insert_cut A B x :
  StronglySorted before (A ++ B) -> Forall (fun e => key_lt (e_key e) (e_key x) = true) A ->
  Forall (fun e => key_lt (e_key e) (e_key x) = false) B -> (forall e, e ∈ B -> ~ same_key (e_key e) (e_key x)) ->
  StronglySorted before (A ++ x :: B).
Proof.
  intros Hs HA HB Hne. assert (Forall (before x) B) as HxB.
  { apply Forall_forall. intros e He. rewrite Forall_forall in HB. unfold before. destruct (key_lt (e_key x) (e_key e)) eqn:E; [done|].
    destruct (Hne e He). apply key_total; [by apply HB|done]. }
  revert Hs. induction HA as [|a A Ha HA IH]; cbn [app]; intros Hs; [by constructor|].
  apply StronglySorted_inv in Hs as [Hs Hf]. constructor; [by apply IH|].
  apply Forall_app in Hf as [H1 H2]. apply Forall_app. split; [done|]. by apply Forall_cons_2.
Qed.

Lemma insert_rep p junk level h zsl (s : S) (el : list Z) ns :
  let x := mk_entry p s el (Z.to_nat level) in
  zrep h zsl ns -> h !! p = None -> 1 <= level <= 32 -> zlen ns + 1 < 2 ^ 32 ->
  (forall e, e ∈ ns -> ~ same_key (e_key e) (s, el)) ->
  exists h' zsl' A B, ns = A ++ B /\ zslInsert p junk level h zsl s el = Some (h', zsl') /\ zrep h' zsl' (A ++ x :: B) /\
    keys (A ++ x :: B) = seq_insert (s, el) (keys ns) /\ header zsl' = header zsl /\ dom h' = {[p]} ∪ dom h.
Proof.
  intros x Hz Hp Hl Hb Hne. destruct (sorted_cut _ ns (downward_lt (s, el) _) (zr_sorted _ _ _ Hz)) as (A & B & -> & HA & HB).
  destruct (zslInsert_spec p junk level h zsl s el A B) as (h' & zsl' & E & Hz' & Hh & Hd); try done.
  - apply (cuts_keys (fun k => key_lt k (s, el)) _ h zsl A B); try done. intros r sp n e. apply key_lt_node.
  - apply sorted_insert_cut; [apply (zr_sorted _ _ _ Hz)|done..|]. intros e He. apply Hne. set_solver.
  - exists h', zsl', A, B. split_and!; try done.
    unfold seq_insert. destruct (filter_cut (fun k => key_lt k (s, el)) A B HA HB) as [-> ->]. unfold keys. by rewrite map_app.
Qed.

Lemma insert_seq p junk level h zsl (s : S) (el : list Z) ns :
  owns h zsl ns -> h !! p = None -> 1 <= level <= 32 -> zlen ns + 1 < 2 ^ 32 ->
  (forall e, e ∈ ns -> ~ same_key (e_key e) (s, el)) ->
  exists h' zsl' ns', zslInsert p junk level h zsl s el = Some (h', zsl') /\ owns h' zsl' ns' /\
    keys ns' = seq_insert (s, el) (keys ns).
Proof.
  intros Ho Hp Hl Hb Hne. destruct (insert_rep p junk level h zsl s el ns) as (h' & zsl' & A & B & -> & E & Hz' & Hk & Hh & Hd); try done.
  { apply Ho. } 
  do 3 eexists. split_and!; [done|by eapply owns_insert|done].
Qed.

(** ** Deletion *)

Lemma same_keyb_spec k k' : same_keyb k k' = true <-> same_key k k'.
Proof. unfold same_keyb, same_key. by rewrite andb_true_iff, bool_decide_eq_true. Qed.

Lemma node_is_key s (el : list Z) n e :
  ele n = Some (e_ele e) -> score n = e_score e -> node_is s el n = same_keyb (e_key e) (s, el).
Proof.
  intros E1 E2. unfold node_is, same_keyb. rewrite E1, E2, sdscmp_lex, score_eq_sym. cbn. f_equal.
  apply eq_true_iff_eq. by rewrite Z.eqb_eq, bool_decide_eq_true, lex_eq.
Qed.

Lemma same_key_sym k k' : same_key k k' -> same_key k' k.
Proof. intros [H1 H2]. split; [by rewrite score_eq_sym|done]. Qed.

Lemma same_key_trans k k' k'' : same_key k k' -> same_key k' k'' -> same_key k k''.
Proof. intros [H1 H2] [H3 H4]. split; [by eapply score_eq_trans|congruence]. Qed.

(** Only one entry of a sorted sequence has a given key. *)
Lemma sorted_same A x B e : StronglySorted before (A ++ x :: B) -> e ∈ A ++ B -> ~ same_key (e_key e) (e_key x).
Proof.
  intros Hs He Hk. rewrite <- (app_nil_r B) in Hs. apply elem_of_app in He as [He|He].
  - apply list_elem_of_split in He as (A1 & A2 & ->).
    assert (before e x) as Hb. { apply (StronglySorted_app_1_elem_of before (A1 ++ e :: A2) (x :: B ++ []) e x); [done|set_solver|by left]. }
    unfold before in Hb. by rewrite (same_key_not_lt _ _ Hk) in Hb.
  - assert (before x e) as Hb.
    { apply (StronglySorted_app_1_elem_of before (A ++ [x]) (B ++ []) x e); [by rewrite <- app_assoc|set_solver..]. }
    unfold before in Hb. by rewrite (same_key_not_lt _ _ (same_key_sym _ _ Hk)) in Hb.
Qed.

Lemma filter_others k ns : (forall e, e ∈ ns -> ~ same_key (e_key e) k) -> seq_delete k (keys ns) = keys ns.
Proof.
  intros He. apply (filter_all (fun k' => negb (same_keyb k' k))). apply Forall_forall. intros e Hin.
  apply negb_true_iff, not_true_iff_false. rewrite same_keyb_spec. by apply He.
Qed.

Lemma seq_delete_middle k A x B :
  StronglySorted before (A ++ x :: B) -> same_key (e_key x) k -> seq_delete k (keys (A ++ x :: B)) = keys (A ++ B).
Proof.
  intros Hs Hk. rewrite <- (filter_others k (A ++ B)).
  - unfold seq_delete, keys. rewrite !map_app. cbn [map]. rewrite !List.filter_app. cbn [List.filter].
    by rewrite (proj2 (same_keyb_spec _ _) Hk).
  - intros e He Hek. apply (sorted_same A x B e Hs He). eapply same_key_trans; [done|]. by apply same_key_sym.
Qed.

(** What a search for a key finds. *)
Lemma find_key h zsl (s : S) (el : list Z) ns :
  zrep h zsl ns -> exists A B update, ns = A ++ B /\ Forall (fun e => key_lt (e_key e) (s, el) = true) A /\
    Forall (fun e => key_lt (e_key e) (s, el) = false) B /\
    search_from_header 64 (fun _ _ => node_before s el) h zsl = Some update /\ length update = Z.to_nat (zlevel zsl) /\
    (forall i u, update !! i = Some u -> stops (header zsl) A i u) /\ next_of h update = Some (head_addr B).
Proof.
  intros Hz. destruct (sorted_cut _ ns (downward_lt (s, el) _) (zr_sorted _ _ _ Hz)) as (A & B & -> & HA & HB).
  destruct (search_from_header_spec 64 (fun _ _ => node_before s el) h zsl A B Hz) as (update & E & Hlen & Hst).
  - apply (cuts_keys (fun k => key_lt k (s, el)) _ h zsl A B); try done. intros r sp n e. apply key_lt_node.
  - pose proof (zr_bound _ _ _ Hz). lia.
  - exists A, B, update. split_and!; try done. by eapply next_of_spec.
Qed.

Lemma entry_node h zsl A e B : zrep h zsl (A ++ e :: B) ->
  exists n, h !! e_addr e = Some n /\ ele n = Some (e_ele e) /\ score n = e_score e /\ backward n = last_addr A.
Proof.
  intros Hz. pose proof (zr_nodes _ _ _ Hz) as Hn. pose proof (no_shape _ _ _ _ Hn) as Hs. apply Forall_app in Hs as [_ Hs].
  apply Forall_inv in Hs as (bw & ls & E & _). eexists. split_and!; [done..|]. pose proof (no_backs _ _ _ _ Hn) as Hb.
  apply backs_app in Hb as [_ [Hb _]]. rewrite E, prev_none in Hb. cbn in *. congruence.
Qed.

(** A key that is not at the cut is nowhere. *)
Lemma cut_same k A B e :
  StronglySorted before (A ++ B) -> Forall (fun e => key_lt (e_key e) k = true) A -> Forall (fun e => key_lt (e_key e) k = false) B ->
  e ∈ A ++ B -> same_key (e_key e) k -> exists B', B = e :: B'.
Proof.
  intros Hs HA HB He Hk. rewrite Forall_forall in HA, HB. apply elem_of_app in He as [He|He].
  - specialize (HA e He). cbn in HA. by rewrite (same_key_not_lt _ _ Hk) in HA.
  - destruct B as [|b B]; [by apply not_elem_of_nil in He|]. apply elem_of_cons in He as [->|He]; [by exists B|].
    assert (before b e) as Hb. { apply (StronglySorted_app_1_elem_of before (A ++ [b]) B b e); [by rewrite <- app_assoc|set_solver|done]. }
    specialize (HB b ltac:(by left)). cbn in HB. unfold before in Hb.
    assert (key_lt (e_key b) k = true); [|congruence]. destruct Hk as [Hk1 Hk2]. unfold key_lt in *.
    apply orb_true_iff in Hb as [Hb|Hb]; apply orb_true_iff; [left; by eapply score_lt_eq_r|right].
    apply andb_true_iff in Hb as [Hb1 Hb2]. apply andb_true_iff. split; [by eapply score_eq_trans|by rewrite <- Hk2].
Qed.

Lemma delete_seq h zsl (s : S) (el : list Z) ns :
  owns h zsl ns ->
  exists h' zsl' ns', zslDelete h zsl s el false = Some (h', zsl', existsb (fun k => same_keyb k (s, el)) (keys ns)) /\
    owns h' zsl' ns' /\ keys ns' = seq_delete (s, el) (keys ns).
Proof.
  intros Ho. pose proof (proj1 Ho) as Hz. unfold zslDelete.
  destruct (find_key h zsl s el ns Hz) as (A & B & update & -> & HA & HB & -> & Hlen & Hst & Enx).
  cbn [mbind option_bind]. rewrite Enx. cbn [mbind option_bind].
  pose proof (zr_sorted _ _ _ Hz) as Hs.
  assert (forall k, k = (s, el) -> (forall e, e ∈ A ++ B -> ~ same_key (e_key e) k) ->
    existsb (fun k => same_keyb k (s, el)) (keys (A ++ B)) = false /\ seq_delete k (keys (A ++ B)) = keys (A ++ B)) as Hno.
  { intros k -> Hno. split; [|by apply filter_others]. apply not_true_iff_false. rewrite existsb_exists. intros (k & Hk & Hs').
    apply list_elem_of_In, (list_elem_of_fmap_1 e_key) in Hk as (e & -> & He). apply same_keyb_spec in Hs'. by apply (Hno e). }
  destruct B as [|x B]; cbn [head_addr head fmap option_fmap option_map].
  { destruct (Hno _ eq_refl) as [-> E]; [|by exists h, zsl, (A ++ [])]. intros e He Hk. by destruct (cut_same (s, el) A [] e) as [B' ?]. }
  destruct (entry_node h zsl A x B Hz) as (n & -> & En1 & En2 & _). cbn [mbind option_bind]. rewrite (node_is_key s el n x) by done.
  destruct (same_keyb (e_key x) (s, el)) eqn:Ek.
  - destruct (zslDeleteNode_spec h zsl A x B update Hz) as (h' & zsl' & -> & Hz' & Hh & _ & Hd); [lia|done|]. cbn [mbind option_bind].
    assert (existsb (fun k => same_keyb k (s, el)) (keys (A ++ x :: B)) = true) as ->.
    { apply existsb_exists. exists (e_key x). split; [|done]. apply list_elem_of_In, (list_elem_of_fmap_2 e_key). set_solver. }
    exists (delete (e_addr x) h'), zsl', (A ++ B). split_and!; [done|by eapply owns_delete|].
    symmetry. apply seq_delete_middle; [done|by apply same_keyb_spec].
  - destruct (Hno _ eq_refl) as [-> E]; [|by exists h, zsl, (A ++ x :: B)]. intros e He Hk.
    destruct (cut_same (s, el) A (x :: B) e) as [B' [= -> ->]]; [done..|]. apply same_keyb_spec in Hk. congruence.
Qed.

(** ** A new score *)

Definition with_score (s : S) x : entry S := mk_entry (e_addr x) s (e_ele x) (e_height x).

Lemma same_levels_link i A x x' B :
  e_addr x' = e_addr x -> e_height x' = e_height x -> link i (A ++ x' :: B) = link i (A ++ x :: B).
Proof. intros E1 E2. induction A as [|a A IH]; cbn [app link]; [by rewrite E1, E2|by rewrite IH]. Qed.

Lemma same_levels_cursor hd i A x x' B :
  e_addr x' = e_addr x -> e_height x' = e_height x ->
  cursor hd (A ++ x' :: B) = cursor hd (A ++ x :: B) /\ (reaches i (A ++ x' :: B) <-> reaches i (A ++ x :: B)).
Proof.
  intros E1 E2. destruct B as [|b B _] using rev_ind; [by rewrite !cursor_snoc, !reaches_snoc, E1, E2|].
  change (A ++ x' :: B ++ [b]) with (A ++ (x' :: B) ++ [b]). change (A ++ x :: B ++ [b]) with (A ++ (x :: B) ++ [b]).
  rewrite !app_assoc, !cursor_snoc, !reaches_snoc. done.
Qed.

(** The pointers do not depend on the scores. *)
Lemma same_nodes h h' hd lv A x x' B :
  e_addr x' = e_addr x -> e_height x' = e_height x -> nodes_ok h hd lv (A ++ x :: B) -> shape h' x' ->
  (forall p, p <> e_addr x -> h' !! p = h !! p) -> backward <$> h' !! e_addr x = backward <$> h !! e_addr x ->
  (forall p i, get_level h' p i = get_level h p i) -> nodes_ok h' hd lv (A ++ x' :: B).
Proof.
  intros Ea Eh Hn Hx Hh Hb Hg. destruct Hn as [Hnd Hsh Hbk Hl Hhd Hht Hlev].
  assert (forall e, e ∈ A \/ e ∈ B -> h' !! e_addr e = h !! e_addr e) as Ho by (intros e He; apply Hh; by eapply nodup_addr).
  assert (hd <> e_addr x) as Hhx. { apply NoDup_cons in Hnd as [Hnd _]. rewrite map_app in Hnd. cbn in Hnd. set_solver. }
  assert (forall e, e ∈ A \/ e ∈ B -> shape h e -> shape h' e) as Hs by (intros e He (bw & ls & E & HL); exists bw, ls; by rewrite Ho).
  split; try done.
  - rewrite !map_app in *. cbn [map] in *. by rewrite Ea.
  - rewrite Forall_forall in *. intros e He. apply elem_of_app in He as [He|He]; [apply Hs; [by left|apply Hsh; set_solver]|].
    apply elem_of_cons in He as [->|He]; [done|]. apply Hs; [by right|apply Hsh; set_solver].
  - apply backs_app in Hbk as [H1 [H2 H3]]. apply backs_app. split; [|split; [by rewrite Ea, Hb|rewrite Ea]].
    + eapply backs_ext; [|exact H1]. intros e He. rewrite Ho by (by left). done.
    + eapply backs_ext; [|exact H3]. intros e He. rewrite Ho by (by right). done.
  - intros D Q i E Hr Hi. symmetry in E. rewrite Hg. apply app_cons_split in E as [(A2 & -> & ->)|(B1 & -> & ->)].
    + rewrite (same_levels_link i A2 x x' B) by done. apply Hl; [by rewrite <- app_assoc|done..].
    + destruct (same_levels_cursor hd i A x x' B1 Ea Eh) as [-> Hr']. apply Hl; [by rewrite <- app_assoc|by apply Hr'|done].
  - destruct Hhd as (s & ls & E & HL). exists s, ls. by rewrite Hh.
  - apply Forall_app in Hht as [H1 H2]. apply Forall_cons_1 in H2 as [H2 H3]. apply Forall_app. split; [done|]. apply Forall_cons_2; [by rewrite Eh|done].
Qed.

Lemma set_score_rep h zsl A x B s :
  owns h zsl (A ++ x :: B) -> StronglySorted before (A ++ with_score s x :: B) ->
  exists h', set_score h (e_addr x) s = Some h' /\ owns h' zsl (A ++ with_score s x :: B).
Proof.
  intros [Hz Hd] Hs. pose proof Hz as [Hn Ht Hlv Htl Hlg Hbd _].
  pose proof (no_shape _ _ _ _ Hn) as Hsh. apply Forall_app in Hsh as [_ Hsh]. apply Forall_inv in Hsh as (bw & ls & En & Hls).
  unfold set_score. rewrite En. cbn [mbind option_bind ele backward level]. eexists. split; [done|]. split; [split; try done|].
  - apply (same_nodes h _ _ _ A x (with_score s x) B); try done.
    + eexists bw, ls. cbn. by rewrite lookup_insert_eq.
    + intros p Hp. by rewrite lookup_insert_ne.
    + by rewrite lookup_insert_eq, En.
    + intros p i. unfold get_level. destruct (decide (p = e_addr x)) as [->|Hp]; [by rewrite lookup_insert_eq, En|by rewrite lookup_insert_ne].
  - intros H1. destruct (Ht H1) as (e & He & Hh). apply elem_of_app in He as [He|He]; [exists e; set_solver|].
    apply elem_of_cons in He as [->|He]; [exists (with_score s x); set_solver|exists e; set_solver].
  - by rewrite Htl, !last_addr_middle.
  - rewrite Hlg. zlen.
  - zlen.
  - rewrite dom_insert_L, Hd, !map_app. cbn [map list_to_set]. set_solver.
Qed.

Lemma score_before e e' (s : S) : before e e' -> score_lt (e_score e') s = true -> score_lt (e_score e) s = true.
Proof.
  unfold before, key_lt. cbn. intros Hb Hs. apply orb_true_iff in Hb as [Hb|Hb]; [by eapply score_lt_trans|].
  apply andb_true_iff in Hb as [Hb _]. by eapply score_lt_eq_l.
Qed.

Lemma score_after e e' (s : S) : before e e' -> score_lt s (e_score e) = true -> score_lt s (e_score e') = true.
Proof.
  unfold before, key_lt. cbn. intros Hb Hs. apply orb_true_iff in Hb as [Hb|Hb]; [by eapply score_lt_trans|].
  apply andb_true_iff in Hb as [Hb _]. by eapply score_lt_eq_r.
Qed.

(** The new score is between those of the neighbours. *)
Definition between A (s : S) B : bool :=
  match last A with None => true | Some a => score_lt (e_score a) s end &&
  match head B with None => true | Some b => score_lt s (e_score b) end.

Lemma between_spec A s (el : list Z) B : StronglySorted before (A ++ B) -> between A s B = true ->
  Forall (fun e => key_lt (e_key e) (s, el) = true) A /\ Forall (fun e => key_lt (s, el) (e_key e) = true) B.
Proof.
  intros Hs Hb. apply andb_true_iff in Hb as [H1 H2]. apply StronglySorted_app in Hs as (_ & HA & HB).
  unfold key_lt. split; apply Forall_forall; intros e He; apply orb_true_iff; left; cbn.
  - destruct A as [|a A _] using rev_ind; [by apply not_elem_of_nil in He|]. rewrite last_snoc in H1.
    apply elem_of_app in He as [He|He]; [|by apply list_elem_of_singleton in He as ->]. eapply score_before; [|exact H1].
    apply StronglySorted_app in HA as (HA & _). apply HA; [done|by left].
  - destruct B as [|b B]; [by apply not_elem_of_nil in He|]. cbn in H2. apply StronglySorted_inv in HB as [_ HB].
    apply elem_of_cons in He as [->|He]; [done|]. eapply score_after; [|exact H2]. rewrite Forall_forall in HB. by apply HB.
Qed.

Lemma score_test h zsl A x B (f : S -> bool) : zrep h zsl (A ++ x :: B) ->
  match last_addr A with None => Some true | Some b => nb ← h !! b; Some (f (score nb)) end =
  Some (match last A with None => true | Some a => f (e_score a) end).
Proof.
  intros Hz. destruct A as [|a A _] using rev_ind; [done|]. rewrite last_addr_snoc, last_snoc.
  rewrite <- app_assoc in Hz. destruct (entry_node h zsl A a ([x] ++ B) Hz) as (n & -> & _ & Es & _). cbn. by rewrite Es.
Qed.

Lemma after_test h zsl A x B (f : S -> bool) : zrep h zsl (A ++ x :: B) ->
  get_level h (e_addr x) 0 = Some (link 0 B) /\
  match forward (link 0 B) with None => Some true | Some b => nb ← h !! b; Some (f (score nb)) end =
  Some (match head B with None => true | Some b => f (e_score b) end).
Proof.
  intros Hz. pose proof (no_heights _ _ _ _ (zr_nodes _ _ _ Hz)) as Hh. apply Forall_app in Hh as [_ Hh]. apply Forall_cons_1 in Hh as [Hx Hh].
  pose proof (x_level h _ _ A B x (zr_nodes _ _ _ Hz)) as Hl. split; [apply Hl; lia|].
  destruct B as [|b B]; [done|]. cbn [link head]. apply Forall_inv in Hh. rewrite (proj2 (Nat.ltb_lt _ _)) by lia. cbn [forward].
  destruct (entry_node h zsl (A ++ [x]) b B) as (n & -> & _ & Es & _); [by rewrite <- app_assoc|]. cbn. by rewrite Es.
Qed.

Lemma update_in_place h zsl A x B (new : S) :
  owns h zsl (A ++ x :: B) -> between A new B = true -> (forall e, e ∈ A ++ B -> ~ same_key (e_key e) (new, e_ele x)) ->
  exists h', set_score h (e_addr x) new = Some h' /\ owns h' zsl (A ++ with_score new x :: B) /\
    keys (A ++ with_score new x :: B) = seq_insert (new, e_ele x) (keys (A ++ B)).
Proof.
  intros Ho Hb Hne. pose proof (sorted_delete _ _ _ (zr_sorted _ _ _ (proj1 Ho))) as Hs.
  destruct (between_spec A new (e_ele x) B Hs Hb) as [HA HB].
  assert (Forall (fun e => key_lt (e_key e) (new, e_ele x) = false) B) as HB' by (eapply Forall_impl; [exact HB|]; intros; by apply key_lt_asym).
  destruct (set_score_rep h zsl A x B new Ho) as (h' & E & Ho').
  - apply sorted_insert_cut; try done. intros e He. apply Hne. set_solver.
  - exists h'. split_and!; [done..|]. unfold seq_insert. destruct (filter_cut (fun k => key_lt k (new, e_ele x)) A B HA HB') as [-> ->].
    unfold keys. by rewrite map_app.
Qed.

Lemma update_moved p junk level h zsl A x B update (new : S) :
  owns h zsl (A ++ x :: B) -> h !! p = None -> 1 <= level <= 32 -> length update = Z.to_nat (zlevel zsl) ->
  (forall i u, update !! i = Some u -> stops (header zsl) A i u) -> (forall e, e ∈ A ++ B -> ~ same_key (e_key e) (new, e_ele x)) ->
  exists h1 zsl1 h2 zsl2 ns', zslDeleteNode h zsl (e_addr x) update = Some (h1, zsl1) /\
    zslInsert p junk level h1 zsl1 new (e_ele x) = Some (h2, zsl2) /\ owns (delete (e_addr x) h2) zsl2 ns' /\
    keys ns' = seq_insert (new, e_ele x) (keys (A ++ B)) /\ exists e, e ∈ ns' /\ e_addr e = p /\ e_key e = (new, e_ele x).
Proof.
  intros Ho Hp Hl Hlen Hst Hne. destruct Ho as [Hz Hd].
  destruct (zslDeleteNode_spec h zsl A x B update Hz) as (h1 & zsl1 & E1 & Hz1 & Hh1 & _ & Hd1); [lia|done|].
  assert (h1 !! p = None) as Hp1 by (apply not_elem_of_dom; rewrite Hd1; by apply not_elem_of_dom).
  destruct (insert_rep p junk level h1 zsl1 new (e_ele x) (A ++ B)) as (h2 & zsl2 & A' & B' & EAB & E2 & Hz2 & Hk2 & Hh2 & Hd2); try done.
  { pose proof (zr_bound _ _ _ Hz). zlen. }
  do 5 eexists. split_and!; [done..| |done|eexists; split; [apply elem_of_app; right; by left|done]].
  eapply (owns_replace h h2 zsl zsl2 A x B); try done; [congruence|by rewrite Hd2, Hd1].
Qed.

Lemma update_seq p junk level h zsl (cur new : S) (el : list Z) ns :
  owns h zsl ns -> h !! p = None -> 1 <= level <= 32 ->
  (exists e, e ∈ ns /\ same_key (e_key e) (cur, el)) -> (forall e, e ∈ ns -> e_ele e = el -> score_eq (e_score e) cur = true) ->
  exists h' zsl' q ns', zslUpdateScore p junk level h zsl cur el new = Some (h', zsl', q) /\ owns h' zsl' ns' /\
    keys ns' = seq_insert (new, el) (seq_delete (cur, el) (keys ns)) /\ exists e, e ∈ ns' /\ e_addr e = q /\ e_key e = (new, el).
Proof.
  intros Ho Hp Hl (x & Hx & Hk) Hu. pose proof (proj1 Ho) as Hz. unfold zslUpdateScore.
  destruct (find_key h zsl cur el ns Hz) as (A & B' & update & -> & HA & HB & -> & Hlen & Hst & Enx).
  cbn [mbind option_bind]. rewrite Enx. cbn [mbind option_bind]. pose proof (zr_sorted _ _ _ Hz) as Hs.
  destruct (cut_same (cur, el) A B' x Hs HA HB Hx Hk) as [B ->]. cbn [head_addr head fmap option_fmap option_map mbind option_bind].
  destruct (entry_node h zsl A x B Hz) as (n & -> & En1 & En2 & En3). cbn [mbind option_bind].
  rewrite (node_is_key cur el n x), (proj2 (same_keyb_spec _ _) Hk) by done.
  rewrite En3, (score_test h zsl A x B (fun s => score_lt s new) Hz). cbn [mbind option_bind].
  destruct (after_test h zsl A x B (fun s => score_lt new s) Hz) as [-> Haf]. cbn [mbind option_bind]. rewrite Haf. cbn [mbind option_bind].
  fold (between A new B). rewrite (seq_delete_middle (cur, el) A x B Hs Hk).
  assert (e_ele x = el) as Eel by apply Hk. rewrite <- Eel in Hu, Hk |- *.
  assert (forall e, e ∈ A ++ B -> ~ same_key (e_key e) (new, e_ele x)) as Hne.
  { intros e He [_ He']. apply (sorted_same A x B e Hs He). split; [|done].
    eapply score_eq_trans; [apply Hu; [set_solver|done]|]. rewrite score_eq_sym. apply Hk. }
  destruct (between A new B) eqn:Ebt.
  - destruct (update_in_place h zsl A x B new Ho Ebt Hne) as (h' & -> & Ho' & Hk'). cbn [mbind option_bind].
    do 4 eexists. split_and!; [done..|]. exists (with_score new x). split_and!; [set_solver|done..].
  - destruct (update_moved p junk level h zsl A x B update new Ho Hp Hl Hlen Hst Hne) as (h1 & zsl1 & h2 & zsl2 & ns' & -> & E2 & Ho' & Hk' & He').
    cbn [mbind option_bind]. rewrite En1. cbn [mbind option_bind]. rewrite E2. cbn [mbind option_bind]. do 4 eexists. by split_and!.
Qed.
End Seq.
