(* ===== verification/ZskiplistRange.v ===== *)
(** * Skip lists: ranks and ranges

    Ranks, the ends of a range of scores or elements, and the deletion of a
    range, on the sorted sequence a skip list represents. *)

From stdpp Require Import base list option gmap sorting.
From Stdlib Require Import ZArith Lia Bool.
From S2P Require Import Prelude Zskiplist ZskiplistFacts ZskiplistOps ZskiplistSeq.

Local Open Scope Z_scope.

Section Range.
Context {S : Type} `{Score S}.

Abbreviation node := (zskiplistNode S).
Abbreviation heap := (gmap positive (zskiplistNode S)).
Abbreviation key := (S * list Z)%type.
Implicit Types (h : heap) (zsl : zskiplist) (ns A B M P Q D : list (entry S)) (e x : entry S) (k : key).

(** ** Deleting consecutive nodes *)

(** A node that shows the key of an entry. *)
Definition shows (n : node) e : Prop := ele n = Some (e_ele e) /\ score n = e_score e.

Lemma next_node h zsl A x B : zrep h zsl (A ++ x :: B) ->
  exists n (l0 : zskiplistLevel), h !! e_addr x = Some n /\ shows n x /\ get_level h (e_addr x) 0 = Some l0 /\ forward l0 = head_addr B.
Proof.
  intros Hz. destruct (entry_node h zsl A x B Hz) as (n & En & E1 & E2 & _). exists n, (link 0 B).
  pose proof (no_heights _ _ _ _ (zr_nodes _ _ _ Hz)) as Hh. apply Forall_app in Hh as [_ Hh]. apply Forall_cons_1 in Hh as [Hx Hh].
  split_and!; try done.
  - apply (x_level h _ _ A B x (zr_nodes _ _ _ Hz)). lia.
  - destruct B as [|b B]; [done|]. cbn [link]. apply Forall_inv in Hh. by rewrite (proj2 (Nat.ltb_lt _ _)) by lia.
Qed.

Lemma delete_while_spec inside M : forall fuel h zsl A B update t removed,
  owns h zsl (A ++ M ++ B) -> (Z.to_nat (zlevel zsl) <= length update)%nat ->
  (forall i u, update !! i = Some u -> stops (header zsl) A i u) ->
  (forall P e Q n, M ++ B = P ++ e :: Q -> shows n e -> inside (t + zlen P) n = bool_decide (zlen P < zlen M)) ->
  (length M <= fuel)%nat -> 0 <= t -> t + zlen M < 2 ^ 64 ->
  exists h' zsl', delete_while inside fuel h zsl (head_addr (M ++ B)) update t removed = Some (h', zsl', removed ++ map e_ele M) /\
    owns h' zsl' (A ++ B).
Proof.
  induction M as [|m M IH]; intros fuel h zsl A B update t removed Ho Hlen Hst Hin Hf Ht Hb.
  - cbn [app map]. rewrite app_nil_r. destruct B as [|b B]; [destruct fuel; by exists h, zsl|].
    destruct (next_node h zsl A b B (proj1 Ho)) as (n & l0 & En & Hsh & _).
    pose proof (Hin [] b B n eq_refl Hsh) as Hi. change (zlen (@nil (entry S))) with 0 in Hi. rewrite Z.add_0_r in Hi.
    exists h, zsl. split; [|done]. destruct fuel; cbn [head_addr head fmap option_fmap option_map delete_while];
      rewrite En; cbn [mbind option_bind]; by rewrite Hi.
  - destruct fuel as [|fuel]; [cbn in Hf; lia|].
    destruct (next_node h zsl A m (M ++ B) (proj1 Ho)) as (n & l0 & En & Hsh & El & Efw).
    pose proof (Hin [] m (M ++ B) n eq_refl Hsh) as Hi. rewrite Z.add_0_r, bool_decide_true in Hi by zlen.
    cbn [head_addr head fmap option_fmap option_map delete_while app]. rewrite En. cbn [mbind option_bind]. rewrite Hi, El. cbn [mbind option_bind].
    destruct (zslDeleteNode_spec h zsl A m (M ++ B) update (proj1 Ho) Hlen Hst) as (h1 & zsl1 & -> & Hz1 & Hh1 & Hl1 & Hd1).
    cbn [mbind option_bind]. rewrite (proj1 Hsh). cbn [mbind option_bind]. rewrite Efw.
    destruct (IH fuel (delete (e_addr m) h1) zsl1 A B update (u64 (t + 1)) (removed ++ [e_ele m])) as (h' & zsl' & E & Ho').
    + by eapply owns_delete.
    + lia.
    + by rewrite Hh1.
    + intros P e Q n' EP Hn'. rewrite u64_small by zlen. replace (t + 1 + zlen P) with (t + zlen (m :: P)) by zlen.
      rewrite (Hin (m :: P) e Q n'); [|cbn [app]; by f_equal|done]. apply bool_decide_ext. zlen.
    + cbn in Hf. lia.
    + apply u64_bounds || (unfold u64, wrap; apply Z.mod_pos_bound; lia).
    + rewrite u64_small; zlen.
    + exists h', zsl'. rewrite E, <- app_assoc. done.
Qed.

(** ** Ranges given by two tests *)

(** Tests of nodes that are tests of keys, a lower and an upper bound. *)
Record tests (gte lte : node -> bool) (g l : key -> bool) ns : Prop := {
  ts_gte n e : shows n e -> gte n = g (e_key e);
  ts_lte n e : shows n e -> lte n = l (e_key e);
  ts_up : downward (fun k => negb (g k)) ns;
  ts_down : downward l ns;
}.

Lemma downward_sub f ns ns' : (forall e, e ∈ ns' -> e ∈ ns) -> downward f ns -> downward f ns'.
Proof. intros Hs Hd e e' H1 H2. apply Hd; by apply Hs. Qed.

(** The sequence below the range, in it and above it. *)
Lemma range_cut gte lte g l ns : tests gte lte g l ns -> StronglySorted before ns ->
  exists A M B, ns = A ++ M ++ B /\ Forall (fun e => negb (g (e_key e)) = true) A /\ Forall (fun e => negb (g (e_key e)) = false) (M ++ B) /\
    Forall (fun e => l (e_key e) = true) M /\ Forall (fun e => l (e_key e) = false) B.
Proof.
  intros Ht Hs. destruct (sorted_cut _ ns (ts_up _ _ _ _ _ Ht) Hs) as (A & C & -> & HA & HC).
  apply StronglySorted_app in Hs as (_ & _ & Hs). destruct (sorted_cut l C) as (M & B & -> & HM & HB); [|done|by exists A, M, B].
  eapply downward_sub; [|exact (ts_down _ _ _ _ _ Ht)]. set_solver.
Qed.

Lemma range_filter (g l : key -> bool) A M B :
  Forall (fun e => negb (g (e_key e)) = true) A -> Forall (fun e => negb (g (e_key e)) = false) (M ++ B) ->
  Forall (fun e => l (e_key e) = true) M -> Forall (fun e => l (e_key e) = false) B ->
  List.filter (fun e => g (e_key e) && l (e_key e)) (A ++ M ++ B) = M /\
  List.filter (fun e => negb (g (e_key e) && l (e_key e))) (A ++ M ++ B) = A ++ B.
Proof.
  intros HA HMB HM HB. apply Forall_app in HMB as [HM' HB'].
  assert (forall (f : entry S -> bool) ns, Forall (fun e => f e = true) ns -> List.filter f ns = ns) as Ht.
  { intros f ns. induction 1 as [|e ns He _ IH]; [done|]. cbn. by rewrite He, IH. }
  assert (forall (f : entry S -> bool) ns, Forall (fun e => f e = false) ns -> List.filter f ns = []) as Hf.
  { intros f ns. induction 1 as [|e ns He _ IH]; [done|]. cbn. by rewrite He, IH. }
  rewrite !List.filter_app. rewrite Forall_forall in *. split.
  - rewrite (Hf _ A), (Ht _ M), (Hf _ B); [by rewrite app_nil_r|..]; apply Forall_forall; intros e He.
    + by rewrite HB, andb_false_r.
    + by rewrite HM, andb_true_r, <- negb_false_iff, HM'.
    + by rewrite (proj1 (negb_true_iff _) (HA e He)).
  - rewrite (Ht _ A), (Hf _ M), (Ht _ B); [done|..]; apply Forall_forall; intros e He.
    + by rewrite HB, andb_false_r.
    + rewrite HM by done. rewrite andb_true_r. by apply HM'.
    + by rewrite (proj1 (negb_true_iff _) (HA e He)).
Qed.

Lemma keys_filter (f : key -> bool) ns : List.filter f (keys ns) = keys (List.filter (fun e => f (e_key e)) ns).
Proof. unfold keys. induction ns as [|e ns IH]; [done|]. cbn. destruct (f (e_key e)); cbn; by rewrite IH. Qed.

(** The search for the lower bound. *)
Lemma search_range gte lte g l h zsl A C :
  tests gte lte g l (A ++ C) -> zrep h zsl (A ++ C) ->
  Forall (fun e => negb (g (e_key e)) = true) A -> Forall (fun e => negb (g (e_key e)) = false) C ->
  exists update, search_from_header 64 (fun _ _ n => negb (gte n)) h zsl = Some update /\ length update = Z.to_nat (zlevel zsl) /\
    (forall i u, update !! i = Some u -> stops (header zsl) A i u) /\ next_of h update = Some (head_addr C).
Proof.
  intros Ht Hz HA HC. destruct (search_from_header_spec 64 (fun _ _ n => negb (gte n)) h zsl A C Hz) as (update & E & Hlen & Hst).
  - apply (cuts_keys (fun k => negb (g k)) _ h zsl); try done. intros r sp n e E1 E2. by rewrite (ts_gte _ _ _ _ _ Ht n e).
  - pose proof (zr_bound _ _ _ Hz). lia.
  - exists update. split_and!; try done. by eapply next_of_spec.
Qed.

Lemma delete_range_spec gte lte g l h zsl ns :
  tests gte lte g l ns -> owns h zsl ns ->
  exists h' zsl' ns',
    (update ← search_from_header 64 (fun _ _ n => negb (gte n)) h zsl; x ← next_of h update;
     delete_while (fun _ n => lte n) (Z.to_nat (zlength zsl)) h zsl x update 0 []) =
      Some (h', zsl', map snd (List.filter (fun k => g k && l k) (keys ns))) /\
    owns h' zsl' ns' /\ keys ns' = List.filter (fun k => negb (g k && l k)) (keys ns).
Proof.
  intros Ht Ho. pose proof (proj1 Ho) as Hz. destruct (range_cut gte lte g l ns Ht (zr_sorted _ _ _ Hz)) as (A & M & B & -> & HA & HC & HM & HB).
  destruct (search_range gte lte g l h zsl A (M ++ B) Ht Hz HA HC) as (update & -> & Hlen & Hst & E).
  cbn [mbind option_bind]. rewrite E. cbn [mbind option_bind].
  pose proof (zr_length _ _ _ Hz) as Hlg. pose proof (zr_bound _ _ _ Hz) as Hb.
  destruct (delete_while_spec (fun _ n => lte n) M (Z.to_nat (zlength zsl)) h zsl A B update 0 []) as (h' & zsl' & -> & Ho'); try done; [lia| | |zlen|].
  - intros P e Q n EP Hn. rewrite (ts_lte _ _ _ _ _ Ht n e Hn). by apply (cut_test l M B P e Q).
  - rewrite Hlg. unfold zlen. rewrite !length_app. lia.
  - destruct (range_filter g l A M B HA HC HM HB) as [E1 E2]. exists h', zsl', (A ++ B). rewrite !keys_filter, E1, E2.
    split_and!; [|done..]. unfold keys. by rewrite map_map.
Qed.

(** ** The ends of a range *)

Lemma ends_in_range_spec gte lte g l h zsl ns :
  tests gte lte g l ns -> zrep h zsl ns ->
  ends_in_range gte lte h zsl = Some (match last ns, head ns with Some t, Some b => g (e_key t) && l (e_key b) | _, _ => false end).
Proof.
  intros Ht Hz. unfold ends_in_range. rewrite (zr_tail _ _ _ Hz).
  destruct ns as [|x A _] using rev_ind; [done|]. rewrite last_addr_snoc, last_snoc.
  destruct (next_node h zsl A x [] Hz) as (n & l0 & -> & Hn & _). cbn [mbind option_bind]. rewrite (ts_gte _ _ _ _ _ Ht n x Hn).
  assert (first_node h zsl = Some (head_addr (A ++ [x]))) as ->.
  { unfold first_node. change (header zsl) with (cursor (header zsl) (@nil (entry S))).
    rewrite (no_levels _ _ _ _ (zr_nodes _ _ _ Hz) [] (A ++ [x]) 0%nat); [|done|apply reaches_nil|pose proof (zr_level _ _ _ Hz); lia].
    cbn [mbind option_bind]. f_equal. pose proof (no_heights _ _ _ _ (zr_nodes _ _ _ Hz)) as Hh.
    destruct (A ++ [x]) as [|b B]; [done|]. cbn [link]. apply Forall_inv in Hh. by rewrite (proj2 (Nat.ltb_lt _ _)) by lia. }
  destruct (A ++ [x]) as [|b B] eqn:EA; [by destruct A|]. cbn [head_addr head fmap option_fmap option_map].
  destruct (g (e_key x)); [|done]. cbn [negb andb mbind option_bind]. destruct (next_node h zsl [] b B Hz) as (n' & l0' & -> & Hn' & _).
  cbn [mbind option_bind]. by rewrite (ts_lte _ _ _ _ _ Ht n' b Hn').
Qed.

(** When the ends say that nothing is in range, nothing is. *)
Lemma ends_out gte lte g l ns : tests gte lte g l ns -> StronglySorted before ns ->
  match last ns, head ns with Some t, Some b => g (e_key t) && l (e_key b) | _, _ => false end = false ->
  List.filter (fun e => g (e_key e) && l (e_key e)) ns = [].
Proof.
  intros Ht Hs He. destruct (range_cut gte lte g l ns Ht Hs) as (A & M & B & -> & HA & HC & HM & HB).
  destruct (range_filter g l A M B HA HC HM HB) as [-> _]. destruct M as [|m M]; [done|exfalso].
  assert (exists t, last (A ++ (m :: M) ++ B) = Some t /\ t ∈ (m :: M) ++ B) as (t & Et & Hin).
  { rewrite last_app. destruct (last ((m :: M) ++ B)) as [t|] eqn:El; [|by apply last_None in El]. exists t. split; [done|]. by apply last_Some_elem_of. }
  assert (exists b, head (A ++ (m :: M) ++ B) = Some b /\ l (e_key b) = true) as (b & Eb & Hlb).
  { destruct A as [|a A]; cbn; [exists m; split; [done|by apply Forall_inv in HM]|]. exists a. split; [done|].
    apply (ts_down _ _ _ _ _ Ht a m); [by left|set_solver| |by apply Forall_inv in HM].
    cbn [app] in Hs. apply StronglySorted_inv in Hs as [_ Hs]. rewrite Forall_forall in Hs. apply Hs. set_solver. }
  rewrite Et, Eb, Hlb in He. rewrite Forall_forall in HC. specialize (HC t Hin). apply negb_false_iff in HC. by rewrite HC in He.
Qed.

Lemma first_in_range_spec gte lte g l h zsl ns :
  tests gte lte g l ns -> zrep h zsl ns ->
  (inside ← ends_in_range gte lte h zsl;
   if negb inside then Some None else
   update ← search_from_header 64 (fun _ _ n => negb (gte n)) h zsl; x ← next_of h update; x ← x; n ← h !! x;
   Some (if lte n then Some x else None)) =
  Some (head_addr (List.filter (fun e => g (e_key e) && l (e_key e)) ns)).
Proof.
  intros Ht Hz. rewrite (ends_in_range_spec gte lte g l h zsl ns Ht Hz). cbn [mbind option_bind].
  pose proof (zr_sorted _ _ _ Hz) as Hs. destruct (match last ns, head ns with Some t, Some b => _ | _, _ => _ end) eqn:Een.
  2: { cbn [negb]. by rewrite (ends_out gte lte g l ns Ht Hs Een). }
  cbn [negb]. destruct (range_cut gte lte g l ns Ht Hs) as (A & M & B & -> & HA & HC & HM & HB).
  destruct (range_filter g l A M B HA HC HM HB) as [-> _].
  destruct (search_range gte lte g l h zsl A (M ++ B) Ht Hz HA HC) as (update & -> & _ & _ & E).
  cbn [mbind option_bind]. rewrite E. cbn [mbind option_bind]. destruct M as [|m M]; cbn [app head_addr head fmap option_fmap option_map mbind option_bind].
  - destruct B as [|b B]; cbn [head_addr head fmap option_fmap option_map mbind option_bind].
    + exfalso. rewrite app_nil_r in Een. destruct (last A) as [t|] eqn:El; [|done]. apply last_Some_elem_of in El. rewrite Forall_forall in HA.
      specialize (HA t El). apply negb_true_iff in HA. rewrite HA in Een. by destruct (head A).
    + destruct (next_node h zsl A b B Hz) as (n & _ & -> & Hn & _). cbn [mbind option_bind]. rewrite (ts_lte _ _ _ _ _ Ht n b Hn).
      apply Forall_inv in HB. by rewrite HB.
  - destruct (next_node h zsl A m (M ++ B) Hz) as (n & _ & -> & Hn & _). cbn [mbind option_bind]. rewrite (ts_lte _ _ _ _ _ Ht n m Hn).
    apply Forall_inv in HM. by rewrite HM.
Qed.

(** The last entry in range, from the last one below the upper bound. *)
Lemma last_filter gte lte g l A x B : tests gte lte g l ((A ++ [x]) ++ B) -> StronglySorted before ((A ++ [x]) ++ B) ->
  Forall (fun e => l (e_key e) = true) (A ++ [x]) -> Forall (fun e => l (e_key e) = false) B ->
  last_addr (List.filter (fun e => g (e_key e) && l (e_key e)) ((A ++ [x]) ++ B)) = if g (e_key x) then Some (e_addr x) else None.
Proof.
  intros Ht Hs HA HB. assert (forall (f : entry S -> bool) ns, (forall e, e ∈ ns -> f e = false) -> List.filter f ns = []) as Hf.
  { intros f ns. induction ns as [|e ns IH]; intros He; [done|]. cbn. rewrite He by (by left). apply IH. intros e' ?. apply He. by right. }
  rewrite Forall_forall in HA, HB. rewrite List.filter_app, (Hf _ B), app_nil_r by (intros e He; by rewrite HB, andb_false_r).
  destruct (g (e_key x)) eqn:Eg.
  - rewrite List.filter_app. cbn [List.filter]. rewrite Eg, HA by set_solver. apply last_addr_snoc.
  - rewrite Hf; [done|]. intros e He. apply elem_of_app in He as [He|He]; [|by apply list_elem_of_singleton in He as ->; rewrite Eg].
    assert (negb (g (e_key e)) = true) as Hg; [|by apply negb_true_iff in Hg as ->].
    apply (ts_up _ _ _ _ _ Ht e x); [set_solver..| |by rewrite Eg]. rewrite <- app_assoc in Hs.
    apply (StronglySorted_app_1_elem_of before A ([x] ++ B)); [done..|set_solver].
Qed.

Lemma last_in_range_spec gte lte g l h zsl ns :
  tests gte lte g l ns -> zrep h zsl ns ->
  (inside ← ends_in_range gte lte h zsl;
   if negb inside then Some None else
   update ← search_from_header 64 (fun _ _ n => lte n) h zsl; '(x, _) ← update !! 0%nat; n ← h !! x;
   Some (if gte n then Some x else None)) =
  Some (last_addr (List.filter (fun e => g (e_key e) && l (e_key e)) ns)).
Proof.
  intros Ht Hz. rewrite (ends_in_range_spec gte lte g l h zsl ns Ht Hz). cbn [mbind option_bind].
  pose proof (zr_sorted _ _ _ Hz) as Hs. destruct (match last ns, head ns with Some t, Some b => _ | _, _ => _ end) eqn:Een.
  2: { cbn [negb]. by rewrite (ends_out gte lte g l ns Ht Hs Een). }
  cbn [negb]. destruct (sorted_cut l ns (ts_down _ _ _ _ _ Ht) Hs) as (A' & B & -> & HA & HB).
  destruct A' as [|x A _] using rev_ind.
  { exfalso. cbn [app] in Een. destruct B as [|b B]; [done|]. apply Forall_inv in HB. cbn [head] in Een.
    destruct (last (b :: B)); [|done]. by rewrite HB, andb_false_r in Een. }
  destruct (search_from_header_spec 64 (fun _ _ n => lte n) h zsl (A ++ [x]) B Hz) as (update & -> & Hlen & Hst).
  { apply (cuts_keys l _ h zsl); try done. intros r sp n e E1 E2. by apply (ts_lte _ _ _ _ _ Ht n e). }
  { pose proof (zr_bound _ _ _ Hz). lia. }
  cbn [mbind option_bind]. rewrite (search_0 h _ _ (A ++ [x]) B update (zr_nodes _ _ _ Hz) Hlen Hst), cursor_snoc. cbn [mbind option_bind].
  pose proof Hz as Hz'. rewrite <- app_assoc in Hz'. destruct (next_node h zsl A x B Hz') as (n & _ & -> & Hn & _). cbn [mbind option_bind].
  rewrite (ts_gte _ _ _ _ _ Ht n x Hn), (last_filter gte lte g l A x B Ht Hs HA HB). by destruct (g (e_key x)).
Qed.

(** ** Ranks *)

Lemma cuts_rank (go : Z -> Z -> node -> bool) h A B :
  (forall r sp n, 0 <= r + sp <= zlen (A ++ B) -> go r sp n = bool_decide (r + sp <= zlen A)) -> cuts go h A B.
Proof.
  intros Hgo P e Q n r sp E _ Hr. rewrite Hgo, Hr; [apply bool_decide_ext; lia|]. rewrite Hr, E. zlen.
Qed.

Lemma cursor_node h zsl D Q : zrep h zsl (D ++ Q) ->
  exists n, h !! cursor (header zsl) D = Some n /\ ele n = e_ele <$> last D.
Proof.
  intros Hz. destruct D as [|e D _] using rev_ind.
  - destruct (no_header _ _ _ _ (zr_nodes _ _ _ Hz)) as (s & ls & E & _). by eexists.
  - rewrite <- app_assoc in Hz. destruct (next_node h zsl D e Q Hz) as (n & _ & En & Hn & _). exists n.
    rewrite cursor_snoc, last_snoc. split; [done|]. apply Hn.
Qed.

Lemma found_test (o : option (list Z)) el : match o with Some e' => sdscmp e' el =? 0 | None => false end = bool_decide (o = Some el).
Proof.
  destruct o as [e'|]; [|by rewrite bool_decide_false]. apply eq_true_iff_eq. rewrite Z.eqb_eq, bool_decide_eq_true, sdscmp_lex, lex_eq.
  split; [by intros ->|by intros [= ->]].
Qed.

Section Levels.
Context (h : heap) (zsl : zskiplist) (A B : list (entry S)).
Hypothesis Hz : zrep h zsl (A ++ B).

Lemma rank_levels_spec (s : S) (el : list Z) fuel levels : forall D Q,
  cuts (fun _ _ n => score_lt (score n) s || (score_eq (score n) s && match ele n with Some e' => sdscmp e' el <=? 0 | None => false end)) h A B ->
  (forall P e Q, A = P ++ e :: Q -> e_ele e = el -> Q = []) ->
  A = D ++ Q -> reaches (levels - 1) D -> (levels <= Z.to_nat (zlevel zsl))%nat -> (length A <= fuel)%nat ->
  let found := bool_decide (e_ele <$> last A = Some el) in
  (levels = 0%nat -> found = false) ->
  rank_levels s el fuel h levels (cursor (header zsl) D) (zlen D) = Some (if found then zlen A else 0).
Proof.
  intros D Q Hc Hu. revert D Q. induction levels as [|i IH]; intros D Q EA Hr Hlv Hf found H0; cbn [rank_levels]; [by rewrite H0|].
  destruct (walk_spec h (header zsl) _ A B _ 64 (zr_nodes _ _ _ Hz) Hc ltac:(pose proof (zr_bound _ _ _ Hz); lia) i fuel D Q EA)
    as (D' & Q' & EA' & Hr' & Hl' & ->); [by replace i with (Datatypes.S i - 1)%nat by lia|lia|rewrite EA, length_app in Hf; lia|].
  cbn [mbind option_bind]. destruct (cursor_node h zsl D' (Q' ++ B)) as (n & -> & En); [by rewrite app_assoc, <- EA'|].
  cbn [mbind option_bind]. rewrite En, found_test.
  destruct (bool_decide (e_ele <$> last D' = Some el)) eqn:Hd; [apply bool_decide_eq_true in Hd|apply bool_decide_eq_false in Hd].
  - destruct D' as [|e D' _] using rev_ind; [discriminate Hd|]. rewrite last_snoc in Hd. injection Hd as Hd.
    assert (Q' = []) as -> by (apply (Hu D' e); [by rewrite EA', <- app_assoc|done]). rewrite app_nil_r in EA'. unfold found.
    rewrite EA', last_snoc. cbn. by rewrite bool_decide_true by congruence.
  - apply (IH D' Q'); [done|by apply (reaches_le i); [lia|]|lia|done|]. intros ->. apply bool_decide_false.
    assert (Q' = []) as ->; [|by rewrite EA', app_nil_r]. apply (low_0 (Z.to_nat (zlevel zsl))); [|done].
    pose proof (no_heights _ _ _ _ (zr_nodes _ _ _ Hz)) as Hh. rewrite EA', !Forall_app in Hh. tauto.
Qed.

Lemma element_levels_spec (rank : Z) fuel levels : forall D Q,
  cuts (fun traversed sp _ => u64 (traversed + sp) <=? rank) h A B ->
  A = D ++ Q -> reaches (levels - 1) D -> (levels <= Z.to_nat (zlevel zsl))%nat -> (length A <= fuel)%nat ->
  (levels = 0%nat -> zlen A <> rank) -> zlen A <= rank ->
  element_levels rank fuel h levels (cursor (header zsl) D) (zlen D) =
    Some (if bool_decide (zlen A = rank) then Some (cursor (header zsl) A) else None).
Proof.
  intros D Q Hc. revert D Q. induction levels as [|i IH]; intros D Q EA Hr Hlv Hf H0 Hle; cbn [element_levels]; [by rewrite bool_decide_false by auto|].
  destruct (walk_spec h (header zsl) _ A B _ 64 (zr_nodes _ _ _ Hz) Hc ltac:(pose proof (zr_bound _ _ _ Hz); lia) i fuel D Q EA)
    as (D' & Q' & EA' & Hr' & Hl' & ->); [by replace i with (Datatypes.S i - 1)%nat by lia|lia|rewrite EA, length_app in Hf; lia|].
  cbn [mbind option_bind]. destruct (Z.eqb_spec (zlen D') rank) as [Hd|Hd].
  - assert (Q' = []) as -> by (destruct Q'; [done|exfalso; rewrite EA' in Hle; zlen]). rewrite app_nil_r in EA'. subst D'.
    by rewrite bool_decide_true by done.
  - apply (IH D' Q'); [done|by apply (reaches_le i); [lia|]|lia|done| |done]. intros ->.
    assert (Q' = []) as ->; [|by rewrite EA', app_nil_r]. apply (low_0 (Z.to_nat (zlevel zsl))); [|done].
    pose proof (no_heights _ _ _ _ (zr_nodes _ _ _ Hz)) as Hh. rewrite EA', !Forall_app in Hh. tauto.
Qed.
End Levels.
End Range.
