(* ===== verification/ZskiplistProps.v ===== *)
(** * Skip lists: what the operations do to the sorted set

    A skip list represents a sequence of keys, a score and an element each, in
    the order of scores, then elements, no element occurring twice. *)

From stdpp Require Import base list option gmap sorting.
From Stdlib Require Import ZArith Lia Bool.
From S2P Require Import Prelude Zskiplist ZskiplistFacts ZskiplistOps ZskiplistSeq ZskiplistRange.

Local Open Scope Z_scope.

Section Props.
Context {S : Type} `{Score S}.

Abbreviation node := (zskiplistNode S).
Abbreviation heap := (gmap positive (zskiplistNode S)).
Abbreviation key := (S * list Z)%type.
Implicit Types (h : heap) (zsl : zskiplist) (ns A B M P Q D : list (entry S)) (e x : entry S) (k : key) (l : list key).

(** ** Ranges of scores *)

Definition in_score_range (range : zrangespec) k : bool := zslValueGteMin k.1 range && zslValueLteMax k.1 range.

Lemma score_tests range ns :
  tests (fun n => zslValueGteMin (score n) range) (fun n => zslValueLteMax (score n) range)
    (fun k => zslValueGteMin k.1 range) (fun k => zslValueLteMax k.1 range) ns.
Proof.
  split.
  - intros n e [_ ->]. done.
  - intros n e [_ ->]. done.
  - intros e e' _ _ Hb. cbn. unfold zslValueGteMin. destruct (minex range); rewrite ?negb_involutive.
    + rewrite !negb_true_iff. intros Hg. apply not_true_iff_false. intros Hg'. by rewrite (score_after e e' _ Hb Hg') in Hg.
    + by apply score_before.
  - intros e e' _ _ Hb. cbn. unfold zslValueLteMax. destruct (maxex range).
    + by apply score_before.
    + rewrite !negb_true_iff. intros Hg. apply not_true_iff_false. intros Hg'. by rewrite (score_after e e' _ Hb Hg') in Hg.
Qed.

Lemma score_range_empty range k :
  score_lt (zmax range) (zmin range) || (score_eq (zmin range) (zmax range) && (minex range || maxex range)) = true ->
  in_score_range range k = false.
Proof.
  destruct k as [s el]. intros He. apply not_true_iff_false. unfold in_score_range, zslValueGteMin, zslValueLteMax. cbn [fst].
  rewrite andb_true_iff. intros [Hg Hl]. assert (forall t, score_lt t t = true -> False) as Hirr by (intros t; by rewrite score_lt_irrefl).
  apply orb_true_iff in He as [He|He].
  - destruct (score_lt_cotrans (zmax range) s (zmin range) He) as [Hc|Hc].
    + destruct (maxex range); [|by rewrite Hc in Hl]. apply (Hirr s). by eapply score_lt_trans.
    + destruct (minex range); [|by rewrite Hc in Hg]. apply (Hirr s). by eapply score_lt_trans.
  - apply andb_true_iff in He as [He Hex]. pose proof He as He'. rewrite score_eq_sym in He'. destruct (minex range), (maxex range); try done; rewrite ?negb_true_iff in *.
    + apply (Hirr s). eapply score_lt_trans; [exact Hl|]. by eapply score_lt_eq_l.
    + by rewrite (score_lt_eq_l _ _ _ He' Hg) in Hl.
    + by rewrite (score_lt_eq_r _ _ _ Hl He') in Hg.
Qed.

(** ** Ranges of elements *)

Definition in_lex_range (range : zlexrangespec) k : bool := zslLexValueGteMin k.2 range && zslLexValueLteMax k.2 range.

Definition same_scores ns : Prop := forall e e', e ∈ ns -> e' ∈ ns -> score_eq (e_score e) (e_score e') = true.

Lemma lex_le_trans a b c : lex a b <= 0 -> lex b c <= 0 -> lex a c <= 0 /\ (lex a c = 0 -> lex a b = 0 /\ lex b c = 0).
Proof.
  intros H1 H2. destruct (Z.eq_dec (lex a b) 0) as [E|E].
  - apply lex_eq in E as E'. subst b. split; [done|]. intros ->. by rewrite lex_refl.
  - destruct (Z.eq_dec (lex b c) 0) as [E2|E2]; [apply lex_eq in E2 as ->; split; [lia|]; intros; by rewrite lex_refl|].
    pose proof (lex_trans a b c ltac:(lia) ltac:(lia)). lia.
Qed.

Lemma sdscmplex_mono a b c : lex a b < 0 ->
  (0 <= sdscmplex (LexString a) c -> 0 < sdscmplex (LexString b) c) /\ (sdscmplex (LexString b) c <= 0 -> sdscmplex (LexString a) c < 0).
Proof.
  intros Hab. pose proof (lex_antisym a b). destruct c as [| |c]; cbn; [lia..|]. rewrite !sdscmp_lex.
  pose proof (lex_antisym b c). pose proof (lex_antisym c b). pose proof (lex_antisym a c). pose proof (lex_antisym c a).
  split; intros Hc.
  - destruct (Z_le_gt_dec (lex b c) 0); [|lia]. pose proof (lex_le_trans a b c ltac:(lia) ltac:(lia)). lia.
  - pose proof (lex_le_trans a b c ltac:(lia) ltac:(lia)). lia.
Qed.

Lemma lex_tests range ns : same_scores ns ->
  tests (lex_gte range) (lex_lte range) (fun k => zslLexValueGteMin k.2 range) (fun k => zslLexValueLteMax k.2 range) ns.
Proof.
  intros Hsc. assert (forall e e', e ∈ ns -> e' ∈ ns -> before e e' -> lex (e_ele e) (e_ele e') < 0) as Hlex.
  { intros e e' H1 H2 Hb. unfold before, key_lt in Hb. cbn in Hb. specialize (Hsc e e' H1 H2). apply score_eq_iff in Hsc as [Hsc _].
    rewrite Hsc in Hb. apply andb_true_iff in Hb as [_ Hb]. lia. }
  split.
  - intros n e [E _]. unfold lex_gte. by rewrite E.
  - intros n e [E _]. unfold lex_lte. by rewrite E.
  - intros e e' H1 H2 Hb. cbn. destruct (sdscmplex_mono _ _ (lexmin range) (Hlex e e' H1 H2 Hb)).
    unfold zslLexValueGteMin. destruct (lminex range); lia.
  - intros e e' H1 H2 Hb. cbn. destruct (sdscmplex_mono _ _ (lexmax range) (Hlex e e' H1 H2 Hb)).
    unfold zslLexValueLteMax. destruct (lmaxex range); lia.
Qed.

Lemma lex_range_empty range k :
  let cmp := sdscmplex (lexmin range) (lexmax range) in
  (0 <? cmp) || ((cmp =? 0) && (lminex range || lmaxex range)) = true -> in_lex_range range k = false.
Proof.
  intros cmp He. destruct k as [s v]. apply not_true_iff_false. unfold in_lex_range, zslLexValueGteMin, zslLexValueLteMax. cbn [snd].
  rewrite andb_true_iff. intros [Hg Hl]. subst cmp. destruct (lexmin range) as [| |a], (lexmax range) as [| |b]; cbn [sdscmplex] in *;
    try (destruct (lminex range), (lmaxex range); cbn in *; lia).
  rewrite !sdscmp_lex in *. pose proof (lex_antisym a v). pose proof (lex_antisym v a). pose proof (lex_antisym v b). pose proof (lex_antisym a b).
  pose proof (lex_antisym b a). assert (lex a v <= 0) as Hav by (destruct (lminex range); lia). assert (lex v b <= 0) as Hvb by (destruct (lmaxex range); lia).
  destruct (lex_le_trans a v b Hav Hvb). destruct (lminex range), (lmaxex range); cbn in *; lia.
Qed.

(** ** Ranges of ranks *)

Lemma delete_rank_seq h zsl ns (start end_ : Z) :
  owns h zsl ns -> 1 <= start < 2 ^ 64 -> 0 <= end_ < 2 ^ 64 ->
  let a := Z.to_nat (start - 1) in
  let n := Z.to_nat (end_ - (start - 1)) in
  exists h' zsl', zslDeleteRangeByRank h zsl start end_ = Some (h', zsl', map e_ele (take n (drop a ns))) /\
    owns h' zsl' (take a ns ++ drop n (drop a ns)).
Proof.
  intros Ho Hst He a n. pose proof (proj1 Ho) as Hz. pose proof (zr_bound _ _ _ Hz) as Hb. pose proof (zr_length _ _ _ Hz) as Hlg.
  unfold zslDeleteRangeByRank. rewrite <- (take_drop a ns) in Hz, Ho.
  assert (zlen (take a ns) = Z.min (start - 1) (zlen ns)) as Ea by (unfold zlen; rewrite length_take; lia).
  destruct (search_from_header_spec 64 (fun traversed sp _ => u64 (traversed + sp) <? start) h zsl (take a ns) (drop a ns) Hz) as (update & -> & Hlen & Hstp); [|rewrite take_drop; lia|].
  { apply cuts_rank. intros r sp _ Hr. rewrite take_drop in Hr. rewrite u64_small, Ea by lia.
    destruct (Z.ltb_spec (r + sp) start); [rewrite bool_decide_true|rewrite bool_decide_false]; lia. }
  cbn [mbind option_bind]. rewrite (search_0 h _ _ _ _ update (zr_nodes _ _ _ Hz) Hlen Hstp). cbn [mbind option_bind].
  rewrite (next_of_spec h zsl _ _ update Hz Hlen Hstp). cbn [mbind option_bind]. pose proof (zlen_nonneg (take a ns)).
  rewrite (u64_small (_ + 1)) by lia. rewrite <- (take_drop n (drop a ns)) in Ho.
  assert (head_addr (drop a ns) = head_addr (take n (drop a ns) ++ drop n (drop a ns))) as -> by (by rewrite take_drop).
  assert (zlen (drop a ns) = Z.max 0 (zlen ns - (start - 1))) as Ed by (unfold zlen; rewrite length_drop; lia).
  assert (zlen (take n (drop a ns)) = Z.max 0 (Z.min (end_ - (start - 1)) (zlen (drop a ns)))) as En by (unfold zlen; rewrite length_take; lia).
  apply (delete_while_spec (fun traversed _ => traversed <=? end_) _ (Z.to_nat (zlength zsl)) h zsl _ _ update _ []); [done|lia|done| | |lia|lia].
  2: { rewrite Hlg, length_take, length_drop. unfold zlen. clear. lia. }
  intros P e Q nd EP _. assert (zlen P < zlen (drop a ns)) by (rewrite <- (take_drop n (drop a ns)), EP; zlen).
  pose proof (zlen_nonneg P). destruct (Z.leb_spec (zlen (take a ns) + 1 + zlen P) end_); [rewrite bool_decide_true|rewrite bool_decide_false]; lia.
Qed.

(** ** Creation, the level of a node, freeing *)

Lemma create_owns p (zero : S) : owns (zslCreate p zero ∅).1 (zslCreate p zero ∅).2 [].
Proof.
  unfold zslCreate, ZSKIPLIST_MAXLEVEL. change (Z.to_nat 32) with 32%nat. cbn [fst snd].
  split; [|rewrite dom_insert_L; set_solver]. split; cbn [header tail zlength zlevel]; try done; try lia; [|constructor].
  change (Z.to_nat 1) with 1%nat. split; try done.
  - apply NoDup_singleton.
  - intros D Q i E Hr Hi. destruct D; [|done]. cbn in E. subst Q. unfold get_level. change (cursor p []) with p. rewrite lookup_insert_eq.
    cbn [mbind option_bind level]. by rewrite lookup_replicate_2 by lia.
  - exists zero. eexists. rewrite lookup_insert_eq. split_and!; [done..|]. intros i l _ Hl. by apply lookup_replicate in Hl as [-> _].
  - lia.
Qed.

Lemma random_level_ge draws : forall lv v, random_level draws lv = Some v -> lv <= v.
Proof. induction draws as [|r draws IH]; intros lv v; cbn; [done|]. destruct (_ <=? _); [intros Hv; apply IH in Hv; lia|intros [= ->]; lia]. Qed.

Lemma zslRandomLevel_range draws lv : zslRandomLevel draws = Some lv -> 1 <= lv <= 32.
Proof.
  unfold zslRandomLevel, ZSKIPLIST_MAXLEVEL. destruct (random_level draws 1) as [v|] eqn:E; [|done]. apply random_level_ge in E. cbn.
  destruct (Z.ltb_spec v 32); intros [= <-]; lia.
Qed.

Lemma free_loop_spec ns : forall fuel h,
  (forall P e Q, ns = P ++ e :: Q -> exists l0 : zskiplistLevel, get_level h (e_addr e) 0 = Some l0 /\ forward l0 = head_addr Q) ->
  NoDup (map e_addr ns) -> (length ns <= fuel)%nat -> dom h = (list_to_set (map e_addr ns) : gset positive) ->
  free_loop fuel h (head_addr ns) = Some ∅.
Proof.
  induction ns as [|e ns IH]; intros fuel h Hl Hn Hf Hd.
  - destruct fuel; cbn; f_equal; apply dom_empty_inv_L; by rewrite Hd.
  - destruct fuel as [|fuel]; [cbn in Hf; lia|]. cbn [head_addr head fmap option_fmap option_map free_loop].
    destruct (Hl [] e ns eq_refl) as (l0 & -> & E). cbn [mbind option_bind]. rewrite E. cbn [map] in Hn. apply NoDup_cons in Hn as [He Hn].
    apply IH; [|done|cbn in Hf; lia|].
    + intros P e' Q EP. destruct (Hl (e :: P) e' Q) as (l1 & E1 & E2); [by rewrite EP|]. exists l1. split; [|done].
      unfold get_level in *. rewrite lookup_delete_ne; [done|]. intros Ee. apply He. rewrite Ee, EP. apply (list_elem_of_fmap_2 e_addr). set_solver.
    + rewrite dom_delete_L, Hd. cbn [map list_to_set]. set_solver.
Qed.

Lemma free_owns h zsl ns : owns h zsl ns -> zslFree h zsl = Some ∅.
Proof.
  intros [Hz Hd]. pose proof (zr_nodes _ _ _ Hz) as Hn. unfold zslFree. pose proof (zr_level _ _ _ Hz).
  pose proof (no_levels _ _ _ _ Hn [] ns 0%nat eq_refl (reaches_nil _) ltac:(lia)) as E. change (cursor (header zsl) []) with (header zsl) in E.
  rewrite E. cbn [mbind option_bind]. pose proof (no_nodup _ _ _ _ Hn) as Hnd. apply NoDup_cons in Hnd as [Hh Hnd].
  assert (forward (link 0 ns) = head_addr ns) as ->.
  { destruct ns as [|b B]; [done|]. pose proof (no_heights _ _ _ _ Hn) as Hht. apply Forall_inv in Hht. cbn [link].
    by rewrite (proj2 (Nat.ltb_lt _ _)) by lia. }
  apply free_loop_spec; [|done|rewrite (zr_length _ _ _ Hz); unfold zlen; lia|rewrite dom_delete_L, Hd; cbn [list_to_set]; set_solver].
  intros P e Q EP. rewrite EP in Hz. destruct (next_node h zsl P e Q Hz) as (n & l0 & _ & _ & E1 & E2). exists l0. split; [|done].
  unfold get_level in *. rewrite lookup_delete_ne; [done|]. intros Ee. apply Hh. rewrite Ee, EP. apply (list_elem_of_fmap_2 e_addr). set_solver.
Qed.

(** ** The sorted set *)

Inductive zop :=
  | ZInsert (p : positive) (draws : list Z) (s : S) (el : list Z)
  | ZDelete (s : S) (el : list Z)
  | ZUpdate (p : positive) (draws : list Z) (cur : S) (el : list Z) (new : S)
  | ZDeleteByScore (range : @zrangespec S)
  | ZDeleteByRank (start end_ : Z)
  | ZDeleteByLex (range : zlexrangespec).

Inductive zres := ZDone | ZFound (found : bool) | ZRemoved (els : list (list Z)).

(** The operations of the code; [p] is the block allocated for a new node,
    [draws] the random numbers its level is drawn from, [junk] what the block
    held. *)
Definition zrun (junk : zskiplistLevel) (op : zop) h zsl : option (heap * zskiplist * zres) :=
  match op with
  | ZInsert p draws s el =>
      lv ← zslRandomLevel draws; '(h, zsl) ← zslInsert p junk lv h zsl s el; Some (h, zsl, ZDone)
  | ZDelete s el => '(h, zsl, found) ← zslDelete h zsl s el false; Some (h, zsl, ZFound found)
  | ZUpdate p draws cur el new =>
      lv ← zslRandomLevel draws; '(h, zsl, _) ← zslUpdateScore p junk lv h zsl cur el new; Some (h, zsl, ZDone)
  | ZDeleteByScore range => '(h, zsl, els) ← zslDeleteRangeByScore h zsl range; Some (h, zsl, ZRemoved els)
  | ZDeleteByRank start end_ => '(h, zsl, els) ← zslDeleteRangeByRank h zsl start end_; Some (h, zsl, ZRemoved els)
  | ZDeleteByLex range => '(h, zsl, els) ← zslDeleteRangeByLex h zsl range; Some (h, zsl, ZRemoved els)
  end.

(** What they do to the sequence of keys. *)
Definition zspec (op : zop) l : list key * zres :=
  match op with
  | ZInsert _ _ s el => (seq_insert (s, el) l, ZDone)
  | ZDelete s el => (seq_delete (s, el) l, ZFound (existsb (fun k => same_keyb k (s, el)) l))
  | ZUpdate _ _ cur el new => (seq_insert (new, el) (seq_delete (cur, el) l), ZDone)
  | ZDeleteByScore range =>
      (List.filter (fun k => negb (in_score_range range k)) l, ZRemoved (map snd (List.filter (in_score_range range) l)))
  | ZDeleteByRank start end_ =>
      let a := Z.to_nat (start - 1) in
      let n := Z.to_nat (end_ - (start - 1)) in
      (take a l ++ drop n (drop a l), ZRemoved (map snd (take n (drop a l))))
  | ZDeleteByLex range =>
      (List.filter (fun k => negb (in_lex_range range k)) l, ZRemoved (map snd (List.filter (in_lex_range range) l)))
  end.

(** What the callers ensure: a new element is not in the set, the set does not
    outgrow the 32-bit ranks, an element whose score changes has its old
    score, ranks count from 1, a range of elements is used with equal scores
    only. *)
Definition zpre (op : zop) h l : Prop :=
  match op with
  | ZInsert p draws _ el => h !! p = None /\ is_Some (zslRandomLevel draws) /\ el ∉ map snd l /\ zlen l + 1 < 2 ^ 32
  | ZUpdate p draws cur el _ => h !! p = None /\ is_Some (zslRandomLevel draws) /\ exists k, k ∈ l /\ same_key k (cur, el)
  | ZDeleteByRank start end_ => 1 <= start < 2 ^ 64 /\ 0 <= end_ < 2 ^ 64
  | ZDeleteByLex _ => forall k k', k ∈ l -> k' ∈ l -> score_eq k.1 k'.1 = true
  | _ => True
  end.

Definition zinv h zsl l : Prop := exists ns, owns h zsl ns /\ keys ns = l /\ NoDup (map snd l).

Lemma keys_split (f : key -> bool) l : List.filter f l ++ List.filter (fun k => negb (f k)) l ≡ₚ l.
Proof.
  induction l as [|k l IH]; [done|]. cbn. destruct (f k); cbn [negb app]; [by rewrite IH|]. by rewrite <- Permutation_middle, IH.
Qed.

Lemma seq_insert_perm k l : seq_insert k l ≡ₚ k :: l.
Proof. unfold seq_insert. by rewrite <- Permutation_middle, (keys_split (fun k' => key_lt k' k) l). Qed.

Lemma nodup_filter (f : key -> bool) l : NoDup (map snd l) -> NoDup (map snd (List.filter f l)).
Proof.
  induction l as [|k l IH]; [done|]. cbn. intros Hn. apply NoDup_cons in Hn as [Hk Hn]. destruct (f k); [|by apply IH]. cbn.
  apply NoDup_cons. split; [|by apply IH]. intros Hin. apply Hk. apply (list_elem_of_fmap_1 snd) in Hin as (k' & -> & Hin).
  apply (list_elem_of_fmap_2 snd). apply list_elem_of_In, filter_In in Hin as [Hin _]. by apply list_elem_of_In.
Qed.

Lemma nodup_same_ele l k k' : NoDup (map snd l) -> k ∈ l -> k' ∈ l -> k.2 = k'.2 -> k = k'.
Proof.
  intros Hn H1 H2 E. apply list_elem_of_lookup in H1 as [i Hi], H2 as [j Hj].
  assert (i = j) as ->; [|congruence]. eapply (NoDup_lookup (map snd l)); [done|..]; change (map snd l) with (snd <$> l);
    rewrite list_lookup_fmap; [by rewrite Hi|by rewrite Hj, E].
Qed.

Lemma keys_elem ns k : k ∈ keys ns <-> exists e, e ∈ ns /\ k = e_key e.
Proof. unfold keys. change (map e_key ns) with (e_key <$> ns). rewrite list_elem_of_fmap. firstorder. Qed.

(** [op] does what it says on the sequence. *)
Definition simulated (junk : zskiplistLevel) (op : zop) h zsl l : Prop :=
  exists h' zsl', zrun junk op h zsl = Some (h', zsl', (zspec op l).2) /\ zinv h' zsl' (zspec op l).1.

Lemma insert_simulated junk p draws s el h zsl l :
  zinv h zsl l -> zpre (ZInsert p draws s el) h l -> simulated junk (ZInsert p draws s el) h zsl l.
Proof.
  intros (ns & Ho & <- & Hn) (Hp & [lv Hlv] & Hel & Hb). unfold simulated. cbn [zrun zspec fst snd]. rewrite Hlv. cbn [mbind option_bind].
  assert (zlen (keys ns) = zlen ns) as Ek by (unfold zlen, keys; by rewrite length_map).
  destruct (insert_seq p junk lv h zsl s el ns) as (h' & zsl' & ns' & -> & Ho' & Hk); try done; [by eapply zslRandomLevel_range|lia| |].
  - intros e He [_ He']. apply Hel. cbn in He'. rewrite <- He'. apply (list_elem_of_fmap_2 snd (keys ns) (e_key e)). apply keys_elem. by exists e.
  - exists h', zsl'. split; [done|]. exists ns'. split_and!; [done..|]. rewrite seq_insert_perm. cbn. by apply NoDup_cons.
Qed.

Lemma delete_simulated junk s el h zsl l : zinv h zsl l -> simulated junk (ZDelete s el) h zsl l.
Proof.
  intros (ns & Ho & <- & Hn). unfold simulated. cbn [zrun zspec fst snd].
  destruct (delete_seq h zsl s el ns Ho) as (h' & zsl' & ns' & -> & Ho' & Hk). exists h', zsl'. split; [done|].
  exists ns'. split_and!; [done..|]. by apply nodup_filter.
Qed.

Lemma update_simulated junk p draws cur el new h zsl l :
  zinv h zsl l -> zpre (ZUpdate p draws cur el new) h l -> simulated junk (ZUpdate p draws cur el new) h zsl l.
Proof.
  intros (ns & Ho & <- & Hn) (Hp & [lv Hlv] & k & Hk & Hs). unfold simulated. cbn [zrun zspec fst snd]. rewrite Hlv. cbn [mbind option_bind].
  apply keys_elem in Hk as Hk'. destruct Hk' as (e & He & ->).
  destruct (update_seq p junk lv h zsl cur new el ns) as (h' & zsl' & q & ns' & -> & Ho' & Hk' & _); try done; [by eapply zslRandomLevel_range|by exists e| |].
  - intros e' He' Ee'. assert (e_key e' = e_key e) as E; [|change (e_score e') with (e_key e').1; rewrite E; apply Hs].
    eapply nodup_same_ele; [exact Hn|apply keys_elem; by exists e'|done|]. cbn. rewrite Ee'. symmetry. apply Hs.
  - exists h', zsl'. split; [done|]. exists ns'. split_and!; [done..|]. rewrite seq_insert_perm. cbn. apply NoDup_cons. split; [|by apply nodup_filter].
    intros Hin. apply (list_elem_of_fmap_1 snd) in Hin as (k & Ek & Hin). unfold seq_delete in Hin. apply list_elem_of_In, filter_In in Hin as [Hin Hnk].
    apply list_elem_of_In in Hin. assert (k = e_key e) as -> by (eapply nodup_same_ele; [exact Hn|done..|]; rewrite <- Ek; symmetry; apply Hs).
    by rewrite (proj2 (same_keyb_spec _ _) Hs) in Hnk.
Qed.

Lemma delete_range_simulated gte lte g lt h zsl ns :
  tests gte lte g lt ns -> owns h zsl ns -> NoDup (map snd (keys ns)) ->
  exists h' zsl',
    (update ← search_from_header 64 (fun _ _ n => negb (gte n)) h zsl; x ← next_of h update;
     delete_while (fun _ n => lte n) (Z.to_nat (zlength zsl)) h zsl x update 0 []) =
      Some (h', zsl', map snd (List.filter (fun k => g k && lt k) (keys ns))) /\
    zinv h' zsl' (List.filter (fun k => negb (g k && lt k)) (keys ns)).
Proof.
  intros Ht Ho Hn. destruct (delete_range_spec gte lte g lt h zsl ns Ht Ho) as (h' & zsl' & ns' & E & Ho' & Hk).
  exists h', zsl'. split; [done|]. exists ns'. split_and!; [done..|]. by apply nodup_filter.
Qed.

Lemma delete_rank_simulated junk start end_ h zsl l :
  zinv h zsl l -> zpre (ZDeleteByRank start end_) h l -> simulated junk (ZDeleteByRank start end_) h zsl l.
Proof.
  intros (ns & Ho & <- & Hn) [H1 H2]. unfold simulated. cbn [zrun zspec fst snd].
  destruct (delete_rank_seq h zsl ns start end_ Ho H1 H2) as (h' & zsl' & -> & Ho'). exists h', zsl'. cbn [mbind option_bind].
  assert (forall (a : nat), take a (keys ns) = keys (take a ns)) as Htk by (intros; symmetry; apply fmap_take).
  assert (forall a (ns : list (entry S)), drop a (keys ns) = keys (drop a ns)) as Hdr by (intros; symmetry; apply fmap_drop).
  split; [|eexists; split_and!; [exact Ho'| |]].
  - do 3 f_equal. rewrite Hdr. change (keys ?x) with (e_key <$> x). rewrite <- fmap_take, <- list_fmap_compose. done.
  - rewrite Htk, !Hdr. unfold keys. apply map_app.
  - eapply sublist_NoDup; [exact Hn|]. change (map snd ?x) with (snd <$> x). apply fmap_sublist.
    rewrite <- (take_drop (Z.to_nat (start - 1)) (keys ns)) at 3. apply sublist_app; [done|]. apply sublist_drop.
Qed.

(** C1. The skip list implements the sorted set. A new list is the empty
    sequence. From a list that represents a sequence of keys without repeated
    elements, every operation that changes it runs without touching a
    freed or missing node, returns what the sequence says, and leaves a list
    that represents the changed sequence, with forward pointers, spans,
    backward pointers, tail, length and level all as they should be and no
    node leaked: insertion puts the key in the place of its order, deletion
    takes it out and reports whether it was there, an update of a score moves
    the element, the three range deletions remove exactly the keys of the
    range and hand out their elements in order. Freeing the list frees every
    node. *)
Theorem zsl_refines :
  (forall p (zero : S), zinv (zslCreate p zero ∅).1 (zslCreate p zero ∅).2 []) /\
  (forall junk op h zsl l, zinv h zsl l -> zpre op h l ->
    exists h' zsl', zrun junk op h zsl = Some (h', zsl', (zspec op l).2) /\ zinv h' zsl' (zspec op l).1) /\
  (forall h zsl l, zinv h zsl l -> zslFree h zsl = Some ∅).
Proof.
  split_and!.
  - intros p zero. exists []. split_and!; [apply create_owns|done|apply NoDup_nil_2].
  - intros junk [p draws s el|s el|p draws cur el new|range|start end_|range] h zsl l Hi Hp; [by apply insert_simulated|by apply delete_simulated| | |by apply delete_rank_simulated|];
      [by apply update_simulated|..]; destruct Hi as (ns & Ho & <- & Hn); cbn [zrun zspec fst snd].
    + destruct (delete_range_simulated _ _ _ _ h zsl ns (score_tests range ns) Ho Hn) as (h' & zsl' & E & Hi). exists h', zsl'. split; [|done].
      unfold zslDeleteRangeByScore. by rewrite E.
    + assert (same_scores ns) as Hsc by (intros e e' H1 H2; apply (Hp (e_key e) (e_key e')); apply keys_elem; eauto).
      destruct (delete_range_simulated _ _ _ _ h zsl ns (lex_tests range ns Hsc) Ho Hn) as (h' & zsl' & E & Hi). exists h', zsl'. split; [|done].
      by assert (zslDeleteRangeByLex h zsl range = Some (h', zsl', map snd (List.filter (in_lex_range range) (keys ns)))) as -> by exact E.
  - intros h zsl l (ns & Ho & _). by eapply free_owns.
Qed.

(** ** Ranks *)

Lemma upto_node s el n e : shows n e ->
  score_lt (score n) s || (score_eq (score n) s && match ele n with Some e' => sdscmp e' el <=? 0 | None => false end) =
    negb (key_lt (s, el) (e_key e)).
Proof.
  intros [-> ->]. rewrite sdscmp_lex. unfold key_lt. cbn [fst snd e_key]. rewrite (score_eq_sym s), score_eq_spec.
  pose proof (lex_antisym el (e_ele e)). pose proof (lex_antisym (e_ele e) el).
  destruct (score_lt (e_score e) s) eqn:E1, (score_lt s (e_score e)) eqn:E2; cbn; try done; [|lia].
  pose proof (score_lt_trans _ _ _ E1 E2) as E3. by rewrite score_lt_irrefl in E3.
Qed.

Lemma rank_spec h zsl A B s el :
  zrep h zsl (A ++ B) -> Forall (fun e => negb (key_lt (s, el) (e_key e)) = true) A -> Forall (fun e => negb (key_lt (s, el) (e_key e)) = false) B ->
  (forall P e Q, A = P ++ e :: Q -> e_ele e = el -> Q = []) ->
  zslGetRank h zsl s el = Some (if bool_decide (e_ele <$> last A = Some el) then zlen A else 0).
Proof.
  intros Hz HA HB Hu. unfold zslGetRank. pose proof (zr_level _ _ _ Hz).
  apply (rank_levels_spec h zsl A B Hz s el _ _ [] A); try done; [|rewrite (zr_length _ _ _ Hz); unfold zlen; rewrite length_app; lia|lia].
  apply (cuts_keys (fun k => negb (key_lt (s, el) k)) _ h zsl A B); try done. intros r sp n e E1 E2. by apply upto_node.
Qed.

Lemma last_prefix P x Q :
  NoDup (map e_ele (P ++ x :: Q)) -> forall P' e Q', P ++ [x] = P' ++ e :: Q' -> e_ele e = e_ele x -> Q' = [].
Proof.
  intros Hn P' e Q' E He. destruct Q' as [|y Q' _] using rev_ind; [done|exfalso].
  change (P' ++ e :: Q' ++ [y]) with (P' ++ (e :: Q') ++ [y]) in E. rewrite app_assoc in E. apply app_inj_tail in E as [-> <-].
  rewrite map_app in Hn. apply NoDup_app in Hn as (_ & Hn & _). apply (Hn (e_ele e)); [apply (list_elem_of_fmap_2 e_ele); set_solver|].
  rewrite He. by left.
Qed.

Lemma element_spec h zsl ns (rank : Z) : zrep h zsl ns -> 1 <= rank < 2 ^ 64 ->
  zslGetElementByRank h zsl rank = Some (e_addr <$> ns !! Z.to_nat (rank - 1)).
Proof.
  intros Hz Hr. unfold zslGetElementByRank. pose proof (zr_level _ _ _ Hz). pose proof (zr_bound _ _ _ Hz) as Hb. pose proof (zr_length _ _ _ Hz) as Hlg.
  set (a := Z.to_nat rank). rewrite <- (take_drop a ns) in Hz.
  assert (zlen (take a ns) = Z.min rank (zlen ns)) as Ea by (unfold zlen; rewrite length_take; lia).
  transitivity (Some (if bool_decide (zlen (take a ns) = rank) then Some (cursor (header zsl) (take a ns)) else None)).
  - apply (element_levels_spec h zsl (take a ns) (drop a ns) Hz rank _ _ [] (take a ns)); try done; [|rewrite Hlg, length_take; unfold zlen; lia|lia..].
    apply cuts_rank. intros r sp _ Hrs. rewrite take_drop in Hrs. rewrite u64_small, Ea by lia.
    destruct (Z.leb_spec (r + sp) rank); [rewrite bool_decide_true|rewrite bool_decide_false]; lia.
  - f_equal. case_bool_decide as Hc.
    + destruct (lookup_lt_is_Some_2 ns (Z.to_nat (rank - 1))) as [x Hx]; [unfold zlen in *; lia|]. rewrite Hx. cbn.
      replace a with (Datatypes.S (Z.to_nat (rank - 1))) by lia. by rewrite (take_S_r ns _ x Hx), cursor_snoc.
    + rewrite lookup_ge_None_2; [done|]. unfold zlen in *. lia.
Qed.

(** C32. Ranks count the keys of the sequence from 1. The rank of an element
    that is in the list, looked up with its score, is its place, and the node
    of that rank is the node of the element; the rank of an element that is
    not in the list is 0; there is no node of a rank beyond the length. *)
Theorem zsl_ranks h zsl ns : zrep h zsl ns -> NoDup (map e_ele ns) ->
  (forall P x Q, ns = P ++ x :: Q ->
    zslGetRank h zsl (e_score x) (e_ele x) = Some (zlen P + 1) /\
    zslGetElementByRank h zsl (zlen P + 1) = Some (Some (e_addr x))) /\
  (forall s el, el ∉ map e_ele ns -> zslGetRank h zsl s el = Some 0) /\
  (forall rank, zlen ns < rank < 2 ^ 64 -> zslGetElementByRank h zsl rank = Some None).
Proof.
  intros Hz Hn. pose proof (zr_sorted _ _ _ Hz) as Hs. pose proof (zr_bound _ _ _ Hz) as Hb. split_and!.
  - intros P x Q ->. split.
    + assert (zrep h zsl ((P ++ [x]) ++ Q)) as Hz' by (by rewrite <- app_assoc).
      rewrite (rank_spec h zsl (P ++ [x]) Q); [|done|..]; [|apply Forall_forall..|by eapply last_prefix].
      * rewrite last_snoc. cbn [fmap option_fmap option_map]. rewrite bool_decide_true by done. f_equal. zlen.
      * intros e He. apply negb_true_iff. apply elem_of_app in He as [He|He]; [|apply list_elem_of_singleton in He as ->; apply key_lt_irrefl].
        apply key_lt_asym. apply (StronglySorted_app_1_elem_of before P (x :: Q)); [done..|by left].
      * intros e He. apply negb_false_iff. apply StronglySorted_app in Hs as (_ & _ & Hs). apply StronglySorted_inv in Hs as [_ Hs].
        rewrite Forall_forall in Hs. by apply Hs.
    + rewrite (element_spec h zsl _ _ Hz) by zlen. do 2 f_equal. replace (Z.to_nat (zlen P + 1 - 1)) with (length P) by (unfold zlen; lia).
      by rewrite list_lookup_middle.
  - intros s el Hel. destruct (sorted_cut (fun k => negb (key_lt (s, el) k)) ns) as (A & B & -> & HA & HB); [|done|].
    { intros e e' _ _ Hb' Hk. apply negb_true_iff in Hk. apply negb_true_iff, not_true_iff_false. intros Hk'. by rewrite (key_lt_trans _ _ _ Hk' Hb') in Hk. }
    assert (forall e, e ∈ A -> e_ele e <> el) as Hne by (intros e He <-; apply Hel; apply (list_elem_of_fmap_2 e_ele); set_solver).
    rewrite (rank_spec h zsl A B s el Hz HA HB); [rewrite bool_decide_false; [done|]|].
    + intros El. apply fmap_Some in El as (e & El & ->). apply last_Some_elem_of in El. by apply (Hne e).
    + intros P e Q -> He. destruct (Hne e); [set_solver|done].
  - intros rank Hr. rewrite (element_spec h zsl ns rank Hz) by (pose proof (zlen_nonneg ns); lia).
    rewrite lookup_ge_None_2; [done|]. unfold zlen in *. lia.
Qed.

(** ** Ranges *)

(** C33. The ends of a range. [zslFirstInRange] and [zslLastInRange] return the
    nodes of the first and of the last key whose score is in the range, NULL
    when there is none, also when the range is empty; [zslIsInRange] never
    denies a range that holds a key. With equal scores the functions for ranges
    of elements do the same. *)
Theorem zsl_ranges h zsl ns : zrep h zsl ns ->
  (forall range, zslFirstInRange h zsl range = Some (head_addr (List.filter (fun e => in_score_range range (e_key e)) ns)) /\
    zslLastInRange h zsl range = Some (last_addr (List.filter (fun e => in_score_range range (e_key e)) ns)) /\
    exists b, zslIsInRange h zsl range = Some b /\ (b = false -> List.filter (fun e => in_score_range range (e_key e)) ns = [])) /\
  (same_scores ns -> forall range,
    zslFirstInLexRange h zsl range = Some (head_addr (List.filter (fun e => in_lex_range range (e_key e)) ns)) /\
    zslLastInLexRange h zsl range = Some (last_addr (List.filter (fun e => in_lex_range range (e_key e)) ns)) /\
    exists b, zslIsInLexRange h zsl range = Some b /\ (b = false -> List.filter (fun e => in_lex_range range (e_key e)) ns = [])).
Proof.
  intros Hz. assert (forall f : key -> bool, (forall k, f k = false) -> List.filter (fun e => f (e_key e)) ns = []) as Hno.
  { intros f Hf. clear -Hf. induction ns as [|e ns IH]; [done|]. cbn. by rewrite Hf. }
  pose proof (zr_sorted _ _ _ Hz) as Hs. split.
  - intros range. unfold zslFirstInRange, zslLastInRange, zslIsInRange. pose proof (score_tests range ns) as Ht.
    destruct (score_lt (zmax range) (zmin range) || _) eqn:Ee.
    { rewrite (Hno (in_score_range range)) by (intros k; by apply score_range_empty). split_and!; [done..|by exists false]. }
    rewrite (first_in_range_spec _ _ _ _ h zsl ns Ht Hz), (last_in_range_spec _ _ _ _ h zsl ns Ht Hz).
    rewrite (ends_in_range_spec _ _ _ _ h zsl ns Ht Hz). split_and!; [done..|]. eexists. split; [done|]. by apply (ends_out _ _ _ _ ns Ht Hs).
  - intros Hsc range. unfold zslFirstInLexRange, zslLastInLexRange, zslIsInLexRange. pose proof (lex_tests range ns Hsc) as Ht.
    destruct ((0 <? sdscmplex (lexmin range) (lexmax range)) || _) eqn:Ee.
    { rewrite (Hno (in_lex_range range)) by (intros k; by apply lex_range_empty). split_and!; [done..|by exists false]. }
    split; [exact (first_in_range_spec _ _ _ _ h zsl ns Ht Hz)|]. split; [exact (last_in_range_spec _ _ _ _ h zsl ns Ht Hz)|].
    rewrite (ends_in_range_spec _ _ _ _ h zsl ns Ht Hz). eexists. split; [done|]. by apply (ends_out _ _ _ _ ns Ht Hs).
Qed.
End Props.

(** ** Examples: integer scores *)

#[refine] Instance Z_score : Score Z := {| score_lt := Z.ltb; score_eq := Z.eqb |}.
Proof.
  - intros s. apply Z.ltb_irrefl.
  - intros s t u. rewrite !Z.ltb_lt. lia.
  - intros s t u. rewrite !Z.ltb_lt. lia.
  - intros s t. destruct (Z.ltb_spec s t), (Z.ltb_spec t s), (Z.eqb_spec s t); cbn; lia.
Defined.

Definition junk_level : zskiplistLevel := mk_level (Some 99%positive) 12345.

(** Two insertions into an empty list: a at 5 with two levels, b at 3. *)
Definition demo : option (gmap positive (zskiplistNode Z) * zskiplist * zres) :=
  let '(h, zsl) := zslCreate 1 0 ∅ in
  '(h, zsl, _) ← zrun junk_level (ZInsert 2 [7; 20000] 5 [97]) h zsl;
  zrun junk_level (ZInsert 3 [20000] 3 [98]) h zsl.

Lemma demo_ok : match demo with Some (h, zsl, _) => zinv h zsl [(3, [98]); (5, [97])] | None => False end.
Proof.
  unfold demo. destruct (zslCreate 1 0 ∅) as [h zsl] eqn:E0.
  assert (zinv h zsl []) as H0.
  { exists []. split_and!; [|done|apply NoDup_nil_2]. pose proof (create_owns 1 0) as Hc. by rewrite E0 in Hc. }
  destruct (insert_simulated junk_level 2 [7; 20000] 5 [97] h zsl [] H0) as (h1 & zsl1 & E1 & H1).
  { split_and!; [by injection E0 as <- <-|by eexists|apply not_elem_of_nil|done]. }
  rewrite E1. cbn [mbind option_bind].
  destruct (insert_simulated junk_level 3 [20000] 3 [98] h1 zsl1 _ H1) as (h2 & zsl2 & E2 & H2); [|by rewrite E2].
  split_and!; [|by eexists|apply (bool_decide_eq_true_1 _); vm_compute; reflexivity|done].
  injection E0 as <- <-. vm_compute in E1. injection E1 as <- <-. reflexivity.
Qed.

Lemma zsl_refines_witness :
  match demo with
  | Some (h, zsl, _) =>
      exists h' zsl', zrun junk_level (ZUpdate 4 [0; 1; 20000] 5 [97] 2) h zsl = Some (h', zsl', ZDone) /\ zinv h' zsl' [(2, [97]); (3, [98])]
  | None => False
  end.
Proof.
  pose proof demo_ok as Hd. destruct demo as [[[h zsl] r]|] eqn:E; [|done].
  destruct (zsl_refines (S := Z)) as (_ & Hr & _).
  apply (Hr junk_level (ZUpdate 4 [0; 1; 20000] 5 [97] 2) h zsl _ Hd). split_and!.
  - vm_compute in E. injection E as <- <- <-. reflexivity.
  - by eexists.
  - exists (5, [97]). split; [apply (bool_decide_eq_true_1 _); vm_compute; reflexivity|done].
Defined.

Lemma demo_rep : exists h zsl ns, zrep h zsl ns /\ NoDup (map e_ele ns) /\ keys ns = [(3, [98]); (5, [97])].
Proof.
  pose proof demo_ok as Hd. destruct demo as [[[h zsl] r]|]; [|done]. destruct Hd as (ns & [Hz _] & Hk & Hn). exists h, zsl, ns.
  split_and!; [done| |done]. rewrite <- Hk in Hn. unfold keys in Hn. by rewrite map_map in Hn.
Qed.

Lemma zsl_ranks_witness : exists h zsl, zslGetRank h zsl 5 [97] = Some 2 /\ zslGetRank h zsl 5 [99] = Some 0.
Proof.
  destruct demo_rep as (h & zsl & ns & Hz & Hn & Hk). exists h, zsl. destruct ns as [|b [|a [|]]]; try done.
  unfold keys in Hk. cbn [map e_key] in Hk. injection Hk as Hb1 Hb2 Ha1 Ha2.
  destruct (zsl_ranks h zsl [b; a] Hz Hn) as (H1 & H2 & _). split.
  - rewrite <- Ha1, <- Ha2. apply (H1 [b] a []). done.
  - apply H2. cbn. rewrite Hb2, Ha2. apply (bool_decide_eq_true_1 _). vm_compute. reflexivity.
Defined.

Lemma zsl_ranges_witness : exists h zsl p, zslFirstInRange h zsl (mk_zrangespec 4 9 false true) = Some (Some p).
Proof.
  destruct demo_rep as (h & zsl & ns & Hz & Hn & Hk). exists h, zsl. destruct ns as [|b [|a [|]]]; try done.
  unfold keys in Hk. cbn [map e_key] in Hk. injection Hk as Hb1 Hb2 Ha1 Ha2. exists (e_addr a).
  destruct (zsl_ranges h zsl [b; a] Hz) as [H1 _]. destruct (H1 (mk_zrangespec 4 9 false true)) as [-> _].
  cbn [List.filter]. unfold in_score_range, e_key. cbn [fst]. rewrite Hb1, Ha1. reflexivity.
Defined.
