(* ===== verification/Ziplist.v ===== *)
(** * Ziplists ([ziplist.c])

    A ziplist is one block: a header with the size of the block, the offset of
    the last entry and the number of entries, the entries, and an end byte. An
    entry starts with the length of the previous one, in 1 or 5 bytes, so a
    change of the length of one entry can change the length of those after it.
    A pointer into the block is its offset; every access is checked against the
    block, and an access outside it or a failed assertion has no result. *)

From stdpp Require Import base list option.
From Stdlib Require Import ZArith Lia Bool.
From S2P Require Import Prelude Endian Util.

Local Open Scope Z_scope.

Definition ZIP_END : Z := 255.
Definition ZIP_BIG_PREVLEN : Z := 254.
Definition ZIP_STR_MASK : Z := 0xc0.
Definition ZIP_STR_06B : Z := 0.
Definition ZIP_STR_14B : Z := 0x40.
Definition ZIP_STR_32B : Z := 0x80.
Definition ZIP_INT_16B : Z := 0xc0.
Definition ZIP_INT_32B : Z := 0xd0.
Definition ZIP_INT_64B : Z := 0xe0.
Definition ZIP_INT_24B : Z := 0xf0.
Definition ZIP_INT_8B : Z := 0xfe.
Definition ZIP_INT_IMM_MASK : Z := 0x0f.
Definition ZIP_INT_IMM_MIN : Z := 0xf1.
Definition ZIP_INT_IMM_MAX : Z := 0xfd.
Definition INT24_MAX : Z := 0x7fffff.
Definition INT24_MIN : Z := - INT24_MAX - 1.
Definition UINT16_MAX : Z := 65535.
Definition ZIPLIST_HEADER_SIZE : Z := 10.
Definition ZIPLIST_END_SIZE : Z := 1.

Definition ZIP_IS_STR (enc : Z) : bool := Z.land enc ZIP_STR_MASK <? ZIP_STR_MASK.

Record zlentry := mk_zlentry {
  prevrawlensize : Z;
  prevrawlen : Z;
  lensize : Z;
  len : Z;
  headersize : Z;
  encoding : Z;
}.

Definition ZIP_ENTRY_ENCODING (zl : list byte) (p : Z) : option Z :=
  b ← byte_at zl p;
  Some (if b <? ZIP_STR_MASK then Z.land b ZIP_STR_MASK else b).

Definition ZIP_ENCODING_SIZE_INVALID : Z := 0xff.

Definition is_imm (enc : Z) : bool := (ZIP_INT_IMM_MIN <=? enc) && (enc <=? ZIP_INT_IMM_MAX).

Definition zipEncodingLenSize (enc : Z) : Z :=
  if (enc =? ZIP_INT_16B) || (enc =? ZIP_INT_32B) || (enc =? ZIP_INT_24B) || (enc =? ZIP_INT_64B) || (enc =? ZIP_INT_8B) then 1
  else if is_imm enc then 1
  else if enc =? ZIP_STR_06B then 1
  else if enc =? ZIP_STR_14B then 2
  else if enc =? ZIP_STR_32B then 5
  else ZIP_ENCODING_SIZE_INVALID.

Definition zipIntSize (enc : Z) : option Z :=
  if enc =? ZIP_INT_8B then Some 1
  else if enc =? ZIP_INT_16B then Some 2
  else if enc =? ZIP_INT_24B then Some 3
  else if enc =? ZIP_INT_32B then Some 4
  else if enc =? ZIP_INT_64B then Some 8
  else if is_imm enc then Some 0
  else None.

(** The bytes [zipStoreEntryEncoding] stores; their number is what it returns. *)
Definition encoding_bytes (enc rawlen : Z) : list byte :=
  if ZIP_IS_STR enc then
    if rawlen <=? 0x3f then [Z.lor ZIP_STR_06B rawlen]
    else if rawlen <=? 0x3fff then [Z.lor ZIP_STR_14B (Z.land (Z.shiftr rawlen 8) 0x3f); Z.land rawlen 0xff]
    else [ZIP_STR_32B; Z.land (Z.shiftr rawlen 24) 0xff; Z.land (Z.shiftr rawlen 16) 0xff; Z.land (Z.shiftr rawlen 8) 0xff; Z.land rawlen 0xff]
  else [enc].

(** With [p] and with NULL. *)
Definition zipStoreEntryEncoding (zl : list byte) (p enc rawlen : Z) : option (list byte * Z) :=
  zl ← buf_write zl p (encoding_bytes enc rawlen);
  Some (zl, zlen (encoding_bytes enc rawlen)).
Definition zipStoreEntryEncoding_NULL (enc rawlen : Z) : Z := zlen (encoding_bytes enc rawlen).

(** The four length bytes are combined in an int and converted to unsigned. *)
Definition ZIP_DECODE_LENGTH (zl : list byte) (ptr enc : Z) : option (Z * Z) :=
  if enc <? ZIP_STR_MASK then
    if enc =? ZIP_STR_06B then
      b0 ← byte_at zl ptr; Some (1, Z.land b0 0x3f)
    else if enc =? ZIP_STR_14B then
      b0 ← byte_at zl ptr; b1 ← byte_at zl (ptr + 1); Some (2, Z.lor (Z.shiftl (Z.land b0 0x3f) 8) b1)
    else if enc =? ZIP_STR_32B then
      b1 ← byte_at zl (ptr + 1); b2 ← byte_at zl (ptr + 2); b3 ← byte_at zl (ptr + 3); b4 ← byte_at zl (ptr + 4);
      Some (5, u32 (Z.lor (Z.lor (Z.lor (Z.shiftl b1 24) (Z.shiftl b2 16)) (Z.shiftl b3 8)) b4))
    else Some (0, 0)
  else if enc =? ZIP_INT_8B then Some (1, 1)
  else if enc =? ZIP_INT_16B then Some (1, 2)
  else if enc =? ZIP_INT_24B then Some (1, 3)
  else if enc =? ZIP_INT_32B then Some (1, 4)
  else if enc =? ZIP_INT_64B then Some (1, 8)
  else if is_imm enc then Some (1, 0)
  else Some (0, 0).

Definition ZIP_DECODE_PREVLENSIZE (zl : list byte) (ptr : Z) : option Z :=
  b ← byte_at zl ptr; Some (if b <? ZIP_BIG_PREVLEN then 1 else 5).

Definition ZIP_DECODE_PREVLEN (zl : list byte) (ptr : Z) : option (Z * Z) :=
  prevlensize ← ZIP_DECODE_PREVLENSIZE zl ptr;
  if prevlensize =? 1 then b ← byte_at zl ptr; Some (prevlensize, b)
  else
    b1 ← byte_at zl (ptr + 1); b2 ← byte_at zl (ptr + 2); b3 ← byte_at zl (ptr + 3); b4 ← byte_at zl (ptr + 4);
    Some (prevlensize, u32 (Z.lor (Z.lor (Z.lor (Z.shiftl b4 24) (Z.shiftl b3 16)) (Z.shiftl b2 8)) b1)).

(** [zipStorePrevEntryLength] with NULL. *)
Definition zipStorePrevEntryLength_NULL (len : Z) : Z := if len <? ZIP_BIG_PREVLEN then 1 else 5.

Definition zipPrevLenByteDiff (zl : list byte) (p len : Z) : option Z :=
  prevlensize ← ZIP_DECODE_PREVLENSIZE zl p;
  Some (i32 (zipStorePrevEntryLength_NULL len - prevlensize)).

(** The value and its encoding. [string2ll] reads the bytes as [char]; those of
    128 and more are no digits under either reading. *)
Definition zipTryEncoding (entry : list byte) : option (Z * Z) :=
  let entrylen := zlen entry in
  if (32 <=? entrylen) || (entrylen =? 0) then None
  else
    value ← string2ll entry;
    Some (value,
      if (0 <=? value) && (value <=? 12) then ZIP_INT_IMM_MIN + value
      else if (- 128 <=? value) && (value <=? 127) then ZIP_INT_8B
      else if (INT16_MIN <=? value) && (value <=? INT16_MAX) then ZIP_INT_16B
      else if (INT24_MIN <=? value) && (value <=? INT24_MAX) then ZIP_INT_24B
      else if (INT32_MIN <=? value) && (value <=? INT32_MAX) then ZIP_INT_32B
      else ZIP_INT_64B).

Section Ziplist.
Context `{Host}.
(** Contents of the memory [zrealloc] adds to a block. *)
Context (fill : nat -> byte).

(** ** Header *)

Definition ZIPLIST_BYTES (zl : list byte) : option Z := bs ← buf_read zl 0 4; Some (intrev32ifbe (native_load bs)).
Definition ZIPLIST_TAIL_OFFSET (zl : list byte) : option Z := bs ← buf_read zl 4 4; Some (intrev32ifbe (native_load bs)).
Definition ZIPLIST_LENGTH (zl : list byte) : option Z := bs ← buf_read zl 8 2; Some (intrev16ifbe (native_load bs)).

Definition set_BYTES (zl : list byte) (v : Z) : option (list byte) := buf_write zl 0 (native_store 4 (intrev32ifbe v)).
Definition set_TAIL_OFFSET (zl : list byte) (v : Z) : option (list byte) := buf_write zl 4 (native_store 4 (intrev32ifbe (u32 v))).
Definition set_LENGTH (zl : list byte) (v : Z) : option (list byte) := buf_write zl 8 (native_store 2 (intrev16ifbe (u16 v))).

Definition ZIPLIST_INCR_LENGTH (zl : list byte) (incr : Z) : option (list byte) :=
  n ← ZIPLIST_LENGTH zl;
  if n <? UINT16_MAX then set_LENGTH zl (n + incr) else Some zl.

(** ** Entries *)

Definition zipStorePrevEntryLengthLarge (zl : list byte) (p len : Z) : option (list byte * Z) :=
  zl ← buf_write zl p [ZIP_BIG_PREVLEN];
  bs ← memrev32ifbe (native_store 4 (u32 len));
  zl ← buf_write zl (p + 1) bs;
  Some (zl, 5).

Definition zipStorePrevEntryLength (zl : list byte) (p len : Z) : option (list byte * Z) :=
  if len <? ZIP_BIG_PREVLEN then
    zl ← buf_write zl p [len]; Some (zl, 1)
  else zipStorePrevEntryLengthLarge zl p len.

(** The bytes of an integer in an entry. *)
Definition zipSaveInteger (zl : list byte) (p value enc : Z) : option (list byte) :=
  if enc =? ZIP_INT_8B then buf_write zl p [u8 value]
  else if enc =? ZIP_INT_16B then bs ← memrev16ifbe (native_store 2 value); buf_write zl p bs
  else if enc =? ZIP_INT_24B then bs ← memrev32ifbe (native_store 4 (Z.shiftl value 8)); buf_write zl p (drop 1 bs)
  else if enc =? ZIP_INT_32B then bs ← memrev32ifbe (native_store 4 value); buf_write zl p bs
  else if enc =? ZIP_INT_64B then bs ← memrev64ifbe (native_store 8 value); buf_write zl p bs
  else if is_imm enc then Some zl
  else None.

Definition zipLoadInteger (zl : list byte) (p enc : Z) : option Z :=
  if enc =? ZIP_INT_8B then bs ← buf_read zl p 1; b ← head bs; Some (i8 b)
  else if enc =? ZIP_INT_16B then bs ← buf_read zl p 2; bs ← memrev16ifbe bs; Some (i16 (native_load bs))
  else if enc =? ZIP_INT_32B then bs ← buf_read zl p 4; bs ← memrev32ifbe bs; Some (i32 (native_load bs))
  else if enc =? ZIP_INT_24B then
    bs ← buf_read zl p 3; bs ← memrev32ifbe (0 :: bs); Some (Z.shiftr (i32 (native_load bs)) 8)
  else if enc =? ZIP_INT_64B then bs ← buf_read zl p 8; bs ← memrev64ifbe bs; Some (i64 (native_load bs))
  else if is_imm enc then Some (Z.land enc ZIP_INT_IMM_MASK - 1)
  else None.

Definition zipEntry (zl : list byte) (p : Z) : option zlentry :=
  '(prevrawlensize, prevrawlen) ← ZIP_DECODE_PREVLEN zl p;
  enc ← ZIP_ENTRY_ENCODING zl (p + prevrawlensize);
  '(lensize, len) ← ZIP_DECODE_LENGTH zl (p + prevrawlensize) enc;
  if lensize =? 0 then None
  else Some (mk_zlentry prevrawlensize prevrawlen lensize len (u32 (prevrawlensize + lensize)) enc).

(** [Some None] is the result 0. *)
Definition zipEntrySafe (zl : list byte) (zlbytes p : Z) (validate_prevlen : bool) : option (option zlentry) :=
  let zlfirst := ZIPLIST_HEADER_SIZE in
  let zllast := zlbytes - ZIPLIST_END_SIZE in
  let OUT_OF_RANGE q := (q <? zlfirst) || (zllast <? q) in
  if (zlfirst <=? p) && (p + 10 <? zllast) then
    '(prevrawlensize, prevrawlen) ← ZIP_DECODE_PREVLEN zl p;
    enc ← ZIP_ENTRY_ENCODING zl (p + prevrawlensize);
    '(lensize, len) ← ZIP_DECODE_LENGTH zl (p + prevrawlensize) enc;
    let headersize := u32 (prevrawlensize + lensize) in
    if lensize =? 0 then Some None
    else if OUT_OF_RANGE (p + headersize + len) then Some None
    else if validate_prevlen && OUT_OF_RANGE (p - prevrawlen) then Some None
    else Some (Some (mk_zlentry prevrawlensize prevrawlen lensize len headersize enc))
  else if OUT_OF_RANGE p then Some None
  else
    prevrawlensize ← ZIP_DECODE_PREVLENSIZE zl p;
    if OUT_OF_RANGE (p + prevrawlensize) then Some None
    else
      enc ← ZIP_ENTRY_ENCODING zl (p + prevrawlensize);
      let lensize := zipEncodingLenSize enc in
      if lensize =? ZIP_ENCODING_SIZE_INVALID then Some None
      else if OUT_OF_RANGE (p + prevrawlensize + lensize) then Some None
      else
        '(prevrawlensize, prevrawlen) ← ZIP_DECODE_PREVLEN zl p;
        '(lensize, len) ← ZIP_DECODE_LENGTH zl (p + prevrawlensize) enc;
        let headersize := u32 (prevrawlensize + lensize) in
        if OUT_OF_RANGE (p + headersize + len) then Some None
        else if validate_prevlen && OUT_OF_RANGE (p - prevrawlen) then Some None
        else Some (Some (mk_zlentry prevrawlensize prevrawlen lensize len headersize enc)).

(** [assert(zipEntrySafe(...))] *)
Definition assert_entry (zl : list byte) (zlbytes p : Z) (validate_prevlen : bool) : option zlentry :=
  e ← zipEntrySafe zl zlbytes p validate_prevlen; e.

Definition zipRawEntryLengthSafe (zl : list byte) (zlbytes p : Z) : option Z :=
  e ← assert_entry zl zlbytes p false; Some (u32 (headersize e + len e)).

Definition zipRawEntryLength (zl : list byte) (p : Z) : option Z :=
  e ← zipEntry zl p; Some (u32 (headersize e + len e)).

Definition zipAssertValidEntry (zl : list byte) (zlbytes p : Z) : option zlentry :=
  assert_entry zl zlbytes p true.

(** ** Creation and size *)

Definition ziplistNew : option (list byte) :=
  let bytes := ZIPLIST_HEADER_SIZE + ZIPLIST_END_SIZE in
  let zl := realloc fill [] bytes in
  zl ← set_BYTES zl bytes;
  zl ← set_TAIL_OFFSET zl ZIPLIST_HEADER_SIZE;
  zl ← set_LENGTH zl 0;
  buf_write zl (bytes - 1) [ZIP_END].

Definition ziplistResize (zl : list byte) (len : Z) : option (list byte) :=
  let zl := realloc fill zl len in
  zl ← set_BYTES zl len;
  buf_write zl (len - 1) [ZIP_END].

(** ** Cascading updates *)

Record cascade := mk_cascade {
  c_zl : list byte;
  c_p : Z;
  c_prevlen : Z;
  c_prevlensize : Z;
  c_prevoffset : Z;
  c_extra : Z;
  c_cnt : nat;
}.

Definition delta : Z := 4.

(** The first loop, which finds the entries to update. *)
Fixpoint cascade_scan (fuel : nat) (curlen : Z) (c : cascade) : option cascade :=
  b ← byte_at (c_zl c) (c_p c);
  if b =? ZIP_END then Some c
  else
    match fuel with
    | O => None
    | S fuel' =>
        cur ← assert_entry (c_zl c) curlen (c_p c) false;
        if prevrawlen cur =? c_prevlen c then Some c
        else if c_prevlensize c <=? prevrawlensize cur then
          '(zl, _) ← (if prevrawlensize cur =? c_prevlensize c
                      then zipStorePrevEntryLength (c_zl c) (c_p c) (c_prevlen c)
                      else zipStorePrevEntryLengthLarge (c_zl c) (c_p c) (c_prevlen c));
          Some (mk_cascade zl (c_p c) (c_prevlen c) (c_prevlensize c) (c_prevoffset c) (c_extra c) (c_cnt c))
        else if negb ((prevrawlen cur =? 0) || (prevrawlen cur + delta =? c_prevlen c)) then None
        else
          let rawlen := u32 (headersize cur + len cur) in
          let prevlen := rawlen + delta in
          cascade_scan fuel' curlen
            (mk_cascade (c_zl c) (c_p c + rawlen) prevlen (zipStorePrevEntryLength_NULL prevlen) (c_p c)
               (c_extra c + delta) (S (c_cnt c)))
    end.

(** The second loop, from the last entry to update to the first. *)
Fixpoint cascade_shift (cnt : nat) (zl : list byte) (p prevoffset firstentrylen : Z) : option (list byte) :=
  match cnt with
  | O => Some zl
  | S cnt' =>
      cur ← zipEntry zl prevoffset;
      let rawlen := u32 (headersize cur + len cur) in
      zl ← buf_move zl (p - (rawlen - prevrawlensize cur)) (prevoffset + prevrawlensize cur) (rawlen - prevrawlensize cur);
      let p := p - (rawlen + delta) in
      '(zl, _) ← (if prevrawlen cur =? 0 then zipStorePrevEntryLength zl p firstentrylen
                  else zipStorePrevEntryLength zl p (u32 (prevrawlen cur + delta)));
      cascade_shift cnt' zl p (prevoffset - prevrawlen cur) firstentrylen
  end.

Definition __ziplistCascadeUpdate (zl : list byte) (p : Z) : option (list byte) :=
  curlen ← ZIPLIST_BYTES zl;
  tail ← ZIPLIST_TAIL_OFFSET zl;
  b ← byte_at zl p;
  if b =? ZIP_END then Some zl
  else
    cur ← zipEntry zl p;
    let firstentrylen := u32 (headersize cur + len cur) in
    c ← cascade_scan (length zl) curlen
          (mk_cascade zl (p + firstentrylen) firstentrylen (zipStorePrevEntryLength_NULL firstentrylen) p 0 0);
    let zl := c_zl c in
    if c_extra c =? 0 then Some zl
    else
      zl ← (if tail =? c_prevoffset c then
              if negb (c_extra c - delta =? 0) then set_TAIL_OFFSET zl (tail + c_extra c - delta) else Some zl
            else set_TAIL_OFFSET zl (tail + c_extra c));
      let offset := c_p c in
      zl ← ziplistResize zl (u32 (curlen + c_extra c));
      zl ← buf_move zl (offset + c_extra c) offset (curlen - offset - 1);
      cascade_shift (c_cnt c) zl (offset + c_extra c) (c_prevoffset c) firstentrylen.

(** ** Deletion *)

(** [for (i = 0; p[0] != ZIP_END && i < num; i++)]: the end and the number of
    entries passed. *)
Fixpoint delete_scan (fuel : nat) (zl : list byte) (zlbytes p num deleted : Z) : option (Z * Z) :=
  b ← byte_at zl p;
  if negb (b =? ZIP_END) && (deleted <? num) then
    match fuel with
    | O => None
    | S fuel' =>
        n ← zipRawEntryLengthSafe zl zlbytes p;
        delete_scan fuel' zl zlbytes (p + n) num (deleted + 1)
    end
  else Some (p, deleted).

Definition __ziplistDelete (zl : list byte) (p num : Z) : option (list byte) :=
  zlbytes ← ZIPLIST_BYTES zl;
  first ← zipEntry zl p;
  let firstp := p in
  '(p, deleted) ← delete_scan (length zl) zl zlbytes p num 0;
  let totlen := u32 (p - firstp) in
  if 0 <? totlen then
    b ← byte_at zl p;
    '(zl, nextdiff, set_tail) ←
      (if negb (b =? ZIP_END) then
         nextdiff ← zipPrevLenByteDiff zl p (prevrawlen first);
         let p := p - nextdiff in
         if (p <? firstp) || (zlbytes - 1 <=? p) then None
         else
           '(zl, _) ← zipStorePrevEntryLength zl p (prevrawlen first);
           tail ← ZIPLIST_TAIL_OFFSET zl;
           let set_tail := u32 (tail - totlen) in
           e ← assert_entry zl zlbytes p true;
           b ← byte_at zl (p + headersize e + len e);
           let set_tail := if negb (b =? ZIP_END) then u32 (set_tail + nextdiff) else set_tail in
           zl ← buf_move zl firstp p (zlbytes - p - 1);
           Some (zl, nextdiff, set_tail)
       else Some (zl, 0, u32 (firstp - prevrawlen first)));
    let zlbytes := u64 (zlbytes - u32 (totlen - nextdiff)) in
    zl ← ziplistResize zl (u32 zlbytes);
    zl ← ZIPLIST_INCR_LENGTH zl (- deleted);
    if zlbytes - ZIPLIST_END_SIZE <? set_tail then None
    else
      zl ← set_TAIL_OFFSET zl set_tail;
      if negb (nextdiff =? 0) then __ziplistCascadeUpdate zl firstp else Some zl
  else Some zl.

(** ** Insertion *)

(** The encoding (0 for a string), the number and the bytes of the payload. *)
Definition entry_payload (s : list byte) : option (Z * Z * Z) :=
  match zipTryEncoding s with
  | Some (value, enc) => n ← zipIntSize enc; Some (enc, value, n)
  | None => Some (0, 123456789, zlen s)
  end.

(** Write an encoding and its payload. *)
Definition write_payload (zl : list byte) (p enc value : Z) (s : list byte) : option (list byte) :=
  '(zl, n) ← zipStoreEntryEncoding zl p enc (zlen s);
  let p := p + n in
  if ZIP_IS_STR enc then buf_write zl p s else zipSaveInteger zl p value enc.

(** The length of the entry before [p]. *)
Definition prevlen_at (zl : list byte) (curlen p : Z) : option Z :=
  b ← byte_at zl p;
  if negb (b =? ZIP_END) then '(_, prevlen) ← ZIP_DECODE_PREVLEN zl p; Some prevlen
  else
    ptail ← ZIPLIST_TAIL_OFFSET zl;
    b ← byte_at zl ptail;
    if negb (b =? ZIP_END) then zipRawEntryLengthSafe zl curlen ptail else Some 0.

Definition __ziplistInsert (zl : list byte) (p : Z) (s : list byte) : option (list byte) :=
  curlen ← ZIPLIST_BYTES zl;
  prevlen ← prevlen_at zl curlen p;
  '(enc, value, reqlen) ← entry_payload s;
  let reqlen := reqlen + zipStorePrevEntryLength_NULL prevlen in
  let reqlen := reqlen + zipStoreEntryEncoding_NULL enc (zlen s) in
  b ← byte_at zl p;
  nextdiff ← (if negb (b =? ZIP_END) then zipPrevLenByteDiff zl p (u32 reqlen) else Some 0);
  let forcelarge := (nextdiff =? -4) && (reqlen <? 4) in
  let nextdiff := if forcelarge then 0 else nextdiff in
  let newlen := u64 (curlen + reqlen + nextdiff) in
  zl ← ziplistResize zl (u32 newlen);
  b ← byte_at zl p;
  zl ← (if negb (b =? ZIP_END) then
          zl ← buf_move zl (p + reqlen) (p - nextdiff) (curlen - p - 1 + nextdiff);
          '(zl, _) ← (if forcelarge then zipStorePrevEntryLengthLarge zl (p + reqlen) (u32 reqlen)
                      else zipStorePrevEntryLength zl (p + reqlen) (u32 reqlen));
          tail ← ZIPLIST_TAIL_OFFSET zl;
          zl ← set_TAIL_OFFSET zl (tail + reqlen);
          e ← assert_entry zl newlen (p + reqlen) true;
          b ← byte_at zl (p + (reqlen + headersize e + len e));
          if negb (b =? ZIP_END) then
            tail ← ZIPLIST_TAIL_OFFSET zl;
            set_TAIL_OFFSET zl (tail + nextdiff)
          else Some zl
        else set_TAIL_OFFSET zl p);
  zl ← (if negb (nextdiff =? 0) then __ziplistCascadeUpdate zl (p + reqlen) else Some zl);
  '(zl, n) ← zipStorePrevEntryLength zl p prevlen;
  zl ← write_payload zl (p + n) enc value s;
  ZIPLIST_INCR_LENGTH zl 1.

Definition ziplistInsert (zl : list byte) (p : Z) (s : list byte) : option (list byte) := __ziplistInsert zl p s.

(** [where] is the head or the tail. *)
Definition ziplistPush (zl : list byte) (s : list byte) (at_head : bool) : option (list byte) :=
  n ← ZIPLIST_BYTES zl;
  __ziplistInsert zl (if at_head then ZIPLIST_HEADER_SIZE else n - 1) s.

(** ** Merging

    Two different, existing lists; the block of the one with more entries is
    kept and grows. *)
Definition ziplistMerge (first second : list byte) : option (list byte) :=
  first_bytes ← ZIPLIST_BYTES first;
  first_len ← ZIPLIST_LENGTH first;
  second_bytes ← ZIPLIST_BYTES second;
  second_len ← ZIPLIST_LENGTH second;
  let append := second_len <=? first_len in
  let '(target, target_bytes, source, source_bytes) :=
    if append then (first, first_bytes, second, second_bytes) else (second, second_bytes, first, first_bytes) in
  let zlbytes := u64 (first_bytes + second_bytes - ZIPLIST_HEADER_SIZE - ZIPLIST_END_SIZE) in
  let zllength := first_len + second_len in
  let zllength := if zllength <? UINT16_MAX then zllength else UINT16_MAX in
  first_offset ← ZIPLIST_TAIL_OFFSET first;
  second_offset ← ZIPLIST_TAIL_OFFSET second;
  let target := realloc fill target zlbytes in
  target ← (if append then
              bs ← buf_read source ZIPLIST_HEADER_SIZE (source_bytes - ZIPLIST_HEADER_SIZE);
              buf_write target (target_bytes - ZIPLIST_END_SIZE) bs
            else
              target ← buf_move target (source_bytes - ZIPLIST_END_SIZE) ZIPLIST_HEADER_SIZE (target_bytes - ZIPLIST_HEADER_SIZE);
              bs ← buf_read source 0 (source_bytes - ZIPLIST_END_SIZE);
              buf_write target 0 bs);
  target ← set_BYTES target (u32 zlbytes);
  target ← set_LENGTH target zllength;
  target ← set_TAIL_OFFSET target ((first_bytes - ZIPLIST_END_SIZE) + (second_offset - ZIPLIST_HEADER_SIZE));
  __ziplistCascadeUpdate target first_offset.

(** ** Walking *)

(** [while (prevlen > 0 && index--)]: where the loop ends and what is left of
    [index]. *)
Fixpoint index_backward (fuel : nat) (zl : list byte) (zlbytes p prevlen index : Z) : option (Z * Z) :=
  if 0 <? prevlen then
    if index =? 0 then Some (p, index - 1)
    else
      match fuel with
      | O => None
      | S fuel' =>
          let p := p - prevlen in
          if (p <? ZIPLIST_HEADER_SIZE) || (zlbytes - ZIPLIST_END_SIZE <=? p) then None
          else
            '(_, prevlen) ← ZIP_DECODE_PREVLEN zl p;
            index_backward fuel' zl zlbytes p prevlen (index - 1)
      end
  else Some (p, index).

(** [while (index--)] *)
Fixpoint index_forward (fuel : nat) (zl : list byte) (zlbytes p index : Z) : option (Z * Z) :=
  if index =? 0 then Some (p, index - 1)
  else
    match fuel with
    | O => None
    | S fuel' =>
        n ← zipRawEntryLengthSafe zl zlbytes p;
        let p := p + n in
        b ← byte_at zl p;
        if b =? ZIP_END then Some (p, index - 1) else index_forward fuel' zl zlbytes p (index - 1)
    end.

(** The negation of the least [int] is undefined. *)
Definition ziplistIndex (zl : list byte) (index : Z) : option (option Z) :=
  zlbytes ← ZIPLIST_BYTES zl;
  '(p, index) ←
    (if index =? INT32_MIN then None
     else if index <? 0 then
       let index := - index - 1 in
       p ← ZIPLIST_TAIL_OFFSET zl;
       b ← byte_at zl p;
       if negb (b =? ZIP_END) then
         '(_, prevlen) ← ZIP_DECODE_PREVLEN zl p;
         index_backward (length zl) zl zlbytes p prevlen index
       else Some (p, index)
     else index_forward (length zl) zl zlbytes ZIPLIST_HEADER_SIZE index);
  b ← byte_at zl p;
  if (b =? ZIP_END) || (0 <? index) then Some None
  else
    _ ← zipAssertValidEntry zl zlbytes p;
    Some (Some p).

Definition ziplistNext (zl : list byte) (p : Z) : option (option Z) :=
  zlbytes ← ZIPLIST_BYTES zl;
  b ← byte_at zl p;
  if b =? ZIP_END then Some None
  else
    n ← zipRawEntryLength zl p;
    let p := p + n in
    b ← byte_at zl p;
    if b =? ZIP_END then Some None
    else
      _ ← zipAssertValidEntry zl zlbytes p;
      Some (Some p).

Definition ziplistPrev (zl : list byte) (p : Z) : option (option Z) :=
  b ← byte_at zl p;
  if b =? ZIP_END then
    p ← ZIPLIST_TAIL_OFFSET zl;
    b ← byte_at zl p;
    Some (if b =? ZIP_END then None else Some p)
  else if p =? ZIPLIST_HEADER_SIZE then Some None
  else
    '(_, prevlen) ← ZIP_DECODE_PREVLEN zl p;
    if 0 <? prevlen then
      let p := p - prevlen in
      zlbytes ← ZIPLIST_BYTES zl;
      _ ← zipAssertValidEntry zl zlbytes p;
      Some (Some p)
    else None.

(** ** Values *)

Inductive zvalue := ZStr (s : list byte) | ZInt (v : Z).

(** [Some None] is the result 0. *)
Definition ziplistGet (zl : list byte) (p : option Z) : option (option zvalue) :=
  match p with
  | None => Some None
  | Some p =>
      b ← byte_at zl p;
      if b =? ZIP_END then Some None
      else
        e ← zipEntry zl p;
        if ZIP_IS_STR (encoding e) then s ← buf_read zl (p + headersize e) (len e); Some (Some (ZStr s))
        else v ← zipLoadInteger zl (p + headersize e) (encoding e); Some (Some (ZInt v))
  end.

Definition ziplistDelete (zl : list byte) (p : Z) : option (list byte) := __ziplistDelete zl p 1.

Definition ziplistDeleteRange (zl : list byte) (index num : Z) : option (list byte) :=
  p ← ziplistIndex zl index;
  match p with None => Some zl | Some p => __ziplistDelete zl p num end.

Definition ziplistReplace (zl : list byte) (p : Z) (s : list byte) : option (list byte) :=
  e ← zipEntry zl p;
  '(enc, value, reqlen) ← entry_payload s;
  let reqlen := u32 (reqlen + zipStoreEntryEncoding_NULL enc (zlen s)) in
  if reqlen =? u32 (lensize e + len e) then write_payload zl (p + prevrawlensize e) enc value s
  else
    zl ← ziplistDelete zl p;
    ziplistInsert zl p s.

Definition ziplistCompare (zl : list byte) (p : Z) (s : list byte) : option bool :=
  b ← byte_at zl p;
  if b =? ZIP_END then Some false
  else
    e ← zipEntry zl p;
    if ZIP_IS_STR (encoding e) then
      if len e =? zlen s then
        t ← buf_read zl (p + headersize e) (zlen s); Some (bool_decide (t = s))
      else Some false
    else
      match zipTryEncoding s with
      | Some (sval, _) => zval ← zipLoadInteger zl (p + headersize e) (encoding e); Some (zval =? sval)
      | None => Some false
      end.

(** [venc] is 0 until the searched value has been tried as an integer. *)
Fixpoint find_loop (fuel : nat) (zl : list byte) (zlbytes p : Z) (vstr : list byte) (skip skipcnt venc vll : Z) : option (option Z) :=
  b ← byte_at zl p;
  if b =? ZIP_END then Some None
  else
    match fuel with
    | O => None
    | S fuel' =>
        e ← assert_entry zl zlbytes p true;
        let q := p + prevrawlensize e + lensize e in
        if skipcnt =? 0 then
          if ZIP_IS_STR (encoding e) then
            same ← (if len e =? zlen vstr then t ← buf_read zl q (zlen vstr); Some (bool_decide (t = vstr)) else Some false);
            if (same : bool) then Some (Some p)
            else find_loop fuel' zl zlbytes (q + len e) vstr skip skip venc vll
          else
            let '(venc, vll) :=
              if venc =? 0 then match zipTryEncoding vstr with Some (v, enc) => (enc, v) | None => (255, vll) end
              else (venc, vll) in
            if venc =? 0 then None
            else
              same ← (if negb (venc =? 255) then ll ← zipLoadInteger zl q (encoding e); Some (ll =? vll) else Some false);
              if (same : bool) then Some (Some p)
              else find_loop fuel' zl zlbytes (q + len e) vstr skip skip venc vll
        else find_loop fuel' zl zlbytes (q + len e) vstr skip (skipcnt - 1) venc vll
    end.

Definition ziplistFind (zl : list byte) (p : Z) (vstr : list byte) (skip : Z) : option (option Z) :=
  zlbytes ← ZIPLIST_BYTES zl;
  find_loop (length zl) zl zlbytes p vstr (i32 skip) 0 0 0.

(** The loop to the end byte, counting entries. *)
Fixpoint count_entries (fuel : nat) (zl : list byte) (zlbytes p n : Z) : option Z :=
  b ← byte_at zl p;
  if b =? ZIP_END then Some n
  else
    match fuel with
    | O => None
    | S fuel' => k ← zipRawEntryLengthSafe zl zlbytes p; count_entries fuel' zl zlbytes (p + k) (u32 (n + 1))
    end.

(** The length, and the list with the length stored if it fits. *)
Definition ziplistLen (zl : list byte) : option (Z * list byte) :=
  n ← ZIPLIST_LENGTH zl;
  if n <? UINT16_MAX then Some (n, zl)
  else
    zlbytes ← ZIPLIST_BYTES zl;
    n ← count_entries (length zl) zl zlbytes ZIPLIST_HEADER_SIZE 0;
    if n <? UINT16_MAX then zl ← set_LENGTH zl n; Some (n, zl) else Some (n, zl).

Definition ziplistBlobLen (zl : list byte) : option Z := ZIPLIST_BYTES zl.

(** ** Validation *)

(** The loop over the entries: [None] inside is the result 0; otherwise the last
    entry and the number of entries. [entry_cb] is the caller's check, if any. *)
Fixpoint validate_loop (fuel : nat) (entry_cb : option (Z -> bool)) (zl : list byte) (size p : Z) (prev : option Z)
    (prev_raw_size count : Z) : option (option (option Z * Z)) :=
  b ← byte_at zl p;
  if b =? ZIP_END then Some (Some (prev, count))
  else
    match fuel with
    | O => None
    | S fuel' =>
        r ← zipEntrySafe zl size p true;
        match r with
        | None => Some None
        | Some e =>
            if negb (prevrawlen e =? prev_raw_size) then Some None
            else if match entry_cb with Some cb => negb (cb p) | None => false end then Some None
            else
              let n := u32 (headersize e + len e) in
              validate_loop fuel' entry_cb zl size (p + n) (Some p) n (u32 (count + 1))
        end
    end.

Definition ziplistValidateIntegrity (zl : list byte) (size : Z) (deep : bool) (entry_cb : option (Z -> bool)) : option bool :=
  if size <? ZIPLIST_HEADER_SIZE + ZIPLIST_END_SIZE then Some false
  else
    bytes ← ZIPLIST_BYTES zl;
    if negb (bytes =? size) then Some false
    else
      b ← byte_at zl (size - ZIPLIST_END_SIZE);
      if negb (b =? ZIP_END) then Some false
      else
        tail ← ZIPLIST_TAIL_OFFSET zl;
        if size - ZIPLIST_END_SIZE <? tail then Some false
        else if negb deep then Some true
        else
          r ← validate_loop (length zl) entry_cb zl size ZIPLIST_HEADER_SIZE None 0 0;
          match r with
          | None => Some false
          | Some (prev, count) =>
              if negb (bool_decide (prev = Some tail)) then Some false
              else
                header_count ← ZIPLIST_LENGTH zl;
                Some (negb (negb (header_count =? UINT16_MAX) && negb (count =? header_count)))
          end.

(** ** Random pairs *)

(** [r] is the result of [rand]; the result are the key and, if asked for, the
    value. *)
Definition ziplistRandomPair (zl : list byte) (total_count r : Z) (want_val : bool) : option (zvalue * option zvalue) :=
  if total_count =? 0 then None
  else
    p ← ziplistIndex zl (i32 ((r mod total_count) * 2));
    key ← ziplistGet zl p;
    key ← key;
    if want_val then
      p ← p;
      p ← ziplistNext zl p;
      val ← ziplistGet zl p;
      val ← val;
      Some (key, Some val)
    else Some (key, None).

End Ziplist.
