(* ===== verification/ZiplistFacts.v ===== *)
(** * Ziplists: entries and headers

    The bytes of an entry are those of the length of the entry before it, in 1
    or 5 bytes, and its body, the encoding with the payload. Everything the
    code reads of an entry is a function of these. *)

From stdpp Require Import base list option.
From Stdlib Require Import ZArith Lia Bool.
From S2P Require Import Prelude Endian Util UtilFacts BitopsFacts Ziplist.

Local Open Scope Z_scope.

Lemma lor_bytes b1 b2 b3 b4 : is_byte b1 -> is_byte b2 -> is_byte b3 -> is_byte b4 ->
  Z.lor (Z.lor (Z.lor (Z.shiftl b4 24) (Z.shiftl b3 16)) (Z.shiftl b2 8)) b1 = le_join [b1; b2; b3; b4].
Proof.
  intros H1 H2 H3 H4.
  replace (Z.shiftl b4 24) with (Z.shiftl (b4 * 256) 16) by (rewrite !Z.shiftl_mul_pow2 by lia; lia).
  rewrite <- Z.shiftl_lor, lor_byte by done.
  replace (Z.shiftl (b4 * 256 + b3) 16) with (Z.shiftl ((b4 * 256 + b3) * 256) 8) by (rewrite !Z.shiftl_mul_pow2 by lia; lia).
  rewrite <- Z.shiftl_lor, lor_byte by done.
  rewrite Z.shiftl_mul_pow2 by lia. change (2 ^ 8) with 256. rewrite lor_byte by done. cbn [le_join]. lia.
Qed.

(** ** Lengths of previous entries *)

Definition psize (w : bool) : Z := if w then 5 else 1.

Definition prev_bytes (w : bool) (prev : Z) : list byte := if w then ZIP_BIG_PREVLEN :: le_split 4 prev else [prev].

(** [prev] fits the bytes chosen. *)
Definition prev_ok (w : bool) (prev : Z) : Prop := 0 <= prev < 2 ^ 32 /\ (w = false -> prev < ZIP_BIG_PREVLEN).

Lemma prev_bytes_zlen w prev : zlen (prev_bytes w prev) = psize w.
Proof. by destruct w. Qed.
#[local] Hint Rewrite prev_bytes_zlen : zlen.

Lemma decode_prevlensize a w prev c : prev_ok w prev ->
  ZIP_DECODE_PREVLENSIZE (a ++ prev_bytes w prev ++ c) (zlen a) = Some (psize w).
Proof.
  intros [Hr Hw]. unfold ZIP_DECODE_PREVLENSIZE, ZIP_BIG_PREVLEN in *. destruct w; cbn [prev_bytes app]; rewrite byte_at_app; cbn [mbind option_bind psize].
  - done.
  - by rewrite (proj2 (Z.ltb_lt _ _)) by (by apply Hw).
Qed.

Lemma decode_prevlen a w prev c : prev_ok w prev ->
  ZIP_DECODE_PREVLEN (a ++ prev_bytes w prev ++ c) (zlen a) = Some (psize w, prev).
Proof.
  intros Hp. unfold ZIP_DECODE_PREVLEN. rewrite decode_prevlensize by done. cbn [mbind option_bind]. destruct w; cbn [psize Z.eqb Pos.eqb].
  - set (pb := prev_bytes true prev). assert (forall i x, byte_at pb i = Some x -> byte_at (a ++ pb ++ c) (zlen a + i) = Some x) as Hb by (intros; by apply byte_at_local).
    pose proof (le_split_bytes 4 prev) as Hs. pose proof (le_join_split 4 prev) as Hj.
    unfold pb in *. cbn [prev_bytes le_split] in *. set (b1 := prev mod 256) in *. set (b2 := (prev / 256) mod 256) in *.
    set (b3 := (prev / 256 / 256) mod 256) in *. set (b4 := (prev / 256 / 256 / 256) mod 256) in *.
    rewrite (Hb 1 b1 eq_refl), (Hb 2 b2 eq_refl), (Hb 3 b3 eq_refl), (Hb 4 b4 eq_refl). cbn [mbind option_bind]. apply Forall_cons_1 in Hs as [H1 Hs]. apply Forall_cons_1 in Hs as [H2 Hs]. apply Forall_cons_1 in Hs as [H3 Hs]. apply Forall_cons_1 in Hs as [H4 _].
    rewrite lor_bytes by done. rewrite Hj. do 2 f_equal. destruct Hp as [Hp _]. change (256 ^ Z.of_nat 4) with (2 ^ 32). rewrite Z.mod_small by lia. by apply u32_small.
  - cbn [prev_bytes app]. by rewrite byte_at_app.
Qed.

(** ** Bodies *)

(** The encoding, the size of the encoding and the size of the payload. *)
Definition body_info (b : list byte) : option (Z * Z * Z) :=
  enc ← ZIP_ENTRY_ENCODING b 0;
  '(ls, ln) ← ZIP_DECODE_LENGTH b 0 enc;
  if (ls =? 0) || negb (ls + ln =? zlen b) then None else Some (enc, ls, ln).

Lemma encoding_local a b c enc : ZIP_ENTRY_ENCODING b 0 = Some enc -> ZIP_ENTRY_ENCODING (a ++ b ++ c) (zlen a) = Some enc.
Proof.
  unfold ZIP_ENTRY_ENCODING. destruct (byte_at b 0) as [x|] eqn:E; [|done].
  apply (byte_at_local a b c) in E. rewrite Z.add_0_r in E. by rewrite E.
Qed.

Lemma decode_length_local a b c enc r : ZIP_DECODE_LENGTH b 0 enc = Some r -> ZIP_DECODE_LENGTH (a ++ b ++ c) (zlen a) enc = Some r.
Proof.
  assert (forall i x, byte_at b i = Some x -> byte_at (a ++ b ++ c) (zlen a + i) = Some x) as Hl by (intros; by apply byte_at_local).
  pose proof (Hl 0) as H0. rewrite Z.add_0_r in H0. unfold ZIP_DECODE_LENGTH. intros E.
  change (0 + 1) with 1 in E. change (0 + 2) with 2 in E. change (0 + 3) with 3 in E. change (0 + 4) with 4 in E.
  repeat match type of E with
  | (if ?c then _ else _) = _ => destruct c
  | (_ ← byte_at ?z ?p; _) = _ => let H := fresh "Hb" in destruct (byte_at z p) eqn:H; cbn [mbind option_bind] in E; [|discriminate E]
  end; try done;
  repeat match goal with
  | H : byte_at b 0 = Some _ |- _ => rewrite (H0 _ eq_refl); clear H
  | H : byte_at b _ = Some _ |- _ => rewrite (Hl _ _ H); clear H
  end; cbn [mbind option_bind]; exact E.
Qed.

(** The size table agrees with the decoder. *)
Lemma encoding_len_size zl p enc ls ln : ZIP_DECODE_LENGTH zl p enc = Some (ls, ln) -> ls <> 0 -> zipEncodingLenSize enc = ls.
Proof.
  unfold ZIP_DECODE_LENGTH, zipEncodingLenSize, is_imm, ZIP_STR_MASK, ZIP_STR_06B, ZIP_STR_14B, ZIP_STR_32B, ZIP_INT_8B, ZIP_INT_16B, ZIP_INT_24B, ZIP_INT_32B, ZIP_INT_64B,
    ZIP_INT_IMM_MIN, ZIP_INT_IMM_MAX. intros E Hl.
  repeat match type of E with
  | (if ?c then _ else _) = _ => let H := fresh "H" in destruct c eqn:H
  | (_ ← byte_at ?z ?p; _) = _ => destruct (byte_at z p); cbn [mbind option_bind] in E; [|discriminate E]
  end; injection E as <- <-; try done; bool_to_prop; repeat case_if; lia.
Qed.

Lemma decode_length_nonneg zl p enc ls ln : Forall is_byte zl -> ZIP_DECODE_LENGTH zl p enc = Some (ls, ln) -> 0 <= ln < 2 ^ 32 /\ 0 <= ls <= 5.
Proof.
  intros Hb. assert (forall i x, byte_at zl i = Some x -> is_byte x) as Hx.
  { intros i x E. unfold byte_at in E. case_if_in E; [|done]. rewrite Forall_lookup in Hb. by eapply Hb. }
  unfold ZIP_DECODE_LENGTH. intros E.
  repeat match type of E with
  | (if ?c then _ else _) = _ => destruct c
  | (_ ← byte_at ?z ?p; _) = _ => let H := fresh "Hb" in destruct (byte_at z p) eqn:H; cbn [mbind option_bind] in E; [apply Hx in H|discriminate E]
  end; injection E as <- <-; try lia; unfold is_byte in *.
  - pose proof (land_range 8 z 0x3f ltac:(lia) ltac:(lia)). lia.
  - pose proof (land_range 8 z 0x3f ltac:(lia) ltac:(lia)). rewrite Z.shiftl_mul_pow2 by lia. change (2 ^ 8) with 256. rewrite lor_byte by done. lia.
  - split; [|lia]. by apply wrap_range.
Qed.

(** ** Entries *)

Record zent := mk_zent {
  wide : bool;
  body : list byte;
}.

Definition elen (e : zent) : Z := psize (wide e) + zlen (body e).

Definition ent_bytes (prev : Z) (e : zent) : list byte := prev_bytes (wide e) prev ++ body e.

Definition ent_ok (e : zent) : Prop := Forall is_byte (body e) /\ is_Some (body_info (body e)).

(** What [zipEntry] finds. *)
Definition entry_of (prev : Z) (e : zent) : zlentry :=
  match body_info (body e) with
  | Some (enc, ls, ln) => mk_zlentry (psize (wide e)) prev ls ln (psize (wide e) + ls) enc
  | None => mk_zlentry 0 0 0 0 0 0
  end.

Lemma ent_bytes_zlen prev e : zlen (ent_bytes prev e) = elen e.
Proof. unfold ent_bytes, elen. zlen. Qed.
#[local] Hint Rewrite ent_bytes_zlen : zlen.

(** The parts of a body. *)
Lemma ent_ok_info e : ent_ok e -> exists enc ls ln, body_info (body e) = Some (enc, ls, ln) /\
  ZIP_ENTRY_ENCODING (body e) 0 = Some enc /\ ZIP_DECODE_LENGTH (body e) 0 enc = Some (ls, ln) /\
  0 < ls <= 5 /\ 0 <= ln < 2 ^ 32 /\ ls + ln = zlen (body e).
Proof.
  intros [Hb [[[enc ls] ln] Hi]]. exists enc, ls, ln. split; [done|]. unfold body_info in Hi.
  destruct (ZIP_ENTRY_ENCODING (body e) 0) as [enc'|] eqn:E1; [|done]. cbn [mbind option_bind] in Hi.
  destruct (ZIP_DECODE_LENGTH (body e) 0 enc') as [[ls' ln']|] eqn:E2; [|done]. cbn [mbind option_bind] in Hi.
  destruct ((ls' =? 0) || _) eqn:Ec; [done|]. injection Hi as <- <- <-. bool_to_prop.
  pose proof (decode_length_nonneg _ _ _ _ _ Hb E2). split_and!; try done; lia.
Qed.

Lemma elen_pos e : ent_ok e -> 2 <= elen e.
Proof. intros He. destruct (ent_ok_info e He) as (enc & ls & ln & _ & _ & _ & ? & ? & ?). unfold elen, psize. destruct (wide e); lia. Qed.

Lemma zipEntry_at a prev e c : ent_ok e -> prev_ok (wide e) prev -> zipEntry (a ++ ent_bytes prev e ++ c) (zlen a) = Some (entry_of prev e).
Proof.
  intros He Hp. destruct (ent_ok_info e He) as (enc & ls & ln & Hi & E1 & E2 & Hls & Hln & Hz).
  unfold zipEntry, ent_bytes, entry_of. rewrite <- (app_assoc (prev_bytes _ _)), decode_prevlen by done. cbn [mbind option_bind].
  rewrite (app_assoc a). replace (zlen a + psize (wide e)) with (zlen (a ++ prev_bytes (wide e) prev)) by zlen.
  rewrite (encoding_local _ _ _ _ E1). cbn [mbind option_bind]. rewrite (decode_length_local _ _ _ _ _ E2). cbn [mbind option_bind].
  rewrite (proj2 (Z.eqb_neq ls 0)), Hi by lia. do 2 f_equal. apply u32_small. unfold psize. destruct (wide e); lia.
Qed.

Lemma entry_of_fields prev e : ent_ok e ->
  prevrawlensize (entry_of prev e) = psize (wide e) /\ prevrawlen (entry_of prev e) = prev /\
  headersize (entry_of prev e) + len (entry_of prev e) = elen e /\
  headersize (entry_of prev e) = psize (wide e) + lensize (entry_of prev e) /\ 0 < lensize (entry_of prev e).
Proof.
  intros He. destruct (ent_ok_info e He) as (enc & ls & ln & Hi & _ & _ & ? & ? & Hz). unfold entry_of, elen. rewrite Hi. cbn. split_and!; lia.
Qed.

Lemma zipEntrySafe_at a prev e c zlbytes validate :
  ent_ok e -> prev_ok (wide e) prev -> ZIPLIST_HEADER_SIZE <= zlen a -> zlen a + elen e < zlbytes ->
  (validate = true -> ZIPLIST_HEADER_SIZE <= zlen a - prev) ->
  assert_entry (a ++ ent_bytes prev e ++ c) zlbytes (zlen a) validate = Some (entry_of prev e).
Proof.
  intros He Hp Ha Hz Hv. destruct (ent_ok_info e He) as (enc & ls & ln & Hi & E1 & E2 & Hls & Hln & Hb).
  assert (zlen a + psize (wide e) = zlen (a ++ prev_bytes (wide e) prev)) as Ez by zlen.
  assert (u32 (psize (wide e) + ls) = psize (wide e) + ls) as Eu by (apply u32_small; unfold psize; destruct (wide e); lia).
  unfold elen in Hz. assert (1 <= psize (wide e) <= 5) as Hps by (unfold psize; destruct (wide e); lia).
  unfold assert_entry, zipEntrySafe, ent_bytes, entry_of. rewrite <- (app_assoc (prev_bytes _ _)). rewrite Hi. unfold ZIPLIST_END_SIZE.
  pose proof (encoding_len_size _ _ _ _ _ E2 ltac:(lia)) as Els.
  destruct Hp as [Hr Hw]. assert (forall q, ZIPLIST_HEADER_SIZE <= q <= zlbytes - 1 -> (q <? ZIPLIST_HEADER_SIZE) || (zlbytes - 1 <? q) = false) as Hin by (intros; apply orb_false_iff; lia).
  assert (validate && ((zlen a - prev <? ZIPLIST_HEADER_SIZE) || (zlbytes - 1 <? zlen a - prev)) = false) as Hva.
  { destruct validate; [|done]. apply Hin. specialize (Hv eq_refl). unfold ZIPLIST_HEADER_SIZE in *. lia. }
  rewrite decode_prevlen, decode_prevlensize by done. cbn [mbind option_bind]. rewrite Ez, (app_assoc a).
  rewrite (encoding_local _ _ _ _ E1). cbn [mbind option_bind]. rewrite (decode_length_local _ _ _ _ _ E2). cbn [mbind option_bind].
  rewrite Eu, <- Ez, (proj2 (Z.eqb_neq ls 0)) by lia. rewrite (Hin (zlen a + (psize (wide e) + ls) + ln)), Hva by lia.
  rewrite (Hin (zlen a)), (Hin (zlen a + psize (wide e))) by lia.
  rewrite Els. unfold ZIP_ENCODING_SIZE_INVALID. rewrite (proj2 (Z.eqb_neq ls 255)) by lia. rewrite (Hin (zlen a + psize (wide e) + ls)) by lia. by destruct ((ZIPLIST_HEADER_SIZE <=? zlen a) && (zlen a + 10 <? zlbytes - 1)).
Qed.

Lemma assert_entry_at a prev e c zlbytes validate p :
  ent_ok e -> prev_ok (wide e) prev -> p = zlen a -> ZIPLIST_HEADER_SIZE <= p -> p + elen e < zlbytes -> (validate = true -> ZIPLIST_HEADER_SIZE <= p - prev) ->
  assert_entry (a ++ ent_bytes prev e ++ c) zlbytes p validate = Some (entry_of prev e).
Proof. intros He Hp ->. by apply zipEntrySafe_at. Qed.

(** ** The header *)

Definition hdr (sz tl cnt : Z) : list byte := le_split 4 sz ++ le_split 4 tl ++ le_split 2 cnt.

Lemma hdr_zlen sz tl cnt : zlen (hdr sz tl cnt) = 10.
Proof. done. Qed.
#[export] Hint Rewrite hdr_zlen prev_bytes_zlen ent_bytes_zlen : zlen.

Lemma buf_read_head b c n : n = zlen b -> buf_read (b ++ c) 0 n = Some b.
Proof. by apply (buf_read_app []). Qed.

Lemma buf_write_head b b' c : length b' = length b -> buf_write (b ++ c) 0 b' = Some (b' ++ c).
Proof. by apply (buf_write_app []). Qed.

Lemma buf_write_last a x y p : p = zlen a -> buf_write (a ++ [x]) p [y] = Some (a ++ [y]).
Proof. intros ->. by apply (buf_write_app a [x] [y] []). Qed.

Section Facts.
Context `{Host} (fill : nat -> byte).

Lemma get_BYTES sz tl cnt X : 0 <= sz < 2 ^ 32 -> ZIPLIST_BYTES (hdr sz tl cnt ++ X) = Some sz.
Proof.
  intros Hs. unfold ZIPLIST_BYTES, hdr. rewrite <- !app_assoc. rewrite buf_read_head by done. cbn [mbind option_bind].
  rewrite intrev32ifbe_native_load, le_join_split by (apply le_split_bytes || done). f_equal. by apply Z.mod_small.
Qed.

Lemma get_TAIL sz tl cnt X : 0 <= tl < 2 ^ 32 -> ZIPLIST_TAIL_OFFSET (hdr sz tl cnt ++ X) = Some tl.
Proof.
  intros Hs. unfold ZIPLIST_TAIL_OFFSET, hdr. rewrite <- !app_assoc. rewrite (buf_read_app (le_split 4 sz)) by done. cbn [mbind option_bind].
  rewrite intrev32ifbe_native_load, le_join_split by (apply le_split_bytes || done). f_equal. by apply Z.mod_small.
Qed.

Lemma get_LENGTH sz tl cnt X : 0 <= cnt < 2 ^ 16 -> ZIPLIST_LENGTH (hdr sz tl cnt ++ X) = Some cnt.
Proof.
  intros Hs. unfold ZIPLIST_LENGTH, hdr. rewrite <- !app_assoc, (app_assoc (le_split 4 sz)). rewrite (buf_read_app (le_split 4 sz ++ le_split 4 tl)) by done.
  cbn [mbind option_bind]. rewrite intrev16ifbe_native_load, le_join_split by (apply le_split_bytes || done). f_equal. by apply Z.mod_small.
Qed.

Lemma set_BYTES_at sz tl cnt X v : set_BYTES (hdr sz tl cnt ++ X) v = Some (hdr v tl cnt ++ X).
Proof.
  unfold set_BYTES, hdr. rewrite native_store_intrev32ifbe, <- !app_assoc. by rewrite buf_write_head.
Qed.

Lemma set_TAIL_at sz tl cnt X v : set_TAIL_OFFSET (hdr sz tl cnt ++ X) v = Some (hdr sz v cnt ++ X).
Proof.
  unfold set_TAIL_OFFSET, hdr. rewrite native_store_intrev32ifbe, <- !app_assoc. rewrite (buf_write_app (le_split 4 sz)) by done.
  unfold wrap. change (2 ^ 32) with (256 ^ Z.of_nat 4). by rewrite le_split_mod.
Qed.

Lemma set_LENGTH_at sz tl cnt X v : set_LENGTH (hdr sz tl cnt ++ X) v = Some (hdr sz tl v ++ X).
Proof.
  unfold set_LENGTH, hdr. rewrite native_store_intrev16ifbe, <- !app_assoc, !(app_assoc (le_split 4 sz)).
  rewrite (buf_write_app (le_split 4 sz ++ le_split 4 tl)) by done.
  unfold wrap. change (2 ^ 16) with (256 ^ Z.of_nat 2). by rewrite le_split_mod.
Qed.

(** ** Writing the length of a previous entry *)

Lemma store_large a g c v p : zlen g = 5 -> 0 <= v < 2 ^ 32 -> p = zlen a ->
  zipStorePrevEntryLengthLarge (a ++ g ++ c) p v = Some (a ++ prev_bytes true v ++ c, 5).
Proof.
  intros Hg Hv ->. unfold zipStorePrevEntryLengthLarge. destruct g as [|g0 g]; [done|]. rewrite zlen_cons in Hg.
  rewrite (buf_write_app a [g0] [ZIP_BIG_PREVLEN] (g ++ c)) by done. cbn [mbind option_bind]. rewrite memrev32ifbe_store. cbn [mbind option_bind].
  rewrite (app_assoc a [_]). rewrite (buf_write_app (a ++ [ZIP_BIG_PREVLEN]) g (le_split 4 (u32 v)) c).
  - cbn [mbind option_bind]. rewrite u32_small, <- !app_assoc by done. done.
  - zlen.
  - rewrite le_split_length. unfold zlen in Hg. lia.
Qed.

Lemma store_prev a g c v p : zlen g = zipStorePrevEntryLength_NULL v -> 0 <= v < 2 ^ 32 -> p = zlen a ->
  zipStorePrevEntryLength (a ++ g ++ c) p v = Some (a ++ prev_bytes (ZIP_BIG_PREVLEN <=? v) v ++ c, zlen g).
Proof.
  intros Hg Hv ->. unfold zipStorePrevEntryLength, zipStorePrevEntryLength_NULL in *.
  destruct (Z.ltb_spec v ZIP_BIG_PREVLEN), (Z.leb_spec ZIP_BIG_PREVLEN v); try lia.
  - rewrite (buf_write_app a g [v] c); [by rewrite Hg|done|]. unfold zlen in Hg. cbn. lia.
  - rewrite store_large by done. by rewrite Hg.
Qed.

(** ** Resizing *)

Lemma resize_grow sz tl cnt X n : 11 + zlen X <= n ->
  exists J, ziplistResize fill (hdr sz tl cnt ++ X ++ [ZIP_END]) n = Some (hdr n tl cnt ++ X ++ J ++ [ZIP_END]) /\
    zlen J = n - (11 + zlen X) /\ head (J ++ [ZIP_END]) = Some ZIP_END.
Proof.
  intros Hn. unfold ziplistResize. destruct (realloc_grow fill (hdr sz tl cnt ++ X ++ [ZIP_END]) n) as (junk & -> & Hj); [zlen|].
  rewrite <- !app_assoc, set_BYTES_at. cbn [mbind option_bind].
  assert (zlen junk = n - (11 + zlen X)) as Hj' by zlen. clear Hj. destruct junk as [|y junk _] using rev_ind.
  - exists []. rewrite zlen_nil in Hj'. split_and!; [|zlen|done]. rewrite app_nil_r, (app_assoc _ X). rewrite buf_write_last by zlen. by rewrite <- app_assoc.
  - exists ([ZIP_END] ++ junk). split_and!; [|zlen|done]. rewrite !app_assoc. rewrite buf_write_last by zlen. done.
Qed.

Lemma resize_shrink sz tl cnt X Y n : 1 <= zlen Y -> n = 11 + zlen X ->
  ziplistResize fill (hdr sz tl cnt ++ X ++ Y) n = Some (hdr n tl cnt ++ X ++ [ZIP_END]).
Proof.
  intros HY ->. unfold ziplistResize. destruct Y as [|y Y]; [by rewrite zlen_nil in HY|].
  replace (hdr sz tl cnt ++ X ++ y :: Y) with ((hdr sz tl cnt ++ X ++ [y]) ++ Y) by (rewrite <- !app_assoc; done).
  rewrite realloc_shrink by zlen. rewrite set_BYTES_at. cbn [mbind option_bind]. rewrite (app_assoc _ X).
  rewrite buf_write_last by zlen. by rewrite <- app_assoc.
Qed.
End Facts.
