(* ===== verification/ZiplistCascade.v ===== *)
(** * Ziplists: sequences of entries and cascading updates

    The entries of a list, each with the length of the one before it. When an
    entry changes its length the next one must store the new length; if this
    takes 5 bytes and it had 1, it grows too, and so on. The code finds the
    entries that grow in a first loop, makes room, and moves them one by one
    from the last to the first; here its result is the list of entries
    [widen]. *)

From stdpp Require Import base list option.
From Stdlib Require Import ZArith Lia Bool.
From S2P Require Import Prelude Endian Util UtilFacts BitopsFacts Ziplist ZiplistFacts.

Local Open Scope Z_scope.

(** ** Sequences *)

Fixpoint flat (prev : Z) (es : list zent) : list byte :=
  match es with [] => [] | e :: es => ent_bytes prev e ++ flat (elen e) es end.

Fixpoint chain (prev : Z) (es : list zent) : Prop :=
  match es with [] => True | e :: es => ent_ok e /\ prev_ok (wide e) prev /\ chain (elen e) es end.

Fixpoint lastlen (prev : Z) (es : list zent) : Z :=
  match es with [] => prev | e :: es => lastlen (elen e) es end.

Fixpoint esize (es : list zent) : Z :=
  match es with [] => 0 | e :: es => elen e + esize es end.

(** Where the last entry starts. *)
Definition tailoff (es : list zent) : Z := esize (removelast es).

Lemma flat_app prev a b : flat prev (a ++ b) = flat prev a ++ flat (lastlen prev a) b.
Proof. revert prev. induction a as [|e a IH]; intros prev; [done|]. cbn [app flat lastlen]. by rewrite IH, app_assoc. Qed.

Lemma chain_app prev a b : chain prev (a ++ b) <-> chain prev a /\ chain (lastlen prev a) b.
Proof. revert prev. induction a as [|e a IH]; intros prev; cbn [app chain lastlen]; [tauto|]. rewrite IH. tauto. Qed.

Lemma lastlen_app prev a b : lastlen prev (a ++ b) = lastlen (lastlen prev a) b.
Proof. revert prev. induction a as [|e a IH]; intros prev; [done|]. apply IH. Qed.

Lemma esize_app a b : esize (a ++ b) = esize a + esize b.
Proof. induction a as [|e a IH]; cbn [app esize]; lia. Qed.

Lemma flat_zlen prev es : zlen (flat prev es) = esize es.
Proof. revert prev. induction es as [|e es IH]; intros prev; [done|]. cbn [flat esize]. rewrite zlen_app, ent_bytes_zlen, IH. done. Qed.

Lemma esize_nonneg es : 0 <= esize es.
Proof. rewrite <- (flat_zlen 0). apply zlen_nonneg. Qed.

Lemma esize_length prev es : chain prev es -> 2 * zlen es <= esize es.
Proof.
  revert prev. induction es as [|e es IH]; intros prev Hc; [done|]. destruct Hc as (He & _ & Hc). cbn [esize]. rewrite zlen_cons.
  pose proof (elen_pos e He). specialize (IH _ Hc). lia.
Qed.

Lemma tailoff_snoc es e : tailoff (es ++ [e]) = esize es.
Proof. unfold tailoff. by rewrite removelast_last. Qed.

Lemma tailoff_app a b : b <> [] -> tailoff (a ++ b) = esize a + tailoff b.
Proof. intros Hb. unfold tailoff. rewrite removelast_app by done. apply esize_app. Qed.

Lemma tailoff_cons e es : tailoff (e :: es) = match es with [] => 0 | _ => elen e + tailoff es end.
Proof. by destruct es. Qed.

#[export] Hint Rewrite flat_zlen esize_app : zlen.

(** An entry does not start with the end byte. *)
Lemma byte_at_ent a prev e c p : prev_ok (wide e) prev -> p = zlen a -> exists b, byte_at (a ++ ent_bytes prev e ++ c) p = Some b /\ (b =? ZIP_END) = false.
Proof.
  intros [Hr Hw] ->. unfold ent_bytes, prev_bytes. destruct (wide e); cbn [app]; rewrite byte_at_app; eexists; (split; [done|]).
  - done.
  - specialize (Hw eq_refl). unfold ZIP_BIG_PREVLEN, ZIP_END in *. lia.
Qed.

Lemma byte_at_entry a prev e es c p : prev_ok (wide e) prev -> p = zlen a -> exists b, byte_at (a ++ flat prev (e :: es) ++ c) p = Some b /\ (b =? ZIP_END) = false.
Proof. intros Hp ->. cbn [flat]. rewrite <- app_assoc. by apply byte_at_ent. Qed.

Lemma chain_fuel prev es a c : chain prev es -> (length es <= length (a ++ flat prev es ++ c))%nat.
Proof.
  intros Hc. pose proof (esize_length prev es Hc) as Hl. rewrite <- (flat_zlen prev) in Hl. rewrite !length_app. unfold zlen in Hl. lia.
Qed.

Lemma byte_at_end a c p : p = zlen a -> byte_at (a ++ ZIP_END :: c) p = Some ZIP_END.
Proof. intros ->. apply byte_at_app. Qed.

(** ** Growing *)

Definition grow (e : zent) : zent := mk_zent true (body e).

(** Each entry has 1 byte for a length that needs 5. *)
Fixpoint grown (L : Z) (es : list zent) : Prop :=
  match es with [] => True | e :: es => wide e = false /\ ZIP_BIG_PREVLEN <= L /\ grown (elen (grow e)) es end.

Fixpoint widen (L : Z) (es : list zent) : list zent :=
  match es with
  | [] => []
  | e :: es' => if (ZIP_BIG_PREVLEN <=? L) && negb (wide e) then grow e :: widen (elen (grow e)) es' else es
  end.

Lemma grow_elen e : wide e = false -> elen (grow e) = elen e + 4.
Proof. unfold elen, grow. intros ->. cbn. lia. Qed.

Lemma grown_app L a b : grown L (a ++ b) <-> grown L a /\ grown (lastlen L (map grow a)) b.
Proof. revert L. induction a as [|e a IH]; intros L; cbn [app grown map lastlen]; [tauto|]. rewrite IH. tauto. Qed.

Lemma grown_lastlen L pf G : grown L G -> G <> [] -> lastlen L (map grow G) = lastlen pf G + 4.
Proof.
  destruct G as [|e G _] using rev_ind; [done|]. rewrite grown_app, map_app, !lastlen_app. intros [_ (Hw & _)] _. cbn [map lastlen]. by apply grow_elen.
Qed.

Lemma esize_grow L G : grown L G -> esize (map grow G) = esize G + 4 * zlen G.
Proof.
  revert L. induction G as [|e G IH]; intros L; [done|]. intros (Hw & _ & Hg). cbn [map esize]. rewrite zlen_cons, (IH _ Hg), grow_elen by done. lia.
Qed.

(** The split made by the first loop. *)
Lemma widen_split L es : exists G R, es = G ++ R /\ widen L es = map grow G ++ R /\ grown L G /\
  match R with [] => True | e :: _ => ZIP_BIG_PREVLEN <= lastlen L (map grow G) -> wide e = true end.
Proof.
  revert L. induction es as [|e es IH]; intros L; [by exists [], []|]. cbn [widen].
  destruct ((ZIP_BIG_PREVLEN <=? L) && negb (wide e)) eqn:E.
  - destruct (IH (elen (grow e))) as (G & R & -> & -> & Hg & HR). exists (e :: G), R. cbn [app map grown lastlen]. apply andb_true_iff in E as [E1 E2]. apply negb_true_iff in E2. split_and!; try done. lia.
  - exists [], (e :: es). cbn [app map grown lastlen]. split_and!; try done. intros HL. rewrite (proj2 (Z.leb_le _ _)) in E by done. by destruct (wide e).
Qed.

Lemma widen_chain pf L es : chain pf es -> 0 <= L -> L + esize es + 4 * zlen es < 2 ^ 32 -> chain L (widen L es).
Proof.
  revert pf L. induction es as [|e es IH]; intros pf L; [done|]. intros (He & Hp & Hc) HL Hs. cbn [widen esize] in *. rewrite zlen_cons in Hs.
  pose proof (esize_nonneg es). pose proof (zlen_nonneg es). pose proof (elen_pos e He).
  destruct ((ZIP_BIG_PREVLEN <=? L) && negb (wide e)) eqn:E.
  - apply andb_true_iff in E as [E1 E2]. apply negb_true_iff in E2. cbn [chain]. split_and!; [done|split; [lia|done]|].
    apply (IH (elen e)); [done|..]; rewrite grow_elen by done; lia.
  - cbn [chain]. split_and!; [done|split; [lia|]|done]. intros Hw. rewrite Hw in E. cbn in E. unfold ZIP_BIG_PREVLEN in *. lia.
Qed.

Lemma widen_bodies L es : map body (widen L es) = map body es.
Proof. revert L. induction es as [|e es IH]; intros L; [done|]. cbn [widen]. destruct (_ && _); [|done]. cbn [map]. by rewrite IH. Qed.

Lemma widen_esize L es : esize es <= esize (widen L es) <= esize es + 4 * zlen es.
Proof.
  revert L. induction es as [|e es IH]; intros L; [done|]. cbn [widen]. pose proof (zlen_nonneg es). destruct ((_ <=? L) && negb (wide e)) eqn:E; rewrite zlen_cons.
  - apply andb_true_iff in E as [_ E]. apply negb_true_iff in E. cbn [esize]. pose proof (grow_elen e E). specialize (IH (elen (grow e))). lia.
  - lia.
Qed.

Section Cascade.
Context `{Host} (fill : nat -> byte).

(** ** The first loop *)

(** The code may need the new length of an entry only when the old one is 0 or 4
    less. *)
Definition stale_ok (pf L : Z) (es : list zent) : Prop :=
  match es with [] => True | e :: _ => ZIP_BIG_PREVLEN <= L -> wide e = false -> pf = 0 \/ pf + delta = L end.

Lemma stale_next e es : wide e = false -> stale_ok (elen e) (elen (grow e)) es.
Proof. intros Hw. destruct es; [done|]. intros _ _. right. by rewrite grow_elen. Qed.

(** The last entry: its length is updated in place. *)
Lemma scan_stop a pf e es L : chain pf (e :: es) -> 0 <= L < 2 ^ 32 -> (ZIP_BIG_PREVLEN <= L -> wide e = true) ->
  (zipStorePrevEntryLength_NULL L <=? psize (wide e)) = true /\
  exists n, (if psize (wide e) =? zipStorePrevEntryLength_NULL L then zipStorePrevEntryLength (a ++ flat pf (e :: es) ++ [ZIP_END]) (zlen a) L
   else zipStorePrevEntryLengthLarge (a ++ flat pf (e :: es) ++ [ZIP_END]) (zlen a) L) = Some (a ++ flat L (e :: es) ++ [ZIP_END], n).
Proof.
  intros (He & Hp & Hc) HL Hw. cbn [flat]. unfold ent_bytes. rewrite <- !app_assoc.
  unfold zipStorePrevEntryLength_NULL. destruct (wide e) eqn:Ew; cbn [psize].
  - destruct (Z.ltb_spec L ZIP_BIG_PREVLEN); (split; [done|]); cbn [Z.eqb Pos.eqb].
    + rewrite store_large by done. by eexists.
    + rewrite store_prev; [|unfold zipStorePrevEntryLength_NULL; by rewrite (proj2 (Z.ltb_ge _ _))|done|done].
      rewrite (proj2 (Z.leb_le _ _)) by done. by eexists.
  - destruct (Z.ltb_spec L ZIP_BIG_PREVLEN); [|by discriminate Hw]. split; [done|]. cbn [Z.eqb Pos.eqb].
    rewrite store_prev; [|unfold zipStorePrevEntryLength_NULL; by rewrite (proj2 (Z.ltb_lt _ _))|done|done].
    rewrite (proj2 (Z.leb_gt _ _)) by done. by eexists.
Qed.

Lemma scan_spec es : forall a pf L fuel po x k, chain pf es -> 0 <= L -> L + esize es + 4 * zlen es < 2 ^ 32 -> ZIPLIST_HEADER_SIZE <= zlen a ->
  stale_ok pf L es -> (length es <= fuel)%nat ->
  exists G R, es = G ++ R /\ widen L es = map grow G ++ R /\ grown L G /\
    cascade_scan fuel (zlen (a ++ flat pf es ++ [ZIP_END]))
      (mk_cascade (a ++ flat pf es ++ [ZIP_END]) (zlen a) L (zipStorePrevEntryLength_NULL L) po x k) =
    Some (mk_cascade (a ++ flat pf G ++ flat (lastlen L (map grow G)) R ++ [ZIP_END]) (zlen a + esize G) (lastlen L (map grow G))
            (zipStorePrevEntryLength_NULL (lastlen L (map grow G))) (if decide (G = []) then po else zlen a + tailoff G)
            (x + 4 * zlen G) (k + length G)).
Proof.
  induction es as [|e es IH]; intros a pf L fuel po x k Hc HL Hs Ha Hst Hf.
  - exists [], []. split_and!; try done. cbn [flat map lastlen esize app length]. rewrite decide_True by done.
    destruct fuel; cbn [cascade_scan c_zl c_p]; (rewrite byte_at_end by done); cbn [mbind option_bind Z.eqb]; rewrite Z.eqb_refl; f_equal; change (zlen (@nil zent)) with 0; f_equal; done || lia.
  - destruct fuel as [|fuel]; cbn [length] in Hf; [lia|]. destruct Hc as (He & Hp & Hc). cbn [esize] in Hs. rewrite zlen_cons in Hs.
    pose proof (elen_pos e He). pose proof (zlen_nonneg es). pose proof (esize_nonneg es). set (zl := a ++ flat pf (e :: es) ++ [ZIP_END]).
    assert (zlen zl = zlen a + elen e + esize es + 1) as Hz by (unfold zl; cbn [flat]; zlen).
    destruct (byte_at_entry a pf e es [ZIP_END] (zlen a) Hp eq_refl) as (b & Hb & Hbe). fold zl in Hb.
    cbn [cascade_scan c_zl c_p c_prevlen c_prevlensize c_prevoffset c_extra c_cnt]. rewrite Hb. cbn [mbind option_bind]. rewrite Hbe.
    replace (assert_entry zl (zlen zl) (zlen a) false) with (Some (entry_of pf e)).
    2:{ symmetry. unfold zl at 1. cbn [flat]. rewrite <- !app_assoc. apply zipEntrySafe_at; try done. lia. }
    cbn [mbind option_bind]. destruct (entry_of_fields pf e He) as (-> & -> & Hel & _). rewrite Hel. rewrite (u32_small (elen e)) by lia.
    destruct ((ZIP_BIG_PREVLEN <=? L) && negb (wide e)) eqn:E.
    + apply andb_true_iff in E as [E1 E2]. apply negb_true_iff in E2. specialize (Hst ltac:(lia) E2). unfold delta in Hst.
      destruct Hp as [Hp1 Hp2]. specialize (Hp2 E2). rewrite (proj2 (Z.eqb_neq pf L)) by lia.
      replace (zipStorePrevEntryLength_NULL L) with 5 by (unfold zipStorePrevEntryLength_NULL; by rewrite (proj2 (Z.ltb_ge _ _)) by lia).
      rewrite E2. cbn [psize Z.leb Z.compare Pos.compare Pos.compare_cont]. replace ((pf =? 0) || (pf + delta =? L)) with true by (unfold delta; lia). cbn [negb].
      destruct (IH (a ++ ent_bytes pf e) (elen e) (elen (grow e)) fuel (zlen a) (x + delta) (S k)) as (G & R & -> & HG & Hgr & Hrun);
        [done|rewrite grow_elen by done; lia|rewrite grow_elen by done; lia|zlen|by apply stale_next|lia|].
      exists (e :: G), R. cbn [widen grown]. rewrite E2, E1. cbn [andb negb map app]. rewrite HG. split_and!; try done; [lia|].
      unfold zl. cbn [flat map lastlen esize length]. rewrite <- !app_assoc. cbn [app]. replace (zlen (a ++ ent_bytes pf e)) with (zlen a + elen e) in Hrun by zlen. rewrite <- !app_assoc in Hrun. rewrite (grow_elen e E2) in *.
            etransitivity; [exact Hrun|]. f_equal. rewrite zlen_cons, tailoff_cons. unfold delta. f_equal; try lia.  rewrite (decide_False (P := e :: G = [])) by done. destruct G; [by rewrite decide_True; [lia|]|]. rewrite decide_False by done. lia.
    + exists [], (e :: es). cbn [widen map app grown esize lastlen length flat]. rewrite E. split_and!; try done. change (4 * zlen (@nil zent)) with 0. rewrite decide_True, !Z.add_0_r, Nat.add_0_r by done.
      destruct (Z.eqb_spec pf L) as [->|Hne]; [done|].
      destruct (scan_stop a pf e es L) as (Hle & n & Hst'); [done|lia|intros HL'; rewrite (proj2 (Z.leb_le _ _)) in E by done; by destruct (wide e)|].
      rewrite Hle. fold zl in Hst'. rewrite Hst'. done.
Qed.

(** ** The second loop *)

(** The length the code stores in an entry that grows. *)
Lemma shift_value pf G e L : chain pf (G ++ [e]) -> grown L (G ++ [e]) -> stale_ok pf L (G ++ [e]) -> 0 <= L < 2 ^ 32 -> esize G + 4 < 2 ^ 32 ->
  (if lastlen pf G =? 0 then L else u32 (lastlen pf G + delta)) = lastlen L (map grow G) /\ ZIP_BIG_PREVLEN <= lastlen L (map grow G) < 2 ^ 32.
Proof.
  intros Hc Hg Hst HL Hs. apply chain_app in Hc as [HcG _]. apply grown_app in Hg as [HgG (Hw & Hv & _)].
  destruct (decide (G = [])) as [->|HG].
  - cbn [app stale_ok map lastlen] in *. specialize (Hst Hv Hw). unfold delta in *. destruct (Z.eqb_spec pf 0); [lia|]. rewrite u32_small by lia. lia.
  - rewrite (grown_lastlen L pf G HgG HG) in *. destruct G as [|y G _] using rev_ind; [done|]. rewrite lastlen_app in *. cbn [lastlen] in *.
    apply chain_app in HcG as [_ (Hy & _)]. pose proof (elen_pos y Hy). rewrite esize_app in *. cbn [esize] in *. pose proof (esize_nonneg G).
    rewrite (proj2 (Z.eqb_neq _ 0)) by lia. unfold delta. rewrite u32_small by lia. lia.
Qed.

(** One entry moves to the end of the room left, and gets its new length. *)
Lemma shift_step a pf G e K D L : chain pf (G ++ [e]) -> grown L (G ++ [e]) -> stale_ok pf L (G ++ [e]) -> 0 <= L < 2 ^ 32 ->
  esize (G ++ [e]) + 4 < 2 ^ 32 -> zlen K = 4 * (zlen G + 1) ->
  exists K', zlen K' = 4 * zlen G /\
    cascade_shift (S (length G)) (a ++ flat pf (G ++ [e]) ++ K ++ D) (zlen a + esize (G ++ [e]) + zlen K) (zlen a + esize G) L =
    cascade_shift (length G) (a ++ flat pf G ++ K' ++ ent_bytes (lastlen L (map grow G)) (grow e) ++ D)
      (zlen a + esize G + zlen K') (zlen a + esize G - lastlen pf G) L.
Proof.
  intros Hc Hg Hst HL Hs HK. rewrite esize_app in *. cbn [esize] in *. rewrite Z.add_0_r in *. pose proof (esize_nonneg G). 
  assert (0 <= elen e) by (rewrite <- (ent_bytes_zlen 0); apply zlen_nonneg).
  destruct (shift_value pf G e L) as [Hve Hv]; [done..|lia|]. set (v := lastlen L (map grow G)) in *.
  apply chain_app in Hc as [HcG (He & Hp & _)]. apply grown_app in Hg as [HgG (Hw & _)].
  rewrite flat_app. cbn [flat]. rewrite app_nil_r. cbn [cascade_shift].
  replace (a ++ (flat pf G ++ ent_bytes (lastlen pf G) e) ++ K ++ D) with ((a ++ flat pf G) ++ ent_bytes (lastlen pf G) e ++ K ++ D) by (by rewrite <- !app_assoc).
  replace (zlen a + esize G) with (zlen (a ++ flat pf G)) by zlen. rewrite zipEntry_at by done. cbn [mbind option_bind].
  destruct (entry_of_fields (lastlen pf G) e He) as (-> & -> & -> & _). rewrite (u32_small (elen e)) by lia.
  assert (elen e - psize (wide e) = zlen (body e)) as Hel by (unfold elen; lia). rewrite Hel.
  unfold ent_bytes at 1. rewrite <- (app_assoc (prev_bytes _ _)), (app_assoc (a ++ flat pf G)).
  destruct (buf_move_up ((a ++ flat pf G) ++ prev_bytes (wide e) (lastlen pf G)) (body e) K D) as (b & Hb & Hmv).
  replace (zlen a + (esize G + elen e) + zlen K - zlen (body e)) with (zlen ((a ++ flat pf G) ++ prev_bytes (wide e) (lastlen pf G)) + zlen K) by zlen.
  replace (zlen (a ++ flat pf G) + psize (wide e)) with (zlen ((a ++ flat pf G) ++ prev_bytes (wide e) (lastlen pf G))) by zlen.
  rewrite Hmv. cbn [mbind option_bind]. rewrite Hw in *. cbn [psize] in Hel.
  set (room := prev_bytes false (lastlen pf G) ++ b). assert (zlen room = 4 * zlen G + 5) as Hr by (unfold room; rewrite zlen_app, prev_bytes_zlen; cbn [psize]; lia).
  exists (take (Z.to_nat (4 * zlen G)) room). pose proof (zlen_nonneg G).
  assert (zlen (take (Z.to_nat (4 * zlen G)) room) = 4 * zlen G) as Ht by (unfold zlen in *; rewrite length_take; lia). split; [done|].
  assert (((a ++ flat pf G) ++ prev_bytes false (lastlen pf G)) ++ b ++ body e ++ D =
    (a ++ flat pf G ++ take (Z.to_nat (4 * zlen G)) room) ++ drop (Z.to_nat (4 * zlen G)) room ++ body e ++ D) as ->.
  { rewrite <- !app_assoc. do 2 f_equal. rewrite (app_assoc (take _ _)), take_drop. unfold room. by rewrite <- app_assoc. }
  assert (zipStorePrevEntryLength_NULL v = 5) as Hn by (unfold zipStorePrevEntryLength_NULL; by rewrite (proj2 (Z.ltb_ge _ _)) by lia).
  match goal with |- (_ ← ?st; _) = _ => assert (st = zipStorePrevEntryLength ((a ++ flat pf G ++ take (Z.to_nat (4 * zlen G)) room) ++ drop (Z.to_nat (4 * zlen G)) room ++ body e ++ D)
    (zlen (a ++ flat pf G ++ take (Z.to_nat (4 * zlen G)) room)) v) as -> end.
  { rewrite <- Hve. replace (zlen a + (esize G + elen e) + zlen K - (elen e + delta)) with (zlen (a ++ flat pf G ++ take (Z.to_nat (4 * zlen G)) room)).
    - by destruct (lastlen pf G =? 0).
    - rewrite !zlen_app, flat_zlen, Ht. unfold delta. lia. }
  rewrite store_prev; [|rewrite Hn; unfold zlen in *; rewrite length_drop; lia|unfold ZIP_BIG_PREVLEN in Hv; lia|done]. cbn [mbind option_bind].
  rewrite (proj2 (Z.leb_le _ _)) by lia. unfold ent_bytes. cbn [wide grow body]. rewrite <- !app_assoc. f_equal.
  rewrite zlen_app, flat_zlen, Ht. unfold delta. lia.
Qed.

Lemma shift_spec G : forall a pf K D L, chain pf G -> grown L G -> stale_ok pf L G -> 0 <= L < 2 ^ 32 ->
  esize G + 4 < 2 ^ 32 -> zlen K = 4 * zlen G ->
  cascade_shift (length G) (a ++ flat pf G ++ K ++ D) (zlen a + esize G + zlen K) (zlen a + tailoff G) L = Some (a ++ flat L (map grow G) ++ D).
Proof.
  induction G as [|e G IH] using rev_ind; intros a pf K D L Hc Hg Hst HL Hs HK.
  - cbn [length cascade_shift flat map app]. destruct K; [done|]. rewrite zlen_cons in HK. pose proof (zlen_nonneg K). change (zlen (@nil zent)) with 0 in HK. lia.
  - rewrite zlen_app, zlen_cons in HK. change (zlen (@nil zent)) with 0 in HK.
    destruct (shift_step a pf G e K D L) as (K' & HK' & Hrun); [done..|lia|]. rewrite length_app, Nat.add_1_r, tailoff_snoc, Hrun.
    rewrite esize_app in Hs. cbn [esize] in Hs. apply chain_app in Hc as [Hc (He & _)]. apply grown_app in Hg as [Hg _]. pose proof (elen_pos e He).
    rewrite map_app, flat_app. cbn [map flat]. rewrite app_nil_r, <- app_assoc.
    destruct G as [|g G _] using rev_ind.
    + cbn [length cascade_shift flat map app lastlen]. destruct K'; [done|]. rewrite zlen_cons in HK'. pose proof (zlen_nonneg K'). change (zlen (@nil zent)) with 0 in HK'. lia.
    + rewrite <- (IH a pf K' _ L); [|done|done| |done|lia|done].
      * f_equal. rewrite tailoff_snoc, lastlen_app, esize_app. cbn [lastlen esize]. lia.
      * by destruct G.
Qed.

(** ** The update *)

Lemma zipRawEntryLength_u32 prev e : ent_ok e -> elen e < 2 ^ 32 -> u32 (headersize (entry_of prev e) + len (entry_of prev e)) = elen e.
Proof. intros He Hl. destruct (entry_of_fields prev e He) as (_ & _ & -> & _). pose proof (elen_pos e He). apply u32_small. lia. Qed.

(** Make room and move the entries that grow. *)
Lemma cascade_grow sz tl cnt X pf G Y L off po x : chain pf G -> grown L G -> stale_ok pf L G -> 0 <= L < 2 ^ 32 ->
  sz = 11 + zlen X + esize G + zlen Y -> sz + 4 * zlen G < 2 ^ 32 -> off = 10 + zlen X + esize G -> po = 10 + zlen X + tailoff G -> x = 4 * zlen G ->
  (zl ← ziplistResize fill (hdr sz tl cnt ++ X ++ flat pf G ++ Y ++ [ZIP_END]) (u32 (sz + x));
   zl ← buf_move zl (off + x) off (sz - off - 1);
   cascade_shift (length G) zl (off + x) po L) =
  Some (hdr (sz + x) tl cnt ++ X ++ flat L (map grow G) ++ Y ++ [ZIP_END]).
Proof.
  intros Hc Hg Hst HL Hsz Hs -> -> ->. pose proof (esize_nonneg G). pose proof (zlen_nonneg X). pose proof (zlen_nonneg Y). pose proof (zlen_nonneg G).
  rewrite u32_small by lia. replace (X ++ flat pf G ++ Y ++ [ZIP_END]) with ((X ++ flat pf G ++ Y) ++ [ZIP_END]) by (by rewrite <- !app_assoc).
  destruct (resize_grow fill sz tl cnt (X ++ flat pf G ++ Y) (sz + 4 * zlen G)) as (J & -> & HJ & _); [zlen|]. cbn [mbind option_bind].
  set (h := hdr (sz + 4 * zlen G) tl cnt). assert (zlen h = 10) as Hh by done.
  assert (zlen J = 4 * zlen G) as HJ' by (rewrite HJ; zlen). clear HJ.
  replace (h ++ (X ++ flat pf G ++ Y) ++ J ++ [ZIP_END]) with ((h ++ X ++ flat pf G) ++ Y ++ J ++ [ZIP_END]) by (by rewrite <- !app_assoc).
  destruct (buf_move_up (h ++ X ++ flat pf G) Y J [ZIP_END]) as (b & Hb & Hmv).
  replace (10 + zlen X + esize G + 4 * zlen G) with (zlen (h ++ X ++ flat pf G) + zlen J) by (rewrite HJ'; zlen).
  replace (10 + zlen X + esize G) with (zlen (h ++ X ++ flat pf G)) by zlen.
  replace (sz - zlen (h ++ X ++ flat pf G) - 1) with (zlen Y) by zlen. rewrite Hmv. cbn [mbind option_bind].
  replace ((h ++ X ++ flat pf G) ++ b ++ Y ++ [ZIP_END]) with ((h ++ X) ++ flat pf G ++ b ++ Y ++ [ZIP_END]) by (by rewrite <- !app_assoc).
  replace (zlen (h ++ X ++ flat pf G) + zlen J) with (zlen (h ++ X) + esize G + zlen b) by zlen.
  replace (10 + zlen X + tailoff G) with (zlen (h ++ X) + tailoff G) by zlen.
  rewrite shift_spec by (done || lia). by rewrite <- app_assoc.
Qed.

Lemma tailoff_nonneg es : 0 <= tailoff es.
Proof. apply esize_nonneg. Qed.

Lemma tailoff_le es : tailoff es <= esize es.
Proof.
  destruct es as [|y l _] using rev_ind; [done|]. rewrite tailoff_snoc, esize_app. pose proof (esize_nonneg [y]). lia.
Qed.

(** The last entry moves by the growth of the entries before it. *)
Lemma tailoff_grow L G R : grown L G -> G <> [] -> tailoff (map grow G ++ R) = tailoff (G ++ R) + 4 * zlen G - (if decide (R = []) then 4 else 0).
Proof.
  intros Hg HG. destruct (decide (R = [])) as [->|HR].
  - destruct G as [|e G _] using rev_ind; [done|]. apply grown_app in Hg as [Hg _]. rewrite map_app, !app_nil_r. cbn [map]. rewrite !tailoff_snoc, (esize_grow L) by done. rewrite zlen_app, zlen_cons. change (zlen (@nil zent)) with 0. lia.
  - rewrite !tailoff_app by done. rewrite (esize_grow L) by done. lia.
Qed.

Lemma tailoff_eq pf G R : chain pf (G ++ R) -> G <> [] -> (tailoff (G ++ R) = tailoff G <-> R = []).
Proof.
  intros Hc HG. split; [|intros ->; by rewrite app_nil_r]. destruct R as [|r R]; [done|]. rewrite tailoff_app by done.
  destruct G as [|e G _] using rev_ind; [done|]. rewrite tailoff_snoc, esize_app. cbn [esize]. apply chain_app in Hc as [Hc _]. apply chain_app in Hc as [_ (He & _)].
  pose proof (elen_pos e He). pose proof (tailoff_nonneg (r :: R)). lia.
Qed.

Lemma cascade_tail sz tl cnt Y po x (R : list zent) : (tl = po <-> R = []) ->
  (if tl =? po then if negb (x - delta =? 0) then set_TAIL_OFFSET (hdr sz tl cnt ++ Y) (tl + x - delta) else Some (hdr sz tl cnt ++ Y)
   else set_TAIL_OFFSET (hdr sz tl cnt ++ Y) (tl + x)) =
  Some (hdr sz (tl + x - (if decide (R = []) then 4 else 0)) cnt ++ Y).
Proof.
  intros HR. rewrite !set_TAIL_at. unfold delta. destruct (Z.eqb_spec tl po); [rewrite decide_True by tauto|rewrite decide_False by tauto; by rewrite Z.sub_0_r].
  destruct (Z.eqb_spec (x - 4) 0); cbn [negb]; do 3 f_equal; lia.
Qed.

(** The entries after [f] store what they should, and the size and the last entry
    in the header are updated. *)
Lemma cascade_spec X q f pf es cnt :
  let size es := 11 + zlen X + esize (f :: es) in
  let tail es := 10 + zlen X + tailoff (f :: es) in
  ent_ok f -> prev_ok (wide f) q -> chain pf es -> stale_ok pf (elen f) es -> size es + 4 * zlen es < 2 ^ 32 ->
  let es' := widen (elen f) es in
  __ziplistCascadeUpdate fill (hdr (size es) (tail es) cnt ++ X ++ ent_bytes q f ++ flat pf es ++ [ZIP_END]) (10 + zlen X) =
  Some (hdr (size es') (tail es') cnt ++ X ++ ent_bytes q f ++ flat (elen f) es' ++ [ZIP_END]).
Proof.
  intros size tail Hf Hq Hc Hst Hs es'. unfold __ziplistCascadeUpdate.
  pose proof (elen_pos f Hf). pose proof (esize_nonneg es). pose proof (zlen_nonneg es). pose proof (zlen_nonneg X).
  pose proof (tailoff_nonneg (f :: es)). pose proof (tailoff_le (f :: es)).
  rewrite get_BYTES, get_TAIL by (unfold size, tail in *; cbn [esize] in *; lia). cbn [mbind option_bind].
  set (a := hdr (size es) (tail es) cnt ++ X).
  assert (forall Y, hdr (size es) (tail es) cnt ++ X ++ Y = a ++ Y) as Ea by (intros; unfold a; by rewrite <- app_assoc). rewrite !Ea.
  assert (10 + zlen X = zlen a) as Hza by (unfold a; zlen). rewrite Hza.
  destruct (byte_at_ent a q f (flat pf es ++ [ZIP_END]) (zlen a) Hq eq_refl) as (b & -> & Hbe).
  cbn [mbind option_bind]. rewrite Hbe, zipEntry_at by done. cbn [mbind option_bind]. rewrite zipRawEntryLength_u32 by (done || unfold size in *; cbn [esize] in *; lia).
  rewrite (app_assoc a). destruct (scan_spec es (a ++ ent_bytes q f) pf (elen f) (length ((a ++ ent_bytes q f) ++ flat pf es ++ [ZIP_END])) (zlen a) 0 0)
    as (G & R & -> & HG & Hgr & Hrun); [done|lia|unfold size in Hs; cbn [esize] in Hs; lia|unfold ZIPLIST_HEADER_SIZE; zlen|done|by apply chain_fuel|].
  replace (zlen ((a ++ ent_bytes q f) ++ flat pf (G ++ R) ++ [ZIP_END])) with (size (G ++ R)) in Hrun by (unfold size; cbn [esize]; zlen).
  replace (zlen (a ++ ent_bytes q f)) with (zlen a + elen f) in Hrun by zlen. rewrite Hrun. clear Hrun.
  cbn [mbind option_bind c_zl c_p c_prevlen c_prevlensize c_prevoffset c_extra c_cnt]. unfold es'. rewrite HG. rewrite <- app_assoc, <- !Ea. clear Ea.
  destruct (decide (G = [])) as [->|HGn].
  - cbn [map app flat lastlen]. done.
  - pose proof (esize_length pf G (proj1 (proj1 (chain_app _ _ _) Hc))). assert (1 <= zlen G) by (destruct G; [done|rewrite zlen_cons; pose proof (zlen_nonneg G); lia]).
    rewrite (proj2 (Z.eqb_neq (0 + 4 * zlen G) 0)) by lia. rewrite (cascade_tail _ _ _ _ _ _ R).
    2:{ rewrite <- (tailoff_eq pf G R Hc HGn). unfold tail. rewrite tailoff_cons, <- Hza. destruct (G ++ R) eqn:EGR; [by destruct G|]. rewrite <- EGR. lia. }
    cbn [mbind option_bind Nat.add]. rewrite !Z.add_0_l, (app_assoc X). apply chain_app in Hc as [HcG HcR]. unfold size in Hs. cbn [esize] in Hs.
    rewrite zlen_app, esize_app in Hs. pose proof (zlen_nonneg R). pose proof (esize_nonneg R). pose proof (esize_nonneg G).
    rewrite cascade_grow; [|done|done|by destruct G|lia|unfold size; cbn [esize]; zlen|unfold size; cbn [esize]; rewrite esize_app; lia|zlen..|done].
    rewrite flat_app, <- !app_assoc. do 3 f_equal.
    + unfold size. cbn [esize]. rewrite !esize_app, (esize_grow (elen f)) by done. lia.
    + unfold tail. rewrite !tailoff_cons. destruct (G ++ R) eqn:EGR; [by destruct G|]. rewrite <- EGR. destruct (map grow G ++ R) eqn:EGR'; [by destruct G|]. rewrite <- EGR'.
      rewrite (tailoff_grow (elen f)) by done. lia.
Qed.
End Cascade.
