(* ===== verification/ZiplistBody.v ===== *)
(** * Ziplists: values

    What the code writes for a string, and that reading it gives the string
    back: as text when it is stored as text, as the integer it is the decimal
    form of otherwise. *)

From stdpp Require Import base list option.
From Stdlib Require Import ZArith Lia Bool.
From S2P Require Import Prelude Endian Util UtilFacts BitopsFacts Ziplist ZiplistFacts.

Local Open Scope Z_scope.

(** ** Encodings *)

(** The encodings of integers. *)
Definition int_enc (enc : Z) : Prop := is_Some (zipIntSize enc).

Definition str_head_test (b : Z) : bool :=
  negb (b <? 64) || ((Z.land b 0xc0 =? 0) && (Z.land b 0x3f =? b) && (Z.lor 0 b =? b) &&
     (Z.land (Z.lor 0x40 b) 0xc0 =? 0x40) && (Z.land (Z.lor 0x40 b) 0x3f =? b) && (Z.lor 0x40 b =? 0x40 + b)).

Lemma str_head b : 0 <= b < 64 -> Z.land b 0xc0 = 0 /\ Z.land b 0x3f = b /\ Z.lor 0 b = b /\
  Z.land (Z.lor 0x40 b) 0xc0 = 0x40 /\ Z.land (Z.lor 0x40 b) 0x3f = b /\ Z.lor 0x40 b = 0x40 + b.
Proof.
  intros Hb. assert (str_head_test b = true) as Ht by (apply forall_byte; [vm_compute; done|unfold is_byte; lia]).
  unfold str_head_test in Ht. rewrite (proj2 (Z.ltb_lt b 64)) in Ht by lia. cbn [negb orb] in Ht. repeat rewrite andb_true_iff in Ht. lia.
Qed.

Definition int_enc_test (b : Z) : bool :=
  match zipIntSize b with
  | Some n => (0xc0 <=? b) && negb (ZIP_IS_STR b) && bool_decide (ZIP_DECODE_LENGTH [] 0 b = Some (1, n)) && (0 <=? n) && (n <=? 8)
  | None => true
  end.

Lemma int_enc_facts enc n : is_byte enc -> zipIntSize enc = Some n ->
  0xc0 <= enc /\ ZIP_IS_STR enc = false /\ (forall zl p, ZIP_DECODE_LENGTH zl p enc = Some (1, n)) /\ 0 <= n <= 8.
Proof.
  intros Hb Hn. assert (int_enc_test enc = true) as Ht by (apply forall_byte; [vm_compute; done|done]).
  unfold int_enc_test in Ht. rewrite Hn in Ht. repeat rewrite andb_true_iff in Ht. destruct Ht as [[[[H1 H2] H3] H4] H5].
  apply negb_true_iff in H2. apply bool_decide_eq_true_1 in H3. split_and!; [lia|done| |lia|lia].
  intros zl p. unfold ZIP_DECODE_LENGTH in *. rewrite (proj2 (Z.ltb_ge enc ZIP_STR_MASK)) in * by (unfold ZIP_STR_MASK; lia). exact H3.
Qed.

(** The length of a string in the head of an entry. *)
Lemma str_encoding n : 0 <= n < 2 ^ 32 -> exists enc ls, forall Y,
  Forall is_byte (encoding_bytes 0 n) /\ zlen (encoding_bytes 0 n) = ls /\ 0 < ls /\ ZIP_IS_STR enc = true /\
  ZIP_ENTRY_ENCODING (encoding_bytes 0 n ++ Y) 0 = Some enc /\ ZIP_DECODE_LENGTH (encoding_bytes 0 n ++ Y) 0 enc = Some (ls, n).
Proof.
  intros Hn. unfold encoding_bytes. change (ZIP_IS_STR 0) with true. cbv iota. unfold ZIP_STR_06B, ZIP_STR_14B, ZIP_STR_32B.
  change (Z.land (Z.shiftr n 8) 0x3f) with (Z.land (Z.shiftr n 8) (Z.ones 6)). change 0xff with (Z.ones 8). rewrite !Z.land_ones, !Z.shiftr_div_pow2 by lia.
  pose proof (fun x => Z.mod_pos_bound x (2 ^ 8) eq_refl : is_byte (x mod 2 ^ 8)) as Hm.
  destruct (Z.leb_spec n 0x3f); [|destruct (Z.leb_spec n 0x3fff)].
  - destruct (str_head n ltac:(lia)) as (E1 & E2 & E3 & _). rewrite E3. exists 0, 1. intros Y. split_and!; try done.
    + repeat constructor; lia.
    + unfold ZIP_ENTRY_ENCODING. change (byte_at _ 0) with (Some n). cbn [mbind option_bind]. unfold ZIP_STR_MASK. rewrite (proj2 (Z.ltb_lt n _)) by lia. by rewrite E1.
    + change (ZIP_DECODE_LENGTH _ 0 0) with (Some (1, Z.land n 0x3f)). by rewrite E2.
  - rewrite (Z.mod_small (n / 2 ^ 8) (2 ^ 6)) by dlia. destruct (str_head (n / 2 ^ 8) ltac:(dlia)) as (_ & _ & _ & E1 & E2 & E3). exists 0x40, 2. intros Y. split_and!; try done.
    + rewrite E3. apply Forall_cons_2; [unfold is_byte; dlia|]. apply Forall_cons_2; [apply Hm|constructor].
    + unfold ZIP_ENTRY_ENCODING. change (byte_at _ 0) with (Some (Z.lor 0x40 (n / 2 ^ 8))). cbn [mbind option_bind]. unfold ZIP_STR_MASK. rewrite E1. rewrite E3 at 1. by rewrite (proj2 (Z.ltb_lt _ _)) by dlia.
    + unfold ZIP_DECODE_LENGTH. change (byte_at _ 0) with (Some (Z.lor 0x40 (n / 2 ^ 8))). change (byte_at _ (0 + 1)) with (Some (n mod 2 ^ 8)). cbn [mbind option_bind Z.ltb Z.compare Pos.compare Pos.compare_cont Z.eqb Pos.eqb ZIP_STR_MASK ZIP_STR_06B ZIP_STR_14B].
      rewrite E2. do 2 f_equal. rewrite Z.shiftl_mul_pow2 by lia. change (2 ^ 8) with 256. rewrite lor_byte by (apply Hm). dlia.
  - exists 0x80, 5. intros Y. split_and!; try done.
    + repeat (apply Forall_cons_2; [apply Hm || done|]). constructor.
    + change (ZIP_DECODE_LENGTH _ 0 0x80) with (Some (5, u32 (Z.lor (Z.lor (Z.lor (Z.shiftl ((n / 2 ^ 24) mod 2 ^ 8) 24) (Z.shiftl ((n / 2 ^ 16) mod 2 ^ 8) 16)) (Z.shiftl ((n / 2 ^ 8) mod 2 ^ 8) 8)) (n mod 2 ^ 8)))).
      rewrite lor_bytes by apply Hm. do 2 f_equal. rewrite u32_small; cbn [le_join]; dlia.
Qed.

(** ** Integers *)

Definition int_bytes (enc v : Z) : list byte :=
  if enc =? ZIP_INT_8B then [u8 v]
  else if enc =? ZIP_INT_16B then le_split 2 v
  else if enc =? ZIP_INT_24B then le_split 3 v
  else if enc =? ZIP_INT_32B then le_split 4 v
  else if enc =? ZIP_INT_64B then le_split 8 v
  else [].

Definition int_value (enc : Z) (bs : list byte) : Z :=
  if is_imm enc then Z.land enc ZIP_INT_IMM_MASK - 1 else swrap (8 * zlen bs) (le_join bs).

Ltac split_enc :=
  repeat match goal with
  | H : context [?e =? ?c] |- _ => is_var e; destruct (Z.eqb_spec e c) as [->|]
  | |- context [?e =? ?c] => is_var e; destruct (Z.eqb_spec e c) as [->|]
  | |- context [?e =? ?c] => first [change (e =? c) with true|change (e =? c) with false]; cbv iota
  end.

Lemma int_bytes_zlen enc v n : zipIntSize enc = Some n -> zlen (int_bytes enc v) = n.
Proof. unfold zipIntSize, int_bytes. intros E. split_enc; try (by injection E as <-). case_if_in E; [|done]. by injection E as <-. Qed.

Lemma int_bytes_bytes enc v : Forall is_byte (int_bytes enc v).
Proof.
  unfold int_bytes. split_enc; try apply le_split_bytes; [|constructor]. apply Forall_cons_2; [|constructor]. apply (wrap_range 8). lia.
Qed.

Section Integers.
Context `{Host}.

Lemma save_integer a g c v enc n p : zipIntSize enc = Some n -> zlen g = n -> p = zlen a ->
  zipSaveInteger (a ++ g ++ c) p v enc = Some (a ++ int_bytes enc v ++ c).
Proof.
  intros Hn Hg ->. pose proof (int_bytes_zlen enc v n Hn) as Hl. unfold zlen in Hg, Hl. rewrite <- Hg in Hl. clear Hg. apply Nat2Z.inj in Hl.
  unfold zipSaveInteger, int_bytes, zipIntSize in *. rewrite !memrev16ifbe_store, !memrev32ifbe_store, !memrev64ifbe_store. cbn [mbind option_bind].
  destruct (enc =? ZIP_INT_8B); [by apply buf_write_app|]. destruct (enc =? ZIP_INT_16B); [by apply buf_write_app|].
  destruct (enc =? ZIP_INT_24B).
  { replace (drop 1 (le_split 4 (Z.shiftl v 8))) with (le_split 3 v); [by apply buf_write_app|].
    change (drop 1 (le_split 4 (Z.shiftl v 8))) with (le_split 3 (Z.shiftl v 8 / 256)). f_equal. rewrite Z.shiftl_mul_pow2 by lia. change (2 ^ 8) with 256. by rewrite Z.div_mul. }
  destruct (enc =? ZIP_INT_32B); [by apply buf_write_app|]. destruct (enc =? ZIP_INT_64B); [by apply buf_write_app|]. case_if_in Hn; [|done].
  destruct g; [done|discriminate Hl].
Qed.

Lemma swrap_24 x : Z.shiftr (i32 (256 * x)) 8 = swrap 24 x.
Proof. rewrite Z.shiftr_div_pow2 by lia. unfold swrap. dlia. Qed.

Lemma load_integer a bs c enc n p : zipIntSize enc = Some n -> zlen bs = n -> p = zlen a ->
  zipLoadInteger (a ++ bs ++ c) p enc = Some (int_value enc bs).
Proof.
  intros Hn Hl ->. unfold zipLoadInteger, int_value.
  assert (forall (rv : list byte -> option (list byte)) k l, (forall x, length x = k -> rv x = Some (rev x)) -> zlen l = Z.of_nat k ->
    exists l', (if big_endian then rv l else Some l) = Some l' /\ native_load l' = le_join l) as Hrv by (intros; apply (native_load_ifbe _ _ k); [done|unfold zlen in *; lia]).
  unfold zipIntSize, memrev16ifbe, memrev32ifbe, memrev64ifbe in *. split_enc; try (injection Hn as <-); try (rewrite buf_read_app by done; cbn [mbind option_bind]); rewrite ?Hl.
  - destruct bs as [|b [|b' bs]]; [discriminate Hl| |rewrite !zlen_cons in Hl; pose proof (zlen_nonneg bs); lia]. cbn [head mbind option_bind]. replace (le_join [b]) with b by (cbn; lia). done.
  - destruct (Hrv memrev16 2%nat bs) as (l' & -> & E); [apply memrev16_rev|done|]. cbn [mbind option_bind]. by rewrite E.
  - destruct (Hrv memrev32 4%nat (0 :: bs)) as (l' & -> & E); [apply memrev32_rev|rewrite zlen_cons; lia|]. cbn [mbind option_bind]. rewrite E. cbn [le_join].
    rewrite Z.add_0_l, swrap_24. done.
  - destruct (Hrv memrev32 4%nat bs) as (l' & -> & E); [apply memrev32_rev|done|]. cbn [mbind option_bind]. by rewrite E.
  - destruct (Hrv memrev64 8%nat bs) as (l' & -> & E); [apply memrev64_rev|done|]. cbn [mbind option_bind]. by rewrite E.
  - case_if_in Hn; [|done]. done.
Qed.
End Integers.

Lemma imm_value v : 0 <= v <= 12 -> is_byte (ZIP_INT_IMM_MIN + v) /\ int_enc (ZIP_INT_IMM_MIN + v) /\
  int_value (ZIP_INT_IMM_MIN + v) (int_bytes (ZIP_INT_IMM_MIN + v) v) = v.
Proof.
  intros Hv. assert (v = 0 \/ v = 1 \/ v = 2 \/ v = 3 \/ v = 4 \/ v = 5 \/ v = 6 \/ v = 7 \/ v = 8 \/ v = 9 \/ v = 10 \/ v = 11 \/ v = 12) as Hc by lia.
  repeat destruct Hc as [->|Hc]; try subst v; (split_and!; [done..|by eexists|done]).
Qed.

Lemma signed_split (k : nat) v : (0 < k)%nat -> - 2 ^ (8 * Z.of_nat k - 1) <= v < 2 ^ (8 * Z.of_nat k - 1) ->
  swrap (8 * zlen (le_split k v)) (le_join (le_split k v)) = v.
Proof.
  intros Hk Hv. unfold zlen. rewrite le_split_length, le_join_split. change 256 with (2 ^ 8). rewrite <- Z.pow_mul_r by lia.
  change (v mod 2 ^ (8 * Z.of_nat k)) with (wrap (8 * Z.of_nat k) v). rewrite swrap_wrap by lia. apply swrap_small; lia.
Qed.

(** The encoding chosen holds the integer. *)
Lemma try_encoding s v enc : zipTryEncoding s = Some (v, enc) ->
  s = decimal v /\ is_byte enc /\ int_enc enc /\ int_value enc (int_bytes enc v) = v.
Proof.
  unfold zipTryEncoding. case_if; [done|]. intros Hs. destruct (string2ll s) as [w|] eqn:Ew; [|done]. cbn [mbind option_bind] in Hs. injection Hs as -> <-.
  destruct (string2ll_sound s v Ew) as [Hr Hd]. split; [done|]. unfold LLONG_MIN, LLONG_MAX, INT16_MIN, INT16_MAX, INT24_MIN, INT24_MAX, INT32_MIN, INT32_MAX in *.
  repeat case_if; [by apply imm_value|..]; (split_and!; [done..|by eexists|]).
  - apply (signed_split 1); lia.
  - apply (signed_split 2); lia.
  - apply (signed_split 3); lia.
  - apply (signed_split 4); lia.
  - apply (signed_split 8); lia.
Qed.

(** ** Bodies *)

Definition new_body (s : list byte) : list byte :=
  match zipTryEncoding s with
  | Some (v, enc) => encoding_bytes enc (zlen s) ++ int_bytes enc v
  | None => encoding_bytes 0 (zlen s) ++ s
  end.

Definition body_value (b : list byte) : zvalue :=
  match body_info b with
  | Some (enc, ls, _) => if ZIP_IS_STR enc then ZStr (drop (Z.to_nat ls) b) else ZInt (int_value enc (drop (Z.to_nat ls) b))
  | None => ZStr []
  end.

(** The string a value stands for. *)
Definition text (v : zvalue) : list byte := match v with ZStr s => s | ZInt n => decimal n end.

Definition new_value (s : list byte) : zvalue := match zipTryEncoding s with Some (v, _) => ZInt v | None => ZStr s end.

Lemma new_value_text s : text (new_value s) = s.
Proof. unfold new_value. destruct (zipTryEncoding s) as [[v enc]|] eqn:E; [|done]. by destruct (try_encoding s v enc E) as [-> _]. Qed.

Lemma int_encoding enc n : is_byte enc -> int_enc enc -> encoding_bytes enc n = [enc].
Proof. intros Hb [k Hk]. destruct (int_enc_facts enc k Hb Hk) as (_ & Hs & _). unfold encoding_bytes. by rewrite Hs. Qed.

Lemma drop_zlen {A} (a b : list A) n : n = zlen a -> drop (Z.to_nat n) (a ++ b) = b.
Proof. intros ->. unfold zlen. rewrite Nat2Z.id. apply drop_app_length. Qed.

Lemma new_body_spec s : Forall is_byte s -> zlen s < 2 ^ 32 ->
  Forall is_byte (new_body s) /\ is_Some (body_info (new_body s)) /\ body_value (new_body s) = new_value s.
Proof.
  intros Hs Hl. pose proof (zlen_nonneg s). unfold new_body, new_value. destruct (zipTryEncoding s) as [[v enc]|] eqn:E.
  - destruct (try_encoding s v enc E) as (_ & Hb & [n Hn] & Hv). rewrite int_encoding by (done || by eexists). destruct (int_enc_facts enc n Hb Hn) as (H1 & H2 & H3 & H4).
    assert (body_info ([enc] ++ int_bytes enc v) = Some (enc, 1, n)) as Hi.
    { unfold body_info, ZIP_ENTRY_ENCODING. change (byte_at ([enc] ++ int_bytes enc v) 0) with (Some enc). cbn [mbind option_bind].
      unfold ZIP_STR_MASK. rewrite (proj2 (Z.ltb_ge enc _)), H3 by lia. cbn [mbind option_bind].
      rewrite zlen_app, (int_bytes_zlen enc v n Hn). change (zlen [enc]) with 1. by rewrite Z.eqb_refl. }
    split_and!; [apply Forall_app; split; [by apply Forall_cons_2|apply int_bytes_bytes]|by rewrite Hi|].
    unfold body_value. rewrite Hi, H2, (drop_zlen [enc]) by done. by rewrite Hv.
  - destruct (str_encoding (zlen s)) as (enc & ls & Henc); [lia|]. destruct (Henc s) as (H1 & H2 & H3 & H4 & H5 & H6).
    assert (body_info (encoding_bytes 0 (zlen s) ++ s) = Some (enc, ls, zlen s)) as Hi.
    { unfold body_info. rewrite H5. cbn [mbind option_bind]. rewrite H6. cbn [mbind option_bind]. rewrite zlen_app, H2, Z.eqb_refl. by rewrite (proj2 (Z.eqb_neq ls 0)) by lia. }
    split_and!; [by apply Forall_app|by rewrite Hi|]. unfold body_value. by rewrite Hi, H4, drop_zlen.
Qed.

(** What the code computes of a string before it writes it. *)
Lemma write_payload_at `{Host} a g c p enc value s body : zlen g = zlen (encoding_bytes enc (zlen s)) + zlen body -> p = zlen a ->
  (ZIP_IS_STR enc = true -> body = s) -> (ZIP_IS_STR enc = false -> zipIntSize enc = Some (zlen body) /\ body = int_bytes enc value) ->
  write_payload (a ++ g ++ c) p enc value s = Some (a ++ (encoding_bytes enc (zlen s) ++ body) ++ c).
Proof.
  intros Hg -> Hs Hi. unfold write_payload, zipStoreEntryEncoding. set (eb := encoding_bytes enc (zlen s)) in *. pose proof (zlen_nonneg body).
  rewrite <- (take_drop (length eb) g). assert (length (take (length eb) g) = length eb /\ zlen (drop (length eb) g) = zlen body) as [Ht Hd].
  { unfold zlen in *. rewrite length_take, length_drop. lia. }
  rewrite <- (app_assoc (take _ _)), (buf_write_app a) by done. cbn [mbind option_bind]. rewrite (app_assoc a eb).
  destruct (ZIP_IS_STR enc) eqn:E.
  - rewrite <- (Hs eq_refl), buf_write_app; [by rewrite <- !app_assoc|zlen|unfold zlen in Hd; lia].
  - destruct (Hi eq_refl) as [Hn ->]. rewrite (save_integer _ _ _ _ _ _ _ Hn Hd) by zlen. by rewrite <- !app_assoc.
Qed.

Lemma entry_payload_spec s : zlen s < 2 ^ 32 -> exists enc value n, entry_payload s = Some (enc, value, n) /\
  n + zipStoreEntryEncoding_NULL enc (zlen s) = zlen (new_body s) /\ 1 <= zlen (new_body s) <= 5 + Z.max (zlen s) 8 /\
  forall `{Host} a g c p, zlen g = zlen (new_body s) -> p = zlen a -> write_payload (a ++ g ++ c) p enc value s = Some (a ++ new_body s ++ c).
Proof.
  intros Hl. pose proof (zlen_nonneg s). unfold entry_payload, new_body, zipStoreEntryEncoding_NULL. destruct (zipTryEncoding s) as [[v enc]|] eqn:E.
  - destruct (try_encoding s v enc E) as (_ & Hb & [n Hn] & Hv). rewrite Hn. cbn [mbind option_bind]. exists enc, v, n. pose proof (int_bytes_zlen enc v n Hn) as Hz.
    destruct (int_enc_facts enc n Hb Hn) as (H1 & H2 & H3 & H4). rewrite zlen_app, Hz. assert (zlen (encoding_bytes enc (zlen s)) = 1) as -> by (by rewrite int_encoding by (done || by eexists)).
    split_and!; [done|lia..|]. intros Hh a g c p Hg Hp. apply write_payload_at; [|done|by rewrite H2|intros _; by rewrite Hz].
    rewrite Hg, Hz. by rewrite int_encoding by (done || by eexists).
  - destruct (str_encoding (zlen s)) as (enc & ls & Henc); [lia|]. destruct (Henc s) as (_ & H2 & H3 & _). exists 0, 123456789, (zlen s). rewrite zlen_app, H2.
    assert (ls <= 5) by (rewrite <- H2; unfold encoding_bytes; change (ZIP_IS_STR 0) with true; cbv iota; repeat case_if; done).
    split_and!; [done|lia..|]. intros Hh a g c p Hg Hp. apply write_payload_at; [by rewrite Hg, H2|done|done|done].
Qed.
