(* ===== verification/ZiplistOps.v ===== *)
(** * Ziplists: insertion and deletion *)

From stdpp Require Import base list option.
From Stdlib Require Import ZArith Lia Bool.
From S2P Require Import Prelude Endian Util UtilFacts BitopsFacts Ziplist ZiplistFacts ZiplistCascade ZiplistBody.

Local Open Scope Z_scope.

(** The block of a list of entries. *)
Definition block (cnt : Z) (es : list zent) : list byte :=
  hdr (11 + esize es) (10 + tailoff es) cnt ++ flat 0 es ++ [ZIP_END].

(** The number of entries is in the header until it is too large. *)
Definition count_ok (cnt n : Z) : Prop := cnt = UINT16_MAX \/ 0 <= cnt < UINT16_MAX /\ cnt = n.

Definition incr (cnt d : Z) : Z := if cnt <? UINT16_MAX then cnt + d else cnt.

Lemma block_zlen cnt es : zlen (block cnt es) = 11 + esize es.
Proof. unfold block. zlen. Qed.

Lemma count_ok_range cnt n : count_ok cnt n -> 0 <= cnt < 2 ^ 16.
Proof. unfold count_ok, UINT16_MAX. lia. Qed.

Lemma count_ok_incr cnt n d : count_ok cnt n -> 0 <= n + d -> (0 < d -> d = 1) -> count_ok (incr cnt d) (n + d).
Proof. unfold count_ok, incr, UINT16_MAX. intros [->|[Hc ->]] Hd H1; [by left|]. rewrite (proj2 (Z.ltb_lt _ _)) by lia. lia. Qed.

(** An entry whose length is to be stored in [w], and the entries after it. *)
Definition relink (w : bool) (b : zent) (B : list zent) : list zent :=
  let b' := mk_zent w (body b) in b' :: widen (elen b') B.

Lemma relink_bodies w b B : map body (relink w b B) = map body (b :: B).
Proof. unfold relink. cbn [map body]. by rewrite widen_bodies. Qed.

Lemma relink_esize w b B : esize (relink w b B) <= esize (b :: B) + 4 * zlen (b :: B).
Proof.
  unfold relink. cbn [esize]. rewrite zlen_cons. pose proof (widen_esize (elen (mk_zent w (body b))) B) as HW.
  revert HW. generalize (esize (widen (elen (mk_zent w (body b))) B)). intros W HW. unfold elen, psize. cbn [wide body]. destruct w, (wide b); lia.
Qed.

Lemma widen_same L es : chain L es -> widen L es = es.
Proof.
  destruct es as [|e es]; [done|]. intros (_ & [_ Hw] & _). cbn [widen]. destruct (wide e); [by rewrite andb_false_r|]. specialize (Hw eq_refl).
  by rewrite (proj2 (Z.leb_gt _ _)).
Qed.

Lemma buf_move_split zl a s c P Q D q dst src n : zl = a ++ s ++ c -> zl = P ++ Q ++ D -> 0 <= q -> q + zlen s = zlen Q ->
  dst = zlen P + q -> src = zlen a -> n = zlen s -> exists x, zlen x = q /\ buf_move zl dst src n = Some (P ++ x ++ s ++ D).
Proof.
  intros E1 E2 Hq Hs -> -> ->. unfold buf_move. rewrite E1, buf_read_app by done. cbn [mbind option_bind]. rewrite <- E1, E2.
  exists (take (Z.to_nat q) Q). pose proof (zlen_nonneg s). assert (zlen (take (Z.to_nat q) Q) = q) as Ht by (unfold zlen in *; rewrite length_take; lia). split; [done|].
  rewrite <- (take_drop (Z.to_nat q) Q) at 1. rewrite <- app_assoc, (app_assoc P), buf_write_app; [by rewrite <- app_assoc|zlen|].
  rewrite length_drop. unfold zlen in *. lia.
Qed.

(** The bytes in which an entry of [req] bytes is stored in the next one: an
    entry of less than 4 bytes leaves the 5 bytes there. *)
Definition next_wide (req : Z) (b : zent) : bool := (ZIP_BIG_PREVLEN <=? req) || (wide b && (req <? 4)).

Lemma next_wide_spec req b : 0 <= req < 2 ^ 32 -> let diff := zipStorePrevEntryLength_NULL req - psize (wide b) in
  i32 diff = diff /\ (if (diff =? -4) && (req <? 4) then 0 else diff) = psize (next_wide req b) - psize (wide b) /\
  0 <= req + (psize (next_wide req b) - psize (wide b)) /\ prev_ok (next_wide req b) req /\
  (if (diff =? -4) && (req <? 4) then next_wide req b = true else next_wide req b = (ZIP_BIG_PREVLEN <=? req)).
Proof.
  intros Hr diff. assert (- 4 <= diff <= 4) as Hd by (unfold diff, zipStorePrevEntryLength_NULL, psize; destruct (req <? ZIP_BIG_PREVLEN), (wide b); lia).
  split; [apply i32_small; lia|]. unfold diff, next_wide, zipStorePrevEntryLength_NULL, prev_ok, psize, ZIP_BIG_PREVLEN in *.
  destruct (Z.ltb_spec req 254), (Z.leb_spec 254 req), (wide b), (Z.ltb_spec req 4); cbn; split_and!; try lia; done.
Qed.

(** The entries after an insertion. *)
Definition new_entry (prev : Z) (s : list byte) : zent := mk_zent (ZIP_BIG_PREVLEN <=? prev) (new_body s).

Definition inserted (A B : list zent) (s : list byte) : list zent :=
  let n := new_entry (lastlen 0 A) s in
  A ++ n :: match B with [] => [] | b :: B => relink (next_wide (elen n) b) b B end.

Lemma bind2_assoc {A B C D} (m : option A) (f : A -> option B) (g : A -> B -> option C) (h : C -> option D) :
  (a ← m; b ← f a; c ← g a b; h c) = (c ← (a ← m; b ← f a; g a b); h c).
Proof. destruct m as [a|]; [|done]. cbn [mbind option_bind]. by destruct (f a). Qed.

Lemma block_split cnt A B : exists h, zlen h = 10 + esize A /\ block cnt (A ++ B) = h ++ flat (lastlen 0 A) B ++ [ZIP_END].
Proof.
  exists (hdr (11 + esize (A ++ B)) (10 + tailoff (A ++ B)) cnt ++ flat 0 A). split; [zlen|]. unfold block. by rewrite flat_app, <- !app_assoc.
Qed.

(** The entries after a deletion. *)
Definition deleted (A B : list zent) : list zent :=
  A ++ match B with [] => [] | b :: B => relink (ZIP_BIG_PREVLEN <=? lastlen 0 A) b B end.

Section Ops.
Context `{Host} (fill : nat -> byte).

Lemma block_BYTES cnt es : 11 + esize es < 2 ^ 32 -> ZIPLIST_BYTES (block cnt es) = Some (11 + esize es).
Proof. intros Hs. pose proof (esize_nonneg es). apply get_BYTES. lia. Qed.

Lemma block_TAIL cnt es : 11 + esize es < 2 ^ 32 -> ZIPLIST_TAIL_OFFSET (block cnt es) = Some (10 + tailoff es).
Proof. intros Hs. pose proof (tailoff_nonneg es). pose proof (tailoff_le es). apply get_TAIL. lia. Qed.

Lemma relink_spec X L w b B cnt p : let b' := mk_zent w (body b) in
  ent_ok b -> prev_ok w L -> chain (elen b) B -> 11 + zlen X + esize (b' :: B) + 4 * zlen B < 2 ^ 32 -> p = 10 + zlen X ->
  let zl := hdr (11 + zlen X + esize (b' :: B)) (10 + zlen X + tailoff (b' :: B)) cnt ++ X ++ ent_bytes L b' ++ flat (elen b) B ++ [ZIP_END] in
  (if negb (psize w - psize (wide b) =? 0) then __ziplistCascadeUpdate fill zl p else Some zl) =
  Some (hdr (11 + zlen X + esize (relink w b B)) (10 + zlen X + tailoff (relink w b B)) cnt ++ X ++ flat L (relink w b B) ++ [ZIP_END]).
Proof.
  intros b' Hb Hp Hc Hs -> zl. unfold zl. destruct (Z.eqb_spec (psize w - psize (wide b)) 0) as [E|E]; cbn [negb].
  - assert (w = wide b) as -> by (unfold psize in E; destruct w, (wide b); done). assert (b' = b) as -> by (by destruct b). unfold relink. replace (mk_zent (wide b) (body b)) with b by (by destruct b).
    rewrite widen_same by done. cbn [flat]. by rewrite <- app_assoc.
  - rewrite cascade_spec; [unfold relink; fold b'; cbn [flat]; by rewrite <- app_assoc|done|done|done| |done].
    destruct B as [|e B]; [done|]. destruct Hc as (_ & [_ Hw] & _). intros HL He. specialize (Hw He). unfold b', elen, psize, delta in *. cbn [wide body] in *. destruct w, (wide b); lia.
Qed.

(** ** Insertion *)

Lemma incr_length_at sz tl cnt X d : 0 <= cnt < 2 ^ 16 -> ZIPLIST_INCR_LENGTH (hdr sz tl cnt ++ X) d = Some (hdr sz tl (incr cnt d) ++ X).
Proof. intros Hc. unfold ZIPLIST_INCR_LENGTH, incr. rewrite get_LENGTH by done. cbn [mbind option_bind]. case_if; [by rewrite set_LENGTH_at|done]. Qed.

Lemma prev_size prev : zipStorePrevEntryLength_NULL prev = psize (ZIP_BIG_PREVLEN <=? prev).
Proof. unfold zipStorePrevEntryLength_NULL, psize. destruct (Z.ltb_spec prev ZIP_BIG_PREVLEN), (Z.leb_spec ZIP_BIG_PREVLEN prev); lia. Qed.

Lemma insert_finish sz tl cnt F g Y prev s p enc value k : 0 <= cnt < 2 ^ 16 -> 0 <= prev < 2 ^ 32 -> zlen s < 2 ^ 32 -> p = 10 + zlen F ->
  let n := mk_zent (ZIP_BIG_PREVLEN <=? prev) (new_body s) in zlen g = elen n -> entry_payload s = Some (enc, value, k) ->
  ('(zl, k) ← zipStorePrevEntryLength (hdr sz tl cnt ++ F ++ g ++ Y) p prev;
   zl ← write_payload zl (p + k) enc value s; ZIPLIST_INCR_LENGTH zl 1) =
  Some (hdr sz tl (incr cnt 1) ++ F ++ ent_bytes prev n ++ Y).
Proof.
  intros Hc Hp Hs -> n Hg He. destruct (entry_payload_spec s Hs) as (enc' & value' & k' & He' & _ & _ & Hw). rewrite He in He'. injection He' as <- <- <-.
  unfold elen in Hg. change (body n) with (new_body s) in Hg. pose proof (zlen_nonneg (new_body s)). assert (1 <= psize (wide n)) by (unfold psize; destruct (wide n); lia).
  rewrite <- (take_drop (Z.to_nat (psize (wide n))) g).
  assert (zlen (take (Z.to_nat (psize (wide n))) g) = psize (wide n) /\ zlen (drop (Z.to_nat (psize (wide n))) g) = zlen (new_body s)) as [Ht Hd].
  { unfold zlen in *. rewrite length_take, length_drop. lia. }
  rewrite <- (app_assoc (take _ _)), (app_assoc (hdr sz tl cnt) F). rewrite store_prev; [|by rewrite prev_size|done|zlen]. cbn [mbind option_bind].
  change (ZIP_BIG_PREVLEN <=? prev) with (wide n). rewrite Ht. rewrite (app_assoc _ (prev_bytes _ _)). rewrite Hw; [|done|zlen]. cbn [mbind option_bind].
  rewrite <- !app_assoc. rewrite incr_length_at by done. unfold ent_bytes. by rewrite <- !app_assoc.
Qed.

Lemma lastlen_range prev es : chain prev es -> 0 <= prev < 2 ^ 32 -> esize es < 2 ^ 32 -> 0 <= lastlen prev es < 2 ^ 32.
Proof.
  intros Hc Hp Hs. destruct es as [|e es _] using rev_ind; [done|]. rewrite lastlen_app, esize_app in *. cbn [lastlen esize] in *. apply chain_app in Hc as [_ (He & _)].
  pose proof (elen_pos e He). pose proof (esize_nonneg es). lia.
Qed.

Lemma prevlen_at_spec cnt A B : chain 0 (A ++ B) -> 11 + esize (A ++ B) < 2 ^ 32 ->
  prevlen_at (block cnt (A ++ B)) (11 + esize (A ++ B)) (10 + esize A) = Some (lastlen 0 A).
Proof.
  intros Hc Hs. unfold prevlen_at, block. rewrite flat_app, <- app_assoc. rewrite (app_assoc _ (flat 0 A)). apply chain_app in Hc as [HA HB].
  set (a := hdr _ _ _ ++ flat 0 A). assert (10 + esize A = zlen a) as -> by (unfold a; zlen). destruct B as [|b B].
  - cbn [flat app]. rewrite byte_at_end by done. cbn [mbind option_bind Z.eqb ZIP_END Pos.eqb negb]. unfold a in *. rewrite app_nil_r in *. rewrite <- app_assoc.
    pose proof (tailoff_nonneg A). pose proof (tailoff_le A). rewrite get_TAIL by lia. cbn [mbind option_bind]. destruct A as [|e A _] using rev_ind.
    + cbn [flat app lastlen]. change (10 + tailoff []) with 10. rewrite byte_at_end by done. done.
    + rewrite tailoff_snoc, flat_app, lastlen_app. cbn [flat lastlen]. rewrite app_nil_r, <- app_assoc, (app_assoc _ (flat 0 A)). apply chain_app in HA as [HA (He & Hp & _)].
      assert (10 + esize A = zlen (hdr (11 + esize (A ++ [e])) (10 + esize A) cnt ++ flat 0 A)) as Hz by zlen.
      destruct (byte_at_ent (hdr (11 + esize (A ++ [e])) (10 + esize A) cnt ++ flat 0 A) (lastlen 0 A) e [ZIP_END] (10 + esize A) Hp Hz) as (x & -> & Hx). cbn [mbind option_bind]. rewrite Hx. cbn [negb].
      unfold zipRawEntryLengthSafe. rewrite assert_entry_at; [|done|done|exact Hz|unfold ZIPLIST_HEADER_SIZE; pose proof (esize_nonneg A); lia|rewrite esize_app; cbn [esize]; lia|done].
      cbn [mbind option_bind]. rewrite zipRawEntryLength_u32; [done|done|]. rewrite esize_app in Hs. cbn [esize] in Hs. pose proof (esize_nonneg A). lia.
  - destruct HB as (Hb & Hp & _). destruct (byte_at_entry a (lastlen 0 A) b B [ZIP_END] (zlen a) Hp eq_refl) as (x & -> & Hx). cbn [mbind option_bind]. rewrite Hx. cbn [negb flat].
    unfold ent_bytes. rewrite <- !app_assoc. by rewrite decode_prevlen.
Qed.

(** Make room before [b] and store the length there. *)
Lemma insert_move P prev b FB J req p n : 10 <= zlen P -> ent_ok b -> 2 <= req < 2 ^ 32 ->
  let w := next_wide req b in let nextdiff := psize w - psize (wide b) in let b' := mk_zent w (body b) in
  zlen J = req + nextdiff -> p = zlen P -> n = elen b + zlen FB + nextdiff ->
  exists x zl1 k, zlen x = req /\
    buf_move (P ++ ent_bytes prev b ++ FB ++ J ++ [ZIP_END]) (p + req) (p - nextdiff) n = Some zl1 /\
    (if (zipStorePrevEntryLength_NULL req - psize (wide b) =? -4) && (req <? 4) then zipStorePrevEntryLengthLarge zl1 (p + req) req
     else zipStorePrevEntryLength zl1 (p + req) req) = Some (P ++ x ++ ent_bytes req b' ++ FB ++ [ZIP_END], k).
Proof.
  intros HP Hb Hr w nextdiff b' HJ -> ->. destruct (next_wide_spec req b) as (_ & _ & Hnd & Hpo & Hfl); [lia|]. fold w nextdiff in Hnd, Hpo, Hfl.
  assert (1 <= psize w <= 5 /\ 1 <= psize (wide b) <= 5) as [Hpw Hpb] by (unfold psize; destruct w, (wide b); lia).
  set (T := P ++ prev_bytes (wide b) prev). assert (zlen T = zlen P + psize (wide b)) as HT by (unfold T; zlen). set (q := Z.to_nat (zlen T - psize w)).
  assert (zlen (take q T) = zlen T - psize w /\ zlen (drop q T) = psize w) as [Ht Hd] by (unfold q, zlen in *; rewrite length_take, length_drop; lia).
  destruct (buf_move_split (P ++ ent_bytes prev b ++ FB ++ J ++ [ZIP_END]) (take q T) (drop q T ++ body b ++ FB) (J ++ [ZIP_END]) P (ent_bytes prev b ++ FB ++ J) [ZIP_END] req
    (zlen P + req) (zlen P - nextdiff) (elen b + zlen FB + nextdiff)) as (x & Hx & Hmv).
  - rewrite <- !app_assoc, (app_assoc (take q T)), take_drop. unfold T, ent_bytes. by rewrite <- !app_assoc.
  - by rewrite <- !app_assoc.
  - lia.
  - rewrite !zlen_app, Hd, HJ, ent_bytes_zlen. unfold elen. lia.
  - lia.
  - unfold nextdiff. lia.
  - rewrite !zlen_app, Hd. unfold elen, nextdiff. lia.
  - rewrite <- (app_assoc (drop q T)), <- app_assoc, (app_assoc P x) in Hmv.
    eexists x, _, (psize w). split_and!; [done|exact Hmv|]. unfold ent_bytes. cbn [wide body b']. destruct ((_ =? -4) && (req <? 4)).
    + rewrite Hfl in *. rewrite store_large by (done || lia || zlen). by rewrite <- !app_assoc.
    + assert (psize w = zipStorePrevEntryLength_NULL req) as Hw by (rewrite Hfl; unfold psize, zipStorePrevEntryLength_NULL; destruct (Z.leb_spec ZIP_BIG_PREVLEN req), (Z.ltb_spec req ZIP_BIG_PREVLEN); lia).
      rewrite store_prev; [|by rewrite Hd|lia|zlen]. rewrite Hd, <- Hfl. by rewrite <- !app_assoc.
Qed.

(** The last entry moves with the room, and with the change of the length of [b]
    if it is not [b]. *)
Lemma insert_tail sz tl cnt X b B req d p : ent_ok b -> prev_ok (wide b) req -> chain (elen b - d) B -> 0 <= tl -> 0 <= tl + req < 2 ^ 32 ->
  10 <= p -> p + req = 10 + zlen X -> 0 <= req -> sz = 11 + zlen X + elen b + esize B -> sz < 2 ^ 32 ->
  let zl := hdr sz tl cnt ++ X ++ ent_bytes req b ++ flat (elen b - d) B ++ [ZIP_END] in
  (tail ← ZIPLIST_TAIL_OFFSET zl;
   zl ← set_TAIL_OFFSET zl (tail + req);
   e ← assert_entry zl sz (p + req) true;
   c ← byte_at zl (p + (req + headersize e + len e));
   if negb (c =? ZIP_END) then tail ← ZIPLIST_TAIL_OFFSET zl; set_TAIL_OFFSET zl (tail + d) else Some zl) =
  Some (hdr sz (tl + req + (if decide (B = []) then 0 else d)) cnt ++ X ++ ent_bytes req b ++ flat (elen b - d) B ++ [ZIP_END]).
Proof.
  intros Hb Hp HB Htl Htl' Hp10 Hpr Hr Hsz Hs zl. unfold zl. pose proof (elen_pos b Hb). pose proof (esize_nonneg B). rewrite get_TAIL by lia. cbn [mbind option_bind]. rewrite set_TAIL_at. cbn [mbind option_bind].
  set (h := hdr sz (tl + req) cnt). assert (zlen h = 10) as Hh by done. rewrite (app_assoc h).
  rewrite assert_entry_at; [|done|done|zlen|unfold ZIPLIST_HEADER_SIZE; lia|lia|unfold ZIPLIST_HEADER_SIZE; lia]. cbn [mbind option_bind].
  destruct (entry_of_fields req b Hb) as (_ & _ & He & _). replace (p + (req + headersize (entry_of req b) + len (entry_of req b))) with (zlen ((h ++ X) ++ ent_bytes req b)) by (rewrite !zlen_app, ent_bytes_zlen; lia).
  rewrite (app_assoc (h ++ X)). destruct B as [|e B].
  - cbn [flat app]. rewrite byte_at_end by done. cbn [mbind option_bind Z.eqb ZIP_END Pos.eqb negb]. rewrite decide_True, Z.add_0_r, <- !app_assoc by done. done.
  - destruct HB as (_ & Hpe & _). destruct (byte_at_entry ((h ++ X) ++ ent_bytes req b) (elen b - d) e B [ZIP_END] _ Hpe eq_refl) as (c & -> & Hc). cbn [mbind option_bind]. rewrite Hc. cbn [negb].
    rewrite <- !app_assoc. unfold h. rewrite get_TAIL by lia. cbn [mbind option_bind]. rewrite set_TAIL_at, decide_False by done. done.
Qed.

(** Room for an entry of [req] bytes before [b], whose length [b] stores. *)
Lemma insert_room cnt A b B req p : chain 0 (A ++ b :: B) -> 2 <= req -> p = 10 + esize A ->
  let w := next_wide req b in let nextdiff := psize w - psize (wide b) in
  let curlen := 11 + esize (A ++ b :: B) in let newlen := curlen + req + nextdiff in let b' := mk_zent w (body b) in newlen + 4 * zlen B + 4 < 2 ^ 32 ->
  exists x, zlen x = req /\
  (zl ← ziplistResize fill (block cnt (A ++ b :: B)) newlen;
   c ← byte_at zl p;
   if negb (c =? ZIP_END) then
     zl ← buf_move zl (p + req) (p - nextdiff) (curlen - p - 1 + nextdiff);
     '(zl, _) ← (if (zipStorePrevEntryLength_NULL req - psize (wide b) =? -4) && (req <? 4) then zipStorePrevEntryLengthLarge zl (p + req) req
                 else zipStorePrevEntryLength zl (p + req) req);
     tail ← ZIPLIST_TAIL_OFFSET zl;
     zl ← set_TAIL_OFFSET zl (tail + req);
     e ← assert_entry zl newlen (p + req) true;
     c ← byte_at zl (p + (req + headersize e + len e));
     if negb (c =? ZIP_END) then tail ← ZIPLIST_TAIL_OFFSET zl; set_TAIL_OFFSET zl (tail + nextdiff) else Some zl
   else set_TAIL_OFFSET zl p) =
  Some (hdr (11 + zlen (flat 0 A ++ x) + esize (b' :: B)) (10 + zlen (flat 0 A ++ x) + tailoff (b' :: B)) cnt ++
        (flat 0 A ++ x) ++ ent_bytes req b' ++ flat (elen b) B ++ [ZIP_END]).
Proof.
  intros Hc Hr -> w nextdiff curlen newlen b' Hs. apply chain_app in Hc as [HA (Hb & Hp & HB)].
  pose proof (esize_nonneg A). pose proof (esize_nonneg B). pose proof (elen_pos b Hb). pose proof (zlen_nonneg B). assert (curlen = 11 + esize A + elen b + esize B) as Hcl by (unfold curlen; rewrite esize_app; cbn [esize]; lia).
  assert (1 <= psize w <= 5 /\ 1 <= psize (wide b) <= 5) as [Hpw Hpb] by (unfold psize; destruct w, (wide b); lia).
  assert (elen b' = elen b + nextdiff) as Hb' by (unfold b', nextdiff, elen; cbn [wide body]; lia).
  destruct (next_wide_spec req b) as (_ & _ & Hnd & Hpo & Hfl); [unfold newlen in *; lia|]. fold w nextdiff in Hnd, Hpo, Hfl.
  unfold block. fold curlen. destruct (resize_grow fill curlen (10 + tailoff (A ++ b :: B)) cnt (flat 0 (A ++ b :: B)) newlen) as (J & -> & HJ & _); [rewrite flat_zlen; unfold newlen, curlen; lia|].
  cbn [mbind option_bind]. rewrite flat_zlen in HJ. fold curlen in HJ. set (h := hdr newlen (10 + tailoff (A ++ b :: B)) cnt). assert (zlen h = 10) as Hh by done.
  rewrite flat_app. cbn [flat]. rewrite <- !app_assoc, (app_assoc h). assert (10 + esize A = zlen (h ++ flat 0 A)) as Hz by zlen.
  destruct (byte_at_ent (h ++ flat 0 A) (lastlen 0 A) b (flat (elen b) B ++ J ++ [ZIP_END]) (10 + esize A) Hp Hz) as (c & -> & Hce). cbn [mbind option_bind]. rewrite Hce. cbn [negb].
  destruct (insert_move (h ++ flat 0 A) (lastlen 0 A) b (flat (elen b) B) J req (10 + esize A) (curlen - (10 + esize A) - 1 + nextdiff)) as (x & zl1 & k & Hx & Hmv & Hst);
    [zlen|done|unfold newlen in Hs; lia|unfold newlen in HJ; fold w nextdiff; lia|done|fold w nextdiff; rewrite flat_zlen; lia|].
  exists x. split; [done|]. fold w nextdiff in Hmv. fold w b' in Hst. rewrite Hmv. cbn [mbind option_bind]. rewrite Hst. cbn [mbind option_bind]. rewrite <- !app_assoc, (app_assoc (flat 0 A)).
  pose proof (tailoff_nonneg (A ++ b :: B)). pose proof (tailoff_le (A ++ b :: B)). replace (elen b) with (elen b' - nextdiff) in HB |- * by lia. unfold h. rewrite insert_tail; try done; try lia.
  - do 3 f_equal; [rewrite zlen_app, flat_zlen, Hx; cbn [esize]; unfold newlen; lia|]. rewrite tailoff_app, !tailoff_cons by done. rewrite zlen_app, flat_zlen, Hx. destruct B; [rewrite decide_True by done; lia|rewrite decide_False by done; lia].
  - zlen.
  - rewrite zlen_app, flat_zlen, Hx. unfold newlen. lia.
Qed.

Lemma insert_spec cnt A B s : chain 0 (A ++ B) -> 0 <= cnt < 2 ^ 16 -> 11 + esize (A ++ B) + 4 * zlen B + zlen s + 32 < 2 ^ 32 ->
  __ziplistInsert fill (block cnt (A ++ B)) (10 + esize A) s = Some (block (incr cnt 1) (inserted A B s)).
Proof.
  intros Hc Hcnt Hs. pose proof (esize_nonneg (A ++ B)). pose proof (zlen_nonneg B). pose proof (zlen_nonneg s). pose proof (esize_nonneg A).
  unfold __ziplistInsert. rewrite block_BYTES by lia. cbn [mbind option_bind]. rewrite prevlen_at_spec by (done || lia). cbn [mbind option_bind].
  destruct (entry_payload_spec s) as (enc & value & k & He & Hk & Hbl & _); [lia|]. rewrite He. cbn [mbind option_bind].
  assert (0 <= lastlen 0 A < 2 ^ 32) as Hpl by (apply lastlen_range; [by apply chain_app in Hc as [? _]|lia|rewrite esize_app in *; pose proof (esize_nonneg B); lia]).
  set (n := new_entry (lastlen 0 A) s). assert (k + zipStorePrevEntryLength_NULL (lastlen 0 A) + zipStoreEntryEncoding_NULL enc (zlen s) = elen n) as ->.
  { rewrite prev_size. unfold n, new_entry, elen. cbn [wide body]. lia. }
  assert (2 <= elen n <= 10 + Z.max (zlen s) 8) as Hn by (unfold n, new_entry, elen, psize; cbn [wide body]; destruct (ZIP_BIG_PREVLEN <=? lastlen 0 A); lia).
  rewrite (u32_small (elen n)) by lia. destruct B as [|b B].
  - rewrite app_nil_r in *. unfold block. rewrite app_assoc, byte_at_end by zlen. cbn [mbind option_bind Z.eqb ZIP_END Pos.eqb negb Z.opp andb].
    rewrite Z.add_0_r, u64_small, u32_small, <- app_assoc by lia.
    destruct (resize_grow fill (11 + esize A) (10 + tailoff A) cnt (flat 0 A) (11 + esize A + elen n)) as (J & -> & HJ & HJe); [rewrite flat_zlen; lia|]. cbn [mbind option_bind].
    assert (byte_at (hdr (11 + esize A + elen n) (10 + tailoff A) cnt ++ flat 0 A ++ J ++ [ZIP_END]) (10 + esize A) = Some ZIP_END) as ->.
    { destruct (J ++ [ZIP_END]) as [|j J'] eqn:EJ; [done|]. injection HJe as ->. rewrite app_assoc. apply byte_at_end. zlen. }
    cbn [mbind option_bind Z.eqb ZIP_END Pos.eqb negb]. rewrite set_TAIL_at. cbn [mbind option_bind]. rewrite flat_zlen in HJ.
    erewrite insert_finish; [|exact Hcnt|exact Hpl|lia|zlen|change (zlen J = elen n); lia|exact He]. unfold inserted. fold n. rewrite tailoff_snoc, flat_app, esize_app. cbn [flat esize]. rewrite app_nil_r, <- app_assoc. do 2 f_equal. f_equal. lia.
  - apply chain_app in Hc as Hc'. destruct Hc' as [HA (Hb & Hp & HB)]. rewrite zlen_cons in Hs. pose proof (zlen_nonneg B). destruct (block_split cnt A (b :: B)) as (h & Hh & Eh).
    rewrite Eh at 1. destruct (byte_at_entry h (lastlen 0 A) b B [ZIP_END] (10 + esize A) Hp (eq_sym Hh)) as (c & -> & Hce). cbn [mbind option_bind]. rewrite Hce. cbn [negb].
    unfold zipPrevLenByteDiff. rewrite Eh at 1. cbn [flat]. unfold ent_bytes at 1. rewrite <- !app_assoc, <- Hh, decode_prevlensize by done. cbn [mbind option_bind].
    destruct (next_wide_spec (elen n) b) as (Hi & Hnd & Hnn & Hpo & _); [lia|]. rewrite Hi, Hnd. rewrite Hh.
    assert (1 <= psize (next_wide (elen n) b) <= 5 /\ 1 <= psize (wide b) <= 5) as [Hpw Hpb] by (unfold psize; destruct (next_wide (elen n) b), (wide b); lia).
    rewrite u64_small, u32_small by lia. rewrite bind2_assoc.
    destruct (insert_room cnt A b B (elen n) (10 + esize A)) as (x & Hx & Hr); [done|lia|done|lia|]. rewrite Hr. clear Hr. cbn [mbind option_bind].
    rewrite relink_spec; [|done|done|done| |zlen].
    2:{ rewrite zlen_app, flat_zlen, Hx. cbn [esize]. rewrite esize_app in Hs. cbn [esize] in Hs. unfold elen in Hs |- * at 2. cbn [wide body]. lia. }
    cbn [mbind option_bind]. rewrite <- !app_assoc. erewrite insert_finish; [|exact Hcnt|exact Hpl|lia|zlen|exact Hx|exact He].
    fold (new_entry (lastlen 0 A) s). fold n. unfold block, inserted. fold n. rewrite flat_app, tailoff_app, esize_app by done. cbn [flat esize]. rewrite tailoff_cons, zlen_app, flat_zlen, Hx, <- !app_assoc.
    unfold relink at 1 4. do 2 f_equal. unfold relink. f_equal; lia.
Qed.

(** ** Deletion *)

Lemma delete_scan_spec D : forall h prev B fuel zlbytes p num k, chain prev (D ++ B) -> zlen h = p -> 10 <= p -> p + esize (D ++ B) < zlbytes -> zlbytes < 2 ^ 32 ->
  (length (D ++ B) <= fuel)%nat -> (k + zlen D = num \/ k + zlen D < num /\ B = []) ->
  delete_scan fuel (h ++ flat prev (D ++ B) ++ [ZIP_END]) zlbytes p num k = Some (p + esize D, k + zlen D).
Proof.
  induction D as [|d D IH]; intros h prev B fuel zlbytes p num k Hc Hh Hp Hs Hs' Hf Hn.
  - change (zlen (@nil zent)) with 0 in *. cbn [app esize] in *. rewrite !Z.add_0_r in *. destruct B as [|b B].
    + cbn [flat app]. destruct fuel; cbn [delete_scan]; (rewrite byte_at_end by done); done.
    + destruct Hc as (_ & Hpo & _). destruct (byte_at_entry h prev b B [ZIP_END] p Hpo (eq_sym Hh)) as (c & Hb & Hce). assert ((k <? num) = false) as Hk by (destruct Hn as [|[_ ?]]; [lia|done]).
      destruct fuel; cbn [delete_scan]; rewrite Hb; cbn [mbind option_bind]; rewrite Hk, andb_false_r; done.
  - cbn [app length] in *. destruct fuel as [|fuel]; [lia|]. destruct Hc as (Hd & Hpo & Hc). destruct (byte_at_entry h prev d (D ++ B) [ZIP_END] p Hpo (eq_sym Hh)) as (c & Hb & Hce).
    cbn [delete_scan]. rewrite Hb. cbn [mbind option_bind]. rewrite Hce. cbn [esize] in *. rewrite zlen_cons in *. pose proof (zlen_nonneg D). rewrite (proj2 (Z.ltb_lt k num)) by lia. cbn [negb andb].
    pose proof (elen_pos d Hd). pose proof (esize_nonneg (D ++ B)). cbn [flat]. rewrite <- !app_assoc. unfold zipRawEntryLengthSafe. rewrite assert_entry_at; [|done|done|done|unfold ZIPLIST_HEADER_SIZE; lia|lia|done].
    cbn [mbind option_bind]. rewrite zipRawEntryLength_u32 by (done || lia). rewrite app_assoc, IH; [do 2 f_equal; lia|done|zlen|lia..|].
    destruct Hn as [Hn|[Hn HB]]; [left; lia|right; split; [lia|done]].
Qed.

Lemma tailoff_last es : tailoff es = esize es - lastlen 0 es.
Proof. destruct es as [|e es _] using rev_ind; [done|]. rewrite tailoff_snoc, esize_app, lastlen_app. cbn [esize lastlen]. lia. Qed.

Lemma lastlen_le es : chain 0 es -> 0 <= lastlen 0 es <= esize es.
Proof.
  intros Hc. pose proof (tailoff_last es). pose proof (tailoff_nonneg es). destruct es as [|e es _] using rev_ind; [done|].
  rewrite lastlen_app in *. cbn [lastlen] in *. apply chain_app in Hc as [_ (He & _)]. pose proof (elen_pos e He). lia.
Qed.

(** The deleted entries leave enough room for a longer length in the next one. *)
Lemma delete_room L D b : chain L D -> D <> [] -> ent_ok b -> let nextdiff := psize (ZIP_BIG_PREVLEN <=? L) - psize (wide b) in
  - 4 <= nextdiff <= 4 /\ nextdiff + 2 <= esize D /\ - nextdiff < elen b.
Proof.
  intros HD HDn Hb nextdiff. destruct D as [|d D]; [done|]. destruct HD as (Hd & [_ Hdw] & _). pose proof (esize_nonneg D). cbn [esize].
  destruct (ent_ok_info d Hd) as (? & ? & ? & _ & _ & _ & ? & ? & ?). destruct (ent_ok_info b Hb) as (? & ? & ? & _ & _ & _ & ? & ? & ?).
  unfold nextdiff, elen, psize. destruct (Z.leb_spec ZIP_BIG_PREVLEN L), (wide b), (wide d); try (specialize (Hdw eq_refl)); lia.
Qed.

(** The entries after the deleted ones move over them. *)
Lemma delete_move sz tl cnt FA G L b B d eD p : ent_ok b -> prev_ok (wide b) L -> chain (elen b - d) B -> 0 <= L <= zlen FA -> zlen G + d = eD -> 0 <= eD -> - 4 <= d <= 4 ->
  sz = 11 + zlen FA + eD + (elen b - d) + esize B -> sz < 2 ^ 32 -> 10 + eD <= tl < sz -> p = 10 + zlen FA + eD - d ->
  let zl := (hdr sz tl cnt ++ FA ++ G) ++ ent_bytes L b ++ flat (elen b - d) B ++ [ZIP_END] in
  exists y, zlen y = zlen G /\
  (tail ← ZIPLIST_TAIL_OFFSET zl;
   e ← assert_entry zl sz p true;
   c ← byte_at zl (p + headersize e + len e);
   zl ← buf_move zl (10 + zlen FA) p (sz - p - 1);
   Some (zl, d, if negb (c =? ZIP_END) then u32 (u32 (tail - eD) + d) else u32 (tail - eD))) =
  Some (hdr sz tl cnt ++ (FA ++ ent_bytes L b ++ flat (elen b - d) B) ++ y ++ [ZIP_END], d, tl - eD + (if decide (B = []) then 0 else d)).
Proof.
  intros Hb Hp HB HL HG HeD Hd Hsz Hs Htl Hpe zl. pose proof (elen_pos b Hb). pose proof (esize_nonneg B). pose proof (zlen_nonneg FA). pose proof (zlen_nonneg G).
  assert (ZIPLIST_TAIL_OFFSET zl = Some tl) as -> by (unfold zl; rewrite <- !app_assoc; apply get_TAIL; lia). cbn [mbind option_bind].
  set (h := hdr sz tl cnt) in *. assert (zlen h = 10) as Hh by done. assert (p = zlen (h ++ FA ++ G)) as Hpz by zlen.
  unfold zl. rewrite assert_entry_at; [|done|done|done|unfold ZIPLIST_HEADER_SIZE; lia|lia|unfold ZIPLIST_HEADER_SIZE; lia]. cbn [mbind option_bind].
  destruct (entry_of_fields L b Hb) as (_ & _ & He & _). rewrite <- (Z.add_assoc p), He.
  assert (exists c, byte_at ((h ++ FA ++ G) ++ ent_bytes L b ++ flat (elen b - d) B ++ [ZIP_END]) (p + elen b) = Some c /\
    (if negb (c =? ZIP_END) then u32 (u32 (tl - eD) + d) else u32 (tl - eD)) = tl - eD + (if decide (B = []) then 0 else d)) as (c & -> & Htail).
  { rewrite (app_assoc (h ++ FA ++ G)). rewrite !(u32_small (tl - eD)) by lia. destruct B as [|e B].
    - cbn [flat app]. rewrite byte_at_end by zlen. eexists. split; [done|]. rewrite decide_True by done. cbn. lia.
    - destruct HB as (_ & Hpe' & _). destruct (byte_at_entry ((h ++ FA ++ G) ++ ent_bytes L b) (elen b - d) e B [ZIP_END] (p + elen b) Hpe') as (c & Hc & Hce); [zlen|].
      exists c. split; [done|]. rewrite Hce, decide_False by done. cbn [negb]. rewrite u32_small by lia. done. }
  cbn [mbind option_bind]. rewrite Htail. destruct (buf_move_down (h ++ FA) G (ent_bytes L b ++ flat (elen b - d) B) [ZIP_END]) as (y & Hy & Hmv). exists y. split; [done|].
  rewrite <- !app_assoc in Hmv. rewrite <- !app_assoc. replace (10 + zlen FA) with (zlen (h ++ FA)) by zlen. replace (sz - p - 1) with (zlen (ent_bytes L b ++ flat (elen b - d) B)) by zlen.
  replace p with (zlen (h ++ FA) + zlen G) by zlen. rewrite Hmv. done.
Qed.

(** The next entry stores the length before the deleted ones, and the rest moves. *)
Lemma delete_next cnt A D b B L : chain 0 (A ++ D ++ b :: B) -> D <> [] -> 11 + esize (A ++ D ++ b :: B) < 2 ^ 32 -> L = lastlen 0 A ->
  let w := ZIP_BIG_PREVLEN <=? L in let nextdiff := psize w - psize (wide b) in let b' := mk_zent w (body b) in
  let zlbytes := 11 + esize (A ++ D ++ b :: B) in let zl := block cnt (A ++ D ++ b :: B) in
  exists y sz tl, zlen y + nextdiff = esize D /\
  (nextdiff ← zipPrevLenByteDiff zl (10 + esize A + esize D) L;
   let p := 10 + esize A + esize D - nextdiff in
   if (p <? 10 + esize A) || (zlbytes - 1 <=? p) then None
   else
     '(zl, _) ← zipStorePrevEntryLength zl p L;
     tail ← ZIPLIST_TAIL_OFFSET zl;
     let set_tail := u32 (tail - esize D) in
     e ← assert_entry zl zlbytes p true;
     c ← byte_at zl (p + headersize e + len e);
     let set_tail := if negb (c =? ZIP_END) then u32 (set_tail + nextdiff) else set_tail in
     zl ← buf_move zl (10 + esize A) p (zlbytes - p - 1);
     Some (zl, nextdiff, set_tail)) =
  Some (hdr sz tl cnt ++ (flat 0 A ++ ent_bytes L b' ++ flat (elen b) B) ++ y ++ [ZIP_END], nextdiff, 10 + esize A + tailoff (b' :: B)).
Proof.
  intros Hc HD Hs HL w nextdiff b' zlbytes zl. apply chain_app in Hc as [HA HDB]. apply chain_app in HDB as [HDc (Hb & Hp & HB)]. rewrite !esize_app in Hs. cbn [esize] in Hs.
  pose proof (esize_nonneg A). pose proof (esize_nonneg B). pose proof (esize_nonneg D). pose proof (elen_pos b Hb). pose proof (lastlen_le A HA) as HLA.
  destruct (delete_room (lastlen 0 A) D b HDc HD Hb) as (Hn1 & Hn2 & Hn3). rewrite <- HL in *. fold w nextdiff in Hn1, Hn2, Hn3.
  assert (elen b' = elen b + nextdiff) as Hb' by (unfold b', nextdiff, elen; cbn [wide body]; lia).
  assert (zlbytes = 11 + esize A + esize D + elen b + esize B) as Hzb by (unfold zlbytes; rewrite !esize_app; cbn [esize]; lia).
  set (h := hdr zlbytes (10 + tailoff (A ++ D ++ b :: B)) cnt). assert (zlen h = 10) as Hh by done.
  set (q := lastlen L D) in *. set (FD := flat L D ++ prev_bytes (wide b) q). assert (zlen FD = esize D + psize (wide b)) as HFD by (unfold FD; zlen).
  assert (zl = (h ++ flat 0 A ++ flat L D) ++ prev_bytes (wide b) q ++ body b ++ flat (elen b) B ++ [ZIP_END]) as Ezl.
  { unfold zl, block. fold zlbytes h. rewrite !flat_app, <- HL. fold q. cbn [flat]. unfold ent_bytes. by rewrite <- !app_assoc. }
  assert (zipPrevLenByteDiff zl (10 + esize A + esize D) L = Some nextdiff) as ->.
  { unfold zipPrevLenByteDiff. replace (10 + esize A + esize D) with (zlen (h ++ flat 0 A ++ flat L D)) by zlen. rewrite Ezl, decode_prevlensize by done. cbn [mbind option_bind].
    rewrite prev_size, i32_small; [done|fold w nextdiff; lia]. }
  cbn [mbind option_bind]. rewrite orb_false_intro by lia. set (c := Z.to_nat (esize D - nextdiff)).
  assert (psize w = psize (wide b) + nextdiff) as Hpw by (unfold nextdiff; lia). assert (0 < psize w) by (unfold psize; destruct w; lia).
  assert (zlen (take c FD) = esize D - nextdiff /\ zlen (drop c FD) = psize w) as [Ht Hd] by (unfold c, zlen in *; rewrite length_take, length_drop; lia).
  assert (zl = (h ++ flat 0 A ++ take c FD) ++ drop c FD ++ body b ++ flat (elen b) B ++ [ZIP_END]) as ->.
  { rewrite Ezl, <- !app_assoc, (app_assoc (take c FD)), take_drop. unfold FD. by rewrite <- !app_assoc. }
  rewrite store_prev; [|by rewrite prev_size|lia|rewrite !zlen_app, flat_zlen, Ht; lia]. cbn [mbind option_bind].
  change (prev_bytes (ZIP_BIG_PREVLEN <=? L) L) with (prev_bytes (wide b') L). change (body b) with (body b'). rewrite (app_assoc (prev_bytes (wide b') L)). fold (ent_bytes L b').
  replace (elen b) with (elen b' - nextdiff) in HB |- * by lia. assert (tailoff (A ++ D ++ b :: B) = esize A + esize D + tailoff (b :: B)) as Htl by (rewrite app_assoc, tailoff_app, esize_app by done; lia).
  pose proof (tailoff_nonneg (b :: B)). pose proof (tailoff_le (b :: B)) as Hle. cbn [esize] in Hle.
  destruct (delete_move zlbytes (10 + tailoff (A ++ D ++ b :: B)) cnt (flat 0 A) (take c FD) L b' B nextdiff (esize D) (10 + esize A + esize D - nextdiff)) as (y & Hy & Hrun);
    try done; try (rewrite ?flat_zlen, ?Ht; lia).
  { split; [lia|]. cbn [wide b']. unfold w. intros HLf. apply Z.leb_gt in HLf. lia. }
  exists y, zlbytes, (10 + tailoff (A ++ D ++ b :: B)). split; [lia|]. rewrite flat_zlen in Hrun. etransitivity; [exact Hrun|]. do 2 f_equal.
  rewrite Htl, !tailoff_cons. destruct B; [rewrite decide_True by done|rewrite decide_False by done]; lia.
Qed.

(** The block shrinks and its header is updated. *)
Lemma delete_finish sz tl cnt X Y n t d (k : list byte -> option (list byte)) : 1 <= zlen Y -> n = 11 + zlen X -> n < 2 ^ 32 -> 0 <= cnt < 2 ^ 16 -> t < n ->
  (zl ← ziplistResize fill (hdr sz tl cnt ++ X ++ Y) (u32 n);
   zl ← ZIPLIST_INCR_LENGTH zl d;
   if n - ZIPLIST_END_SIZE <? t then None else zl ← set_TAIL_OFFSET zl t; k zl) =
  k (hdr n t (incr cnt d) ++ X ++ [ZIP_END]).
Proof.
  intros HY Hn Hn' Hc Ht. pose proof (zlen_nonneg X). rewrite u32_small by lia. rewrite resize_shrink by done. cbn [mbind option_bind]. rewrite incr_length_at by done. cbn [mbind option_bind].
  unfold ZIPLIST_END_SIZE. rewrite (proj2 (Z.ltb_ge _ _)) by lia. by rewrite set_TAIL_at.
Qed.

Lemma delete_spec cnt A D B num : chain 0 (A ++ D ++ B) -> D <> [] -> (zlen D = num \/ zlen D < num /\ B = []) -> 0 <= cnt < 2 ^ 16 ->
  11 + esize (A ++ D ++ B) + 4 * zlen B + 4 < 2 ^ 32 ->
  __ziplistDelete fill (block cnt (A ++ D ++ B)) (10 + esize A) num = Some (block (incr cnt (- zlen D)) (deleted A B)).
Proof.
  intros Hc HD Hnum Hcnt Hs. pose proof (zlen_nonneg B). unfold __ziplistDelete. rewrite block_BYTES by lia. cbn [mbind option_bind]. destruct (block_split cnt A (D ++ B)) as (h & Hh & Eh).
  apply chain_app in Hc as Hc'. destruct Hc' as [HA HDB]. assert (exists d D', D = d :: D') as (d & D' & ED) by (destruct D; [done|by eexists _, _]).
  assert (zipEntry (block cnt (A ++ D ++ B)) (10 + esize A) = Some (entry_of (lastlen 0 A) d) /\ prevrawlen (entry_of (lastlen 0 A) d) = lastlen 0 A) as [-> Hprev].
  { rewrite Eh, ED, <- Hh. rewrite ED in HDB. destruct HDB as (Hd & Hp & _). cbn [app flat]. rewrite <- !app_assoc. split; [by apply zipEntry_at|]. by destruct (entry_of_fields (lastlen 0 A) d Hd) as (_ & -> & _). }
  cbn [mbind option_bind]. pose proof (esize_nonneg A). pose proof (esize_nonneg B). pose proof (esize_length _ _ (proj1 (proj1 (chain_app _ _ _) HDB))) as HDl.
  assert (1 <= zlen D) by (rewrite ED, zlen_cons; pose proof (zlen_nonneg D'); lia). rewrite !esize_app in Hs.
  assert (delete_scan (length (block cnt (A ++ D ++ B))) (block cnt (A ++ D ++ B)) (11 + esize (A ++ D ++ B)) (10 + esize A) num 0 = Some (10 + esize A + esize D, zlen D)) as ->.
  { rewrite Eh. rewrite (delete_scan_spec D); [done|done|done|lia|rewrite !esize_app; lia..|by apply chain_fuel|by rewrite Z.add_0_l]. }
  cbn [mbind option_bind]. replace (10 + esize A + esize D - (10 + esize A)) with (esize D) by lia. rewrite (u32_small (esize D)) by lia. rewrite (proj2 (Z.ltb_lt 0 _)) by lia. rewrite Hprev.
  destruct (block_split cnt (A ++ D) B) as (h' & Hh' & Eh'). rewrite <- app_assoc in Eh'. rewrite esize_app in Hh'. rewrite Eh' at 1.
  destruct B as [|b B].
  - cbn [flat app]. rewrite byte_at_end by lia. cbn [mbind option_bind Z.eqb ZIP_END Pos.eqb negb].
    rewrite app_nil_r in *. rewrite esize_app, Z.sub_0_r, (u32_small (esize D)), u64_small by lia. pose proof (lastlen_le A HA). rewrite (u32_small (10 + esize A - lastlen 0 A)) by lia.
    unfold block at 1. rewrite flat_app, <- app_assoc. rewrite delete_finish; [|zlen|zlen|lia|done|lia]. unfold deleted, block. rewrite app_nil_r, tailoff_last. do 3 f_equal; lia.
  - apply chain_app in HDB as [HDc (Hb & Hp & HB)]. rewrite lastlen_app. destruct (byte_at_entry h' (lastlen (lastlen 0 A) D) b B [ZIP_END] (10 + (esize A + esize D)) Hp (eq_sym Hh')) as (c & Hby & Hce).
    rewrite Z.add_assoc in Hby. rewrite Hby. cbn [mbind option_bind]. rewrite Hce. cbn [negb].
    destruct (delete_next cnt A D b B (lastlen 0 A) Hc HD) as (y & sz & tl & Hy & Hrun); [rewrite !esize_app; lia|done|]. cbv zeta in Hrun. rewrite Hrun. clear Hrun. cbn [mbind option_bind].
    destruct (delete_room (lastlen 0 A) D b HDc HD Hb) as (Hn1 & Hn2 & Hn3). pose proof (lastlen_le A HA). set (w := ZIP_BIG_PREVLEN <=? lastlen 0 A) in *. set (b' := mk_zent w (body b)) in *.
    assert (elen b' = elen b + (psize w - psize (wide b))) as Hb' by (unfold b', elen; cbn [wide body]; lia). cbn [esize] in Hs. rewrite zlen_cons in Hs. pose proof (esize_nonneg B). pose proof (zlen_nonneg B).
    pose proof (tailoff_le (b' :: B)) as Htl. cbn [esize] in Htl. rewrite !esize_app. cbn [esize]. rewrite (u32_small (esize D - _)), u64_small by lia.
    rewrite delete_finish; [|zlen; lia|zlen|lia|done|lia].
    replace (11 + (esize A + (esize D + (elen b + esize B))) - (esize D - (psize w - psize (wide b)))) with (11 + zlen (flat 0 A) + esize (b' :: B)) by (rewrite flat_zlen; cbn [esize]; lia).
    replace (10 + esize A + tailoff (b' :: B)) with (10 + zlen (flat 0 A) + tailoff (b' :: B)) by (by rewrite flat_zlen). rewrite <- !app_assoc.
    rewrite relink_spec; [|done| |done|rewrite flat_zlen; fold b'; cbn [esize]; lia|by rewrite flat_zlen].
    + unfold deleted, block. fold w. rewrite flat_zlen, flat_app, esize_app, tailoff_app, <- app_assoc by done. do 3 f_equal; lia.
    + split; [lia|]. unfold w. intros HLf. apply Z.leb_gt in HLf. lia.
Qed.
End Ops.
