(* ===== verification/ZiplistWalk.v ===== *)
(** * Ziplists: walking and reading *)

From stdpp Require Import base list option.
From Stdlib Require Import ZArith Lia Bool.
From S2P Require Import Prelude Endian Util UtilFacts BitopsFacts Ziplist ZiplistFacts ZiplistCascade ZiplistBody ZiplistOps.

Local Open Scope Z_scope.

(** A block of well-formed entries. *)
Definition rep (zl : list byte) (es : list zent) : Prop :=
  exists cnt, zl = block cnt es /\ count_ok cnt (zlen es) /\ chain 0 es /\ 11 + esize es < 2 ^ 32.

(** Where the entry after [A] is. *)
Definition pos (A : list zent) : Z := 10 + esize A.

Definition value (e : zent) : zvalue := body_value (body e).

(** The strings of a list. *)
Definition texts (es : list zent) : list (list byte) := map (fun e => text (value e)) es.

(** The first string equal to [s], comparing the first one after [cnt] and then
    every one after [skip] more. *)
Fixpoint find_at (l : list (list byte)) (s : list byte) (skip cnt : Z) : option nat :=
  match l with
  | [] => None
  | x :: l' =>
      if cnt =? 0 then if bool_decide (x = s) then Some 0%nat else S <$> find_at l' s skip skip
      else S <$> find_at l' s skip (cnt - 1)
  end.

(** ** Values of entries *)

Lemma int_size_decode zl p enc ls ln : is_byte enc -> ZIP_DECODE_LENGTH zl p enc = Some (ls, ln) -> ls <> 0 -> ZIP_IS_STR enc = false -> zipIntSize enc = Some ln.
Proof.
  intros Hb E Hl Hs. destruct (Z.ltb_spec enc ZIP_STR_MASK) as [Hlt|Hge].
  - exfalso. assert (is_byte enc /\ enc < 0xc0 -> ZIP_IS_STR enc = true) as Ht; [|by rewrite Ht in Hs].
    intros [_ Hc]. unfold ZIP_IS_STR, ZIP_STR_MASK. apply Z.ltb_lt.
    assert ((negb (enc <? 0xc0) || (Z.land enc 0xc0 <? 0xc0)) = true) as Hf by (apply (forall_byte (fun b => negb (b <? 0xc0) || (Z.land b 0xc0 <? 0xc0))); [vm_compute; done|done]).
    rewrite (proj2 (Z.ltb_lt enc _)) in Hf by lia. apply Z.ltb_lt. exact Hf.
  - unfold ZIP_DECODE_LENGTH in E. rewrite (proj2 (Z.ltb_ge _ _)) in E by done. unfold zipIntSize.
    repeat match type of E with (if ?c then _ else _) = _ => destruct c; [by injection E as <- <-|] end. by injection E as <- <-.
Qed.

(** An entry is its header and its payload. *)
Lemma ent_payload prev e : ent_ok e -> let en := entry_of prev e in exists hd pl, body e = hd ++ pl /\ zlen hd = lensize en /\ zlen pl = len en /\
  value e = (if ZIP_IS_STR (encoding en) then ZStr pl else ZInt (int_value (encoding en) pl)) /\ (ZIP_IS_STR (encoding en) = false -> zipIntSize (encoding en) = Some (zlen pl)).
Proof.
  intros He en. destruct (ent_ok_info e He) as (enc & ls & ln & Hi & E1 & E2 & Hls & Hln & Hz). unfold en, entry_of, value, body_value. rewrite Hi. cbn [lensize len encoding].
  exists (take (Z.to_nat ls) (body e)), (drop (Z.to_nat ls) (body e)). rewrite take_drop. unfold zlen in Hz |- *. rewrite length_take, length_drop. split_and!; [done|lia|lia|done|].
  intros Hs. replace (Z.of_nat (length (body e) - Z.to_nat ls)) with ln by lia. eapply int_size_decode; [|exact E2|lia|done].
  unfold ZIP_ENTRY_ENCODING in E1. destruct (byte_at (body e) 0) as [b|] eqn:Eb; [|done]. cbn [mbind option_bind] in E1. injection E1 as <-.
  assert (is_byte b) as Hb by (unfold byte_at in Eb; cbn in Eb; destruct He as [Hf _]; rewrite Forall_lookup in Hf; by eapply Hf). destruct (b <? ZIP_STR_MASK); [|done]. by apply (land_range 8).
Qed.

Lemma int_value_range enc pl : zipIntSize enc = Some (zlen pl) -> LLONG_MIN <= int_value enc pl <= LLONG_MAX.
Proof.
  intros Hn. unfold int_value, LLONG_MIN, LLONG_MAX. destruct (is_imm enc) eqn:Ei.
  - unfold is_imm in Ei. apply andb_true_iff in Ei as [E1 E2]. pose proof (land_range 8 enc ZIP_INT_IMM_MASK ltac:(lia) ltac:(unfold ZIP_INT_IMM_MIN, ZIP_INT_IMM_MAX in *; lia)). lia.
  - unfold zipIntSize in Hn. rewrite Ei in Hn. repeat match type of Hn with (if ?c then _ else _) = _ => destruct c; [injection Hn as <-; match goal with |- context [swrap ?w ?z] => pose proof (swrap_range w z eq_refl); lia end|] end. done.
Qed.

Lemma decimal_zlen v : LLONG_MIN <= v <= LLONG_MAX -> 0 < zlen (decimal v) < 32.
Proof.
  unfold LLONG_MIN, LLONG_MAX, decimal. intros Hv. case_if.
  - rewrite zlen_cons, dec_rec_zlen by lia. destruct (digits10_spec (- v)) as [(_ & _ & Hd) Hl]; lia.
  - rewrite dec_rec_zlen by lia. destruct (digits10_spec v) as [(_ & _ & Hd) Hl]; lia.
Qed.

(** Comparing a string with an integer: as an integer, if it is one. *)
Lemma try_compare s v : LLONG_MIN <= v <= LLONG_MAX -> match zipTryEncoding s with Some (sv, _) => v =? sv | None => false end = bool_decide (decimal v = s).
Proof.
  intros Hv. destruct (zipTryEncoding s) as [[sv enc]|] eqn:E.
  - unfold zipTryEncoding in E. case_if_in E; [done|]. destruct (string2ll s) as [w|] eqn:Ew; [|done]. cbn [mbind option_bind] in E. injection E as -> _.
    destruct (Z.eqb_spec v sv) as [->|Hn].
    + rewrite bool_decide_true; [done|]. by destruct (string2ll_sound s sv Ew) as [_ ->].
    + rewrite bool_decide_false; [done|]. intros <-. rewrite string2ll_complete in Ew by done. by injection Ew.
  - rewrite bool_decide_false; [done|]. intros <-. pose proof (decimal_zlen v Hv). unfold zipTryEncoding in E. rewrite orb_false_intro in E by lia. by rewrite string2ll_complete in E.
Qed.

Section Walk.
Context `{Host}.

(** Everything about one entry of a list. *)
Lemma rep_entry zl A e B : rep zl (A ++ e :: B) -> exists h, zlen h = pos A /\
  zl = h ++ ent_bytes (lastlen 0 A) e ++ flat (elen e) B ++ [ZIP_END] /\ ent_ok e /\ prev_ok (wide e) (lastlen 0 A) /\ chain (elen e) B /\
  0 <= lastlen 0 A <= esize A /\ zlen zl = pos A + elen e + esize B + 1 /\ zlen zl < 2 ^ 32 /\ ZIPLIST_BYTES zl = Some (zlen zl).
Proof.
  intros (cnt & -> & _ & Hc & Hs). destruct (block_split cnt A (e :: B)) as (h & Hh & E). exists h. apply chain_app in Hc as [HA (He & Hp & HB)].
  rewrite block_BYTES, block_zlen, E by done. cbn [flat]. rewrite <- !app_assoc, esize_app in *. cbn [esize] in *. unfold pos. split_and!; try done; try (apply lastlen_le; done); lia.
Qed.

Lemma rep_bytes zl es : rep zl es -> ZIPLIST_BYTES zl = Some (zlen zl) /\ zlen zl = 11 + esize es /\ zlen zl < 2 ^ 32.
Proof. intros (cnt & -> & _ & _ & Hs). rewrite block_zlen. split_and!; [by apply block_BYTES|done|done]. Qed.

Lemma rep_end zl es : rep zl es -> byte_at zl (pos es) = Some ZIP_END.
Proof. intros (cnt & -> & _). unfold block. rewrite app_assoc. apply byte_at_end. unfold pos. zlen. Qed.

Lemma rep_byte zl A e B : rep zl (A ++ e :: B) -> exists b, byte_at zl (pos A) = Some b /\ (b =? ZIP_END) = false.
Proof. intros Hr. destruct (rep_entry zl A e B Hr) as (h & Hh & -> & _ & Hp & _). by apply byte_at_ent. Qed.

Lemma rep_assert zl A e B v : rep zl (A ++ e :: B) -> assert_entry zl (zlen zl) (pos A) v = Some (entry_of (lastlen 0 A) e).
Proof.
  intros Hr. destruct (rep_entry zl A e B Hr) as (h & Hh & E & He & Hp & HB & HL & Hz & _). rewrite E at 1. pose proof (esize_nonneg A). pose proof (esize_nonneg B).
  apply assert_entry_at; try done; unfold ZIPLIST_HEADER_SIZE, pos in *; lia.
Qed.

Lemma rep_zipEntry zl A e B : rep zl (A ++ e :: B) -> zipEntry zl (pos A) = Some (entry_of (lastlen 0 A) e).
Proof. intros Hr. destruct (rep_entry zl A e B Hr) as (h & <- & -> & He & Hp & _). by apply zipEntry_at. Qed.

Lemma rep_prevlen zl A e B : rep zl (A ++ e :: B) -> ZIP_DECODE_PREVLEN zl (pos A) = Some (psize (wide e), lastlen 0 A).
Proof. intros Hr. destruct (rep_entry zl A e B Hr) as (h & <- & -> & He & Hp & _). unfold ent_bytes. rewrite <- app_assoc. by apply decode_prevlen. Qed.

Lemma rep_rawlen zl A e B : rep zl (A ++ e :: B) -> zipRawEntryLengthSafe zl (zlen zl) (pos A) = Some (elen e) /\ zipRawEntryLength zl (pos A) = Some (elen e) /\
  pos A + elen e = pos (A ++ [e]).
Proof.
  intros Hr. unfold zipRawEntryLengthSafe, zipRawEntryLength. rewrite (rep_assert zl A e B), (rep_zipEntry zl A e B) by done. cbn [mbind option_bind].
  destruct (rep_entry zl A e B Hr) as (h & _ & _ & He & _ & _ & HL & Hz & Hs & _). pose proof (esize_nonneg B). unfold pos in *. rewrite zipRawEntryLength_u32 by (done || lia).
  split_and!; [done..|]. rewrite esize_app. cbn [esize]. lia.
Qed.

Lemma rep_fuel zl es : rep zl es -> (length es <= length zl)%nat.
Proof. intros (cnt & -> & _ & Hc & _). unfold block. by apply chain_fuel. Qed.

Lemma rep_snoc zl A e B : rep zl (A ++ e :: B) -> rep zl ((A ++ [e]) ++ B).
Proof. by rewrite <- app_assoc. Qed.

(** ** Index *)

Lemma index_forward_spec zl B : forall A fuel i, rep zl (A ++ B) -> (length B <= fuel)%nat -> 0 <= i -> (i < zlen B \/ B <> [] /\ zlen B <= i) ->
  exists j, index_forward fuel zl (zlen zl) (pos A) i = Some (pos (A ++ take (Z.to_nat i) B), j) /\ j <= Z.max (-1) (i - zlen B).
Proof.
  induction B as [|e B IH]; intros A fuel i Hr Hf Hi Hb; [destruct Hb as [Hb|[Hb _]]; [change (zlen (@nil zent)) with 0 in Hb; lia|done]|].
  cbn [length] in Hf. destruct fuel as [|fuel]; [lia|]. cbn [index_forward]. rewrite zlen_cons in *. pose proof (zlen_nonneg B). destruct (Z.eqb_spec i 0) as [->|Hi0].
  - exists (-1). rewrite app_nil_r. split; [done|lia].
  - destruct (rep_rawlen zl A e B Hr) as (-> & _ & Hp). cbn [mbind option_bind]. rewrite Hp. apply rep_snoc in Hr. destruct B as [|e' B].
    + rewrite app_nil_r in Hr. rewrite rep_end by done. cbn [mbind option_bind]. rewrite Z.eqb_refl. exists (i - 1). split; [|change (zlen (@nil zent)) with 0; lia].
      replace (take (Z.to_nat i) [e]) with [e]; [done|]. destruct (Z.to_nat i) eqn:E; [lia|]. cbn. by rewrite take_nil.
    + destruct (rep_byte zl (A ++ [e]) e' B Hr) as (b & -> & Hbe). cbn [mbind option_bind]. rewrite Hbe.
      destruct (IH (A ++ [e]) fuel (i - 1)) as (j & -> & Hj); [done|lia|lia|destruct Hb; [left; lia|right; split; [done|lia]]|]. exists j. split; [|lia].
      replace (Z.to_nat i) with (S (Z.to_nat (i - 1))) by lia. cbn [take]. by rewrite <- app_assoc.
Qed.

Lemma index_backward_spec zl A : forall B fuel i, rep zl (A ++ B) -> B <> [] -> (length A <= fuel)%nat -> 0 <= i ->
  exists j, index_backward fuel zl (zlen zl) (pos A) (lastlen 0 A) i = Some (pos (take (length A - Z.to_nat i) A), j) /\ (0 < j <-> zlen A < i).
Proof.
  induction A as [|e A IH] using rev_ind; intros B fuel i Hr HB Hf Hi.
  - exists i. change (zlen (@nil zent)) with 0. destruct fuel; cbn [index_backward lastlen length take Nat.sub]; done.
  - rewrite length_app in *. cbn [length] in *. rewrite <- app_assoc in Hr. cbn [app] in Hr. destruct fuel as [|fuel]; [lia|]. cbn [index_backward].
    destruct (rep_entry zl A e B Hr) as (h & _ & _ & He & _ & _ & HL & Hz & Hs & _). destruct (rep_rawlen zl A e B Hr) as (_ & _ & Hp). pose proof (elen_pos e He). pose proof (esize_nonneg B). pose proof (esize_nonneg A).
    rewrite lastlen_app. cbn [lastlen]. rewrite (proj2 (Z.ltb_lt 0 _)) by lia. rewrite zlen_app. change (zlen [e]) with 1. pose proof (zlen_nonneg A). destruct (Z.eqb_spec i 0) as [->|Hi0].
    + exists (-1). split; [|lia]. cbn [Z.to_nat]. rewrite Nat.sub_0_r, take_ge; [done|]. rewrite length_app. cbn. lia.
    + replace (pos (A ++ [e]) - elen e) with (pos A) by lia. rewrite orb_false_intro by (unfold pos, ZIPLIST_HEADER_SIZE, ZIPLIST_END_SIZE in *; lia).
      rewrite (rep_prevlen zl A e B Hr). cbn [mbind option_bind]. destruct (IH (e :: B) fuel (i - 1)) as (j & -> & Hj); [done|done|lia|lia|]. exists j. split; [|lia].
      replace (length A + 1 - Z.to_nat i)%nat with (length A - Z.to_nat (i - 1))%nat by lia. by rewrite take_app_le by lia.
Qed.

Lemma index_entry zl A e B (k : Z) : rep zl (A ++ e :: B) -> k <= 0 ->
  (b ← byte_at zl (pos A); if (b =? ZIP_END) || (0 <? k) then Some None else _ ← zipAssertValidEntry zl (zlen zl) (pos A); Some (Some (pos A))) = Some (Some (pos A)).
Proof.
  intros Hr Hk. destruct (rep_byte zl A e B Hr) as (b & -> & Hb). cbn [mbind option_bind]. rewrite Hb, (proj2 (Z.ltb_ge 0 k)) by lia. cbn [orb].
  unfold zipAssertValidEntry. by rewrite (rep_assert zl A e B).
Qed.

Lemma take_split {A} (l : list A) n : (n < length l)%nat -> exists x k, l = take n l ++ x :: k.
Proof.
  intros Hn. destruct (lookup_lt_is_Some_2 l n Hn) as [x Hx]. exists x, (drop (S n) l). by rewrite take_drop_middle.
Qed.

Lemma rep_tail zl es : rep zl es -> ZIPLIST_TAIL_OFFSET zl = Some (10 + tailoff es).
Proof. intros (cnt & -> & _ & _ & Hs). by apply block_TAIL. Qed.

Lemma index_empty zl i : rep zl [] -> 1 <= i -> index_forward (length zl) zl (zlen zl) (pos []) i = None.
Proof.
  intros Hr Hi. destruct (rep_bytes zl [] Hr) as (_ & Hz & _). destruct (length zl) as [|n] eqn:El; [unfold zlen in Hz; rewrite El in Hz; done|].
  cbn [index_forward]. rewrite (proj2 (Z.eqb_neq i 0)) by lia. rewrite Hz. destruct Hr as (cnt & -> & _). done.
Qed.

(** The entry of an index; only an index past the first one of the empty list has
    no result, because an assertion fails. *)
Lemma ziplistIndex_spec zl es i : rep zl es -> - 2 ^ 31 < i < 2 ^ 31 ->
  let k := if i <? 0 then zlen es + i else i in
  ziplistIndex zl i =
    if (0 <=? k) && (k <? zlen es) then Some (Some (pos (take (Z.to_nat k) es)))
    else if bool_decide (es = []) && (1 <=? i) then None else Some None.
Proof.
  intros Hr Hi k. unfold ziplistIndex. destruct (rep_bytes zl es Hr) as (-> & Hz & Hs). cbn [mbind option_bind]. pose proof (zlen_nonneg es). unfold k. rewrite (proj2 (Z.eqb_neq i INT32_MIN)) by (unfold INT32_MIN; lia). destruct (Z.ltb_spec i 0) as [Hneg|Hneg].
  - rewrite (rep_tail zl es Hr). cbn [mbind option_bind]. destruct es as [|e A _] using rev_ind.
    + change (10 + tailoff []) with (pos []). rewrite rep_end by done. cbn [mbind option_bind Z.eqb ZIP_END Pos.eqb negb]. rewrite rep_end by done. cbn [mbind option_bind]. rewrite Z.eqb_refl.
      change (zlen (@nil zent)) with 0 in *. rewrite (proj2 (Z.leb_gt 0 _)), (proj2 (Z.leb_gt 1 _)), andb_false_r by lia. done.
    + rewrite tailoff_snoc. fold (pos A). destruct (rep_byte zl A e [] Hr) as (b & -> & Hb). cbn [mbind option_bind]. rewrite Hb. cbn [negb]. rewrite (rep_prevlen zl A e [] Hr). cbn [mbind option_bind].
      destruct (index_backward_spec zl A [e] (length zl) (- i - 1)) as (j & -> & Hj); [done|done|pose proof (rep_fuel zl _ Hr) as Hl; rewrite length_app in Hl; cbn in Hl; lia|lia|]. cbn [mbind option_bind].
      rewrite zlen_app in *. change (zlen [e]) with 1 in *. pose proof (zlen_nonneg A). destruct (Z.leb_spec 0 (zlen A + 1 + i)).
      * rewrite (proj2 (Z.ltb_lt (zlen A + 1 + i) _)) by lia. cbn [andb]. assert (Z.to_nat (zlen A + 1 + i) = length A - Z.to_nat (- i - 1))%nat as -> by (unfold zlen in *; lia). rewrite take_app_le by lia.
        destruct (take_split (A ++ [e]) (length A - Z.to_nat (- i - 1))) as (x & k' & E); [rewrite length_app; cbn; lia|]. rewrite take_app_le in E by lia. rewrite E in Hr. apply (index_entry _ _ _ _ _ Hr). lia.
      * cbn [andb]. rewrite bool_decide_false by (by destruct A). cbn [andb]. replace (length A - Z.to_nat (- i - 1))%nat with 0%nat by (unfold zlen in *; lia). change (take 0 A) with (@nil zent).
        assert (exists x r, A ++ [e] = [] ++ x :: r) as (x & r & E) by (destruct A; by eexists _, _). rewrite E in Hr. destruct (rep_byte zl [] x r Hr) as (b' & -> & _). cbn [mbind option_bind].
        rewrite (proj2 (Z.ltb_lt 0 j)), orb_true_r by lia. done.
  - destruct (decide (es = [])) as [->|He].
    + change (zlen (@nil zent)) with 0. rewrite (proj2 (Z.ltb_ge i 0)), andb_false_r, bool_decide_true by done. cbn [andb]. change ZIPLIST_HEADER_SIZE with (pos []). destruct (Z.leb_spec 1 i).
      * by rewrite index_empty.
      * assert (i = 0) as -> by lia. assert (index_forward (length zl) zl (zlen zl) (pos []) 0 = Some (pos [], -1)) as -> by (by destruct (length zl)). cbn [mbind option_bind]. by rewrite rep_end.
    + rewrite bool_decide_false by done. rewrite (proj2 (Z.leb_le 0 i)) by done. cbn [andb].
      destruct (index_forward_spec zl es [] (length zl) i) as (j & Hrun & Hj); [done|by apply (rep_fuel zl)|done|destruct (Z.lt_ge_cases i (zlen es)); [by left|by right]|].
      change (pos []) with ZIPLIST_HEADER_SIZE in Hrun. rewrite Hrun. cbn [mbind option_bind app]. destruct (Z.ltb_spec i (zlen es)) as [Hl|Hl].
      * destruct (take_split es (Z.to_nat i)) as (x & k' & E); [unfold zlen in Hl; lia|]. rewrite E in Hr. apply (index_entry _ _ _ _ _ Hr). lia.
      * rewrite take_ge by (unfold zlen in Hl; lia). rewrite rep_end by done. done.
Qed.

(** ** Next and previous *)

Lemma ziplistNext_spec zl A e B : rep zl (A ++ e :: B) -> ziplistNext zl (pos A) = Some (match B with [] => None | _ => Some (pos (A ++ [e])) end).
Proof.
  intros Hr. unfold ziplistNext. destruct (rep_bytes zl _ Hr) as (-> & _). cbn [mbind option_bind]. destruct (rep_byte zl A e B Hr) as (b & -> & Hb). cbn [mbind option_bind]. rewrite Hb.
  destruct (rep_rawlen zl A e B Hr) as (_ & -> & Hp). cbn [mbind option_bind]. rewrite Hp. apply rep_snoc in Hr. destruct B as [|e' B].
  - rewrite app_nil_r in Hr. by rewrite rep_end.
  - destruct (rep_byte zl (A ++ [e]) e' B Hr) as (b' & -> & Hb'). cbn [mbind option_bind]. rewrite Hb'. unfold zipAssertValidEntry. by rewrite (rep_assert zl (A ++ [e]) e' B).
Qed.

Lemma ziplistNext_end zl es : rep zl es -> ziplistNext zl (pos es) = Some None.
Proof. intros Hr. unfold ziplistNext. destruct (rep_bytes zl es Hr) as (-> & _). cbn [mbind option_bind]. by rewrite rep_end. Qed.

Lemma ziplistPrev_spec zl A e B : rep zl (A ++ e :: B) -> ziplistPrev zl (pos A) = Some (match A with [] => None | _ => Some (pos (removelast A)) end).
Proof.
  intros Hr. unfold ziplistPrev. destruct (rep_byte zl A e B Hr) as (b & -> & Hb). cbn [mbind option_bind]. rewrite Hb. destruct A as [|x A _] using rev_ind; [done|].
  rewrite <- app_assoc in Hr. cbn [app] in Hr. destruct (rep_entry zl A x (e :: B) Hr) as (_ & _ & _ & Hx & _). pose proof (elen_pos x Hx). pose proof (esize_nonneg A).
  assert (pos (A ++ [x]) = pos A + elen x) as Hp by (unfold pos; rewrite esize_app; cbn [esize]; lia). rewrite (proj2 (Z.eqb_neq _ _)) by (unfold pos, ZIPLIST_HEADER_SIZE in *; lia).
  rewrite (rep_prevlen zl (A ++ [x]) e B) by (by rewrite <- app_assoc). cbn [mbind option_bind]. rewrite lastlen_app. cbn [lastlen]. rewrite (proj2 (Z.ltb_lt 0 _)) by lia.
  replace (pos (A ++ [x]) - elen x) with (pos A) by lia. destruct (rep_bytes zl _ Hr) as (-> & _). cbn [mbind option_bind]. unfold zipAssertValidEntry. rewrite (rep_assert zl A x (e :: B)) by done.
  cbn [mbind option_bind]. rewrite removelast_last. by destruct A.
Qed.

Lemma ziplistPrev_end zl es : rep zl es -> ziplistPrev zl (pos es) = Some (match es with [] => None | _ => Some (pos (removelast es)) end).
Proof.
  intros Hr. unfold ziplistPrev. rewrite rep_end by done. cbn [mbind option_bind]. rewrite Z.eqb_refl, (rep_tail zl es Hr). cbn [mbind option_bind]. destruct es as [|x A _] using rev_ind.
  - change (10 + tailoff []) with (pos []). by rewrite rep_end.
  - rewrite tailoff_snoc, removelast_last. destruct (rep_byte zl A x [] Hr) as (b & Hby & Hb). unfold pos in Hby. rewrite Hby. cbn [mbind option_bind]. rewrite Hb. by destruct A.
Qed.

(** ** Reading *)

(** The payload of an entry is where the code looks for it. *)
Lemma rep_payload zl A e B : rep zl (A ++ e :: B) -> let en := entry_of (lastlen 0 A) e in exists pl,
  buf_read zl (pos A + headersize en) (len en) = Some pl /\ zlen pl = len en /\
  value e = (if ZIP_IS_STR (encoding en) then ZStr pl else ZInt (int_value (encoding en) pl)) /\
  (ZIP_IS_STR (encoding en) = false -> zipLoadInteger zl (pos A + headersize en) (encoding en) = Some (int_value (encoding en) pl) /\ LLONG_MIN <= int_value (encoding en) pl <= LLONG_MAX).
Proof.
  intros Hr en. destruct (rep_entry zl A e B Hr) as (h & Hh & -> & He & _). destruct (ent_payload (lastlen 0 A) e He) as (hd & pl & Eb & Hhd & Hpl & Hv & Hint). fold en in Hhd, Hpl, Hv, Hint.
  destruct (entry_of_fields (lastlen 0 A) e He) as (_ & _ & _ & Hhs & _). fold en in Hhs. exists pl.
  assert (pos A + headersize en = zlen (h ++ prev_bytes (wide e) (lastlen 0 A) ++ hd)) as Hp by zlen.
  assert (h ++ ent_bytes (lastlen 0 A) e ++ flat (elen e) B ++ [ZIP_END] = (h ++ prev_bytes (wide e) (lastlen 0 A) ++ hd) ++ pl ++ flat (elen e) B ++ [ZIP_END]) as -> by (unfold ent_bytes; rewrite Eb, <- !app_assoc; done).
  split_and!; [by apply buf_read_app|done|done|]. intros Hs. split; [|by apply int_value_range, Hint]. by apply (load_integer _ _ _ _ (zlen pl)); [apply Hint| |].
Qed.

Lemma ziplistGet_spec zl A e B : rep zl (A ++ e :: B) -> ziplistGet zl (Some (pos A)) = Some (Some (value e)).
Proof.
  intros Hr. unfold ziplistGet. destruct (rep_byte zl A e B Hr) as (b & -> & Hb). cbn [mbind option_bind]. rewrite Hb, (rep_zipEntry zl A e B Hr). cbn [mbind option_bind].
  destruct (rep_payload zl A e B Hr) as (pl & Hrd & Hl & -> & Hint). destruct (ZIP_IS_STR _); [by rewrite Hrd|]. destruct (Hint eq_refl) as [-> _]. done.
Qed.

Lemma compare_text zl A e B s : rep zl (A ++ e :: B) -> let en := entry_of (lastlen 0 A) e in
  (if ZIP_IS_STR (encoding en) then if len en =? zlen s then t ← buf_read zl (pos A + headersize en) (zlen s); Some (bool_decide (t = s)) else Some false
   else match zipTryEncoding s with Some (sval, _) => zval ← zipLoadInteger zl (pos A + headersize en) (encoding en); Some (zval =? sval) | None => Some false end) =
  Some (bool_decide (text (value e) = s)).
Proof.
  intros Hr en. destruct (rep_payload zl A e B Hr) as (pl & Hrd & Hl & -> & Hint). fold en in Hrd, Hl, Hint |- *. destruct (ZIP_IS_STR _); cbn [text].
  - destruct (Z.eqb_spec (len en) (zlen s)) as [<-|Hne]; [by rewrite Hrd|]. rewrite bool_decide_false; [done|]. intros ->. lia.
  - destruct (Hint eq_refl) as [-> Hv]. rewrite <- try_compare by done. by destruct (zipTryEncoding s) as [[sv enc]|].
Qed.

Lemma ziplistCompare_spec zl A e B s : rep zl (A ++ e :: B) -> ziplistCompare zl (pos A) s = Some (bool_decide (text (value e) = s)).
Proof.
  intros Hr. unfold ziplistCompare. destruct (rep_byte zl A e B Hr) as (b & -> & Hb). cbn [mbind option_bind]. rewrite Hb, (rep_zipEntry zl A e B Hr). cbn [mbind option_bind]. by rewrite (compare_text zl A e B).
Qed.

(** ** Finding *)

(** What the search knows of the string as an integer. *)
Definition venc_ok (s : list byte) (venc vll : Z) : Prop :=
  venc = 0 \/ match zipTryEncoding s with Some (v, enc) => venc = enc /\ vll = v | None => venc = 255 end.

Lemma venc_step s venc vll : venc_ok s venc vll ->
  let '(venc', vll') := if venc =? 0 then match zipTryEncoding s with Some (v, enc) => (enc, v) | None => (255, vll) end else (venc, vll) in
  venc_ok s venc' vll' /\ (venc' =? 0) = false /\
  forall ll, (if negb (venc' =? 255) then ll =? vll' else false) = match zipTryEncoding s with Some (v, _) => ll =? v | None => false end.
Proof.
  unfold venc_ok. intros Hv. destruct (zipTryEncoding s) as [[v enc]|] eqn:E.
  - destruct (try_encoding s v enc E) as (_ & Hb & [n Hn] & _). destruct (int_enc_facts enc n Hb Hn) as (Hge & _). assert (enc <> 255) as H255 by (by intros ->).
    destruct (Z.eqb_spec venc 0) as [->|Hne]; [|destruct Hv as [Hv|[-> ->]]; [done|]]; (split_and!; [by right|lia|]); intros ll; by rewrite (proj2 (Z.eqb_neq _ _)).
  - destruct (Z.eqb_spec venc 0) as [->|Hne]; [|destruct Hv as [Hv| ->]; [done|]]; (split_and!; [by right|done|done]).
Qed.

Lemma find_loop_spec zl s skip B : forall A fuel cnt venc vll, rep zl (A ++ B) -> (length B <= fuel)%nat -> venc_ok s venc vll ->
  find_loop fuel zl (zlen zl) (pos A) s skip cnt venc vll = Some ((fun k => pos (A ++ take k B)) <$> find_at (texts B) s skip cnt).
Proof.
  induction B as [|e B IH]; intros A fuel cnt venc vll Hr Hf Hv.
  - rewrite app_nil_r in Hr. destruct fuel; cbn [find_loop]; rewrite rep_end by done; done.
  - cbn [length] in Hf. destruct fuel as [|fuel]; [lia|]. cbn [find_loop texts map find_at]. destruct (rep_byte zl A e B Hr) as (b & -> & Hb). cbn [mbind option_bind]. rewrite Hb, (rep_assert zl A e B) by done. cbn [mbind option_bind].
    pose proof (compare_text zl A e B s Hr) as Hcmp. cbv zeta in Hcmp. destruct (rep_entry zl A e B Hr) as (_ & _ & _ & He & _). destruct (rep_rawlen zl A e B Hr) as (_ & _ & Hp).
    set (en := entry_of (lastlen 0 A) e) in *. destruct (entry_of_fields (lastlen 0 A) e He) as (Hps & _ & Hel & Hhs & _). fold en in Hps, Hel, Hhs.
    replace (pos A + prevrawlensize en + lensize en) with (pos A + headersize en) by lia. replace (pos A + headersize en + len en) with (pos (A ++ [e])) by lia.
    apply rep_snoc in Hr. assert (forall c, Some ((fun k => pos ((A ++ [e]) ++ take k B)) <$> find_at (texts B) s skip c) = Some ((fun k => pos (A ++ take k (e :: B))) <$> (S <$> find_at (texts B) s skip c))) as Hstep
      by (intros c; destruct (find_at (texts B) s skip c); cbn; [by rewrite <- app_assoc|done]).
    fold (texts B). destruct (cnt =? 0); [|rewrite IH by (done || lia); apply Hstep]. revert Hcmp. destruct (ZIP_IS_STR (encoding en)); intros Hcmp.
    + rewrite Hcmp. cbn [mbind option_bind]. case_bool_decide; [cbn; by rewrite app_nil_r|]. rewrite IH by (done || lia). apply Hstep.
    + pose proof (venc_step s venc vll Hv) as Hvs. destruct (if venc =? 0 then _ else _) as [venc' vll']. destruct Hvs as (Hv' & -> & Hcase).
      assert ((if negb (venc' =? 255) then ll ← zipLoadInteger zl (pos A + headersize en) (encoding en); Some (ll =? vll') else Some false) = Some (bool_decide (text (value e) = s))) as ->.
      { rewrite <- Hcmp. specialize (Hcase). destruct (zipLoadInteger zl (pos A + headersize en) (encoding en)) as [ll|]; cbn [mbind option_bind] in *.
        - specialize (Hcase ll). destruct (zipTryEncoding s) as [[v enc]|], (negb (venc' =? 255)); congruence.
        - specialize (Hcase vll'). destruct (zipTryEncoding s) as [[v enc]|], (negb (venc' =? 255)); try done. rewrite Z.eqb_refl in Hcase. done. }
      cbn [mbind option_bind]. case_bool_decide; [cbn; by rewrite app_nil_r|]. rewrite IH by (done || lia). apply Hstep.
Qed.

Lemma ziplistFind_spec zl A B s skip : rep zl (A ++ B) -> 0 <= skip < 2 ^ 31 -> ziplistFind zl (pos A) s skip = Some ((fun k => pos (A ++ take k B)) <$> find_at (texts B) s skip 0).
Proof.
  intros Hr Hs. unfold ziplistFind. destruct (rep_bytes zl _ Hr) as (-> & _). cbn [mbind option_bind]. rewrite i32_small by lia. apply find_loop_spec; [done| |by left].
  pose proof (rep_fuel zl _ Hr) as Hf. rewrite length_app in Hf. lia.
Qed.

(** ** Length *)

Lemma count_entries_spec zl B : forall A fuel n, rep zl (A ++ B) -> (length B <= fuel)%nat -> 0 <= n -> n + zlen B < 2 ^ 32 -> count_entries fuel zl (zlen zl) (pos A) n = Some (n + zlen B).
Proof.
  induction B as [|e B IH]; intros A fuel n Hr Hf Hn Hs.
  - rewrite app_nil_r in Hr. change (zlen (@nil zent)) with 0. rewrite Z.add_0_r. destruct fuel; cbn [count_entries]; rewrite rep_end by done; done.
  - cbn [length] in Hf. destruct fuel as [|fuel]; [lia|]. cbn [count_entries]. destruct (rep_byte zl A e B Hr) as (b & -> & Hb). cbn [mbind option_bind]. rewrite Hb.
    destruct (rep_rawlen zl A e B Hr) as (-> & _ & Hp). cbn [mbind option_bind]. rewrite Hp, zlen_cons in *. pose proof (zlen_nonneg B). rewrite u32_small by lia. rewrite IH; [f_equal; lia|by apply rep_snoc|lia..].
Qed.

Lemma ziplistLen_spec zl es : rep zl es -> exists zl', ziplistLen zl = Some (zlen es, zl') /\ rep zl' es.
Proof.
  intros Hr. pose proof Hr as (cnt & E & Hcnt & Hc & Hs). pose proof (count_ok_range _ _ Hcnt) as Hcr. unfold ziplistLen. assert (ZIPLIST_LENGTH zl = Some cnt) as -> by (rewrite E; by apply get_LENGTH). cbn [mbind option_bind].
  destruct (Z.ltb_spec cnt UINT16_MAX) as [Hl|Hl]; [exists zl; split; [|done]; destruct Hcnt as [|[_ <-]]; [lia|done]|].
  destruct (rep_bytes zl es Hr) as (-> & Hz & _). cbn [mbind option_bind]. pose proof (esize_length 0 es Hc). pose proof (zlen_nonneg es). pose proof (count_entries_spec zl es [] (length zl) 0 Hr (rep_fuel zl es Hr)) as Hcount.
  change (pos []) with ZIPLIST_HEADER_SIZE in Hcount. rewrite Hcount by lia. cbn [mbind option_bind]. rewrite Z.add_0_l. destruct (Z.ltb_spec (zlen es) UINT16_MAX); [|by exists zl].
  rewrite E. unfold block. rewrite set_LENGTH_at. cbn [mbind option_bind]. eexists. split; [done|]. exists (zlen es). split_and!; try done. right. lia.
Qed.
End Walk.
