(* ===== verification/ZiplistProps.v ===== *)
(** * Ziplists: the list they represent

    A ziplist represents a list of strings. The operations on the block refine
    those on the list: creation, insertion, deletion, replacement and merging,
    with the cascading updates they trigger, and all ways of reading it. *)

From stdpp Require Import base list option.
From Stdlib Require Import ZArith Lia Bool.
From S2P Require Import Prelude Endian Util UtilFacts BitopsFacts Ziplist ZiplistFacts ZiplistCascade ZiplistBody ZiplistOps ZiplistWalk.

Local Open Scope Z_scope.

Definition represents (zl : list byte) (l : list (list byte)) : Prop := exists es, rep zl es /\ texts es = l.

(** Room for an operation with the string [s]: the lengths stay below 32 bits
    even if every entry grows twice. *)
Definition room (zl s : list byte) : Prop := 5 * zlen zl + zlen s + 64 < 2 ^ 32.

(** ** Entries after an operation *)

Lemma texts_app a b : texts (a ++ b) = texts a ++ texts b.
Proof. apply map_app. Qed.

Lemma texts_bodies a b : map body a = map body b -> texts a = texts b.
Proof.
  intros E. assert (forall l, texts l = map (fun x => text (body_value x)) (map body l)) as Ht by (intros l; by rewrite map_map). by rewrite !Ht, E.
Qed.

Lemma texts_relink w b B : texts (relink w b B) = texts (b :: B).
Proof. apply texts_bodies, relink_bodies. Qed.

Lemma relink_chain L w b B : ent_ok b -> prev_ok w L -> chain (elen b) B -> esize (b :: B) + 4 * zlen (b :: B) < 2 ^ 32 -> chain L (relink w b B).
Proof.
  intros Hb Hp HB Hs. unfold relink. cbn [chain]. split_and!; [done|done|]. pose proof (elen_pos (mk_zent w (body b)) Hb). cbn [esize] in Hs. rewrite zlen_cons in Hs.
  apply (widen_chain (elen b)); [done|lia|]. unfold elen, psize in *. cbn [wide body] in *. destruct w, (wide b); lia.
Qed.

Lemma relink_length w b B : zlen (relink w b B) = zlen (b :: B).
Proof. unfold zlen. by rewrite <- (length_map body), relink_bodies, length_map. Qed.

Lemma prev_ok_big L : 0 <= L < 2 ^ 32 -> prev_ok (ZIP_BIG_PREVLEN <=? L) L.
Proof. intros HL. split; [done|]. intros HLf. apply Z.leb_gt in HLf. done. Qed.

Section Props.
Context `{Host} (fill : nat -> byte).

Lemma block_insert_rep zl A B s : rep zl (A ++ B) -> Forall is_byte s -> zlen zl + 4 * zlen B + zlen s + 32 < 2 ^ 32 ->
  exists zl' es', __ziplistInsert fill zl (pos A) s = Some zl' /\ rep zl' es' /\ texts es' = texts A ++ s :: texts B /\ zlen es' = zlen (A ++ B) + 1.
Proof.
  intros (cnt & -> & Hcnt & Hc & Hs) Hb Hr. rewrite block_zlen in Hr. pose proof (zlen_nonneg B). pose proof (zlen_nonneg s). unfold pos. rewrite insert_spec; [|done|by eapply count_ok_range|lia].
  eexists _, (inserted A B s). split; [done|]. apply chain_app in Hc as [HA HB]. pose proof (lastlen_le A HA) as HL. rewrite esize_app in *. pose proof (esize_nonneg A). pose proof (esize_nonneg B).
  set (n := new_entry (lastlen 0 A) s). destruct (new_body_spec s Hb) as (Hnb & Hni & Hnv); [lia|]. assert (ent_ok n) as Hn by done.
  destruct (entry_payload_spec s) as (_ & _ & _ & _ & _ & Hlen & _); [lia|]. assert (2 <= elen n <= 10 + Z.max (zlen s) 8) as Hel by (unfold n, new_entry, elen, psize; cbn [wide body]; destruct (ZIP_BIG_PREVLEN <=? lastlen 0 A); lia).
  assert (text (value n) = s) as Hvn by (unfold value; cbn [body n new_entry]; rewrite Hnv; apply new_value_text).
  set (B' := match B with [] => [] | b :: B1 => relink (next_wide (elen n) b) b B1 end).
  assert (texts B' = texts B /\ zlen B' = zlen B /\ esize B' <= esize B + 4 * zlen B /\ chain (elen n) B') as (HT & HZ & HE & HC).
  { unfold B'. destruct B as [|b B1]; [done|]. destruct HB as (Hb1 & _ & HB1). destruct (next_wide_spec (elen n) b) as (_ & _ & _ & Hpo & _); [lia|].
    split_and!; [apply texts_relink|apply relink_length|apply relink_esize|]. apply relink_chain; try done. lia. }
  assert (inserted A B s = A ++ n :: B') as -> by done. split_and!.
  - exists (incr cnt 1). rewrite esize_app. cbn [esize]. split_and!; [done| | |lia].
    + rewrite zlen_app, zlen_cons, HZ. rewrite zlen_app in Hcnt. pose proof (zlen_nonneg A). replace (zlen A + (1 + zlen B)) with (zlen A + zlen B + 1) by lia. apply count_ok_incr; [done|lia|done].
    + apply chain_app. split; [done|]. cbn [chain]. split_and!; [done| |done]. apply prev_ok_big. lia.
  - rewrite texts_app. cbn [texts map]. fold (texts B'). by rewrite HT, Hvn.
  - rewrite !zlen_app, zlen_cons, HZ. lia.
Qed.

Lemma block_delete_rep zl A D B num : rep zl (A ++ D ++ B) -> D <> [] -> (zlen D = num \/ zlen D < num /\ B = []) -> zlen zl + 4 * zlen B + 4 < 2 ^ 32 ->
  exists zl' B', __ziplistDelete fill zl (pos A) num = Some zl' /\ rep zl' (A ++ B') /\ texts B' = texts B /\ zlen B' = zlen B /\ zlen zl' <= zlen zl + 4 * zlen B.
Proof.
  intros (cnt & -> & Hcnt & Hc & Hs) HD Hnum Hr. rewrite block_zlen in *. unfold pos. rewrite delete_spec; [|done|done|done|by eapply count_ok_range|lia].
  set (B' := match B with [] => [] | b :: B1 => relink (ZIP_BIG_PREVLEN <=? lastlen 0 A) b B1 end). eexists _, B'. split; [done|]. apply chain_app in Hc as [HA HDB]. apply chain_app in HDB as [HDc HB].
  pose proof (lastlen_le A HA) as HL. rewrite !esize_app in *. pose proof (esize_nonneg A). pose proof (esize_nonneg B). pose proof (esize_nonneg D). pose proof (zlen_nonneg B). pose proof (zlen_nonneg A).
  assert (texts B' = texts B /\ zlen B' = zlen B /\ esize B' <= esize B + 4 * zlen B /\ chain (lastlen 0 A) B') as (HT & HZ & HE & HC).
  { unfold B'. destruct B as [|b B1]; [done|]. destruct HB as (Hb1 & _ & HB1). split_and!; [apply texts_relink|apply relink_length|apply relink_esize|]. apply relink_chain; try done; [apply prev_ok_big|]; lia. }
  assert (deleted A B = A ++ B') as -> by done. split_and!; [|done|done|rewrite block_zlen, esize_app; lia].
  exists (incr cnt (- zlen D)). rewrite esize_app. split_and!; [done| |by apply chain_app|].
  - rewrite zlen_app, HZ. rewrite !zlen_app in Hcnt. pose proof (zlen_nonneg D). replace (zlen A + zlen B) with (zlen A + (zlen D + zlen B) + - zlen D) by lia. apply count_ok_incr; [done|lia|lia].
  - pose proof (esize_length _ _ HDc). assert (1 <= zlen D) by (destruct D; [done|rewrite zlen_cons; pose proof (zlen_nonneg D); lia]). lia.
Qed.

Lemma delete_none zl A e B : rep zl (A ++ e :: B) -> __ziplistDelete fill zl (pos A) 0 = Some zl.
Proof.
  intros Hr. unfold __ziplistDelete. destruct (rep_bytes zl _ Hr) as (-> & _). cbn [mbind option_bind]. rewrite (rep_zipEntry zl A e B Hr). cbn [mbind option_bind].
  destruct (rep_byte zl A e B Hr) as (b & Hby & Hb). assert (delete_scan (length zl) zl (zlen zl) (pos A) 0 0 = Some (pos A, 0)) as ->.
  { destruct (length zl); cbn [delete_scan]; rewrite Hby; cbn [mbind option_bind]; by rewrite Hb. }
  cbn [mbind option_bind]. by rewrite Z.sub_diag.
Qed.

Lemma new_rep : exists zl, ziplistNew fill = Some zl /\ rep zl [].
Proof.
  exists (block 0 []). split; [|exists 0; split_and!; [done|right; done|done|done]].
  unfold ziplistNew, set_BYTES, set_TAIL_OFFSET, set_LENGTH. rewrite native_store_intrev16ifbe, !native_store_intrev32ifbe. done.
Qed.

(** A value of the same size is written over the old one. *)
Lemma replace_same zl A e B s : rep zl (A ++ e :: B) -> Forall is_byte s -> zlen s < 2 ^ 32 -> zlen (new_body s) = zlen (body e) ->
  exists enc value k zl', entry_payload s = Some (enc, value, k) /\ k + zipStoreEntryEncoding_NULL enc (zlen s) = zlen (new_body s) /\
  write_payload zl (pos A + psize (wide e)) enc value s = Some zl' /\ rep zl' (A ++ mk_zent (wide e) (new_body s) :: B).
Proof.
  intros (cnt & -> & Hcnt & Hc & Hs) Hb Hl Hz. destruct (entry_payload_spec s Hl) as (enc & value & k & He & Hk & _ & Hw). exists enc, value, k.
  set (e' := mk_zent (wide e) (new_body s)). assert (elen e' = elen e) as Hel by (unfold elen, e'; cbn [wide body]; lia).
  assert (tailoff (A ++ e' :: B) = tailoff (A ++ e :: B)) as Ht by (rewrite !tailoff_app, !tailoff_cons by done; by rewrite Hel).
  assert (esize (A ++ e' :: B) = esize (A ++ e :: B)) as Hes by (rewrite !esize_app; cbn [esize]; by rewrite Hel).
  exists (block cnt (A ++ e' :: B)). split_and!; [done|done| |].
  - unfold block. rewrite Ht, Hes, !flat_app. cbn [flat]. unfold ent_bytes. cbn [wide body e']. rewrite Hel, <- !app_assoc. set (h := hdr _ _ _). assert (zlen h = 10) as Hh by done.
    rewrite (app_assoc h), (app_assoc (h ++ _)). rewrite Hw; [by rewrite <- !app_assoc|done|]. unfold pos. zlen.
  - exists cnt. rewrite Hes. split_and!; [done| | |done].
    + by rewrite zlen_app, zlen_cons, <- (zlen_cons e), <- zlen_app.
    + apply chain_app in Hc as [HA (He1 & Hp1 & HB)]. apply chain_app. split; [done|]. cbn [chain]. rewrite Hel. split_and!; [|done|done]. destruct (new_body_spec s Hb Hl) as (? & ? & _). done.
Qed.

Lemma replace_rep zl A e B s : rep zl (A ++ e :: B) -> Forall is_byte s -> room zl s ->
  exists zl' es', ziplistReplace fill zl (pos A) s = Some zl' /\ rep zl' es' /\ texts es' = texts A ++ s :: texts B.
Proof.
  unfold room. intros Hr Hb Hroom. unfold ziplistReplace. rewrite (rep_zipEntry zl A e B Hr). cbn [mbind option_bind]. pose proof (zlen_nonneg zl). pose proof (zlen_nonneg s).
  destruct (rep_entry zl A e B Hr) as (h & _ & _ & He & _ & _ & HL & Hz & _). destruct (entry_of_fields (lastlen 0 A) e He) as (Hps & _ & Hlen & Hhs & _). pose proof (esize_nonneg B). pose proof (esize_nonneg A).
  assert (0 <= zlen B /\ 2 * zlen B <= zlen zl) as HBz. { pose proof Hr as (cnt & -> & _ & Hc & _). rewrite block_zlen, esize_app in *. cbn [esize] in *. apply chain_app in Hc as [_ (_ & _ & HB)]. pose proof (esize_length _ _ HB). pose proof (elen_pos e He). pose proof (zlen_nonneg B). lia. }
  destruct (entry_payload_spec s) as (enc & value & k & Hpay & Hk & Hnb & _); [lia|]. rewrite Hpay. cbn [mbind option_bind]. rewrite Hk.
  assert (zlen (body e) < 2 ^ 32 /\ lensize (entry_of (lastlen 0 A) e) + len (entry_of (lastlen 0 A) e) = zlen (body e)) as [Hbe ->] by (unfold elen, psize, pos in *; destruct (wide e); lia).
  rewrite !u32_small by (pose proof (zlen_nonneg (body e)); lia). destruct (Z.eqb_spec (zlen (new_body s)) (zlen (body e))) as [Hsame|Hne].
  - destruct (replace_same zl A e B s Hr Hb) as (enc' & value' & k' & zl' & Hpay' & _ & Hw & Hr'); [lia|done|]. rewrite Hpay in Hpay'. injection Hpay' as <- <- <-. rewrite Hps, Hw. eexists _, _. split_and!; [done|exact Hr'|].
    rewrite texts_app. cbn [texts map]. f_equal. f_equal. unfold ZiplistWalk.value. cbn [body]. destruct (new_body_spec s Hb) as (_ & _ & ->); [lia|]. apply new_value_text.
  - unfold ziplistDelete, ziplistInsert. destruct (block_delete_rep zl A [e] B 1) as (zl1 & B' & -> & Hr1 & HT & HZ & Hzl1); [done|done|by left|lia|]. cbn [mbind option_bind].
    destruct (block_insert_rep zl1 A B' s) as (zl2 & es' & -> & Hr2 & HT2 & _); [done|done|lia|]. exists zl2, es'. rewrite HT2, HT. done.
Qed.

(** ** Merging *)

(** The blocks are joined, whichever is the one that grows. *)
Lemma merge_join c1 c2 e1 e2 : let f := block c1 e1 in let g := block c2 e2 in let n := 11 + esize e1 + esize e2 in exists sz tl cnt,
  (bs ← buf_read g ZIPLIST_HEADER_SIZE (zlen g - ZIPLIST_HEADER_SIZE); buf_write (realloc fill f n) (zlen f - ZIPLIST_END_SIZE) bs) =
    Some (hdr sz tl cnt ++ flat 0 e1 ++ flat 0 e2 ++ [ZIP_END]) /\
  exists sz tl cnt, (t ← buf_move (realloc fill g n) (zlen f - ZIPLIST_END_SIZE) ZIPLIST_HEADER_SIZE (zlen g - ZIPLIST_HEADER_SIZE);
                     bs ← buf_read f 0 (zlen f - ZIPLIST_END_SIZE); buf_write t 0 bs) =
    Some (hdr sz tl cnt ++ flat 0 e1 ++ flat 0 e2 ++ [ZIP_END]).
Proof.
  intros f g n. assert (zlen f = 11 + esize e1 /\ zlen g = 11 + esize e2) as [Hf Hg] by (split; apply block_zlen). unfold ZIPLIST_HEADER_SIZE, ZIPLIST_END_SIZE. pose proof (esize_nonneg e1). pose proof (esize_nonneg e2).
  set (h1 := hdr (11 + esize e1) (10 + tailoff e1) c1). set (h2 := hdr (11 + esize e2) (10 + tailoff e2) c2). assert (zlen h1 = 10 /\ zlen h2 = 10) as [Hh1 Hh2] by done.
  assert (f = h1 ++ flat 0 e1 ++ [ZIP_END] /\ g = h2 ++ flat 0 e2 ++ [ZIP_END]) as [Ef Eg] by done. rewrite Hf, Hg.
  exists (11 + esize e1), (10 + tailoff e1), c1. split; [|exists (11 + esize e1), (10 + tailoff e1), c1]; fold h1.
  - rewrite Eg. replace (h2 ++ flat 0 e2 ++ [ZIP_END]) with (h2 ++ (flat 0 e2 ++ [ZIP_END]) ++ []) by (by rewrite app_nil_r). rewrite buf_read_app by zlen. cbn [mbind option_bind].
    destruct (realloc_grow fill f n) as (junk & -> & Hj); [unfold n; lia|]. rewrite Ef. replace ((h1 ++ flat 0 e1 ++ [ZIP_END]) ++ junk) with ((h1 ++ flat 0 e1) ++ ([ZIP_END] ++ junk) ++ []) by (by rewrite app_nil_r, <- !app_assoc).
    rewrite buf_write_app; [by rewrite app_nil_r, <- !app_assoc|zlen|]. assert (zlen (flat 0 e2 ++ [ZIP_END]) = zlen ([ZIP_END] ++ junk)) as E by (unfold n in *; zlen). unfold zlen in E. lia.
  - destruct (realloc_grow fill g n) as (junk & -> & Hj); [unfold n; lia|]. rewrite Eg. destruct (buf_move_up h2 (flat 0 e2 ++ [ZIP_END]) junk []) as (b & Hb & Hmv). rewrite !app_nil_r in Hmv.
    rewrite <- app_assoc. replace (11 + esize e1 - 1) with (zlen h2 + zlen junk) at 1 by (unfold n in *; lia). replace 10 with (zlen h2) at 1. replace (11 + esize e2 - 10) with (zlen (flat 0 e2 ++ [ZIP_END])) by zlen.
    rewrite Hmv. cbn [mbind option_bind]. rewrite Ef, (app_assoc h1), buf_read_head by zlen. cbn [mbind option_bind]. rewrite (app_assoc h2 b), buf_write_head; [by rewrite <- !app_assoc|].
    assert (zlen (h1 ++ flat 0 e1) = zlen (h2 ++ b)) as E by (unfold n in *; zlen). unfold zlen in E. lia.
Qed.

(** The seam is repaired. *)
Lemma merge_seam e1 e2 cnt : chain 0 e1 -> chain 0 e2 -> (e2 = [] -> e1 = []) -> 11 + esize e1 + esize e2 + 4 * zlen (e1 ++ e2) < 2 ^ 32 -> exists e3,
  __ziplistCascadeUpdate fill (hdr (11 + esize e1 + esize e2) (10 + esize e1 + tailoff e2) cnt ++ flat 0 e1 ++ flat 0 e2 ++ [ZIP_END]) (10 + tailoff e1) =
    Some (block cnt (e1 ++ e3)) /\ chain 0 (e1 ++ e3) /\ map body e3 = map body e2 /\ esize (e1 ++ e3) < 2 ^ 32 - 11.
Proof.
  intros H1 H2 Hne Hs. rewrite zlen_app in Hs. pose proof (esize_nonneg e1). pose proof (esize_nonneg e2). pose proof (zlen_nonneg e1). pose proof (zlen_nonneg e2). destruct e1 as [|f A _] using rev_ind.
  - exists e2. cbn [esize flat app tailoff removelast] in *. change (10 + esize []) with 10. change (zlen (@nil zent)) with 0 in *. rewrite !Z.add_0_r in *. destruct e2 as [|f B].
    + split_and!; [|done..]. cbn [flat app esize tailoff removelast]. unfold __ziplistCascadeUpdate. rewrite get_BYTES, get_TAIL by done. cbn [mbind option_bind]. by rewrite byte_at_end.
    + split_and!; try done; [|lia]. destruct H2 as (Hf & Hp & HB). rewrite zlen_cons in Hs. pose proof (cascade_spec fill [] 0 f (elen f) B cnt Hf Hp HB) as Hc. cbv zeta in Hc. change (zlen (@nil byte)) with 0 in Hc. cbn [app] in Hc.
      rewrite !Z.add_0_r in Hc. cbn [flat]. rewrite <- app_assoc. rewrite Hc; [rewrite widen_same by done; unfold block; cbn [flat]; by rewrite <- app_assoc| |lia].
      destruct B as [|x B]; [done|]. destruct HB as (_ & [_ Hw] & _). intros HL Hx. specialize (Hw Hx). lia.
  - destruct e2 as [|g B]; [by specialize (Hne eq_refl); destruct A|]. apply chain_app in H1 as [HA (Hf & Hp & _)]. exists (widen (elen f) (g :: B)). rewrite esize_app, zlen_app in *. change (zlen [f]) with 1 in *. cbn [esize] in Hs |- *.
    pose proof (elen_pos f Hf). pose proof (esize_nonneg A). pose proof (zlen_nonneg A). pose proof (widen_esize (elen f) (g :: B)) as Hwe. cbn [esize] in Hwe. rewrite <- !app_assoc. cbn [app].
    pose proof (cascade_spec fill (flat 0 A) (lastlen 0 A) f 0 (g :: B) cnt Hf Hp H2) as Hc. cbv zeta in Hc. rewrite flat_zlen in Hc. split_and!.
    + rewrite flat_app, tailoff_snoc. cbn [flat]. rewrite app_nil_r, <- !app_assoc. replace (11 + (esize A + (elen f + 0)) + (elen g + esize B)) with (11 + esize A + esize (f :: g :: B)) by (cbn [esize]; lia).
      replace (10 + (esize A + (elen f + 0)) + tailoff (g :: B)) with (10 + esize A + tailoff (f :: g :: B)) by (rewrite (tailoff_cons f); lia). cbn [flat] in Hc. rewrite <- !app_assoc in Hc. rewrite Hc; [|by intros _ _; left|cbn [esize]; lia].
      unfold block. rewrite flat_app, esize_app, tailoff_app by done. cbn [flat]. rewrite <- !app_assoc. do 3 f_equal; lia.
    + apply chain_app. split; [done|]. cbn [chain]. split_and!; [done|done|]. apply (widen_chain 0); [done|lia|cbn [esize]; lia].
    + apply widen_bodies.
    + rewrite esize_app. cbn [esize]. lia.
Qed.

Lemma merge_rep z1 z2 e1 e2 : rep z1 e1 -> rep z2 e2 -> (e2 = [] -> e1 = []) -> 3 * (zlen z1 + zlen z2) < 2 ^ 32 ->
  exists zl' es', ziplistMerge fill z1 z2 = Some zl' /\ rep zl' es' /\ texts es' = texts e1 ++ texts e2.
Proof.
  intros (c1 & -> & Hc1 & H1 & Hs1) (c2 & -> & Hc2 & H2 & Hs2) Hne Hs. rewrite !block_zlen in Hs. unfold ziplistMerge.
  pose proof (count_ok_range _ _ Hc1). pose proof (count_ok_range _ _ Hc2). pose proof (esize_nonneg e1). pose proof (esize_nonneg e2). pose proof (esize_length _ _ H1). pose proof (esize_length _ _ H2).
  rewrite !block_BYTES by done. cbn [mbind option_bind]. assert (ZIPLIST_LENGTH (block c1 e1) = Some c1 /\ ZIPLIST_LENGTH (block c2 e2) = Some c2) as [-> ->] by (split; by apply get_LENGTH). cbn [mbind option_bind].
  change (11 + esize e1 + (11 + esize e2) - ZIPLIST_HEADER_SIZE - ZIPLIST_END_SIZE) with (11 + esize e1 + (11 + esize e2) - 10 - 1).
  replace (11 + esize e1 + (11 + esize e2) - 10 - 1) with (11 + esize e1 + esize e2) by lia. rewrite u64_small by lia.
  set (cnt := if c1 + c2 <? UINT16_MAX then c1 + c2 else UINT16_MAX). assert (count_ok cnt (zlen e1 + zlen e2)) as Hcnt. { unfold cnt, count_ok, UINT16_MAX in *. destruct (Z.ltb_spec (c1 + c2) 65535); [right|left; done]. destruct Hc1 as [->|[? <-]], Hc2 as [->|[? <-]]; lia. }
  destruct (merge_seam e1 e2 cnt H1 H2 Hne) as (e3 & Hseam & Hch & Hbod & Hsz); [rewrite zlen_app; lia|]. exists (block cnt (e1 ++ e3)), (e1 ++ e3). split_and!.
  - destruct (merge_join c1 c2 e1 e2) as (sz & tl & k & Hj1 & sz' & tl' & k' & Hj2). cbv zeta in Hj1, Hj2. rewrite !block_zlen in Hj1, Hj2.
    assert (forall sz tl k, (target ← set_BYTES (hdr sz tl k ++ flat 0 e1 ++ flat 0 e2 ++ [ZIP_END]) (u32 (11 + esize e1 + esize e2)); target ← set_LENGTH target cnt;
      target ← set_TAIL_OFFSET target ((11 + esize e1 - ZIPLIST_END_SIZE) + (10 + tailoff e2 - ZIPLIST_HEADER_SIZE)); __ziplistCascadeUpdate fill target (10 + tailoff e1)) = Some (block cnt (e1 ++ e3))) as Hfin.
    { intros. rewrite set_BYTES_at. cbn [mbind option_bind]. rewrite set_LENGTH_at. cbn [mbind option_bind]. rewrite set_TAIL_at, u32_small by lia. cbn [mbind option_bind]. unfold ZIPLIST_END_SIZE, ZIPLIST_HEADER_SIZE.
      replace (11 + esize e1 - 1 + (10 + tailoff e2 - 10)) with (10 + esize e1 + tailoff e2) by lia. exact Hseam. }
    destruct (c2 <=? c1); cbv beta iota zeta; rewrite !block_TAIL by done; cbn [mbind option_bind]; [rewrite Hj1|rewrite Hj2]; cbn [mbind option_bind]; apply Hfin.
  - exists cnt. split_and!; [done| |done|lia]. rewrite zlen_app. replace (zlen e3) with (zlen e2); [done|]. unfold zlen. by rewrite <- (length_map body e3), Hbod, length_map.
  - rewrite texts_app. by rewrite (texts_bodies e3 e2).
Qed.

(** ** Indexes *)

(** The place an index stands for in a list of [n]. *)
Definition entry_index (n i : Z) : Z := if i <? 0 then n + i else i.

Lemma texts_zlen es : zlen (texts es) = zlen es.
Proof. unfold zlen, texts. by rewrite length_map. Qed.

Lemma rep_short zl es : rep zl es -> 2 * zlen es + 11 <= zlen zl < 2 ^ 32.
Proof. intros (cnt & -> & _ & Hc & Hs). rewrite block_zlen. pose proof (esize_length _ _ Hc). lia. Qed.

Lemma index_entry_at zl A e B i : rep zl (A ++ e :: B) -> - 2 ^ 31 < i < 2 ^ 31 -> entry_index (zlen (A ++ e :: B)) i = zlen A -> ziplistIndex zl i = Some (Some (pos A)).
Proof.
  intros Hr Hi Hk. rewrite (ziplistIndex_spec zl _ i Hr Hi). fold (entry_index (zlen (A ++ e :: B)) i). rewrite Hk, zlen_app, zlen_cons. pose proof (zlen_nonneg A). pose proof (zlen_nonneg B).
  rewrite (proj2 (Z.leb_le 0 _)), (proj2 (Z.ltb_lt _ _)) by lia. cbn [andb]. rewrite zlen_to_nat. by rewrite take_app_length.
Qed.

Lemma index_inv zl es i p : rep zl es -> - 2 ^ 31 < i < 2 ^ 31 -> ziplistIndex zl i = Some (Some p) ->
  exists A e B, es = A ++ e :: B /\ p = pos A /\ zlen A = entry_index (zlen es) i.
Proof.
  intros Hr Hi E. rewrite (ziplistIndex_spec zl es i Hr Hi) in E. fold (entry_index (zlen es) i) in E. set (k := entry_index (zlen es) i) in *.
  destruct ((0 <=? k) && (k <? zlen es)) eqn:Ek; [|by destruct (bool_decide (es = []) && (1 <=? i))]. bool_to_prop. injection E as <-. destruct (take_split es (Z.to_nat k)) as (x & r & E); [unfold zlen in *; lia|].
  exists (take (Z.to_nat k) es), x, r. split_and!; [done|done|]. unfold zlen in *. rewrite length_take. lia.
Qed.

Lemma texts_split A e B k : zlen A = k -> texts A = take (Z.to_nat k) (texts (A ++ e :: B)) /\ texts (e :: B) = drop (Z.to_nat k) (texts (A ++ e :: B)) /\
  texts B = drop (S (Z.to_nat k)) (texts (A ++ e :: B)) /\ (Z.to_nat k < length (texts (A ++ e :: B)))%nat.
Proof.
  intros <-. rewrite zlen_to_nat, texts_app. assert (length A = length (texts A)) as -> by (unfold texts; by rewrite length_map).
  rewrite take_app_length, drop_app_length. cbn [texts map]. split_and!; [done|done| |rewrite length_app; cbn; lia]. change (?x :: ?l) with ([x] ++ l) at 1. rewrite app_assoc, <- (drop_app_length (texts A ++ [text (value e)])) at 1. f_equal. rewrite length_app. cbn. lia.
Qed.

(** ** Deleting a range *)

Lemma range_rep zl A e B num : rep zl (A ++ e :: B) -> 0 <= num -> 3 * zlen zl + 4 < 2 ^ 32 ->
  exists zl' es', __ziplistDelete fill zl (pos A) num = Some zl' /\ rep zl' es' /\ texts es' = texts A ++ drop (Z.to_nat num) (texts (e :: B)).
Proof.
  intros Hr Hn Hs. pose proof (rep_short zl _ Hr) as Hz. rewrite zlen_app, zlen_cons in Hz. pose proof (zlen_nonneg A). pose proof (zlen_nonneg B). destruct (Z.eq_dec num 0) as [->|Hn0].
  - rewrite (delete_none zl A e B Hr). exists zl, (A ++ e :: B). split_and!; [done|done|]. by rewrite texts_app.
  - set (D := take (Z.to_nat num) (e :: B)). set (R := drop (Z.to_nat num) (e :: B)). assert (e :: B = D ++ R) as E by (unfold D, R; by rewrite take_drop). rewrite E in Hr.
    assert (zlen R <= zlen (e :: B)) by (unfold R, zlen; rewrite length_drop; lia). rewrite zlen_cons in *.
    destruct (block_delete_rep zl A D R num) as (zl' & B' & -> & Hr' & HT & _); [done|unfold D; by destruct (Z.to_nat num) eqn:En; [lia|]| |lia|].
    + unfold D, R. destruct (decide (length (e :: B) <= Z.to_nat num)%nat) as [Hle|Hgt].
      * rewrite take_ge, drop_ge by done. unfold zlen. destruct (Z.eq_dec (Z.of_nat (length (e :: B))) num); [by left|right; split; [lia|done]].
      * left. unfold zlen. rewrite length_take. lia.
    + exists zl', (A ++ B'). split_and!; [done|done|]. rewrite texts_app, HT. f_equal. unfold R, texts. by rewrite skipn_map.
Qed.

(** ** Steps as indexes *)

Lemma next_index zl A e B k : rep zl (A ++ e :: B) -> zlen A = k -> ziplistNext zl (pos A) = if k + 1 <? zlen (A ++ e :: B) then ziplistIndex zl (k + 1) else Some None.
Proof.
  intros Hr <-. pose proof (rep_short zl _ Hr) as Hz. rewrite (ziplistNext_spec zl A e B Hr). rewrite zlen_app, zlen_cons in *. pose proof (zlen_nonneg A). pose proof (zlen_nonneg B). destruct B as [|e' B].
  - change (zlen (@nil zent)) with 0. by rewrite (proj2 (Z.ltb_ge _ _)) by lia.
  - rewrite zlen_cons in *. rewrite (proj2 (Z.ltb_lt _ _)) by (pose proof (zlen_nonneg B); lia). symmetry. apply (index_entry_at zl (A ++ [e]) e' B); [by apply rep_snoc|lia|].
    unfold entry_index. rewrite (proj2 (Z.ltb_ge _ _)) by lia. by rewrite zlen_app.
Qed.

Lemma prev_index zl A e B k : rep zl (A ++ e :: B) -> zlen A = k -> ziplistPrev zl (pos A) = if 0 <? k then ziplistIndex zl (k - 1) else Some None.
Proof.
  intros Hr <-. pose proof (rep_short zl _ Hr) as Hz. rewrite (ziplistPrev_spec zl A e B Hr). rewrite zlen_app, zlen_cons in *. pose proof (zlen_nonneg B). destruct A as [|x A _] using rev_ind; [done|].
  rewrite zlen_app in *. change (zlen [x]) with 1 in *. pose proof (zlen_nonneg A). rewrite (proj2 (Z.ltb_lt _ _)) by lia. rewrite removelast_last. rewrite <- app_assoc in Hr. cbn [app] in Hr.
  rewrite (index_entry_at zl A x (e :: B)); [by destruct A|done|lia|]. unfold entry_index. rewrite (proj2 (Z.ltb_ge _ _)) by lia. lia.
Qed.

Lemma find_at_bound l s skip : forall cnt j, find_at l s skip cnt = Some j -> (j < length l)%nat.
Proof.
  induction l as [|x l IH]; intros cnt j E; [done|]. cbn [find_at length] in *.
  destruct (cnt =? 0); [case_bool_decide; [injection E as <-; lia|]|]; apply fmap_Some in E as (j' & E & ->); apply IH in E; lia.
Qed.

Lemma find_index zl A e B k s skip : rep zl (A ++ e :: B) -> zlen A = k -> 0 <= skip < 2 ^ 31 ->
  ziplistFind zl (pos A) s skip = match find_at (texts (e :: B)) s skip 0 with Some j => ziplistIndex zl (k + Z.of_nat j) | None => Some None end.
Proof.
  intros Hr <- Hs. pose proof (rep_short zl _ Hr) as Hz. rewrite (ziplistFind_spec zl A (e :: B) s skip Hr Hs). destruct (find_at (texts (e :: B)) s skip 0) as [j|] eqn:Ef; [|done]. apply find_at_bound in Ef. unfold texts in Ef. rewrite length_map in Ef.
  destruct (take_split (e :: B) j Ef) as (x & r & E). cbn [fmap option_fmap option_map]. assert (A ++ e :: B = (A ++ take j (e :: B)) ++ x :: r) as E' by (by rewrite <- app_assoc, <- E). rewrite E' in Hr.
  pose proof (zlen_nonneg A). symmetry. rewrite zlen_app in Hz. assert (zlen (A ++ take j (e :: B)) = zlen A + Z.of_nat j) as Hl by (rewrite zlen_app; unfold zlen; rewrite length_take; lia).
  apply (index_entry_at zl _ x r); [done|unfold zlen in *; lia|]. unfold entry_index. rewrite (proj2 (Z.ltb_ge _ _)) by lia. by rewrite Hl.
Qed.

(** ** The theorems *)

(** C2. Ziplists refine lists of strings: from the empty list of [ziplistNew],
    pushing at either end, inserting before, replacing and deleting the entry
    an index gives, deleting a range and merging two lists give blocks that
    represent the list after the operation, whatever entries change their
    lengths on the way. The operations have a result: no assertion fails and no
    access is outside the block. Merging needs the second list not to be empty
    if the first is not. *)
Theorem ziplist_refines zl l s : represents zl l -> Forall is_byte s -> room zl s ->
  (exists zl0, ziplistNew fill = Some zl0 /\ represents zl0 []) /\
  (forall at_head : bool, exists zl', ziplistPush fill zl s at_head = Some zl' /\ represents zl' (if at_head then s :: l else l ++ [s])) /\
  (forall i p, - 2 ^ 31 < i < 2 ^ 31 -> ziplistIndex zl i = Some (Some p) -> let k := Z.to_nat (entry_index (zlen l) i) in
     (exists zl', ziplistInsert fill zl p s = Some zl' /\ represents zl' (take k l ++ s :: drop k l)) /\
     (exists zl', ziplistReplace fill zl p s = Some zl' /\ represents zl' (<[k := s]> l)) /\
     (exists zl', ziplistDelete fill zl p = Some zl' /\ represents zl' (delete k l))) /\
  (forall i num, - 2 ^ 31 < i < 2 ^ 31 -> 0 <= num -> (l = [] -> i < 1) -> let k := entry_index (zlen l) i in
     exists zl', ziplistDeleteRange fill zl i num = Some zl' /\
       represents zl' (if (0 <=? k) && (k <? zlen l) then take (Z.to_nat k) l ++ drop (Z.to_nat num) (drop (Z.to_nat k) l) else l)) /\
  (forall zl2 l2, represents zl2 l2 -> (l2 = [] -> l = []) -> 3 * (zlen zl + zlen zl2) < 2 ^ 32 ->
     exists zl', ziplistMerge fill zl zl2 = Some zl' /\ represents zl' (l ++ l2)).
Proof.
  intros (es & Hr & <-) Hb Hroom. pose proof (rep_short zl es Hr) as Hz. pose proof (zlen_nonneg es). pose proof (zlen_nonneg s). unfold room in Hroom. rewrite texts_zlen. split_and!.
  - destruct new_rep as (zl0 & Hn & Hr0). exists zl0. split; [done|]. by exists [].
  - intros h. unfold ziplistPush. destruct (rep_bytes zl es Hr) as (-> & Hl & _). cbn [mbind option_bind]. destruct h.
    + destruct (block_insert_rep zl [] es s Hr Hb) as (zl' & es' & Hi & Hr' & HT & _); [lia|]. exists zl'. split; [exact Hi|]. by exists es'.
    + replace (zlen zl - 1) with (pos es) by (unfold pos; lia). destruct (block_insert_rep zl es [] s) as (zl' & es' & Hi & Hr' & HT & _); [by rewrite app_nil_r|done|change (zlen (@nil zent)) with 0; lia|]. exists zl'. split; [exact Hi|]. by exists es'.
  - intros i p Hi Hp k. destruct (index_inv zl es i p Hr Hi Hp) as (A & e & B & -> & -> & Hk). destruct (texts_split A e B _ eq_refl) as (HA & HB & HB' & Hlt). unfold k. rewrite <- Hk.
    rewrite zlen_app, zlen_cons in Hz. pose proof (zlen_nonneg A). pose proof (zlen_nonneg B). split_and!.
    + destruct (block_insert_rep zl A (e :: B) s Hr Hb) as (zl' & es' & Hin & Hr' & HT & _); [rewrite zlen_cons; lia|]. exists zl'. split; [exact Hin|]. exists es'. by rewrite <- HA, <- HB.
    + destruct (replace_rep zl A e B s Hr Hb Hroom) as (zl' & es' & Hin & Hr' & HT). exists zl'. split; [exact Hin|]. exists es'. rewrite insert_take_drop by done. by rewrite <- HA, <- HB'.
    + destruct (block_delete_rep zl A [e] B 1 Hr) as (zl' & B' & Hin & Hr' & HT & _); [done|by left|lia|]. exists zl'. split; [exact Hin|]. exists (A ++ B'). rewrite delete_take_drop. by rewrite texts_app, HT, <- HA, <- HB'.
  - intros i num Hi Hnum Hempty k. unfold ziplistDeleteRange. rewrite (ziplistIndex_spec zl es i Hr Hi). fold (entry_index (zlen es) i). fold k. destruct ((0 <=? k) && (k <? zlen es)) eqn:Ek.
    + bool_to_prop. cbn [mbind option_bind]. destruct (take_split es (Z.to_nat k)) as (e & B & E); [unfold zlen in *; lia|]. assert (zlen (take (Z.to_nat k) es) = k) as HkA by (unfold zlen in *; rewrite length_take; lia).
      rewrite E in Hr. destruct (range_rep zl _ e B num Hr Hnum) as (zl' & es' & Hd & Hr' & HT); [lia|]. exists zl'. split; [exact Hd|]. exists es'. split; [done|]. rewrite HT. destruct (texts_split _ e B k HkA) as (HA & HB & _). rewrite <- E in HA, HB. by rewrite HA, HB.
    + assert (bool_decide (es = []) && (1 <=? i) = false) as -> by (destruct es; [specialize (Hempty eq_refl); cbn; lia|done]). cbn [mbind option_bind]. exists zl. split; [done|]. by exists es.
  - intros zl2 l2 (es2 & Hr2 & <-) Hne Hs. destruct (merge_rep zl zl2 es es2 Hr Hr2) as (zl' & es' & Hm & Hr' & HT); [intros ->; specialize (Hne eq_refl); by destruct es|done|]. exists zl'. split; [done|]. by exists es'.
Qed.

(** C18. Reading a ziplist that represents [l]: its size and its length, the
    entry of an index from either end (and no entry out of range, where only a
    positive index of the empty list fails an assertion), the value there, the
    comparison of it with a string, the entries after and before it, and the
    first entry equal to a string among every [skip] plus one entries from
    there on. *)
Theorem ziplist_reads zl l : represents zl l ->
  ziplistBlobLen zl = Some (zlen zl) /\
  (exists zl', ziplistLen zl = Some (zlen l, zl') /\ represents zl' l) /\
  forall i, - 2 ^ 31 < i < 2 ^ 31 -> let k := entry_index (zlen l) i in
    match (if 0 <=? k then l !! Z.to_nat k else None) with
    | None => ziplistIndex zl i = if bool_decide (l = []) && (1 <=? i) then None else Some None
    | Some x => exists p v, ziplistIndex zl i = Some (Some p) /\ ziplistGet zl (Some p) = Some (Some v) /\ text v = x /\
        (forall s, ziplistCompare zl p s = Some (bool_decide (x = s))) /\
        ziplistNext zl p = (if k + 1 <? zlen l then ziplistIndex zl (k + 1) else Some None) /\
        ziplistPrev zl p = (if 0 <? k then ziplistIndex zl (k - 1) else Some None) /\
        (forall s skip, 0 <= skip < 2 ^ 31 ->
           ziplistFind zl p s skip = match find_at (drop (Z.to_nat k) l) s skip 0 with Some j => ziplistIndex zl (k + Z.of_nat j) | None => Some None end)
    end.
Proof.
  intros (es & Hr & <-). pose proof (rep_short zl es Hr) as Hz. rewrite texts_zlen. split_and!.
  - unfold ziplistBlobLen. by destruct (rep_bytes zl es Hr) as (-> & _).
  - destruct (ziplistLen_spec zl es Hr) as (zl' & -> & Hr'). exists zl'. split; [done|]. by exists es.
  - intros i Hi k. pose proof (ziplistIndex_spec zl es i Hr Hi) as Hix. cbv zeta in Hix. fold (entry_index (zlen es) i) in Hix. fold k in Hix.
    destruct ((0 <=? k) && (k <? zlen es)) eqn:Ek.
    + bool_to_prop. rewrite (proj2 (Z.leb_le 0 k)) by done. destruct (take_split es (Z.to_nat k)) as (e & B & E); [unfold zlen in *; lia|]. set (A := take (Z.to_nat k) es) in *.
      assert (zlen A = k) as HkA by (unfold A, zlen in *; rewrite length_take; lia). clearbody k A. subst es. destruct (texts_split A e B k HkA) as (_ & HB & _ & _).
      assert (texts (A ++ e :: B) !! Z.to_nat k = Some (text (value e))) as -> by (rewrite <- (Nat.add_0_r (Z.to_nat k)), <- lookup_drop, <- HB; done).
      exists (pos A), (value e). rewrite <- HB. split_and!; [done|by apply (ziplistGet_spec zl A e B)|done|intros s; by apply (ziplistCompare_spec zl A e B)|..].
      * by apply next_index.
      * by apply (prev_index zl A e B).
      * intros s skip Hs. by apply find_index.
    + destruct (Z.leb_spec 0 k).
      * rewrite lookup_ge_None_2; [|pose proof (texts_zlen es) as Ht; unfold zlen in *; lia]. rewrite Hix. by destruct es.
      * rewrite Hix. by destruct es.
Qed.
End Props.

(** ** Instances *)

#[local] Instance demo_host : Host := { big_endian := false }.

Definition demo_fill (_ : nat) : byte := 0.

Definition hello : list byte := [104; 101; 108; 108; 111].

(** The last two entries have 253 bytes, one less than what 1 byte can hold. *)
Definition demo_strings : list (list byte) := [hello; [49; 48; 50; 52]; replicate 250 97; replicate 250 98].

Definition demo_entries : list zent := map (fun s => mk_zent false (new_body s)) demo_strings.

Definition demo_list : list byte := block 4 demo_entries.

Lemma demo_bytes : Forall (Forall is_byte) demo_strings.
Proof. apply (bool_decide_eq_true_1 _). vm_compute. done. Qed.

Lemma demo_represents : represents demo_list demo_strings.
Proof.
  exists demo_entries. split; [|vm_compute; reflexivity]. exists 4. split_and!; [done|right; split; [unfold UINT16_MAX; lia|done]| |vm_compute; reflexivity].
  assert (forall s, In s demo_strings -> ent_ok (mk_zent false (new_body s))) as He.
  { intros s Hs. pose proof demo_bytes as Hb. rewrite Forall_forall in Hb. destruct (new_body_spec s) as (? & ? & _); [by apply Hb| |done].
    assert (Forall (fun s => zlen s < 2 ^ 32) demo_strings) as Hl by (apply (bool_decide_eq_true_1 _); vm_compute; done). rewrite Forall_forall in Hl. by apply Hl. }
  do 4 (split; [apply He; cbn; tauto|split; [split; [split; vm_compute; congruence|intros _; vm_compute; reflexivity]|]]). done.
Qed.

(** Inserting a long string before the last two entries makes both grow. *)
Lemma ziplist_refines_witness :
  ziplistIndex demo_list (-2) = Some (Some 21) /\
  exists zl', ziplistInsert demo_fill demo_list 21 (replicate 300 99) = Some zl' /\
    represents zl' [hello; [49; 48; 50; 52]; replicate 300 99; replicate 250 97; replicate 250 98].
Proof.
  assert (ziplistIndex demo_list (-2) = Some (Some 21)) as Hp by (vm_compute; reflexivity). split; [exact Hp|].
  destruct (ziplist_refines demo_fill demo_list demo_strings (replicate 300 99) demo_represents) as (_ & _ & Hops & _).
  - apply (bool_decide_eq_true_1 _). vm_compute. reflexivity.
  - vm_compute. reflexivity.
  - destruct (Hops (-2) 21 (conj eq_refl eq_refl) Hp) as (Hins & _). exact Hins.
Defined.

(** The integer is found by its text; its neighbours are the next indexes. *)
Lemma ziplist_reads_witness : exists p v, ziplistIndex demo_list 1 = Some (Some p) /\ ziplistGet demo_list (Some p) = Some (Some v) /\ text v = [49; 48; 50; 52] /\
  ziplistNext demo_list p = ziplistIndex demo_list 2 /\ ziplistPrev demo_list p = ziplistIndex demo_list 0 /\
  ziplistFind demo_list p (replicate 250 98) 1 = ziplistIndex demo_list 3.
Proof.
  destruct (ziplist_reads demo_list demo_strings demo_represents) as (_ & _ & Hix).
  destruct (Hix 1 (conj eq_refl eq_refl)) as (p & v & H1 & H2 & H3 & _ & H5 & H6 & H7). exists p, v. split; [exact H1|]. split; [exact H2|]. split; [exact H3|]. split; [exact H5|]. split; [exact H6|].
  exact (H7 (replicate 250 98) 1 (conj (Z.le_0_1) eq_refl)).
Defined.
