(* ===== verification/ZiplistValid.v ===== *)
(** * Ziplists: validation

    The deep validation of an untrusted block reads only inside it, terminates,
    and accepts exactly the blocks that start with a header that is right and a
    sequence of well-formed entries: what may follow the first end byte is not
    looked at. *)

From stdpp Require Import base list option.
From Stdlib Require Import ZArith Lia Bool.
From S2P Require Import Prelude Endian Util UtilFacts BitopsFacts Ziplist ZiplistFacts ZiplistCascade ZiplistBody ZiplistOps ZiplistWalk.

Local Open Scope Z_scope.

(** ** Reading an arbitrary block *)

Lemma byte_at_lt zl p : 0 <= p < zlen zl -> exists b, byte_at zl p = Some b.
Proof. intros Hp. unfold byte_at. rewrite (proj2 (Z.leb_le 0 p)) by lia. apply lookup_lt_is_Some_2. unfold zlen in Hp. lia. Qed.

Lemma byte_at_is_byte zl p b : Forall is_byte zl -> byte_at zl p = Some b -> is_byte b.
Proof. unfold byte_at. intros Hf E. case_if_in E; [|done]. rewrite Forall_lookup in Hf. by eapply Hf. Qed.

(** A byte inside a part. *)
Lemma byte_at_inner a b c i x : byte_at (a ++ b ++ c) (zlen a + i) = Some x -> 0 <= i < zlen b -> byte_at b i = Some x.
Proof. intros E Hi. destruct (byte_at_lt b i Hi) as [y Hy]. rewrite Hy. apply (byte_at_local a b c) in Hy. congruence. Qed.

Lemma decode_length_total zl p enc : 0 <= p -> p + Z.min 5 (zipEncodingLenSize enc) <= zlen zl -> exists r, ZIP_DECODE_LENGTH zl p enc = Some r.
Proof.
  intros Hp Hl. unfold ZIP_DECODE_LENGTH. destruct (enc <? ZIP_STR_MASK) eqn:Em; [|repeat case_if; by eexists].
  assert (forall i, 0 <= i < Z.min 5 (zipEncodingLenSize enc) -> exists b, byte_at zl (p + i) = Some b) as Hb by (intros i Hi; apply byte_at_lt; lia).
  destruct (Z.eqb_spec enc ZIP_STR_06B) as [->|]; [|destruct (Z.eqb_spec enc ZIP_STR_14B) as [->|]; [|destruct (Z.eqb_spec enc ZIP_STR_32B) as [->|]; [|by eexists]]].
  - destruct (Hb 0 ltac:(done)) as [b0 H0]. rewrite Z.add_0_r in H0. rewrite H0. by eexists.
  - destruct (Hb 0 ltac:(done)) as [b0 H0], (Hb 1 ltac:(done)) as [b1 H1]. rewrite Z.add_0_r in H0. rewrite H0, H1. by eexists.
  - destruct (Hb 1 ltac:(done)) as [b1 H1], (Hb 2 ltac:(done)) as [b2 H2], (Hb 3 ltac:(done)) as [b3 H3], (Hb 4 ltac:(done)) as [b4 H4]. rewrite H1, H2, H3, H4. by eexists.
Qed.

Lemma decode_length_zero zl p enc ln : zipEncodingLenSize enc <> ZIP_ENCODING_SIZE_INVALID -> ZIP_DECODE_LENGTH zl p enc <> Some (0, ln).
Proof.
  unfold ZIP_DECODE_LENGTH, zipEncodingLenSize. intros Hs E.
  repeat match type of E with
  | (if ?c then _ else _) = _ => let H := fresh "H" in destruct c eqn:H
  | (_ ← byte_at ?z ?p; _) = _ => destruct (byte_at z p); cbn [mbind option_bind] in E; [|discriminate E]
  end; try discriminate E; apply Hs;
  unfold is_imm, ZIP_STR_MASK, ZIP_STR_06B, ZIP_STR_14B, ZIP_STR_32B, ZIP_INT_8B, ZIP_INT_16B, ZIP_INT_24B, ZIP_INT_32B, ZIP_INT_64B, ZIP_INT_IMM_MIN, ZIP_INT_IMM_MAX in *;
  bool_to_prop; repeat case_if; lia.
Qed.

Lemma split_at (zl : list byte) p n : 0 <= p -> 0 <= n -> p + n <= zlen zl -> exists a m c, zl = a ++ m ++ c /\ zlen a = p /\ zlen m = n.
Proof.
  intros Hp Hn Hl. exists (take (Z.to_nat p) zl), (take (Z.to_nat n) (drop (Z.to_nat p) zl)), (drop (Z.to_nat n) (drop (Z.to_nat p) zl)).
  rewrite !take_drop. unfold zlen in *. rewrite !length_take, length_drop. split_and!; [done|lia|lia].
Qed.

Lemma app_last {A} (x a b : list A) z : x ++ [z] = a ++ b -> b <> [] -> exists y, b = y ++ [z].
Proof. intros E Hb. destruct b as [|w b _] using rev_ind; [done|]. rewrite app_assoc in E. apply app_inj_tail in E as [_ ->]. by exists b. Qed.

Lemma byte_at_last zl x : byte_at zl (zlen zl - 1) = Some x -> exists y, zl = y ++ [x].
Proof.
  intros E. destruct zl as [|w zl _] using rev_ind; [done|]. exists zl. rewrite zlen_app in E. change (zlen [w]) with 1 in E. replace (zlen zl + 1 - 1) with (zlen zl) in E by lia. rewrite byte_at_app in E. by injection E as ->.
Qed.

(** What [ZIP_DECODE_PREVLEN] reads is the length it stands for. *)
Lemma prevlen_inv zl p b ps prev : Forall is_byte zl -> byte_at zl p = Some b -> (b =? ZIP_END) = false -> ZIP_DECODE_PREVLEN zl p = Some (ps, prev) ->
  exists w a c, ps = psize w /\ prev_ok w prev /\ zl = a ++ prev_bytes w prev ++ c /\ zlen a = p.
Proof.
  intros Hf Hb He E. pose proof (byte_at_is_byte _ _ _ Hf Hb) as Hbb. assert (0 <= p < zlen zl) as Hp by (unfold byte_at in Hb; case_if_in Hb; [|done]; apply lookup_lt_Some in Hb; unfold zlen; lia).
  unfold ZIP_DECODE_PREVLEN, ZIP_DECODE_PREVLENSIZE in E. rewrite Hb in E. cbn [mbind option_bind] in E. unfold ZIP_END, ZIP_BIG_PREVLEN, is_byte in *. destruct (Z.ltb_spec b 254) as [Hlt|Hge]; cbn [Z.eqb Pos.eqb] in E.
  - injection E as <- <-. destruct (split_at zl p 1) as (a & m & c & Ez & Ha & Hm); [lia..|]. destruct m as [|m0 [|? m]]; [discriminate Hm| |rewrite !zlen_cons in Hm; pose proof (zlen_nonneg m); lia].
    exists false, a, c. assert (m0 = b) as -> by (rewrite Ez, <- Ha in Hb; cbn [app] in Hb; rewrite byte_at_app in Hb; congruence). split_and!; try done. split; [lia|done].
  - destruct (byte_at zl (p + 1)) as [b1|] eqn:E1; [|done]. destruct (byte_at zl (p + 2)) as [b2|] eqn:E2; [|done]. destruct (byte_at zl (p + 3)) as [b3|] eqn:E3; [|done]. destruct (byte_at zl (p + 4)) as [b4|] eqn:E4; [|done]. cbn [mbind option_bind] in E.
    pose proof (byte_at_is_byte _ _ _ Hf E1). pose proof (byte_at_is_byte _ _ _ Hf E2). pose proof (byte_at_is_byte _ _ _ Hf E3). pose proof (byte_at_is_byte _ _ _ Hf E4). rewrite lor_bytes in E by done.
    assert (Forall is_byte [b1; b2; b3; b4]) as Hbs by (repeat (apply Forall_cons_2; [done|]); constructor). pose proof (le_join_range _ Hbs) as Hr. change (256 ^ zlen [b1; b2; b3; b4]) with (2 ^ 32) in Hr. rewrite u32_small in E by done. injection E as <- <-.
    assert (p + 5 <= zlen zl) as Hp5 by (unfold byte_at in E4; case_if_in E4; [|done]; apply lookup_lt_Some in E4; unfold zlen; lia).
    destruct (split_at zl p 5) as (a & m & c & Ez & Ha & Hm); [lia..|]. exists true, a, c. split_and!; [done|split; [done|done]| |done]. rewrite Ez. do 2 f_equal.
    assert (forall i x, byte_at zl (p + i) = Some x -> 0 <= i < 5 -> byte_at m i = Some x) as Hin by (intros i x Hx Hi; rewrite Ez, <- Ha in Hx; apply byte_at_inner in Hx; [done|lia]).
    assert (byte_at m 0 = Some b) as H0' by (apply Hin; [by rewrite Z.add_0_r|lia]). apply Hin in E1, E2, E3, E4; try lia.
    assert (length m = 5%nat) as Hm5 by (unfold zlen in Hm; lia). destruct m as [|m0 [|m1 [|m2 [|m3 [|m4 [|? m]]]]]]; try discriminate Hm5.
    change (Some m0 = Some b) in H0'. change (Some m1 = Some b1) in E1. change (Some m2 = Some b2) in E2. change (Some m3 = Some b3) in E3. change (Some m4 = Some b4) in E4. simplify_eq.
    cbn [prev_bytes]. change 4%nat with (length [b1; b2; b3; b4]). rewrite le_split_join by done. f_equal. unfold ZIP_BIG_PREVLEN. lia.
Qed.

(** An entry the checks accept is well-formed. *)
Lemma entry_inv zl p b ps prev enc ls ln : Forall is_byte zl -> byte_at zl p = Some b -> (b =? ZIP_END) = false ->
  ZIP_DECODE_PREVLEN zl p = Some (ps, prev) -> ZIP_ENTRY_ENCODING zl (p + ps) = Some enc -> ZIP_DECODE_LENGTH zl (p + ps) enc = Some (ls, ln) -> ls <> 0 -> p + ps + ls + ln <= zlen zl ->
  exists a e c, zl = a ++ ent_bytes prev e ++ c /\ zlen a = p /\ ent_ok e /\ prev_ok (wide e) prev /\ entry_of prev e = mk_zlentry ps prev ls ln (ps + ls) enc.
Proof.
  intros Hf Hb He E1 E2 E3 Hls Hz. destruct (prevlen_inv zl p b ps prev Hf Hb He E1) as (w & a & c & -> & Hp & Ez & Ha). pose proof (decode_length_nonneg _ _ _ _ _ Hf E3) as [Hln Hls'].
  set (a2 := a ++ prev_bytes w prev). assert (zlen a2 = p + psize w) as Ha2 by (unfold a2; zlen). rewrite Ez, app_assoc in E2, E3, Hz, Hf. fold a2 in E2, E3, Hz, Hf. rewrite <- Ha2 in E2, E3. rewrite zlen_app in Hz.
  assert (exists m c', c = m ++ c' /\ zlen m = ls + ln) as (m & c' & -> & Hm) by (destruct (split_at c 0 (ls + ln)) as (x & m & c' & -> & Hx & Hm); [lia..|]; destruct x; [by exists m, c'|rewrite zlen_cons in Hx; pose proof (zlen_nonneg x); lia]).
  assert (Forall is_byte m) as Hfm by (apply Forall_app in Hf as [_ Hf]; by apply Forall_app in Hf as [Hf _]).
  assert (ZIP_ENTRY_ENCODING m 0 = Some enc) as Em.
  { unfold ZIP_ENTRY_ENCODING in *. destruct (byte_at (a2 ++ m ++ c') (zlen a2)) as [x|] eqn:Ex; [|done]. rewrite <- (Z.add_0_r (zlen a2)) in Ex. apply byte_at_inner in Ex; [|lia]. by rewrite Ex. }
  assert (ZIP_DECODE_LENGTH m 0 enc = Some (ls, ln)) as El.
  { pose proof (encoding_len_size _ _ _ _ _ E3 Hls) as Hsz. destruct (decode_length_total m 0 enc) as [r Hr]; [lia|lia|]. rewrite Hr. apply (decode_length_local a2 m c') in Hr. congruence. }
  assert (body_info m = Some (enc, ls, ln)) as Hi. { unfold body_info. rewrite Em. cbn [mbind option_bind]. rewrite El. cbn [mbind option_bind]. rewrite (proj2 (Z.eqb_neq ls 0)) by done. rewrite Hm, Z.eqb_refl. done. }
  exists a, (mk_zent w m), c'. split_and!; [unfold ent_bytes; cbn [wide body]; by rewrite Ez, <- app_assoc|done|split; [done|cbn [body]; by rewrite Hi]|done|]. unfold entry_of. cbn [body wide]. by rewrite Hi.
Qed.

Lemma prevlen_total zl p ps : ZIP_DECODE_PREVLENSIZE zl p = Some ps -> p + ps <= zlen zl -> (ps = 1 \/ ps = 5) /\ 0 <= p /\ exists prev, ZIP_DECODE_PREVLEN zl p = Some (ps, prev).
Proof.
  intros E Hl. unfold ZIP_DECODE_PREVLEN. rewrite E. cbn [mbind option_bind]. unfold ZIP_DECODE_PREVLENSIZE in E. destruct (byte_at zl p) as [b|] eqn:Eb; [|done]. cbn [mbind option_bind] in E. injection E as <-.
  assert (0 <= p) by (unfold byte_at in Eb; case_if_in Eb; [lia|done]). destruct (b <? ZIP_BIG_PREVLEN); cbn [Z.eqb Pos.eqb].
  - split_and!; [by left|done|by eexists].
  - split_and!; [by right|done|]. destruct (byte_at_lt zl (p + 1)) as [b1 ->]; [lia|]. destruct (byte_at_lt zl (p + 2)) as [b2 ->]; [lia|]. destruct (byte_at_lt zl (p + 3)) as [b3 ->]; [lia|]. destruct (byte_at_lt zl (p + 4)) as [b4 ->]; [lia|]. by eexists.
Qed.

(** [zipEntrySafe] on an untrusted block: it has a result, and an entry it finds
    is well-formed and inside the block. *)
Lemma zipEntrySafe_spec zl p b : Forall is_byte zl -> zlen zl < 2 ^ 32 -> 10 <= p -> byte_at zl p = Some b -> (b =? ZIP_END) = false ->
  exists r, zipEntrySafe zl (zlen zl) p true = Some r /\
    match r with
    | None => True
    | Some en => exists a e c prev, zl = a ++ ent_bytes prev e ++ c /\ zlen a = p /\ ent_ok e /\ prev_ok (wide e) prev /\ en = entry_of prev e /\ p + elen e < zlen zl
    end.
Proof.
  intros Hf Hz Hp Hb He. assert (p < zlen zl) as Hpz by (unfold byte_at in Hb; case_if_in Hb; [|done]; apply lookup_lt_Some in Hb; unfold zlen; lia).
  unfold zipEntrySafe. unfold ZIPLIST_HEADER_SIZE, ZIPLIST_END_SIZE.
  assert (exists ps, ZIP_DECODE_PREVLENSIZE zl p = Some ps /\ 1 <= ps <= 5) as (ps & Eps & Hps) by (unfold ZIP_DECODE_PREVLENSIZE; rewrite Hb; cbn [mbind option_bind]; eexists; split; [done|]; destruct (b <? ZIP_BIG_PREVLEN); lia).
  assert (forall prev enc ls ln (v : bool), ZIP_DECODE_PREVLEN zl p = Some (ps, prev) -> ZIP_ENTRY_ENCODING zl (p + ps) = Some enc -> ZIP_DECODE_LENGTH zl (p + ps) enc = Some (ls, ln) -> ls <> 0 ->
    exists r, (if (p + u32 (ps + ls) + ln <? 10) || (zlen zl - 1 <? p + u32 (ps + ls) + ln) then Some None else if v then Some None else Some (Some (mk_zlentry ps prev ls ln (u32 (ps + ls)) enc))) = Some r /\
      match r with None => True | Some en => exists a e c prev, zl = a ++ ent_bytes prev e ++ c /\ zlen a = p /\ ent_ok e /\ prev_ok (wide e) prev /\ en = entry_of prev e /\ p + elen e < zlen zl end) as Hfin.
  { intros prev enc ls ln v E1 E2 E3 Hls. pose proof (decode_length_nonneg _ _ _ _ _ Hf E3) as [Hln Hls']. rewrite u32_small by lia.
    destruct ((p + (ps + ls) + ln <? 10) || (zlen zl - 1 <? p + (ps + ls) + ln)) eqn:Ek; [by eexists|]. apply orb_false_iff in Ek as [Ek1 Ek2]. destruct v; [by eexists|]. eexists. split; [done|].
    destruct (entry_inv zl p b ps prev enc ls ln Hf Hb He E1 E2 E3 Hls) as (a & e & c & Ez & Ha & Hok & Hpo & Hen); [lia|]. exists a, e, c, prev. split_and!; try done.
    destruct (entry_of_fields prev e Hok) as (_ & _ & Hel & _). rewrite Hen in Hel. cbn [headersize len] in Hel. lia. }
  assert (p + ps < zlen zl -> exists enc, ZIP_ENTRY_ENCODING zl (p + ps) = Some enc) as Henc by (intros Hl; destruct (byte_at_lt zl (p + ps)) as [x Hx]; [lia|]; unfold ZIP_ENTRY_ENCODING; rewrite Hx; by eexists).
  destruct (Z.leb_spec 10 p); [|lia]. cbn [andb]. destruct (Z.ltb_spec (p + 10) (zlen zl - 1)).
  - destruct (prevlen_total zl p ps Eps) as (_ & _ & prev & Epv); [lia|]. rewrite Epv. cbn [mbind option_bind]. destruct Henc as [enc Eenc]; [lia|]. rewrite Eenc. cbn [mbind option_bind].
    destruct (decode_length_total zl (p + ps) enc) as [[ls ln] Eln]; [lia|lia|]. rewrite Eln. cbn [mbind option_bind]. destruct (Z.eqb_spec ls 0); [by eexists|]. by eapply Hfin.
  - destruct ((p <? 10) || _); [by eexists|]. rewrite Eps. cbn [mbind option_bind]. destruct ((p + ps <? 10) || (zlen zl - 1 <? p + ps)) eqn:E1; [by eexists|]. apply orb_false_iff in E1 as [E1 E1'].
    destruct Henc as [enc Eenc]; [lia|]. rewrite Eenc. cbn [mbind option_bind]. destruct (Z.eqb_spec (zipEncodingLenSize enc) ZIP_ENCODING_SIZE_INVALID) as [|Hinv]; [by eexists|].
    destruct ((p + ps + zipEncodingLenSize enc <? 10) || (zlen zl - 1 <? p + ps + zipEncodingLenSize enc)) eqn:E2; [by eexists|]. apply orb_false_iff in E2 as [E2 E2'].
    destruct (prevlen_total zl p ps Eps) as (_ & _ & prev & Epv); [lia|]. rewrite Epv. cbn [mbind option_bind].
    destruct (decode_length_total zl (p + ps) enc) as [[ls ln] Eln]; [lia|lia|]. rewrite Eln. cbn [mbind option_bind]. eapply Hfin; [done..|]. intros ->. by apply decode_length_zero in Eln.
Qed.

(** ** The loop *)

Definition accepts (cb : option (Z -> bool)) (q : Z) : Prop := match cb with Some f => f q = true | None => True end.

Fixpoint positions (p : Z) (es : list zent) : list Z :=
  match es with [] => [] | e :: es => p :: positions (p + elen e) es end.

(** The last entry of a list. *)
Definition last_pos (es : list zent) : option Z := match es with [] => None | _ => Some (10 + tailoff es) end.

Lemma last_pos_snoc es e : last_pos (es ++ [e]) = Some (pos es).
Proof. unfold last_pos. rewrite tailoff_snoc. by destruct es. Qed.

Lemma entry_of_inj prev e e' c c' : ent_ok e -> ent_ok e' -> entry_of prev e = entry_of prev e' -> ent_bytes prev e ++ c = ent_bytes prev e' ++ c' -> e = e' /\ c = c'.
Proof.
  intros He He' E Eb. destruct (entry_of_fields prev e He) as (H1 & _ & H2 & _), (entry_of_fields prev e' He') as (H1' & _ & H2' & _). rewrite E in H1, H2.
  assert (wide e = wide e') as Hw by (rewrite H1 in H1'; unfold psize in H1'; by destruct (wide e), (wide e')). assert (zlen (ent_bytes prev e) = zlen (ent_bytes prev e')) as Hl by (rewrite !ent_bytes_zlen; lia).
  apply app_inj_1 in Eb as [Eb Ec]; [|unfold zlen in Hl; lia]. unfold ent_bytes in Eb. rewrite Hw in Eb. apply app_inv_head in Eb. destruct e, e'. cbn in *. by subst.
Qed.

Section Valid.
Context `{Host}.

(** An entry at its place is found. *)
Lemma safe_at zl h A e rest : zl = (h ++ flat 0 A) ++ ent_bytes (lastlen 0 A) e ++ rest -> zlen h = 10 -> chain 0 A -> ent_ok e -> prev_ok (wide e) (lastlen 0 A) -> rest <> [] ->
  zipEntrySafe zl (zlen zl) (pos A) true = Some (Some (entry_of (lastlen 0 A) e)).
Proof.
  intros Ez Hh HA He Hp Hr. pose proof (lastlen_le A HA). assert (1 <= zlen rest) by (destruct rest; [done|rewrite zlen_cons; pose proof (zlen_nonneg rest); lia]).
  assert (assert_entry zl (zlen zl) (pos A) true = Some (entry_of (lastlen 0 A) e)) as Ha.
  { rewrite Ez at 1. apply assert_entry_at; try done; unfold pos, ZIPLIST_HEADER_SIZE; [zlen|lia|rewrite Ez; zlen|lia]. }
  unfold assert_entry in Ha. destruct (zipEntrySafe zl (zlen zl) (pos A) true) as [r|]; [|done]. cbn [mbind option_bind] in Ha. by rewrite Ha.
Qed.

Lemma zip_validate_loop cb zl h fuel : forall A rest, Forall is_byte zl -> zlen zl < 2 ^ 32 -> zl = (h ++ flat 0 A) ++ rest -> zlen h = 10 -> chain 0 A -> (exists x, rest = x ++ [ZIP_END]) -> (length rest <= fuel)%nat ->
  exists r, validate_loop fuel cb zl (zlen zl) (pos A) (last_pos A) (lastlen 0 A) (zlen A) = Some r /\
    forall q, r = Some q <-> exists B c, rest = flat (lastlen 0 A) B ++ ZIP_END :: c /\ chain (lastlen 0 A) B /\ Forall (accepts cb) (positions (pos A) B) /\ q = (last_pos (A ++ B), zlen (A ++ B)).
Proof.
  induction fuel as [|fuel IH]; intros A rest Hf Hz Ez Hh HA [y Hlast] Hfuel; [rewrite Hlast, length_app in Hfuel; cbn in Hfuel; lia|].
  destruct rest as [|b rest]; [by destruct y|]. assert (zlen (h ++ flat 0 A) = pos A) as Hpa by (unfold pos; zlen). assert (byte_at zl (pos A) = Some b) as Hb by (rewrite Ez, <- Hpa; apply byte_at_app).
  cbn [validate_loop]. rewrite Hb. cbn [mbind option_bind]. destruct (b =? ZIP_END) eqn:Ebe.
  - apply Z.eqb_eq in Ebe as ->. eexists. split; [done|]. intros q. split.
    + intros [= <-]. exists [], rest. rewrite app_nil_r. split_and!; done.
    + intros (B & c & E & HB & _ & ->). destruct B as [|e B]; [by rewrite app_nil_r|]. exfalso. destruct HB as (_ & Hp & _). destruct (byte_at_entry [] (lastlen 0 A) e B (ZIP_END :: c) 0 Hp eq_refl) as (x & Hx & Hxe).
      cbn [app] in Hx. rewrite <- E in Hx. change (Some ZIP_END = Some x) in Hx. injection Hx as <-. done.
  - assert (forall B c, b :: rest = flat (lastlen 0 A) B ++ ZIP_END :: c -> chain (lastlen 0 A) B -> exists e B', B = e :: B' /\ ent_ok e /\ prev_ok (wide e) (lastlen 0 A) /\ chain (elen e) B' /\
        zipEntrySafe zl (zlen zl) (pos A) true = Some (Some (entry_of (lastlen 0 A) e)) /\ b :: rest = ent_bytes (lastlen 0 A) e ++ flat (elen e) B' ++ ZIP_END :: c) as Hdec.
    { intros B c E HB. destruct B as [|e B]; [by injection E as -> _|]. destruct HB as (He & Hp & HB). exists e, B. cbn [flat] in E. rewrite <- app_assoc in E. split_and!; try done.
      apply (safe_at zl h A e (flat (elen e) B ++ ZIP_END :: c)); try done; [by rewrite Ez, E|by destruct (flat (elen e) B)]. }
    destruct (zipEntrySafe_spec zl (pos A) b Hf Hz) as (r0 & Hr0 & Hspec); [pose proof (esize_nonneg A); unfold pos; lia|done|done|]. rewrite Hr0 in Hdec |- *. cbn [mbind option_bind]. destruct r0 as [en|].
    2:{ eexists. split; [done|]. intros q. split; [done|]. intros (B & c & E & HB & _). by destruct (Hdec B c E HB) as (? & ? & _ & _ & _ & _ & [=] & _). }
    destruct Hspec as (a & e & c & prev & Ez' & Ha & He & Hp & -> & Hpe). destruct (entry_of_fields prev e He) as (_ & Hprv & Hel & _). rewrite Hprv.
    assert (b :: rest = ent_bytes prev e ++ c) as Erest by (rewrite Ez in Ez'; apply app_inj_1 in Ez' as [_ E]; [done|unfold zlen in *; lia]).
    destruct (Z.eqb_spec prev (lastlen 0 A)) as [->|Hne]; cbn [negb].
    2:{ eexists. split; [done|]. intros q. split; [done|]. intros (B & c' & E & HB & _). destruct (Hdec B c' E HB) as (e' & B' & _ & He' & _ & _ & [= Heq] & _). destruct (entry_of_fields (lastlen 0 A) e' He') as (_ & Hprv' & _). rewrite <- Heq in Hprv'. congruence. }
    assert (c <> []) as Hc by (intros ->; rewrite app_nil_r in Ez'; rewrite Ez', zlen_app, ent_bytes_zlen in Hpe; lia). assert (exists y', c = y' ++ [ZIP_END]) as Hlast'.
    { rewrite Erest in Hlast. by apply (app_last y (ent_bytes (lastlen 0 A) e)). }
    assert (match cb with Some f => negb (f (pos A)) | None => false end = false \/ match cb with Some f => negb (f (pos A)) | None => false end = true /\ ~ accepts cb (pos A)) as [Hcb|[-> Hncb]].
    { unfold accepts. destruct cb as [f|]; [|by left]. destruct (f (pos A)); [by left|by right]. }
    2:{ eexists. split; [done|]. intros q. split; [done|]. intros (B & c' & E & HB & Hacc & _). destruct (Hdec B c' E HB) as (e' & B' & -> & _). cbn [positions] in Hacc. by apply Forall_cons_1 in Hacc as [Hacc _]. }
    rewrite Hcb. pose proof (esize_length 0 A HA). pose proof (zlen_nonneg A). pose proof (elen_pos e He). unfold pos in Hpe. rewrite Hel, (u32_small (elen e)), (u32_small (zlen A + 1)) by lia.
    destruct (IH (A ++ [e]) c) as (r & Hr & Hiff); [done|done| |done|apply chain_app; cbn [chain]; done|done|pose proof (f_equal length Erest) as Hl; rewrite length_app in Hl; pose proof (ent_bytes_zlen (lastlen 0 A) e) as Hbl; unfold zlen in Hbl; cbn [length] in *; lia|].
    + rewrite Ez, Erest, flat_app. cbn [flat]. by rewrite app_nil_r, <- !app_assoc.
    + rewrite last_pos_snoc, lastlen_app in Hr. cbn [lastlen] in Hr. rewrite zlen_app in Hr. change (zlen [e]) with 1 in Hr. assert (pos (A ++ [e]) = pos A + elen e) as Hpos by (unfold pos; rewrite esize_app; cbn [esize]; lia). rewrite Hpos in Hr.
      exists r. split; [exact Hr|]. intros q. rewrite Hiff. rewrite lastlen_app, Hpos. cbn [lastlen]. split.
      * intros (B & c' & -> & HB & Hacc & ->). exists (e :: B), c'. cbn [flat chain positions]. rewrite <- !app_assoc. cbn [app] in *. rewrite Erest. split_and!; try done. apply Forall_cons_2; [|done]. unfold accepts. destruct cb as [f|]; [|done]. by destruct (f (pos A)).
      * intros (B & c' & E & HB & Hacc & ->). destruct (Hdec B c' E HB) as (e' & B' & -> & He' & _ & HB' & [= Heq] & E'). rewrite Erest in E'. destruct (entry_of_inj _ _ _ _ _ He He' Heq E') as [<- ->].
        exists B', c'. cbn [positions] in Hacc. apply Forall_cons_1 in Hacc as [_ Hacc]. rewrite <- app_assoc. split_and!; done.
Qed.

(** ** The theorem *)

Lemma le_bytes (m : list byte) n : Forall is_byte m -> length m = n -> exists v, m = le_split n v /\ 0 <= v < 256 ^ Z.of_nat n.
Proof. intros Hf <-. exists (le_join m). rewrite le_split_join by done. split; [done|]. apply (le_join_range m Hf). Qed.

Lemma hdr_inv zl : Forall is_byte zl -> 10 <= zlen zl -> exists sz tl cnt X, zl = hdr sz tl cnt ++ X /\ 0 <= sz < 2 ^ 32 /\ 0 <= tl < 2 ^ 32 /\ 0 <= cnt < 2 ^ 16.
Proof.
  intros Hf Hl. destruct (split_at zl 4 4) as (m1 & m2 & r & E & H1 & H2); [lia..|]. rewrite E, !zlen_app in Hl. destruct (split_at r 0 2) as (m0 & m3 & X & E' & H0 & H3); [lia..|]. destruct m0; [|rewrite zlen_cons in H0; pose proof (zlen_nonneg m0); lia]. subst. cbn [app] in *.
  apply Forall_app in Hf as [F1 Hf]. apply Forall_app in Hf as [F2 Hf]. apply Forall_app in Hf as [F3 _].
  destruct (le_bytes m1 4 F1) as (sz & -> & Hsz); [unfold zlen in H1; lia|]. destruct (le_bytes m2 4 F2) as (tl & -> & Htl); [unfold zlen in H2; lia|]. destruct (le_bytes m3 2 F3) as (cnt & -> & Hcnt); [unfold zlen in H3; lia|].
  exists sz, tl, cnt, X. unfold hdr. rewrite <- !app_assoc. done.
Qed.

Lemma hdr_inj sz tl cnt X sz' tl' cnt' X' : hdr sz tl cnt ++ X = hdr sz' tl' cnt' ++ X' -> 0 <= tl < 2 ^ 32 -> 0 <= tl' < 2 ^ 32 -> 0 <= cnt < 2 ^ 16 -> 0 <= cnt' < 2 ^ 16 -> tl = tl' /\ cnt = cnt' /\ X = X'.
Proof.
  intros E Ht Ht' Hc Hc'. split_and!.
  - pose proof (get_TAIL sz tl cnt X Ht) as G. rewrite E, get_TAIL in G by done. by injection G.
  - pose proof (get_LENGTH sz tl cnt X Hc) as G. rewrite E, get_LENGTH in G by done. by injection G.
  - apply app_inj_1 in E as [_ E]; done.
Qed.

(** What the deep validation accepts: a right header, at least one entry, an end
    byte after the entries, and an end byte at the end of the block. *)
Definition valid_block (cb : option (Z -> bool)) (zl : list byte) (es : list zent) (junk : list byte) : Prop :=
  es <> [] /\ chain 0 es /\ Forall (accepts cb) (positions ZIPLIST_HEADER_SIZE es) /\ zlen zl < 2 ^ 32 /\ (exists y, ZIP_END :: junk = y ++ [ZIP_END]) /\
  exists cnt, count_ok cnt (zlen es) /\ zl = hdr (zlen zl) (10 + tailoff es) cnt ++ flat 0 es ++ ZIP_END :: junk.

(** Without anything after the entries it is a ziplist. *)
Lemma valid_block_rep cb zl es : valid_block cb zl es [] -> rep zl es.
Proof.
  intros (_ & Hc & _ & Hs & _ & cnt & Hcnt & E). assert (zlen zl = 11 + esize es) as Hz by (rewrite E; zlen). exists cnt. split_and!; [unfold block; rewrite <- Hz; exact E|done|done|lia].
Qed.

Lemma valid_block_ends cb zl es junk : valid_block cb zl es junk -> 11 <= zlen zl /\ ZIPLIST_BYTES zl = Some (zlen zl) /\ byte_at zl (zlen zl - 1) = Some ZIP_END.
Proof.
  intros (_ & _ & _ & Hs & [y Hy] & cnt & _ & E). rewrite Hy in E. assert (zlen zl = 10 + esize es + zlen y + 1) as Hl by (rewrite E; zlen). pose proof (zlen_nonneg y). pose proof (esize_nonneg es).
  split_and!; [lia| |]; rewrite E at 1; [apply get_BYTES; lia|]. rewrite !app_assoc. apply byte_at_end. zlen.
Qed.

Lemma valid_block_hdr cb zl es junk tl cnt X : valid_block cb zl es junk -> zl = hdr (zlen zl) tl cnt ++ X -> 0 <= tl < 2 ^ 32 -> 0 <= cnt < 2 ^ 16 ->
  tl = 10 + tailoff es /\ tl <= zlen zl - 1 /\ count_ok cnt (zlen es) /\ X = flat 0 es ++ ZIP_END :: junk.
Proof.
  intros (_ & _ & _ & Hs & _ & cnt' & Hcnt' & E') E Htl Hcnt. pose proof (tailoff_le es). pose proof (tailoff_nonneg es). pose proof (count_ok_range _ _ Hcnt'). pose proof (zlen_nonneg junk).
  assert (zlen zl = 11 + esize es + zlen junk) as Hz by (rewrite E'; zlen). rewrite E' in E at 1. destruct (hdr_inj _ _ _ _ _ _ _ _ E) as (<- & <- & <-); [lia|done|done|done|]. split_and!; [done|lia|done|done].
Qed.

(** C10. Validation of an untrusted block with [ziplistValidateIntegrity]: it
    always has a result, so it reads nothing outside the block and terminates,
    and the deep validation accepts exactly the blocks whose header is right
    and whose entries up to the first end byte are well-formed, store the
    lengths of their predecessors and pass the caller's check. Bytes between
    that end byte and the end of the block are accepted unseen, and the empty
    list is rejected. *)
Theorem ziplistValidateIntegrity_correct zl cb : Forall is_byte zl ->
  (exists b, ziplistValidateIntegrity zl (zlen zl) false cb = Some b) /\
  exists b, ziplistValidateIntegrity zl (zlen zl) true cb = Some b /\ (b = true <-> exists es junk, valid_block cb zl es junk).
Proof.
  intros Hf. unfold ziplistValidateIntegrity. change (ZIPLIST_HEADER_SIZE + ZIPLIST_END_SIZE) with 11. unfold ZIPLIST_END_SIZE.
  assert ((forall es junk, ~ valid_block cb zl es junk) -> (exists b, Some false = Some b) /\ exists b, Some false = Some b /\ (b = true <-> exists es junk, valid_block cb zl es junk)) as Hrej.
  { intros Hn. split; [by eexists|]. exists false. split; [done|]. split; [done|]. intros (es & junk & Hv). by apply Hn in Hv. }
  destruct (Z.ltb_spec (zlen zl) 11) as [Hsh|Hlen]; [apply Hrej; intros es junk Hv; apply valid_block_ends in Hv; lia|].
  destruct (hdr_inv zl Hf) as (sz & tl & cnt & X & E & Hsz & Htl & Hcnt); [lia|].
  assert (ZIPLIST_BYTES zl = Some sz /\ ZIPLIST_TAIL_OFFSET zl = Some tl /\ ZIPLIST_LENGTH zl = Some cnt) as (Es & Et & El) by (rewrite E; split_and!; [by apply get_BYTES|by apply get_TAIL|by apply get_LENGTH]).
  rewrite Es. cbn [mbind option_bind]. destruct (Z.eqb_spec sz (zlen zl)) as [->|Hne]; cbn [negb]; [|apply Hrej; intros es junk Hv; apply valid_block_ends in Hv as (_ & Hv & _); congruence].
  destruct (byte_at_lt zl (zlen zl - 1)) as [x Hx]; [lia|]. rewrite Hx. cbn [mbind option_bind]. destruct (Z.eqb_spec x ZIP_END) as [->|Hne]; cbn [negb]; [|apply Hrej; intros es junk Hv; apply valid_block_ends in Hv as (_ & _ & Hv); congruence].
  rewrite Et. cbn [mbind option_bind].
  assert (forall es junk, valid_block cb zl es junk -> _) as Hvb by (intros es junk Hv; exact (valid_block_hdr cb zl es junk tl cnt X Hv E Htl Hcnt)).
  destruct (Z.ltb_spec (zlen zl - 1) tl) as [Hbad|Htl']; [apply Hrej; intros es junk Hv; apply Hvb in Hv as (_ & ? & _); lia|]. split; [by eexists|].
  apply byte_at_last in Hx as [z Hx]. assert (exists x, X = x ++ [ZIP_END]) as Hlast by (rewrite Hx in E; apply app_last in E; [done|]; intros ->; rewrite Hx, E, app_nil_r in Hlen; done).
  destruct (zip_validate_loop cb zl (hdr (zlen zl) tl cnt) (length zl) [] X) as (r & Hr & Hiff); [done|lia|by rewrite app_nil_r|done|done|done|rewrite E at 1; rewrite length_app; lia|].
  change (pos []) with ZIPLIST_HEADER_SIZE in *. cbn [last_pos lastlen app] in *. change (zlen (@nil zent)) with 0 in Hr. rewrite Hr. cbn [mbind option_bind].
  assert (forall es junk, valid_block cb zl es junk -> r = Some (last_pos es, zlen es)) as Hfound.
  { intros es junk Hv. destruct (Hvb es junk Hv) as (_ & _ & _ & HX). destruct Hv as (_ & Hc & Hacc & _). apply Hiff. exists es, junk. split_and!; done. }
  destruct r as [[prev count]|]; [|apply Hrej; intros es junk Hv; by apply Hfound in Hv].
  case_bool_decide as Hprev; cbn [negb]; [|apply Hrej; intros es junk Hv; pose proof (Hvb es junk Hv) as (Htail & _); pose proof (Hfound es junk Hv) as [= -> _]; destruct Hv as (Hn & _); apply Hprev; destruct es; [done|]; cbn [last_pos]; congruence].
  rewrite El. cbn [mbind option_bind]. eexists. split; [done|]. split.
  - intros Hb. destruct (proj1 (Hiff (prev, count)) eq_refl) as (B & c & HX & Hc & Hacc & [= -> ->]). exists B, c. destruct Hlast as [x Hlast]. rewrite HX in Hlast. split_and!; try done; [by intros ->|lia|by apply (app_last x (flat 0 B))|].
    exists cnt. split; [unfold count_ok, UINT16_MAX in *; lia|]. destruct B; [done|]. cbn [last_pos] in Hprev. injection Hprev as <-. by rewrite <- HX.
  - intros (es & junk & Hv). pose proof (Hfound es junk Hv) as [= _ ->]. destruct (Hvb es junk Hv) as (_ & _ & Hok & _). unfold count_ok, UINT16_MAX in *. lia.
Qed.
End Valid.

(** ** An instance *)

#[local] Instance valid_host : Host := { big_endian := false }.

(** One entry, then bytes that belong to none. *)
Definition demo_junk : list byte := hdr 21 10 1 ++ [0; 5; 104; 101; 108; 108; 111; 255; 7; 7; 255].

Lemma ziplistValidateIntegrity_correct_witness :
  ziplistValidateIntegrity demo_junk 21 true None = Some true /\ exists es junk, valid_block None demo_junk es junk.
Proof.
  destruct (ziplistValidateIntegrity_correct demo_junk None) as (_ & b & E & Hb).
  - apply (bool_decide_eq_true_1 _). vm_compute. reflexivity.
  - assert (ziplistValidateIntegrity demo_junk 21 true None = Some true) as E' by (vm_compute; reflexivity). split; [exact E'|].
    apply Hb. change (zlen demo_junk) with 21 in E. rewrite E' in E. injection E as <-. reflexivity.
Defined.
