(* ===== verification/Crc.v ===== *)
(** * Checksums ([crc64.c], [crcspeed.c], [crc16.c]) and hash slots ([cluster.c])

    [crc64] guards the snapshots. It works on 8 bytes at a time with tables built
    from the bit by bit [_crc64], differently for each byte order of the host.
    [crc16] with its literal table assigns keys to the slots of a cluster. *)

From stdpp Require Import base list option.
From Stdlib Require Import ZArith Lia Bool.
From S2P Require Import Prelude Endian.

Local Open Scope Z_scope.

(** ** [crc64.c]: bit by bit *)

Definition POLY : Z := 0xad93d23594c935a9.

Fixpoint reflect_loop (n : nat) (data ret : Z) : Z :=
  match n with
  | O => ret
  | S n' =>
      let data := Z.shiftr data 1 in
      reflect_loop n' data (Z.lor (u64 (Z.shiftl ret 1)) (Z.land data 0x01))
  end.

Definition crc_reflect (data data_len : Z) : Z :=
  reflect_loop (Z.to_nat (data_len - 1)) data (Z.land data 0x01).

(** One round of the inner loop; [i] is the mask of the bit of [c]. *)
Definition crc_bit (c crc i : Z) : Z :=
  let bit := negb (Z.land crc 0x8000000000000000 =? 0) in
  let bit := if negb (Z.land c i =? 0) then negb bit else bit in
  let crc := u64 (Z.shiftl crc 1) in
  if bit then Z.lxor crc POLY else crc.

Definition crc_byte (crc c : Z) : Z :=
  foldl (crc_bit c) crc [0x01; 0x02; 0x04; 0x08; 0x10; 0x20; 0x40; 0x80].

Definition _crc64 (crc : Z) (data : list byte) : Z :=
  crc_reflect (foldl crc_byte crc data) 64.

(** ** [crcspeed.c]: tables *)

Abbreviation crcfn64 := (Z -> list byte -> Z).

Definition table_at (table : list (list Z)) (k : nat) (n : Z) : option Z :=
  row ← table !! k; row !! Z.to_nat n.

(** [crc = table[0][crc & 0xff] ^ (crc >> 8)] *)
Definition nested (row0 : list Z) (crc : Z) : option Z :=
  x ← row0 !! Z.to_nat (Z.land crc 0xff);
  Some (Z.lxor x (Z.shiftr crc 8)).

(** The rows after the first, each from the one before it. *)
Fixpoint nested_rows (k : nat) (row0 row : list Z) : option (list (list Z)) :=
  match k with
  | O => Some []
  | S k' =>
      row ← mapM (nested row0) row;
      rows ← nested_rows k' row0 row;
      Some (row :: rows)
  end.

Definition crcspeed64little_init (crcfn : crcfn64) : option (list (list Z)) :=
  let row0 := map (fun n => crcfn 0 [n]) (seqZ 0 256) in
  rows ← nested_rows 7 row0 row0;
  Some (row0 :: rows).

(** The portable branch; the other one is the compiler's byte swap. *)
Definition rev8 (a : Z) : Z :=
  let m := 0xff00ff00ff00ff in
  let a := Z.lor (Z.land (Z.shiftr a 8) m) (u64 (Z.shiftl (Z.land a m) 8)) in
  let m := 0xffff0000ffff in
  let a := Z.lor (Z.land (Z.shiftr a 16) m) (u64 (Z.shiftl (Z.land a m) 16)) in
  Z.lor (Z.shiftr a 32) (u64 (Z.shiftl a 32)).

Definition crcspeed64big_init (fn : crcfn64) : option (list (list Z)) :=
  big_table ← crcspeed64little_init fn;
  Some (map (map rev8) big_table).

(** ** [crcspeed.c]: loops

    A buffer is its bytes and its address [next]. *)

(** [while (len && ((uintptr_t)next & 7) != 0)] *)
Fixpoint align_loop (step : Z -> byte -> option Z) (crc next : Z) (buf : list byte) : option (Z * list byte) :=
  match buf with
  | [] => Some (crc, [])
  | b :: buf' =>
      if negb (Z.land next 7 =? 0) then crc ← step crc b; align_loop step crc (next + 1) buf'
      else Some (crc, buf)
  end.

(** [while (len >= 8)] *)
Fixpoint word_loop (fuel : nat) (step : Z -> list byte -> option Z) (crc : Z) (buf : list byte) : option (Z * list byte) :=
  if 8 <=? zlen buf then
    match fuel with
    | O => None
    | S fuel' => crc ← step crc (take 8 buf); word_loop fuel' step crc (drop 8 buf)
    end
  else Some (crc, buf).

(** [while (len)] *)
Fixpoint byte_loop (step : Z -> byte -> option Z) (crc : Z) (buf : list byte) : option Z :=
  match buf with
  | [] => Some crc
  | b :: buf' => crc ← step crc b; byte_loop step crc buf'
  end.

Definition little_byte (t : list (list Z)) (crc : Z) (b : byte) : option Z :=
  x ← table_at t 0 (Z.land (Z.lxor crc b) 0xff);
  Some (Z.lxor x (Z.shiftr crc 8)).

Definition big_byte (t : list (list Z)) (crc : Z) (b : byte) : option Z :=
  x ← table_at t 0 (Z.lxor (Z.shiftr crc 56) b);
  Some (Z.lxor x (u64 (Z.shiftl crc 8))).

(** The exclusive or of entries of the tables [ks], one for each byte of [crc]
    from the least significant on. *)
Fixpoint slices (t : list (list Z)) (ks : list nat) (crc : Z) : option Z :=
  match ks with
  | [] => Some 0
  | [k] => table_at t k crc
  | k :: ks' =>
      x ← table_at t k (Z.land crc 0xff);
      y ← slices t ks' (Z.shiftr crc 8);
      Some (Z.lxor x y)
  end.

Section Crc.
Context `{Host}.

Definition little_word (t : list (list Z)) (crc : Z) (bs : list byte) : option Z :=
  slices t [7; 6; 5; 4; 3; 2; 1; 0]%nat (Z.lxor crc (native_load bs)).

Definition big_word (t : list (list Z)) (crc : Z) (bs : list byte) : option Z :=
  slices t [0; 1; 2; 3; 4; 5; 6; 7]%nat (Z.lxor crc (native_load bs)).

Definition crcspeed64little (t : list (list Z)) (crc next : Z) (buf : list byte) : option Z :=
  '(crc, buf) ← align_loop (little_byte t) crc next buf;
  '(crc, buf) ← word_loop (length buf) (little_word t) crc buf;
  byte_loop (little_byte t) crc buf.

Definition crcspeed64big (t : list (list Z)) (crc next : Z) (buf : list byte) : option Z :=
  let crc := rev8 crc in
  '(crc, buf) ← align_loop (big_byte t) crc next buf;
  '(crc, buf) ← word_loop (length buf) (big_word t) crc buf;
  crc ← byte_loop (big_byte t) crc buf;
  Some (rev8 crc).

(** [*(char * )&n], the first byte of the 64-bit integer 1. *)
Definition native_is_little : option bool :=
  b ← head (native_store 8 1); Some (negb (b =? 0)).

Definition crcspeed64native (t : list (list Z)) (crc next : Z) (buf : list byte) : option Z :=
  little ← native_is_little;
  if (little : bool) then crcspeed64little t crc next buf else crcspeed64big t crc next buf.

Definition crcspeed64native_init (fn : crcfn64) : option (list (list Z)) :=
  little ← native_is_little;
  if (little : bool) then crcspeed64little_init fn else crcspeed64big_init fn.

Definition crc64_init : option (list (list Z)) := crcspeed64native_init _crc64.

Definition crc64 (crc64_table : list (list Z)) (crc next : Z) (s : list byte) : option Z :=
  crcspeed64native crc64_table crc next s.

End Crc.

(** ** [crc16.c] *)

Definition crc16tab : list Z := [
  0x0000; 0x1021; 0x2042; 0x3063; 0x4084; 0x50a5; 0x60c6; 0x70e7;
  0x8108; 0x9129; 0xa14a; 0xb16b; 0xc18c; 0xd1ad; 0xe1ce; 0xf1ef;
  0x1231; 0x0210; 0x3273; 0x2252; 0x52b5; 0x4294; 0x72f7; 0x62d6;
  0x9339; 0x8318; 0xb37b; 0xa35a; 0xd3bd; 0xc39c; 0xf3ff; 0xe3de;
  0x2462; 0x3443; 0x0420; 0x1401; 0x64e6; 0x74c7; 0x44a4; 0x5485;
  0xa56a; 0xb54b; 0x8528; 0x9509; 0xe5ee; 0xf5cf; 0xc5ac; 0xd58d;
  0x3653; 0x2672; 0x1611; 0x0630; 0x76d7; 0x66f6; 0x5695; 0x46b4;
  0xb75b; 0xa77a; 0x9719; 0x8738; 0xf7df; 0xe7fe; 0xd79d; 0xc7bc;
  0x48c4; 0x58e5; 0x6886; 0x78a7; 0x0840; 0x1861; 0x2802; 0x3823;
  0xc9cc; 0xd9ed; 0xe98e; 0xf9af; 0x8948; 0x9969; 0xa90a; 0xb92b;
  0x5af5; 0x4ad4; 0x7ab7; 0x6a96; 0x1a71; 0x0a50; 0x3a33; 0x2a12;
  0xdbfd; 0xcbdc; 0xfbbf; 0xeb9e; 0x9b79; 0x8b58; 0xbb3b; 0xab1a;
  0x6ca6; 0x7c87; 0x4ce4; 0x5cc5; 0x2c22; 0x3c03; 0x0c60; 0x1c41;
  0xedae; 0xfd8f; 0xcdec; 0xddcd; 0xad2a; 0xbd0b; 0x8d68; 0x9d49;
  0x7e97; 0x6eb6; 0x5ed5; 0x4ef4; 0x3e13; 0x2e32; 0x1e51; 0x0e70;
  0xff9f; 0xefbe; 0xdfdd; 0xcffc; 0xbf1b; 0xaf3a; 0x9f59; 0x8f78;
  0x9188; 0x81a9; 0xb1ca; 0xa1eb; 0xd10c; 0xc12d; 0xf14e; 0xe16f;
  0x1080; 0x00a1; 0x30c2; 0x20e3; 0x5004; 0x4025; 0x7046; 0x6067;
  0x83b9; 0x9398; 0xa3fb; 0xb3da; 0xc33d; 0xd31c; 0xe37f; 0xf35e;
  0x02b1; 0x1290; 0x22f3; 0x32d2; 0x4235; 0x5214; 0x6277; 0x7256;
  0xb5ea; 0xa5cb; 0x95a8; 0x8589; 0xf56e; 0xe54f; 0xd52c; 0xc50d;
  0x34e2; 0x24c3; 0x14a0; 0x0481; 0x7466; 0x6447; 0x5424; 0x4405;
  0xa7db; 0xb7fa; 0x8799; 0x97b8; 0xe75f; 0xf77e; 0xc71d; 0xd73c;
  0x26d3; 0x36f2; 0x0691; 0x16b0; 0x6657; 0x7676; 0x4615; 0x5634;
  0xd94c; 0xc96d; 0xf90e; 0xe92f; 0x99c8; 0x89e9; 0xb98a; 0xa9ab;
  0x5844; 0x4865; 0x7806; 0x6827; 0x18c0; 0x08e1; 0x3882; 0x28a3;
  0xcb7d; 0xdb5c; 0xeb3f; 0xfb1e; 0x8bf9; 0x9bd8; 0xabbb; 0xbb9a;
  0x4a75; 0x5a54; 0x6a37; 0x7a16; 0x0af1; 0x1ad0; 0x2ab3; 0x3a92;
  0xfd2e; 0xed0f; 0xdd6c; 0xcd4d; 0xbdaa; 0xad8b; 0x9de8; 0x8dc9;
  0x7c26; 0x6c07; 0x5c64; 0x4c45; 0x3ca2; 0x2c83; 0x1ce0; 0x0cc1;
  0xef1f; 0xff3e; 0xcf5d; 0xdf7c; 0xaf9b; 0xbfba; 0x8fd9; 0x9ff8;
  0x6e17; 0x7e36; 0x4e55; 0x5e74; 0x2e93; 0x3eb2; 0x0ed1; 0x1ef0
].

(** The bytes of the buffer are [char], signed. *)
Definition crc16_step (crc : Z) (b : byte) : option Z :=
  x ← crc16tab !! Z.to_nat (Z.land (Z.lxor (Z.shiftr crc 8) (i8 b)) 0x00FF);
  Some (u16 (Z.lxor (Z.shiftl crc 8) x)).

Definition crc16 (buf : list byte) : option Z := byte_loop crc16_step 0 buf.

(** ** Hash slots *)

(** [for (s = i; s < keylen; s++) if (key[s] == c) break;] *)
Fixpoint scan_for (c : byte) (key : list byte) (i : Z) : Z :=
  match key with
  | [] => i
  | b :: key' => if b =? c then i else scan_for c key' (i + 1)
  end.

(** [key] holds the [keylen] bytes of the key; [keylen] is an int, and so is every
    index up to it. *)
Definition keyHashSlot (key : list byte) : option Z :=
  let keylen := zlen key in
  let s := scan_for 123 key 0 in
  if s =? keylen then h ← crc16 key; Some (Z.land h 0x3FFF)
  else
    let e := scan_for 125 (drop (Z.to_nat (s + 1)) key) (s + 1) in
    if (e =? keylen) || (e =? s + 1) then h ← crc16 key; Some (Z.land h 0x3FFF)
    else
      tag ← buf_read key (s + 1) (e - s - 1);
      h ← crc16 tag;
      Some (Z.land h 0x3FFF).
