(* ===== verification/CrcFacts.v ===== *)
(** * Properties of the checksums

    The state of a CRC is a linear function of what it has read. [rstep] is one
    bit of it in the reflected order, [advance n] is [n] bits; tables, words and
    byte orders only group the bits. *)

From stdpp Require Import base list option.
From Stdlib Require Import ZArith Lia Bool.
From S2P Require Import Prelude Endian Crc.

Local Open Scope Z_scope.

(** Solve an equation between exclusive ors bit by bit. *)
Ltac lxor_solve :=
  apply Z.bits_inj'; intros; rewrite ?Z.lxor_spec, ?Z.testbit_0_l;
  repeat match goal with |- context [Z.testbit ?a ?i] => destruct (Z.testbit a i) end; done.

Definition word (w x : Z) : Prop := 0 <= x < 2 ^ w.

(** ** Bounds of bit operations *)

Lemma word_bits w x : 0 <= w -> 0 <= x -> (forall i, w <= i -> Z.testbit x i = false) -> word w x.
Proof.
  intros Hw Hx Hb. split; [done|]. destruct (Z.lt_ge_cases x (2 ^ w)) as [|Hge]; [done|exfalso].
  assert (0 < x) as Hp by lia. pose proof (Z.log2_le_pow2 x w Hp) as [H1 _]. specialize (H1 Hge).
  pose proof (Z.bit_log2 x Hp) as H2. rewrite (Hb _ H1) in H2. done.
Qed.

Lemma word_high w x i : word w x -> 0 <= w <= i -> Z.testbit x i = false.
Proof.
  intros [H1 H2] Hi. rewrite <- (Z.mod_small x (2 ^ w)) by lia. by apply Z.mod_pow2_bits_high.
Qed.

Lemma word_lxor w a b : 0 <= w -> word w a -> word w b -> word w (Z.lxor a b).
Proof.
  intros Hw Ha Hb. apply word_bits; [done|apply Z.lxor_nonneg; unfold word in *; lia|].
  intros i Hi. by rewrite Z.lxor_spec, !(word_high w) by (done || lia).
Qed.

Lemma word_shiftr w a n : 0 <= n -> word w a -> word w (Z.shiftr a n).
Proof.
  intros Hn [H1 H2]. split; [by apply Z.shiftr_nonneg|]. rewrite Z.shiftr_div_pow2 by done.
  apply Z.le_lt_trans with a; [|done]. apply Z.div_le_upper_bound; [lia|]. pose proof (Z.pow_pos_nonneg 2 n); nia.
Qed.

Lemma word_shiftr_sub w a n : 0 <= n <= w -> word w a -> word (w - n) (Z.shiftr a n).
Proof.
  intros Hn [H1 H2]. split; [by apply Z.shiftr_nonneg|]. rewrite Z.shiftr_div_pow2 by lia.
  apply Z.div_lt_upper_bound; [lia|]. rewrite <- Z.pow_add_r by lia. by replace (n + (w - n)) with w by lia.
Qed.

Lemma land_255 x : Z.land x 255 = x mod 2 ^ 8.
Proof. exact (Z.land_ones x 8 ltac:(lia)). Qed.
Lemma land_1 x : Z.land x 1 = x mod 2 ^ 1.
Proof. exact (Z.land_ones x 1 ltac:(lia)). Qed.

Lemma byte_word b : is_byte b <-> word 8 b.
Proof. done. Qed.

Lemma word_mono v w x : 0 <= v <= w -> word v x -> word w x.
Proof. intros Hv [H1 H2]. split; [done|]. eapply Z.lt_le_trans; [done|]. apply Z.pow_le_mono_r; lia. Qed.

Lemma land_255_word x : word 8 (Z.land x 255).
Proof. rewrite land_255. apply Z.mod_pos_bound; lia. Qed.

Lemma testbit_u64 x i : 0 <= i < 64 -> Z.testbit (u64 x) i = Z.testbit x i.
Proof. intros. unfold wrap. apply Z.mod_pow2_bits_low; lia. Qed.

Lemma word_u64 x : word 64 (u64 x).
Proof. apply wrap_range; lia. Qed.

(** ** Reflection *)

Lemma reflect_loop_spec n data ret : word (64 - Z.of_nat n) ret -> (n < 64)%nat ->
  word 64 (reflect_loop n data ret) /\
  forall i, 0 <= i < 64 ->
    Z.testbit (reflect_loop n data ret) i = if i <? Z.of_nat n then Z.testbit data (Z.of_nat n - i) else Z.testbit ret (i - Z.of_nat n).
Proof.
  revert data ret. induction n as [|n IH]; intros data ret Hr Hn; cbn [reflect_loop].
  { split; [by replace 64 with (64 - Z.of_nat 0) by lia|]. intros i Hi. case_if; [lia|]. f_equal; lia. }
  set (d := Z.shiftr data 1). set (r := Z.lor _ _).
  assert (Hbit : forall i, 0 <= i -> Z.testbit r i = if i =? 0 then Z.testbit data 1 else Z.testbit ret (i - 1)).
  { assert (u64 (Z.shiftl ret 1) = Z.shiftl ret 1) as Hu.
    { apply u64_small. rewrite Z.shiftl_mul_pow2 by lia. destruct Hr as [Hr1 Hr2]. split; [lia|].
      assert (2 ^ (64 - Z.of_nat (S n)) <= 2 ^ 63) by (apply Z.pow_le_mono_r; lia). lia. }
    intros i Hi. unfold r, d. rewrite Z.lor_spec, Hu, Z.shiftl_spec by lia.
    rewrite land_1. case_if.
    - subst i. rewrite Z.testbit_neg_r by lia. cbn [orb]. rewrite Z.mod_pow2_bits_low by lia. rewrite Z.shiftr_spec by lia. done.
    - rewrite (Z.mod_pow2_bits_high _ 1) by lia. by rewrite orb_false_r. }
  destruct (IH d r) as [Hw Hb]; [|lia|].
  { apply word_bits; [lia| |].
    - unfold r. apply Z.lor_nonneg. split; [apply wrap_range; lia|]. apply Z.land_nonneg. right. done.
    - intros i Hi. rewrite Hbit by lia. case_if; [lia|]. apply (word_high (64 - Z.of_nat (S n))); [done|lia]. }
  split; [done|]. intros i Hi. rewrite Hb by done. destruct (Z.ltb_spec i (Z.of_nat n)).
  - rewrite (proj2 (Z.ltb_lt i (Z.of_nat (S n)))) by lia. unfold d. rewrite Z.shiftr_spec by lia. f_equal; lia.
  - rewrite Hbit by lia. destruct (Z.eqb_spec (i - Z.of_nat n) 0).
    + rewrite (proj2 (Z.ltb_lt i (Z.of_nat (S n)))) by lia. f_equal; lia.
    + rewrite (proj2 (Z.ltb_ge i (Z.of_nat (S n)))) by lia. f_equal; lia.
Qed.

Lemma land_1_word x : word 1 (Z.land x 1).
Proof. rewrite land_1. apply Z.mod_pos_bound; lia. Qed.

Lemma reflect_word x : word 64 (crc_reflect x 64).
Proof. apply (reflect_loop_spec 63); [apply land_1_word|lia]. Qed.

Lemma reflect_bit x i : 0 <= i < 64 -> Z.testbit (crc_reflect x 64) i = Z.testbit x (63 - i).
Proof.
  intros Hi. pose proof (proj2 (reflect_loop_spec 63 x (Z.land x 1) (land_1_word x) ltac:(lia)) i Hi) as H. unfold crc_reflect. change (Z.to_nat (64 - 1)) with 63%nat. rewrite H.
  change (Z.of_nat 63) with 63. case_if; [done|]. replace (i - 63) with 0 by lia. rewrite land_1, Z.mod_pow2_bits_low by lia. f_equal; lia.
Qed.

Lemma reflect_reflect x : word 64 x -> crc_reflect (crc_reflect x 64) 64 = x.
Proof.
  intros Hx. apply (word_ext 64); [lia|apply reflect_word|done|]. intros i Hi. rewrite !reflect_bit by lia. f_equal; lia.
Qed.

Lemma reflect_lxor a b : crc_reflect (Z.lxor a b) 64 = Z.lxor (crc_reflect a 64) (crc_reflect b 64).
Proof.
  apply (word_ext 64); [lia|apply reflect_word|apply word_lxor; [lia|apply reflect_word..]|].
  intros i Hi. rewrite Z.lxor_spec, !reflect_bit by lia. apply Z.lxor_spec.
Qed.

#[local] Opaque crc_reflect.

(** ** Linear steps *)

Definition rstep (x : Z) : Z :=
  if Z.testbit x 0 then Z.lxor (Z.shiftr x 1) (crc_reflect POLY 64) else Z.shiftr x 1.

Definition advance (n : nat) (x : Z) : Z := Nat.iter n rstep x.

Lemma rstep_lxor a b : rstep (Z.lxor a b) = Z.lxor (rstep a) (rstep b).
Proof.
  unfold rstep. rewrite Z.lxor_spec, Z.shiftr_lxor. destruct (Z.testbit a 0), (Z.testbit b 0); cbn [xorb]; lxor_solve.
Qed.

Lemma rstep_word x : word 64 x -> word 64 (rstep x).
Proof.
  intros Hx. unfold rstep. case_if; [apply word_lxor; [lia| |apply reflect_word]|]; by apply word_shiftr.
Qed.

Lemma rstep_double x : rstep (Z.shiftl x 1) = x.
Proof.
  unfold rstep. rewrite Z.shiftl_spec_low by lia. rewrite Z.shiftr_shiftl_l by lia. apply Z.shiftl_0_r.
Qed.

(** The lowest bit decides the highest one of the result, so a step loses
    nothing. *)
Lemma rstep_zero x : word 64 x -> rstep x = 0 -> x = 0.
Proof.
  intros Hx H0. assert (Z.testbit (rstep x) 63 = Z.testbit x 0) as Hb.
  { unfold rstep. case_if; rewrite ?Z.lxor_spec, Z.shiftr_spec, (word_high 64) by (done || lia); [|done]. by rewrite reflect_bit by lia. }
  rewrite H0, Z.testbit_0_l in Hb. unfold rstep in H0. rewrite <- Hb in H0.
  apply (word_ext 64); [lia|done|lia|]. intros i Hi. rewrite Z.testbit_0_l. destruct (Z.eq_dec i 0) as [->|]; [done|].
  replace i with (i - 1 + 1) by lia. rewrite <- Z.shiftr_spec, H0 by lia. apply Z.testbit_0_l.
Qed.

Lemma advance_S n x : advance (S n) x = rstep (advance n x).
Proof. done. Qed.

Lemma advance_lxor n a b : advance n (Z.lxor a b) = Z.lxor (advance n a) (advance n b).
Proof. induction n as [|n IH]; [done|]. by rewrite !advance_S, IH, rstep_lxor. Qed.

Lemma advance_word n x : word 64 x -> word 64 (advance n x).
Proof. intros Hx. induction n as [|n IH]; [done|]. by apply rstep_word. Qed.

Lemma advance_add n m x : advance (n + m) x = advance n (advance m x).
Proof. apply Nat.iter_add. Qed.

Lemma advance_zero n x : word 64 x -> advance n x = 0 -> x = 0.
Proof. intros Hx. induction n as [|n IH]; [done|]. intros H0. apply IH, rstep_zero; [by apply advance_word|done]. Qed.

Lemma advance_inj n a b : word 64 a -> word 64 b -> advance n a = advance n b -> a = b.
Proof.
  intros Ha Hb He. apply Z.lxor_eq, (advance_zero n); [by apply word_lxor|]. by rewrite advance_lxor, He, Z.lxor_nilpotent.
Qed.

Lemma advance_shiftl n x : advance n (Z.shiftl x (Z.of_nat n)) = x.
Proof.
  revert x. induction n as [|n IH]; intros x; [apply Z.shiftl_0_r|]. replace (S n) with (n + 1)%nat at 1 by lia. rewrite advance_add.
  replace (Z.of_nat (S n)) with (Z.of_nat n + 1) by lia. rewrite <- Z.shiftl_shiftl by lia. cbn [advance Nat.iter]. by rewrite rstep_double, IH.
Qed.

Lemma byte_split x : x = Z.lxor (Z.land x 255) (Z.shiftl (Z.shiftr x 8) 8).
Proof.
  apply Z.bits_inj'. intros i Hi. rewrite Z.lxor_spec, land_255, Z.shiftl_spec by lia. destruct (Z.lt_ge_cases i 8).
  - rewrite Z.mod_pow2_bits_low, (Z.testbit_neg_r _ (i - 8)) by lia. by rewrite xorb_false_r.
  - rewrite Z.mod_pow2_bits_high, Z.shiftr_spec by lia. rewrite xorb_false_l. f_equal; lia.
Qed.

(** Eight steps at once, given what they do to a byte. *)
Lemma advance_byte x : advance 8 x = Z.lxor (advance 8 (Z.land x 255)) (Z.shiftr x 8).
Proof. rewrite (byte_split x) at 1. by rewrite advance_lxor, (advance_shiftl 8). Qed.

(** ** The bit by bit checksum *)

Lemma land_pow2_zero x k : 0 <= k -> (Z.land x (2 ^ k) =? 0) = negb (Z.testbit x k).
Proof.
  intros Hk. destruct (Z.testbit x k) eqn:E; cbn [negb].
  - apply Z.eqb_neq. intros H. assert (Z.testbit (Z.land x (2 ^ k)) k = false) as Hf by (rewrite H; apply Z.testbit_0_l).
    rewrite Z.land_spec, E, Z.pow2_bits_true in Hf by done. done.
  - apply Z.eqb_eq, Z.bits_inj'. intros i Hi. rewrite Z.land_spec, Z.testbit_0_l. destruct (Z.eq_dec i k) as [->|]; [by rewrite E|].
    by rewrite Z.pow2_bits_false, andb_false_r by lia.
Qed.

Lemma crc_bit_word c crc i : word 64 (crc_bit c crc i).
Proof. unfold crc_bit. case_if; [apply word_lxor; [lia| |done]|]; apply word_u64. Qed.

Lemma reflect_double x : crc_reflect (u64 (Z.shiftl x 1)) 64 = Z.shiftr (crc_reflect x 64) 1.
Proof.
  apply (word_ext 64); [lia|apply reflect_word|apply word_shiftr; [lia|apply reflect_word]|]. intros i Hi.
  rewrite reflect_bit, testbit_u64, Z.shiftl_spec, Z.shiftr_spec by lia. destruct (Z.eq_dec i 63) as [->|].
  - rewrite Z.testbit_neg_r by lia. symmetry. apply (word_high 64); [apply reflect_word|lia].
  - rewrite reflect_bit by lia. f_equal; lia.
Qed.

Lemma crc_bit_spec c crc k : 0 <= k ->
  crc_reflect (crc_bit c crc (2 ^ k)) 64 = rstep (Z.lxor (crc_reflect crc 64) (Z.b2z (Z.testbit c k))).
Proof.
  intros Hk. unfold crc_bit. change 0x8000000000000000 with (2 ^ 63). rewrite !land_pow2_zero, !negb_involutive by lia.
  unfold rstep. rewrite Z.lxor_spec, reflect_bit, Z.b2z_bit0, Z.shiftr_lxor by lia. change (63 - 0) with 63.
  assert (Z.shiftr (Z.b2z (Z.testbit c k)) 1 = 0) as -> by by destruct (Z.testbit c k). rewrite Z.lxor_0_r.
  destruct (Z.testbit c k), (Z.testbit crc 63); cbn [negb xorb]; by rewrite ?reflect_lxor, reflect_double.
Qed.

Lemma rstep_read x c : rstep (Z.lxor x c) = Z.lxor (rstep (Z.lxor x (Z.b2z (Z.testbit c 0)))) (Z.shiftr c 1).
Proof.
  assert (c = Z.lxor (Z.b2z (Z.testbit c 0)) (Z.shiftl (Z.shiftr c 1) 1)) as Hc.
  { apply Z.bits_inj'. intros i Hi. rewrite Z.lxor_spec, Z.shiftl_spec by done. destruct (Z.eq_dec i 0) as [->|].
    - rewrite Z.b2z_bit0, (Z.testbit_neg_r _ (0 - 1)) by lia. by rewrite xorb_false_r.
    - rewrite Z.shiftr_spec by lia. replace (Z.testbit (Z.b2z (Z.testbit c 0)) i) with false by (destruct (Z.testbit c 0); symmetry; [apply (word_high 1); [done|lia]|apply Z.testbit_0_l]). rewrite xorb_false_l. f_equal; lia. }
  rewrite Hc at 1. by rewrite <- Z.lxor_assoc, rstep_lxor, rstep_double.
Qed.

Lemma crc_bits_spec n c a x : 0 <= a ->
  Z.lxor (crc_reflect (foldl (crc_bit c) x (map (Z.pow 2) (seqZ a (Z.of_nat n)))) 64) (Z.shiftr c (a + Z.of_nat n)) =
  advance n (Z.lxor (crc_reflect x 64) (Z.shiftr c a)).
Proof.
  revert a x. induction n as [|n IH]; intros a x Ha; [rewrite Z.add_0_r; reflexivity|].
  rewrite seqZ_cons by lia. replace (Z.pred (Z.of_nat (S n))) with (Z.of_nat n) by lia. cbn [map foldl].
  replace (a + Z.of_nat (S n)) with (Z.succ a + Z.of_nat n) by lia. rewrite IH by lia.
  rewrite crc_bit_spec by done. replace (S n) with (n + 1)%nat by lia. rewrite advance_add. f_equal. cbn [advance Nat.iter].
  rewrite (rstep_read _ (Z.shiftr c a)), Z.shiftr_spec, Z.shiftr_shiftr by lia. done.
Qed.

Lemma crc_byte_spec crc c : is_byte c -> crc_reflect (crc_byte crc c) 64 = advance 8 (Z.lxor (crc_reflect crc 64) c).
Proof.
  intros Hc. pose proof (crc_bits_spec 8 c 0 crc ltac:(lia)) as H. change (map (Z.pow 2) (seqZ 0 (Z.of_nat 8))) with [0x01; 0x02; 0x04; 0x08; 0x10; 0x20; 0x40; 0x80] in H.
  fold (crc_byte crc c) in H. rewrite Z.shiftr_0_r in H. rewrite <- H. rewrite Z.shiftr_div_pow2 by lia. change (0 + Z.of_nat 8) with 8.
  rewrite (Z.div_small c) by done. by rewrite Z.lxor_0_r.
Qed.

(** ** The specification

    The reflected state after a list of bytes. *)

Definition feed (x : Z) (data : list byte) : Z := foldl (fun x c => advance 8 (Z.lxor x c)) x data.

Lemma _crc64_feed crc data : Forall is_byte data -> _crc64 crc data = feed (crc_reflect crc 64) data.
Proof.
  unfold _crc64, feed. revert crc. induction data as [|c data IH]; intros crc Hd; [done|]. apply Forall_cons_1 in Hd as [Hc Hd].
  cbn [foldl]. by rewrite IH, crc_byte_spec.
Qed.

Lemma feed_app x a b : feed x (a ++ b) = feed (feed x a) b.
Proof. apply foldl_app. Qed.

Lemma byte_word64 b : is_byte b -> word 64 b.
Proof. intros Hb. apply (word_mono 8); [lia|done]. Qed.

Lemma feed_word x data : word 64 x -> Forall is_byte data -> word 64 (feed x data).
Proof.
  revert x. induction data as [|c data IH]; intros x Hx Hd; [done|]. apply Forall_cons_1 in Hd as [Hc Hd]. apply IH; [|done].
  apply advance_word, word_lxor; [lia|done|by apply byte_word64].
Qed.

Lemma feed_inj x y data : word 64 x -> word 64 y -> Forall is_byte data -> feed x data = feed y data -> x = y.
Proof.
  revert x y. induction data as [|c data IH]; intros x y Hx Hy Hd He; [done|]. apply Forall_cons_1 in Hd as [Hc Hd]. pose proof (byte_word64 c Hc).
  apply IH in He; [|by apply advance_word, word_lxor..|done]. apply (advance_inj 8) in He; [|by apply word_lxor..].
  apply (f_equal (fun z => Z.lxor z c)) in He. by rewrite !Z.lxor_assoc, Z.lxor_nilpotent, !Z.lxor_0_r in He.
Qed.

(** Up to eight bytes are read as one word. *)
Lemma le_join_cons_lxor b l : is_byte b -> le_join (b :: l) = Z.lxor b (Z.shiftl (le_join l) 8).
Proof.
  intros Hb. cbn [le_join]. apply Z.bits_inj'. intros i Hi. rewrite Z.lxor_spec, Z.shiftl_spec by done.
  replace (b + 256 * le_join l) with (le_join l * 2 ^ 8 + b) by lia. rewrite testbit_split by (done || lia). case_if.
  - rewrite (Z.testbit_neg_r _ (i - 8)) by lia. by rewrite xorb_false_r.
  - by rewrite (word_high 8 b) by (done || lia).
Qed.

Lemma feed_le_join x data : Forall is_byte data -> feed x data = advance (8 * length data) (Z.lxor x (le_join data)).
Proof.
  revert x. induction data as [|c data IH]; intros x Hd; [by rewrite Z.lxor_0_r|]. apply Forall_cons_1 in Hd as [Hc Hd].
  cbn [feed foldl]. fold (feed (advance 8 (Z.lxor x c)) data). rewrite IH, le_join_cons_lxor by done. cbn [length].
  replace (8 * S (length data))%nat with (8 * length data + 8)%nat by lia. rewrite advance_add. f_equal.
  by rewrite <- Z.lxor_assoc, (advance_lxor 8 (Z.lxor x c)), (advance_shiftl 8).
Qed.

(** ** Byte reversal *)

Lemma below_64 (P : Z -> bool) i : forallb P (seqZ 0 64) = true -> 0 <= i < 64 -> P i = true.
Proof. intros H Hi. rewrite forallb_forall in H. apply H, list_elem_of_In, elem_of_seqZ. lia. Qed.

(** One exchange of neighbours [s] bits wide, which the mask [m] selects, and
    where a bit of the result comes from. *)
Definition exchange (m s a : Z) : Z := Z.lor (Z.land (Z.shiftr a s) m) (u64 (Z.shiftl (Z.land a m) s)).
Definition partner (m s i : Z) : Z := if Z.testbit m i then i + s else i - s.

Definition good_mask (m s : Z) : bool :=
  forallb (fun i => eqb (Z.testbit m (i - s)) (negb (Z.testbit m i)) && (0 <=? partner m s i) && (partner m s i <? 64)) (seqZ 0 64).

Lemma exchange_bit m s a i : good_mask m s = true -> 0 <= s -> 0 <= i < 64 ->
  Z.testbit (exchange m s a) i = Z.testbit a (partner m s i) /\ 0 <= partner m s i < 64.
Proof.
  intros Hm Hs Hi. apply (below_64 _ i) in Hm; [|done]. apply andb_true_iff in Hm as [Hm H2]. apply andb_true_iff in Hm as [Hm H1]. apply eqb_prop in Hm.
  split; [|lia]. unfold exchange, partner.
  rewrite Z.lor_spec, Z.land_spec, Z.shiftr_spec, testbit_u64, Z.shiftl_spec, Z.land_spec, Hm by lia.
  destruct (Z.testbit m i); cbn [negb]; by rewrite ?andb_true_r, ?andb_false_r, ?orb_false_r.
Qed.

Lemma exchange_word m s a : word 64 m -> word 64 (exchange m s a).
Proof.
  intros Hm. unfold exchange. apply word_bits; [lia| |].
  - apply Z.lor_nonneg. split; [|apply word_u64]. apply Z.land_nonneg. right. apply Hm.
  - intros i Hi. rewrite Z.lor_spec, Z.land_spec, (word_high 64 m), (word_high 64 (u64 _)), andb_false_r by (apply word_u64 || done || lia). done.
Qed.

Definition halves (a : Z) : Z := Z.lor (Z.shiftr a 32) (u64 (Z.shiftl a 32)).

Lemma halves_bit a i : word 64 a -> 0 <= i < 64 -> Z.testbit (halves a) i = Z.testbit a (partner (Z.ones 32) 32 i).
Proof.
  intros Ha Hi. unfold halves, partner. rewrite Z.lor_spec, Z.shiftr_spec, testbit_u64, Z.shiftl_spec, Z.testbit_ones_nonneg by lia.
  case_if; [rewrite (Z.testbit_neg_r _ (i - 32)) by lia; apply orb_false_r|]. by rewrite (word_high 64 a (i + 32)) by (done || lia).
Qed.

Lemma rev8_stages a : rev8 a = halves (exchange 0xffff0000ffff 16 (exchange 0xff00ff00ff00ff 8 a)).
Proof. done. Qed.

Lemma rev8_index i : 0 <= i < 64 ->
  partner 0xff00ff00ff00ff 8 (partner 0xffff0000ffff 16 (partner (Z.ones 32) 32 i)) = 8 * (7 - i / 8) + i mod 8.
Proof.
  intros Hi. apply Z.eqb_eq, (below_64 (fun i => partner 0xff00ff00ff00ff 8 (partner 0xffff0000ffff 16 (partner (Z.ones 32) 32 i)) =? 8 * (7 - i / 8) + i mod 8)); [|done].
  vm_compute. reflexivity.
Qed.

Lemma rev8_bit a i : 0 <= i < 64 -> Z.testbit (rev8 a) i = Z.testbit a (8 * (7 - i / 8) + i mod 8).
Proof.
  intros Hi. rewrite rev8_stages, halves_bit by (try apply exchange_word; done).
  assert (0 <= partner (Z.ones 32) 32 i < 64) as H1 by (unfold partner; rewrite Z.testbit_ones_nonneg by lia; case_if; lia).
  destruct (exchange_bit 0xffff0000ffff 16 (exchange 0xff00ff00ff00ff 8 a) _ ltac:(vm_compute; reflexivity) ltac:(lia) H1) as [-> H2].
  destruct (exchange_bit 0xff00ff00ff00ff 8 a _ ltac:(vm_compute; reflexivity) ltac:(lia) H2) as [-> _]. by rewrite rev8_index.
Qed.

Lemma rev8_word a : word 64 (rev8 a).
Proof.
  rewrite rev8_stages. set (b := exchange _ _ _). assert (word 64 b) as Hb by by apply exchange_word. unfold halves. apply word_bits; [lia| |].
  - apply Z.lor_nonneg. split; [apply Z.shiftr_nonneg, Hb|apply word_u64].
  - intros i Hi. by rewrite Z.lor_spec, Z.shiftr_spec, !(word_high 64) by (apply word_u64 || done || lia).
Qed.

Lemma rev8_lxor a b : rev8 (Z.lxor a b) = Z.lxor (rev8 a) (rev8 b).
Proof.
  apply (word_ext 64); [lia|apply rev8_word|apply word_lxor; [lia|apply rev8_word..]|]. intros i Hi. by rewrite Z.lxor_spec, !rev8_bit, Z.lxor_spec by done.
Qed.

Lemma rev8_rev8 a : word 64 a -> rev8 (rev8 a) = a.
Proof.
  intros Ha. apply (word_ext 64); [lia|apply rev8_word|done|]. intros i Hi. rewrite !rev8_bit by dlia. f_equal. dlia.
Qed.

(** The bytes of a word, from the least significant on. *)
Definition byte_of (x j : Z) : Z := Z.land (Z.shiftr x (8 * j)) 255.

Lemma byte_of_bit x j i : 0 <= j -> 0 <= i < 8 -> Z.testbit (byte_of x j) i = Z.testbit x (8 * j + i).
Proof. intros. unfold byte_of. rewrite land_255, Z.mod_pow2_bits_low, Z.shiftr_spec by lia. f_equal; lia. Qed.

Lemma byte_of_rev8 x j : 0 <= j <= 7 -> byte_of (rev8 x) j = byte_of x (7 - j).
Proof.
  intros Hj. apply (word_ext 8); [lia|apply land_255_word..|]. intros i Hi. rewrite !byte_of_bit, rev8_bit by lia. f_equal. dlia.
Qed.

Lemma byte_of_top x : word 64 x -> byte_of x 7 = Z.shiftr x 56.
Proof.
  intros Hx. unfold byte_of. rewrite land_255. apply Z.mod_small. apply (word_shiftr_sub 64 x 56); [lia|done].
Qed.

Lemma rev8_shiftr x : word 64 x -> u64 (Z.shiftl (rev8 x) 8) = rev8 (Z.shiftr x 8).
Proof.
  intros Hx. apply (word_ext 64); [lia|apply word_u64|apply rev8_word|]. intros i Hi. rewrite testbit_u64, Z.shiftl_spec, (rev8_bit (Z.shiftr x 8)), Z.shiftr_spec by dlia.
  destruct (Z.lt_ge_cases i 8).
  - rewrite Z.testbit_neg_r, (word_high 64) by (done || dlia). done.
  - rewrite rev8_bit by lia. f_equal. dlia.
Qed.

Lemma le_join_bit l i : Forall is_byte l -> 0 <= i < 8 * zlen l -> exists b, l !! Z.to_nat (i / 8) = Some b /\ Z.testbit (le_join l) i = Z.testbit b (i mod 8).
Proof.
  revert i. induction l as [|b l IH]; intros i Hl Hi; [change (zlen (@nil byte)) with 0 in Hi; lia|]. apply Forall_cons_1 in Hl as [Hb Hl]. rewrite zlen_cons in Hi.
  cbn [le_join]. replace (b + 256 * le_join l) with (le_join l * 2 ^ 8 + b) by lia. rewrite testbit_split by (done || lia). case_if.
  - exists b. rewrite Z.div_small, Z.mod_small by lia. done.
  - destruct (IH (i - 8) Hl ltac:(lia)) as (c & Hc & Ht). exists c. replace (Z.to_nat (i / 8)) with (S (Z.to_nat ((i - 8) / 8))) by dlia. split; [done|]. rewrite Ht. f_equal. dlia.
Qed.

Lemma le_join_word l : Forall is_byte l -> length l = 8%nat -> word 64 (le_join l).
Proof. intros Hl Hn. pose proof (le_join_range l Hl) as Hr. unfold zlen in Hr. rewrite Hn in Hr. done. Qed.

Lemma le_join_rev l : Forall is_byte l -> length l = 8%nat -> le_join (rev l) = rev8 (le_join l).
Proof.
  intros Hl Hn. assert (Forall is_byte (rev l)) as Hr by by apply Forall_rev. assert (zlen l = 8 /\ zlen (rev l) = 8) as [Hz Hz'] by (unfold zlen; rewrite length_rev; lia).
  apply (word_ext 64); [lia|apply le_join_word; [done|by rewrite length_rev]|apply rev8_word|]. intros i Hi. rewrite rev8_bit by done.
  destruct (le_join_bit (rev l) i Hr ltac:(lia)) as (b & Hb & ->). destruct (le_join_bit l (8 * (7 - i / 8) + i mod 8) Hl ltac:(dlia)) as (c & Hc & ->).
  rewrite rev_alt in Hb. change (rev_append l []) with (reverse l) in Hb. rewrite reverse_lookup in Hb by dlia. replace (Z.to_nat ((8 * (7 - i / 8) + i mod 8) / 8)) with (length l - S (Z.to_nat (i / 8)))%nat in Hc by dlia.
  rewrite Hb in Hc. simplify_eq. f_equal. dlia.
Qed.

(** ** The tables *)

Definition bytes256 : list Z := seqZ 0 256.

Definition little_table : list (list Z) := map (fun j => map (advance (8 * j + 8)) bytes256) (seq 0 8).

Lemma bytes256_lookup n : word 8 n -> bytes256 !! Z.to_nat n = Some n.
Proof. intros [H1 H2]. unfold bytes256. apply lookup_seqZ. lia. Qed.

Lemma row0_spec : map (fun n => _crc64 0 [n]) bytes256 = map (advance 8) bytes256.
Proof.
  apply map_ext_in. intros n Hn. apply list_elem_of_In, elem_of_seqZ in Hn. rewrite _crc64_feed by (apply Forall_singleton; unfold is_byte; lia).
  done.
Qed.

Lemma nested_spec crc : 0 <= crc -> nested (map (advance 8) bytes256) crc = Some (advance 8 crc).
Proof.
  intros Hc. unfold nested. rewrite list_lookup_fmap, bytes256_lookup by apply land_255_word. cbn [fmap option_fmap option_map mbind option_bind]. by rewrite <- advance_byte.
Qed.

Lemma nested_row_spec m : mapM (nested (map (advance 8) bytes256)) (map (advance m) bytes256) = Some (map (advance (8 + m)) bytes256).
Proof.
  apply mapM_Some. apply Forall2_fmap. apply Forall_Forall2_diag, Forall_forall. intros n Hn. apply list_elem_of_In, elem_of_seqZ in Hn.
  rewrite nested_spec, advance_add; [done|]. apply (advance_word m). unfold word. lia.
Qed.

Lemma nested_rows_spec k m :
  nested_rows k (map (advance 8) bytes256) (map (advance m) bytes256) = Some (map (fun j => map (advance (8 * j + m)) bytes256) (seq 1 k)).
Proof.
  revert m. induction k as [|k IH]; intros m; [done|]. cbn [nested_rows]. rewrite nested_row_spec. cbn [mbind option_bind]. rewrite IH. cbn [mbind option_bind seq map].
  f_equal. f_equal. rewrite <- (seq_shift k 1), map_map. apply map_ext. intros j. apply map_ext. intros n. f_equal. lia.
Qed.

Lemma little_init_spec : crcspeed64little_init _crc64 = Some little_table.
Proof.
  unfold crcspeed64little_init. fold bytes256. rewrite row0_spec, nested_rows_spec. cbn [mbind option_bind]. unfold little_table. done.
Qed.

Lemma table_at_little k n : (k < 8)%nat -> word 8 n -> table_at little_table k n = Some (advance (8 * k + 8) n).
Proof.
  intros Hk Hn. unfold table_at, little_table. rewrite list_lookup_fmap, lookup_seq_lt by done. cbn [fmap option_fmap option_map mbind option_bind].
  by rewrite list_lookup_fmap, bytes256_lookup.
Qed.

Lemma table_at_big k n : (k < 8)%nat -> word 8 n -> table_at (map (map rev8) little_table) k n = Some (rev8 (advance (8 * k + 8) n)).
Proof.
  intros Hk Hn. pose proof (table_at_little k n Hk Hn) as H. unfold table_at in *. rewrite list_lookup_fmap. destruct (little_table !! k) as [row|]; [|done].
  cbn [fmap option_fmap option_map mbind option_bind] in *. by rewrite list_lookup_fmap, H.
Qed.

(** ** Bytes and words by the tables *)

Lemma slices_cons t k k' ks x : slices t (k :: k' :: ks) x =
  y ← table_at t k (Z.land x 0xff); z ← slices t (k' :: ks) (Z.shiftr x 8); Some (Z.lxor y z).
Proof. done. Qed.

Lemma slices_little m x : (m < 8)%nat -> word (8 * Z.of_nat m + 8) x -> slices little_table (rev (seq 0 (S m))) x = Some (advance (8 * m + 8) x).
Proof.
  revert x. induction m as [|m IH]; intros x Hm Hx; [by apply (table_at_little 0)|].
  rewrite seq_S, rev_app_distr. change (rev [(0 + S m)%nat]) with [S m]. cbn [app].
  assert (exists k ks, rev (seq 0 (S m)) = k :: ks) as (k & ks & Hr).
  { rewrite seq_S, rev_app_distr. by eexists _, _. }
  rewrite Hr, slices_cons, <- Hr. rewrite table_at_little by (done || apply land_255_word).
  rewrite IH; [|lia|replace (8 * Z.of_nat m + 8) with (8 * Z.of_nat (S m) + 8 - 8) by lia; apply word_shiftr_sub; [lia|done]]. cbn [mbind option_bind].
  f_equal. replace (8 * S m + 8)%nat with ((8 * m + 8) + 8)%nat by lia. by rewrite (advance_add _ 8 x), (advance_byte x), advance_lxor, <- advance_add.
Qed.

(** The terms of a word, one for each byte. *)
Lemma advance_64 x : word 64 x -> advance 64 x =
  Z.lxor (advance 64 (byte_of x 0)) (Z.lxor (advance 56 (byte_of x 1)) (Z.lxor (advance 48 (byte_of x 2)) (Z.lxor (advance 40 (byte_of x 3))
  (Z.lxor (advance 32 (byte_of x 4)) (Z.lxor (advance 24 (byte_of x 5)) (Z.lxor (advance 16 (byte_of x 6)) (advance 8 (byte_of x 7)))))))).
Proof.
  intros Hx. rewrite byte_of_top by done. unfold byte_of. rewrite Z.shiftr_0_r.
  do 7 (match goal with |- advance ?n ?y = Z.lxor _ _ => let n' := eval compute in (n - 8)%nat in
    change n with (n' + 8)%nat at 1; rewrite (advance_add n' 8 y), (advance_byte y), advance_lxor, <- advance_add, ?Z.shiftr_shiftr by lia; f_equal end).
Qed.

Lemma lxor_rev8 a b c d e f g h :
  Z.lxor a (Z.lxor b (Z.lxor c (Z.lxor d (Z.lxor e (Z.lxor f (Z.lxor g h)))))) =
  Z.lxor h (Z.lxor g (Z.lxor f (Z.lxor e (Z.lxor d (Z.lxor c (Z.lxor b a)))))).
Proof. lxor_solve. Qed.

Lemma slices_big x : word 64 x -> slices (map (map rev8) little_table) [0; 1; 2; 3; 4; 5; 6; 7]%nat (rev8 x) = Some (rev8 (advance 64 x)).
Proof.
  intros Hx. assert (Hb : forall n j k, n = 8 * j -> 0 <= j <= 7 -> (k < 8)%nat ->
    table_at (map (map rev8) little_table) k (Z.land (Z.shiftr (rev8 x) n) 255) = Some (rev8 (advance (8 * k + 8) (byte_of x (7 - j))))).
  { intros n j k -> Hj Hk. rewrite table_at_big by (done || apply land_255_word). do 3 f_equal. by apply byte_of_rev8. }
  assert (table_at (map (map rev8) little_table) 7 (Z.shiftr (rev8 x) 56) = Some (rev8 (advance 64 (byte_of x 0)))) as H7.
  { rewrite <- byte_of_top by apply rev8_word. apply (Hb 56 7); lia. }
  cbn [slices]. rewrite !Z.shiftr_shiftr by lia. repeat match goal with |- context [Z.shiftr (rev8 x) ?n] => let n' := eval compute in n in progress change n with n' end. rewrite H7.
  pose proof (Hb 0 0 0%nat) as H0. rewrite Z.shiftr_0_r in H0. rewrite H0 by lia.
  rewrite (Hb 8 1 1%nat), (Hb 16 2 2%nat), (Hb 24 3 3%nat), (Hb 32 4 4%nat), (Hb 40 5 5%nat), (Hb 48 6 6%nat) by lia. cbn [mbind option_bind]. f_equal.
  rewrite <- !rev8_lxor. f_equal. rewrite (advance_64 x) by done. apply lxor_rev8.
Qed.

Lemma little_byte_spec x b : word 64 x -> is_byte b -> little_byte little_table x b = Some (advance 8 (Z.lxor x b)).
Proof.
  intros Hx Hb. unfold little_byte. rewrite table_at_little by (lia || apply land_255_word). cbn [mbind option_bind]. rewrite (advance_byte (Z.lxor x b)), Z.shiftr_lxor.
  rewrite (Z.shiftr_div_pow2 b), (Z.div_small b) by (done || lia). by rewrite Z.lxor_0_r.
Qed.

Lemma big_byte_spec x b : word 64 x -> is_byte b -> big_byte (map (map rev8) little_table) (rev8 x) b = Some (rev8 (advance 8 (Z.lxor x b))).
Proof.
  intros Hx Hb. unfold big_byte. assert (Z.shiftr (rev8 x) 56 = Z.land x 255) as ->.
  { rewrite <- byte_of_top by apply rev8_word. rewrite byte_of_rev8 by lia. unfold byte_of. by rewrite Z.shiftr_0_r. }
  assert (Z.lxor (Z.land x 255) b = Z.land (Z.lxor x b) 255) as ->.
  { apply (word_ext 8); [lia|apply word_lxor; [lia|apply land_255_word|done]|apply land_255_word|]. intros i Hi. by rewrite Z.lxor_spec, !land_255, !Z.mod_pow2_bits_low, Z.lxor_spec by lia. }
  rewrite table_at_big by (lia || apply land_255_word). cbn [mbind option_bind]. rewrite rev8_shiftr, <- rev8_lxor by done.
  pose proof (little_byte_spec x b Hx Hb) as H. unfold little_byte in H. rewrite table_at_little in H by (lia || apply land_255_word). cbn [mbind option_bind] in H. by apply (f_equal (option_map rev8)) in H.
Qed.

(** ** The loops

    [view] is how the host keeps the state: as it is, or with its bytes
    reversed. *)

Section Loops.
Context (view : Z -> Z) (step : Z -> byte -> option Z) (wstep : Z -> list byte -> option Z).
Hypothesis step_spec : forall x b, word 64 x -> is_byte b -> step (view x) b = Some (view (advance 8 (Z.lxor x b))).
Hypothesis wstep_spec : forall x bs, word 64 x -> Forall is_byte bs -> length bs = 8%nat -> wstep (view x) bs = Some (view (feed x bs)).

Lemma step_word x b : word 64 x -> is_byte b -> word 64 (advance 8 (Z.lxor x b)).
Proof. intros Hx Hb. apply advance_word, word_lxor; [lia|done|by apply byte_word64]. Qed.

Lemma align_loop_spec x next buf : word 64 x -> Forall is_byte buf ->
  exists x' buf', align_loop step (view x) next buf = Some (view x', buf') /\ word 64 x' /\ Forall is_byte buf' /\ feed x' buf' = feed x buf.
Proof.
  revert x next. induction buf as [|b buf IH]; intros x next Hx Hd; [by exists x, []|]. pose proof Hd as Hd'. apply Forall_cons_1 in Hd as [Hb Hd].
  cbn [align_loop]. case_if; [|by exists x, (b :: buf)]. rewrite step_spec by done. cbn [mbind option_bind]. apply IH; [by apply step_word|done].
Qed.

Lemma word_loop_spec fuel x buf : (length buf <= fuel)%nat -> word 64 x -> Forall is_byte buf ->
  exists x' buf', word_loop fuel wstep (view x) buf = Some (view x', buf') /\ word 64 x' /\ Forall is_byte buf' /\ feed x' buf' = feed x buf.
Proof.
  revert x buf. induction fuel as [|fuel IH]; intros x buf Hf Hx Hd; cbn [word_loop]; (destruct (Z.leb_spec 8 (zlen buf)); [|by exists x, buf]); unfold zlen in *; [lia|].
  assert (Forall is_byte (take 8 buf) /\ Forall is_byte (drop 8 buf)) as [Ht Hr] by (split; [by apply Forall_take|by apply Forall_drop]).
  rewrite wstep_spec by (done || rewrite length_take; lia). cbn [mbind option_bind].
  destruct (IH (feed x (take 8 buf)) (drop 8 buf)) as (x' & buf' & -> & Hx' & Hd' & Hfe); [rewrite length_drop; lia|by apply feed_word|done|].
  exists x', buf'. split_and!; [done..|]. by rewrite Hfe, <- feed_app, take_drop.
Qed.

Lemma byte_loop_spec x buf : word 64 x -> Forall is_byte buf -> byte_loop step (view x) buf = Some (view (feed x buf)).
Proof.
  revert x. induction buf as [|b buf IH]; intros x Hx Hd; [done|]. apply Forall_cons_1 in Hd as [Hb Hd].
  cbn [byte_loop]. rewrite step_spec by done. cbn [mbind option_bind]. apply IH; [by apply step_word|done].
Qed.

Lemma loops_spec x next buf : word 64 x -> Forall is_byte buf ->
  ('(crc, buf) ← align_loop step (view x) next buf;
   '(crc, buf) ← word_loop (length buf) wstep crc buf;
   byte_loop step crc buf) = Some (view (feed x buf)).
Proof.
  intros Hx Hd. destruct (align_loop_spec x next buf Hx Hd) as (x1 & b1 & -> & Hx1 & Hd1 & E1). cbn [mbind option_bind].
  destruct (word_loop_spec (length b1) x1 b1 (le_n _) Hx1 Hd1) as (x2 & b2 & -> & Hx2 & Hd2 & E2). cbn [mbind option_bind].
  by rewrite byte_loop_spec, E2, E1.
Qed.
End Loops.

(** ** Both byte orders *)

Section Host.
Context `{Host}.

Lemma native_is_little_spec : native_is_little = Some (negb big_endian).
Proof. unfold native_is_little, native_store. by destruct big_endian. Qed.

Lemma crc64_spec x next s : word 64 x -> Forall is_byte s ->
  exists t, crc64_init = Some t /\ crc64 t x next s = Some (feed x s).
Proof.
  intros Hx Hs. unfold crc64_init, crc64, crcspeed64native_init, crcspeed64native. rewrite !native_is_little_spec. cbn [mbind option_bind].
  unfold crcspeed64big_init. rewrite little_init_spec. cbn [mbind option_bind]. destruct big_endian eqn:He; cbn [negb]; eexists; (split; [reflexivity|]).
  - unfold crcspeed64big. pose proof (loops_spec rev8 (big_byte (map (map rev8) little_table)) (big_word (map (map rev8) little_table)) big_byte_spec) as Hl.
    assert (rev8 (rev8 (feed x s)) = feed x s) as Hr by (apply rev8_rev8; by apply feed_word). rewrite <- Hr.
    specialize (Hl ltac:(intros y bs Hy Hb Hn; unfold big_word, native_load; rewrite He, le_join_rev, <- rev8_lxor, slices_big, feed_le_join, Hn by (done || by apply word_lxor, le_join_word); done) x next s Hx Hs).
    destruct (align_loop _ _ _ _) as [[c b]|]; [|done]. cbn [mbind option_bind] in *. destruct (word_loop _ _ _ _) as [[c' b']|]; [|done]. cbn [mbind option_bind] in *. by rewrite Hl.
  - apply (loops_spec id); [apply little_byte_spec| |done..]. intros y bs Hy Hb Hn. unfold little_word, native_load. rewrite He.
    rewrite feed_le_join, Hn by done. apply (slices_little 7); [lia|]. by apply word_lxor, le_join_word.
Qed.

End Host.
