(* ===== verification/CrcProps.v ===== *)
(** * What the checksums promise *)

From stdpp Require Import base list option sets.
From Stdlib Require Import ZArith Lia Bool.
From S2P Require Import Prelude Endian BitopsFacts Crc CrcFacts.

Local Open Scope Z_scope.

(** ** [crc16] is the XMODEM checksum *)

(** Bit by bit, with the polynomial 0x1021, nothing reflected. *)
Definition xstep (x : Z) : Z := Z.lxor (u16 (Z.shiftl x 1)) (if Z.testbit x 15 then 0x1021 else 0).
Definition xadvance (n : nat) (x : Z) : Z := Nat.iter n xstep x.
Definition xmodem (s : list byte) : Z := foldl (fun x b => xadvance 8 (Z.lxor x (Z.shiftl b 8))) 0 s.

Lemma wrap_lxor w a b : 0 <= w -> wrap w (Z.lxor a b) = Z.lxor (wrap w a) (wrap w b).
Proof.
  intros Hw. unfold wrap. apply Z.bits_inj'. intros i Hi. rewrite Z.lxor_spec. destruct (Z.lt_ge_cases i w).
  - by rewrite !Z.mod_pow2_bits_low, Z.lxor_spec by lia.
  - by rewrite !Z.mod_pow2_bits_high by lia.
Qed.

Lemma xstep_lxor a b : xstep (Z.lxor a b) = Z.lxor (xstep a) (xstep b).
Proof.
  unfold xstep. rewrite Z.shiftl_lxor, wrap_lxor, Z.lxor_spec by lia. destruct (Z.testbit a 15), (Z.testbit b 15); cbn [xorb]; lxor_solve.
Qed.

Lemma xadvance_lxor n a b : xadvance n (Z.lxor a b) = Z.lxor (xadvance n a) (xadvance n b).
Proof.
  induction n as [|n IH]; [done|]. change (xadvance (S n) (Z.lxor a b)) with (xstep (xadvance n (Z.lxor a b))). by rewrite IH, xstep_lxor.
Qed.

Lemma xstep_word x : word 16 (xstep x).
Proof. unfold xstep. apply word_lxor; [lia|apply wrap_range; lia|]. by case_if. Qed.

Definition crc16tab_ok (i : Z) : bool :=
  match crc16tab !! Z.to_nat i with Some x => x =? xadvance 8 (Z.shiftl i 8) | None => false end && (xadvance 8 i =? Z.shiftl i 8).

Lemma crc16tab_all : forallb crc16tab_ok (map Z.of_nat (seq 0 256)) = true.
Proof. vm_compute. reflexivity. Qed.

Lemma crc16tab_spec i : is_byte i -> crc16tab !! Z.to_nat i = Some (xadvance 8 (Z.shiftl i 8)) /\ xadvance 8 i = Z.shiftl i 8.
Proof.
  intros Hi. pose proof (forall_byte _ crc16tab_all i Hi) as H. unfold crc16tab_ok in H. apply andb_true_iff in H as [H1 H2]. split; [|by apply Z.eqb_eq].
  destruct (crc16tab !! Z.to_nat i); [|done]. f_equal. by apply Z.eqb_eq.
Qed.

#[local] Opaque crc16tab.

Lemma low_bit z i : 0 <= i < 8 -> Z.testbit (i8 z) i = Z.testbit z i.
Proof.
  intros Hi. rewrite <- (Z.mod_pow2_bits_low (i8 z) 8), <- (Z.mod_pow2_bits_low z 8) by lia. f_equal. apply (wrap_swrap 8); lia.
Qed.

Lemma crc16_step_spec x b : word 16 x -> is_byte b -> crc16_step x b = Some (xadvance 8 (Z.lxor x (Z.shiftl b 8))).
Proof.
  intros Hx Hb. set (y := Z.lxor x (Z.shiftl b 8)). unfold crc16_step.
  assert (word 16 (Z.shiftl b 8)) as Hs by (unfold word; rewrite Z.shiftl_mul_pow2 by lia; unfold is_byte in Hb; lia).
  assert (word 16 y) as Hy by by apply word_lxor. assert (is_byte (Z.shiftr y 8)) as Hyb by (apply (word_shiftr_sub 16 y 8); [lia|done]).
  assert (Z.land (Z.lxor (Z.shiftr x 8) (i8 b)) 0x00FF = Z.shiftr y 8) as ->.
  { apply (word_ext 8); [lia|apply land_255_word|done|]. intros i Hi. rewrite land_255, Z.mod_pow2_bits_low, Z.lxor_spec, low_bit, !Z.shiftr_spec by lia.
    unfold y. rewrite Z.lxor_spec, Z.shiftl_spec by lia. by replace (i + 8 - 8) with i by lia. }
  rewrite (proj1 (crc16tab_spec _ Hyb)). cbn [mbind option_bind]. f_equal. rewrite (byte_split y) at 2. rewrite xadvance_lxor, wrap_lxor by lia.
  rewrite (proj2 (crc16tab_spec _ (land_255_word y))). rewrite (wrap_small 16 (xadvance 8 _)) by (apply xstep_word). f_equal.
  apply (word_ext 16); [lia|apply wrap_range; lia| |].
  - pose proof (land_255_word y) as Hl. unfold word in Hl. rewrite Z.shiftl_mul_pow2 by lia. lia.
  - intros i Hi. unfold wrap. rewrite Z.mod_pow2_bits_low, !Z.shiftl_spec by lia. destruct (Z.lt_ge_cases i 8); [by rewrite !Z.testbit_neg_r by lia|].
    rewrite land_255, Z.mod_pow2_bits_low by lia. unfold y. rewrite Z.lxor_spec, (Z.shiftl_spec b), (Z.testbit_neg_r b) by lia. by rewrite xorb_false_r.
Qed.

Lemma crc16_spec s : Forall is_byte s -> crc16 s = Some (xmodem s).
Proof.
  unfold crc16, xmodem. assert (word 16 0) as H0 by done. revert H0. generalize 0 as x. induction s as [|b s IH]; intros x Hx Hs; [done|].
  apply Forall_cons_1 in Hs as [Hb Hs]. cbn [byte_loop foldl]. rewrite crc16_step_spec by done. cbn [mbind option_bind]. apply IH; [apply xstep_word|done].
Qed.

(** ** Searching the tag *)

Lemma scan_for_miss c l i : c ∉ l -> scan_for c l i = i + zlen l.
Proof.
  revert i. induction l as [|b l IH]; intros i Hc; cbn [scan_for]; [change (zlen (@nil byte)) with 0; lia|]. rewrite zlen_cons.
  destruct (Z.eqb_spec b c) as [->|]; [set_solver|]. rewrite IH by set_solver. lia.
Qed.

Lemma scan_for_hit c a r i : c ∉ a -> scan_for c (a ++ c :: r) i = i + zlen a.
Proof.
  revert i. induction a as [|b a IH]; intros i Hc; cbn [scan_for app]; [rewrite Z.eqb_refl; change (zlen (@nil byte)) with 0; lia|]. rewrite zlen_cons.
  destruct (Z.eqb_spec b c) as [->|]; [set_solver|]. rewrite IH by set_solver. lia.
Qed.

Lemma first_split (c : byte) l : c ∈ l -> exists a r, l = a ++ c :: r /\ c ∉ a.
Proof.
  induction l as [|b l IH]; intros Hc; [set_solver|]. destruct (decide (b = c)) as [->|]; [exists [], l; set_solver|].
  destruct IH as (a & r & -> & Ha); [set_solver|]. exists (b :: a), r. set_solver.
Qed.

(** The part of a key between the first brace that opens and the first one after
    it that closes. *)
Definition tagged (key tag : list byte) : Prop :=
  exists a r, key = a ++ 123 :: tag ++ 125 :: r /\ 123 ∉ a /\ 125 ∉ tag /\ tag <> [].

Lemma drop_to_tag a (r : list byte) : drop (Z.to_nat (zlen a + 1)) (a ++ 123 :: r) = r.
Proof.
  replace (Z.to_nat (zlen a + 1)) with (length (a ++ [123])) by (rewrite length_app; unfold zlen; cbn; lia). change (123 :: r) with ([123] ++ r). rewrite (assoc_L app). apply drop_app_length.
Qed.

Lemma keyHashSlot_tagged key tag : tagged key tag -> keyHashSlot key = h ← crc16 tag; Some (Z.land h 0x3FFF).
Proof.
  intros (a & r & -> & Ha & Ht & Hne). unfold keyHashSlot. rewrite (scan_for_hit 123 a) by done. rewrite Z.add_0_l.
  pose proof (zlen_nonneg a). pose proof (zlen_nonneg r). assert (0 < zlen tag) by (destruct tag; [done|rewrite zlen_cons; pose proof (zlen_nonneg tag); lia]).
  rewrite !zlen_app, !zlen_cons, zlen_app, zlen_cons. rewrite_if_false.
  rewrite drop_to_tag. rewrite (scan_for_hit 125 tag) by done. rewrite_if_false. change (123 :: tag ++ 125 :: r) with ([123] ++ tag ++ 125 :: r). rewrite (assoc_L app a).
  rewrite buf_read_app; [done|..]; rewrite ?zlen_app, ?zlen_cons; change (zlen (@nil Z)) with 0; lia.
Qed.

Lemma keyHashSlot_cases key : (exists tag, tagged key tag) \/ keyHashSlot key = h ← crc16 key; Some (Z.land h 0x3FFF).
Proof.
  unfold keyHashSlot. destruct (decide (123 ∈ key)) as [Hin|Hout]; [|right; rewrite scan_for_miss by done; by rewrite_if_true].
  destruct (first_split _ _ Hin) as (a & r & -> & Ha). rewrite (scan_for_hit 123 a) by done. rewrite Z.add_0_l.
  pose proof (zlen_nonneg a). pose proof (zlen_nonneg r). rewrite !zlen_app, !zlen_cons. rewrite_if_false. rewrite drop_to_tag.
  destruct (decide (125 ∈ r)) as [Hin2|Hout2]; [|right; rewrite scan_for_miss by done; by rewrite_if_true].
  destruct (first_split _ _ Hin2) as (tag & r' & -> & Ht). rewrite (scan_for_hit 125 tag) by done. destruct tag as [|b tag]; [right; change (zlen (@nil byte)) with 0; by rewrite_if_true|].
  left. by exists (b :: tag), a, r'.
Qed.

(** ** Claims *)

Section Claims.
Context `{Host}.

(** C7. The table-driven [crc64] is the bit by bit [_crc64]: on a host of either
    byte order, at any alignment of the buffer and from any state, and the
    checksum of a buffer can be computed piece by piece. *)
Theorem crc64_correct crc next s : Forall is_byte s ->
  exists t, crc64_init = Some t /\
    crc64 t (crc_reflect crc 64) next s = Some (_crc64 crc s) /\
    forall s1 s2 next1 next2, s = s1 ++ s2 ->
      (c ← crc64 t (crc_reflect crc 64) next1 s1; crc64 t c next2 s2) = Some (_crc64 crc s).
Proof.
  intros Hs. rewrite _crc64_feed by done. pose proof (reflect_word crc) as Hw. destruct (crc64_spec _ next s Hw Hs) as (t & Ht & H1). exists t. split_and!; [done..|].
  intros s1 s2 n1 n2 ->. apply Forall_app in Hs as [Hs1 Hs2]. destruct (crc64_spec _ n1 s1 Hw Hs1) as (t1 & Ht1 & Hx).
  destruct (crc64_spec (feed (crc_reflect crc 64) s1) n2 s2) as (t2 & Ht2 & H2); [by apply feed_word|done|]. rewrite feed_app. simplify_eq. by rewrite Hx.
Qed.

(** C25. [crc64] detects every change of up to eight consecutive bytes: two buffers
    of the same length that differ only there have different checksums. *)
Theorem crc64_detects crc next next' p a b q : 0 <= crc < 2 ^ 64 -> Forall is_byte (p ++ a ++ b ++ q) ->
  length a = length b -> (length a <= 8)%nat -> a <> b ->
  exists t x y, crc64_init = Some t /\ crc64 t crc next (p ++ a ++ q) = Some x /\ crc64 t crc next' (p ++ b ++ q) = Some y /\ x <> y.
Proof.
  intros Hc Hs Hl H8 Hne. rewrite !Forall_app in Hs. destruct Hs as (Hp & Ha & Hb & Hq).
  destruct (crc64_spec crc next (p ++ a ++ q) Hc) as (t & Ht & Hx); [by rewrite !Forall_app|].
  destruct (crc64_spec crc next' (p ++ b ++ q) Hc) as (t' & Ht' & Hy); [by rewrite !Forall_app|]. exists t, (feed crc (p ++ a ++ q)), (feed crc (p ++ b ++ q)). split_and!; [done|done|by simplify_eq|].
  rewrite !feed_app. intros He. apply feed_inj in He; [|by repeat apply feed_word..|done]. rewrite (feed_le_join _ a), (feed_le_join _ b), Hl in He by done.
  assert (Hw : forall l, Forall is_byte l -> (length l <= 8)%nat -> word 64 (Z.lxor (feed crc p) (le_join l))).
  { intros l Hb' Hl'. apply word_lxor; [lia|by apply feed_word|]. pose proof (le_join_range l Hb') as [H1 H2]. split; [done|]. eapply Z.lt_le_trans; [done|].
    change (2 ^ 64) with (256 ^ 8). apply Z.pow_le_mono_r; unfold zlen; lia. }
  apply advance_inj in He; [|apply Hw; done || lia..]. apply (f_equal (Z.lxor (feed crc p))) in He. rewrite <- !Z.lxor_assoc, Z.lxor_nilpotent, !Z.lxor_0_l in He.
  apply Hne. rewrite <- (le_split_join a), <- (le_split_join b), He, Hl by done. done.
Qed.

End Claims.

(** C24. [keyHashSlot] gives a slot below 16384: the XMODEM checksum, modulo 16384,
    of the tag between the first opening brace and the first closing one after
    it if that is not empty, and of the whole key otherwise; so keys with the
    same tag share their slot. *)
Theorem keyHashSlot_correct key : Forall is_byte key ->
  (forall tag, tagged key tag -> keyHashSlot key = Some (xmodem tag mod 16384)) /\
  (~ (exists tag, tagged key tag) -> keyHashSlot key = Some (xmodem key mod 16384)) /\
  exists slot, keyHashSlot key = Some slot /\ 0 <= slot < 16384.
Proof.
  intros Hk. assert (Hm : forall s, Forall is_byte s -> (h ← crc16 s; Some (Z.land h 0x3FFF)) = Some (xmodem s mod 16384)).
  { intros s Hs. rewrite crc16_spec by done. cbn [mbind option_bind]. f_equal. exact (Z.land_ones _ 14 ltac:(lia)). }
  assert (H1 : forall tag, tagged key tag -> keyHashSlot key = Some (xmodem tag mod 16384)).
  { intros tag Ht. rewrite (keyHashSlot_tagged key tag Ht). apply Hm. destruct Ht as (a & r & -> & _). rewrite Forall_app, Forall_cons, Forall_app in Hk. apply Hk. }
  destruct (keyHashSlot_cases key) as [[tag Ht]|Hc].
  - split_and!; [done|intros []; by exists tag|]. exists (xmodem tag mod 16384). split; [by apply H1|]. apply Z.mod_pos_bound; lia.
  - rewrite Hm in Hc by done. split_and!; [done..|]. exists (xmodem key mod 16384). split; [done|]. apply Z.mod_pos_bound; lia.
Qed.

(** ** Instances *)

#[local] Instance demo_big : Host := { big_endian := true }.

(** "123456789", whose checksums the sources give. *)
Definition digits : list byte := [49; 50; 51; 52; 53; 54; 55; 56; 57].

Lemma digits_bytes : Forall is_byte digits.
Proof. apply (bool_decide_eq_true_1 _). vm_compute. reflexivity. Qed.

Lemma crc64_correct_witness : _crc64 0 digits = 0xe9c6d914c4b8d9ca /\
  exists t, crc64_init = Some t /\ crc64 t 0 3 digits = Some 0xe9c6d914c4b8d9ca.
Proof.
  split; [vm_compute; reflexivity|]. destruct (crc64_correct 0 3 digits digits_bytes) as (t & Ht & Hc & _). exists t. split; [exact Ht|]. exact Hc.
Defined.

Lemma crc64_detects_witness : exists t x y, crc64_init = Some t /\
  crc64 t 7 0 ([1; 2] ++ [3; 4; 5] ++ [6]) = Some x /\ crc64 t 7 5 ([1; 2] ++ [3; 0; 255] ++ [6]) = Some y /\ x <> y.
Proof.
  apply (crc64_detects 7 0 5 [1; 2] [3; 4; 5] [3; 0; 255] [6]); [lia|apply (bool_decide_eq_true_1 _); vm_compute; reflexivity|reflexivity|cbn; lia|discriminate].
Defined.

(** "foo{bar}{zap}" and "{bar}". *)
Lemma keyHashSlot_correct_witness :
  keyHashSlot ([102; 111; 111] ++ [123; 98; 97; 114; 125; 123; 122; 97; 112; 125]) = Some (xmodem [98; 97; 114] mod 16384) /\
  xmodem digits = 0x31C3.
Proof.
  split; [|vm_compute; reflexivity].
  apply (proj1 (keyHashSlot_correct ([102; 111; 111] ++ [123; 98; 97; 114; 125; 123; 122; 97; 112; 125]) ltac:(apply (bool_decide_eq_true_1 _); vm_compute; reflexivity))).
  exists [102; 111; 111], [123; 122; 97; 112; 125]. split_and!; [reflexivity|apply (bool_decide_eq_true_1 _); vm_compute; reflexivity..|discriminate].
Defined.
