(* ===== verification/Listpack.v ===== *)
(** * Listpacks ([listpack.c])

    A listpack is one block: a header with the size in bytes and the number of
    elements, the elements, and an end byte. After the encoded element follows
    its length, written so that it can be read backwards. The block may be
    longer than the list: its length is what the allocator gave. A pointer into
    the block is its offset; an access outside the block or a failed assertion
    has no result. *)

From stdpp Require Import base list option.
From Stdlib Require Import ZArith Lia Bool.
From S2P Require Import Prelude Util UtilFacts.

Local Open Scope Z_scope.

Definition LP_HDR_SIZE : Z := 6.
Definition LP_HDR_NUMELE_UNKNOWN : Z := 65535.
Definition LP_EOF : Z := 0xFF.
Definition UINT32_MAX : Z := 2 ^ 32 - 1.
Definition INT64_MAX : Z := 2 ^ 63 - 1.
Definition INT64_MIN : Z := - 2 ^ 63.

Definition LP_ENCODING_13BIT_INT : Z := 0xC0.
Definition LP_ENCODING_16BIT_INT : Z := 0xF1.
Definition LP_ENCODING_24BIT_INT : Z := 0xF2.
Definition LP_ENCODING_32BIT_INT : Z := 0xF3.
Definition LP_ENCODING_64BIT_INT : Z := 0xF4.
Definition LP_ENCODING_6BIT_STR : Z := 0x80.
Definition LP_ENCODING_12BIT_STR : Z := 0xE0.
Definition LP_ENCODING_32BIT_STR : Z := 0xF0.

Definition LP_ENCODING_IS_7BIT_UINT (b : Z) : bool := Z.land b 0x80 =? 0.
Definition LP_ENCODING_IS_6BIT_STR (b : Z) : bool := Z.land b 0xC0 =? LP_ENCODING_6BIT_STR.
Definition LP_ENCODING_IS_13BIT_INT (b : Z) : bool := Z.land b 0xE0 =? LP_ENCODING_13BIT_INT.
Definition LP_ENCODING_IS_12BIT_STR (b : Z) : bool := Z.land b 0xF0 =? LP_ENCODING_12BIT_STR.
Definition LP_ENCODING_IS_16BIT_INT (b : Z) : bool := Z.land b 0xFF =? LP_ENCODING_16BIT_INT.
Definition LP_ENCODING_IS_24BIT_INT (b : Z) : bool := Z.land b 0xFF =? LP_ENCODING_24BIT_INT.
Definition LP_ENCODING_IS_32BIT_INT (b : Z) : bool := Z.land b 0xFF =? LP_ENCODING_32BIT_INT.
Definition LP_ENCODING_IS_64BIT_INT (b : Z) : bool := Z.land b 0xFF =? LP_ENCODING_64BIT_INT.
Definition LP_ENCODING_IS_32BIT_STR (b : Z) : bool := Z.land b 0xFF =? LP_ENCODING_32BIT_STR.

(** [(p)[0]<<0 | (p)[1]<<8 | ...] over [n] bytes. *)
Fixpoint or_bytes (lp : list byte) (p : Z) (n : nat) (shift : Z) : option Z :=
  match n with
  | O => Some 0
  | S n' =>
      b ← byte_at lp p;
      r ← or_bytes lp (p + 1) n' (shift + 8);
      Some (Z.lor (Z.shiftl b shift) r)
  end.

Definition LP_ENCODING_6BIT_STR_LEN (lp : list byte) (p : Z) : option Z :=
  b0 ← byte_at lp p; Some (Z.land b0 0x3F).
Definition LP_ENCODING_12BIT_STR_LEN (lp : list byte) (p : Z) : option Z :=
  b0 ← byte_at lp p; b1 ← byte_at lp (p + 1); Some (Z.lor (Z.shiftl (Z.land b0 0xF) 8) b1).
Definition LP_ENCODING_32BIT_STR_LEN (lp : list byte) (p : Z) : option Z := or_bytes lp (p + 1) 4 0.

Definition lpGetTotalBytes (lp : list byte) : option Z := or_bytes lp 0 4 0.
Definition lpGetNumElements (lp : list byte) : option Z := or_bytes lp 4 2 0.

(** [v & 0xff], [(v >> 8) & 0xff], ... *)
Fixpoint split_bytes (n : nat) (v : Z) : list byte :=
  match n with
  | O => []
  | S n' => Z.land v 0xff :: split_bytes n' (Z.shiftr v 8)
  end.

Definition lpSetTotalBytes (lp : list byte) (v : Z) : option (list byte) := buf_write lp 0 (split_bytes 4 v).
Definition lpSetNumElements (lp : list byte) (v : Z) : option (list byte) := buf_write lp 4 (split_bytes 2 v).

Definition ASSERT_INTEGRITY (lp : list byte) (p : Z) : option unit :=
  n ← lpGetTotalBytes lp;
  if (LP_HDR_SIZE <=? p) && (p <? n) then Some tt else None.
Definition ASSERT_INTEGRITY_LEN (lp : list byte) (p len : Z) : option unit :=
  n ← lpGetTotalBytes lp;
  if (LP_HDR_SIZE <=? p) && (p + len <? n) then Some tt else None.

(** The same loop as in [string2ll]; [None] stands for the result 0. *)
Definition lpStringToInt64 (s : list Z) : option Z :=
  match s with
  | [] => None
  | c :: _ =>
      if (zlen s =? 1) && (c =? c_0) then Some 0
      else
        let negative := c =? c_minus in
        let p := if (negative : bool) then drop 1 s else s in
        match p with
        | [] => None
        | d :: p' =>
            if (c_1 <=? d) && (d <=? c_9) then
              '(v, rest) ← string2ll_loop p' (u64 (d - c_0));
              match rest with
              | _ :: _ => None
              | [] =>
                  if (negative : bool) then
                    if u64 (u64 (- (INT64_MIN + 1)) + 1) <? v then None
                    else Some (i64 (u64 (- v)))
                  else if INT64_MAX <? v then None
                  else Some (i64 v)
              end
            else if (d =? c_0) && (zlen s =? 1) then Some 0
            else None
        end
  end.

(** ** Encodings *)

(** The bytes of an integer in [intenc], if the element is one, and [enclen]: [size]
    is 32 bits wide, and the sum too. *)
Definition lpEncodeGetType (ele : list byte) : option (list byte) * Z :=
  let size := zlen ele in
  match lpStringToInt64 ele with
  | Some v =>
      if (0 <=? v) && (v <=? 127) then (Some [u8 v], 1)
      else if (- 4096 <=? v) && (v <=? 4095) then
        let v := if v <? 0 then Z.shiftl 1 13 + v else v in
        (Some [u8 (Z.lor (Z.shiftr v 8) LP_ENCODING_13BIT_INT); Z.land v 0xff], 2)
      else if (- 32768 <=? v) && (v <=? 32767) then
        let v := if v <? 0 then Z.shiftl 1 16 + v else v in
        (Some [LP_ENCODING_16BIT_INT; Z.land v 0xff; u8 (Z.shiftr v 8)], 3)
      else if (- 8388608 <=? v) && (v <=? 8388607) then
        let v := if v <? 0 then Z.shiftl 1 24 + v else v in
        (Some [LP_ENCODING_24BIT_INT; Z.land v 0xff; Z.land (Z.shiftr v 8) 0xff; u8 (Z.shiftr v 16)], 4)
      else if (- 2147483648 <=? v) && (v <=? 2147483647) then
        let v := if v <? 0 then Z.shiftl 1 32 + v else v in
        (Some (LP_ENCODING_32BIT_INT :: split_bytes 3 v ++ [u8 (Z.shiftr v 24)]), 5)
      else
        let uv := u64 v in
        (Some (LP_ENCODING_64BIT_INT :: split_bytes 7 uv ++ [u8 (Z.shiftr uv 56)]), 9)
  | None =>
      (None, if size <? 64 then 1 + size else if size <? 4096 then 2 + size else u32 (5 + size))
  end.

(** The bytes stored at [buf]; their number is the result, with NULL too. *)
Definition lpEncodeBacklen (l : Z) : list byte :=
  if l <=? 127 then [u8 l]
  else if l <? 16383 then [u8 (Z.shiftr l 7); Z.lor (Z.land l 127) 128]
  else if l <? 2097151 then
    [u8 (Z.shiftr l 14); Z.lor (Z.land (Z.shiftr l 7) 127) 128; Z.lor (Z.land l 127) 128]
  else if l <? 268435455 then
    [u8 (Z.shiftr l 21); Z.lor (Z.land (Z.shiftr l 14) 127) 128; Z.lor (Z.land (Z.shiftr l 7) 127) 128;
     Z.lor (Z.land l 127) 128]
  else
    [u8 (Z.shiftr l 28); Z.lor (Z.land (Z.shiftr l 21) 127) 128; Z.lor (Z.land (Z.shiftr l 14) 127) 128;
     Z.lor (Z.land (Z.shiftr l 7) 127) 128; Z.lor (Z.land l 127) 128].
Definition lpEncodeBacklen_NULL (l : Z) : Z := zlen (lpEncodeBacklen l).

Fixpoint backlen_loop (fuel : nat) (lp : list byte) (p val shift : Z) : option Z :=
  match fuel with
  | O => None
  | S fuel' =>
      b ← byte_at lp p;
      let val := Z.lor val (u64 (Z.shiftl (Z.land b 127) shift)) in
      if Z.land b 128 =? 0 then Some val
      else
        let shift := shift + 7 in
        if 28 <? shift then Some ULLONG_MAX else backlen_loop fuel' lp (p - 1) val shift
  end.

(** The loop ends after five bytes. *)
Definition lpDecodeBacklen (lp : list byte) (p : Z) : option Z := backlen_loop 5 lp p 0 0.

Definition lpEncodeString (lp : list byte) (buf : Z) (s : list byte) : option (list byte) :=
  let len := zlen s in
  let head :=
    if len <? 64 then [Z.lor len LP_ENCODING_6BIT_STR]
    else if len <? 4096 then [Z.lor (Z.shiftr len 8) LP_ENCODING_12BIT_STR; Z.land len 0xff]
    else LP_ENCODING_32BIT_STR :: split_bytes 4 len in
  lp ← buf_write lp buf head;
  buf_write lp (buf + zlen head) s.

Definition lpCurrentEncodedSizeUnsafe (lp : list byte) (p : Z) : option Z :=
  b ← byte_at lp p;
  if LP_ENCODING_IS_7BIT_UINT b then Some 1
  else if LP_ENCODING_IS_6BIT_STR b then n ← LP_ENCODING_6BIT_STR_LEN lp p; Some (1 + n)
  else if LP_ENCODING_IS_13BIT_INT b then Some 2
  else if LP_ENCODING_IS_16BIT_INT b then Some 3
  else if LP_ENCODING_IS_24BIT_INT b then Some 4
  else if LP_ENCODING_IS_32BIT_INT b then Some 5
  else if LP_ENCODING_IS_64BIT_INT b then Some 9
  else if LP_ENCODING_IS_12BIT_STR b then n ← LP_ENCODING_12BIT_STR_LEN lp p; Some (2 + n)
  else if LP_ENCODING_IS_32BIT_STR b then n ← LP_ENCODING_32BIT_STR_LEN lp p; Some (u32 (5 + n))
  else if b =? LP_EOF then Some 1
  else Some 0.

Definition lpCurrentEncodedSizeBytes (lp : list byte) (p : Z) : option Z :=
  b ← byte_at lp p;
  Some (if LP_ENCODING_IS_7BIT_UINT b then 1
        else if LP_ENCODING_IS_6BIT_STR b then 1
        else if LP_ENCODING_IS_13BIT_INT b then 1
        else if LP_ENCODING_IS_16BIT_INT b then 1
        else if LP_ENCODING_IS_24BIT_INT b then 1
        else if LP_ENCODING_IS_32BIT_INT b then 1
        else if LP_ENCODING_IS_64BIT_INT b then 1
        else if LP_ENCODING_IS_12BIT_STR b then 2
        else if LP_ENCODING_IS_32BIT_STR b then 5
        else if b =? LP_EOF then 1
        else 0).

(** ** Walking

    An inner [None] is the result NULL. *)

Definition lpSkip (lp : list byte) (p : Z) : option Z :=
  entrylen ← lpCurrentEncodedSizeUnsafe lp p;
  Some (p + (entrylen + lpEncodeBacklen_NULL entrylen)).

Definition lpNext (lp : list byte) (p : Z) : option (option Z) :=
  p ← lpSkip lp p;
  _ ← ASSERT_INTEGRITY lp p;
  b ← byte_at lp p;
  Some (if b =? LP_EOF then None else Some p).

Definition lpPrev (lp : list byte) (p : Z) : option (option Z) :=
  if p =? LP_HDR_SIZE then Some None
  else
    let p := p - 1 in
    prevlen ← lpDecodeBacklen lp p;
    let prevlen := u64 (prevlen + lpEncodeBacklen_NULL prevlen) in
    let p := p - (prevlen - 1) in
    _ ← ASSERT_INTEGRITY lp p;
    Some (Some p).

Definition lpFirst (lp : list byte) : option (option Z) :=
  b ← byte_at lp LP_HDR_SIZE;
  Some (if b =? LP_EOF then None else Some LP_HDR_SIZE).

Definition lpLast (lp : list byte) : option (option Z) :=
  n ← lpGetTotalBytes lp;
  lpPrev lp (n - 1).

(** [while(p)]: the number of elements from [p] on. *)
Fixpoint length_loop (fuel : nat) (lp : list byte) (p : option Z) (count : Z) : option Z :=
  match p with
  | None => Some count
  | Some p =>
      match fuel with
      | O => None
      | S fuel' => q ← lpNext lp p; length_loop fuel' lp q (u32 (count + 1))
      end
  end.

(** The number, and the listpack with the number stored if it fits. *)
Definition lpLength (lp : list byte) : option (Z * list byte) :=
  numele ← lpGetNumElements lp;
  if negb (numele =? LP_HDR_NUMELE_UNKNOWN) then Some (numele, lp)
  else
    p ← lpFirst lp;
    count ← length_loop (length lp) lp p 0;
    if count <? LP_HDR_NUMELE_UNKNOWN then lp ← lpSetNumElements lp count; Some (count, lp)
    else Some (count, lp).

(** ** Values *)

Inductive lpvalue := LStr (s : list byte) | LInt (v : Z).

(** The conversion at the end of [lpGet]. *)
Definition lp_signed (uval negstart negmax : Z) : Z :=
  if negstart <=? uval then
    let uval := u64 (negmax - uval) in
    let val := i64 uval in
    - val - 1
  else i64 uval.

(** A string is the bytes from the returned pointer on, [*count] of them. With
    [intbuf] integers are returned as text. *)
Definition lpGet (lp : list byte) (p : Z) (intbuf : bool) : option lpvalue :=
  let int r := '(uval, negstart, negmax) ← r;
    let val := lp_signed uval negstart negmax in
    Some (if intbuf then LStr (decimal val) else LInt val) in
  let str off n := s ← buf_read lp (p + off) n; Some (LStr s) in
  b ← byte_at lp p;
  if LP_ENCODING_IS_7BIT_UINT b then int (Some (Z.land b 0x7f, ULLONG_MAX, 0))
  else if LP_ENCODING_IS_6BIT_STR b then n ← LP_ENCODING_6BIT_STR_LEN lp p; str 1 n
  else if LP_ENCODING_IS_13BIT_INT b then
    int (b1 ← byte_at lp (p + 1); Some (Z.lor (Z.shiftl (Z.land b 0x1f) 8) b1, Z.shiftl 1 12, 8191))
  else if LP_ENCODING_IS_16BIT_INT b then
    int (uval ← or_bytes lp (p + 1) 2 0; Some (uval, Z.shiftl 1 15, 65535))
  else if LP_ENCODING_IS_24BIT_INT b then
    int (uval ← or_bytes lp (p + 1) 3 0; Some (uval, Z.shiftl 1 23, Z.shiftr UINT32_MAX 8))
  else if LP_ENCODING_IS_32BIT_INT b then
    int (uval ← or_bytes lp (p + 1) 4 0; Some (uval, Z.shiftl 1 31, UINT32_MAX))
  else if LP_ENCODING_IS_64BIT_INT b then
    int (uval ← or_bytes lp (p + 1) 8 0; Some (uval, Z.shiftl 1 63, ULLONG_MAX))
  else if LP_ENCODING_IS_12BIT_STR b then n ← LP_ENCODING_12BIT_STR_LEN lp p; str 2 n
  else if LP_ENCODING_IS_32BIT_STR b then n ← LP_ENCODING_32BIT_STR_LEN lp p; str 5 n
  else int (Some (12345678900000000 + b, ULLONG_MAX, 0)).

(** ** Seeking *)

(** [while (index > 0 && ele)] *)
Fixpoint seek_forward (fuel : nat) (lp : list byte) (ele : option Z) (index : Z) : option (option Z) :=
  match ele with
  | Some p =>
      if 0 <? index then
        match fuel with
        | O => None
        | S fuel' => q ← lpNext lp p; seek_forward fuel' lp q (index - 1)
        end
      else Some ele
  | None => Some None
  end.

(** [while (index < -1 && ele)] *)
Fixpoint seek_backward (fuel : nat) (lp : list byte) (ele : option Z) (index : Z) : option (option Z) :=
  match ele with
  | Some p =>
      if index <? -1 then
        match fuel with
        | O => None
        | S fuel' => q ← lpPrev lp p; seek_backward fuel' lp q (index + 1)
        end
      else Some ele
  | None => Some None
  end.

Definition lpSeek (lp : list byte) (index : Z) : option (option Z) :=
  let forward index := ele ← lpFirst lp; seek_forward (length lp) lp ele index in
  let backward index := ele ← lpLast lp; seek_backward (length lp) lp ele index in
  numele ← lpGetNumElements lp;
  if negb (numele =? LP_HDR_NUMELE_UNKNOWN) then
    let index := if index <? 0 then numele + index else index in
    if index <? 0 then Some None
    else if numele <=? index then Some None
    else if numele / 2 <? index then backward (index - numele)
    else forward index
  else if index <? 0 then backward index
  else forward index.

(** ** Changes

    Memory is the argument [fill], the contents of what an allocation adds, and
    [usable old n], the usable size of a block of [n] bytes requested in place
    of one of [old] bytes. *)

Inductive lpwhere := LP_BEFORE | LP_AFTER | LP_REPLACE.

Section Listpack.
Context (fill : nat -> byte) (usable : Z -> Z -> Z).

Definition lp_realloc (lp : list byte) (n : Z) : list byte := realloc fill lp (usable (zlen lp) n).

Definition lpNew (capacity : Z) : option (list byte) :=
  let lp := lp_realloc [] (if LP_HDR_SIZE + 1 <? capacity then capacity else LP_HDR_SIZE + 1) in
  lp ← lpSetTotalBytes lp (LP_HDR_SIZE + 1);
  lp ← lpSetNumElements lp 0;
  buf_write lp LP_HDR_SIZE [LP_EOF].

Definition lpShrinkToFit (lp : list byte) : option (list byte) :=
  size ← lpGetTotalBytes lp;
  Some (if size <? zlen lp then lp_realloc lp size else lp).

(** [ele] is NULL for a deletion. An inner [None] is the result NULL; otherwise
    the listpack and what [*newp] is set to. *)
Definition lpInsert (lp : list byte) (ele : option (list byte)) (p : Z) (where_ : lpwhere) :
    option (option (list byte * option Z)) :=
  let where_ := match ele with None => LP_REPLACE | Some _ => where_ end in
  '(p, replace) ← (match where_ with
                   | LP_AFTER => p ← lpSkip lp p; _ ← ASSERT_INTEGRITY lp p; Some (p, false)
                   | LP_BEFORE => Some (p, false)
                   | LP_REPLACE => Some (p, true)
                   end);
  let poff := p in
  let '(intenc, enclen) := match ele with Some s => lpEncodeGetType s | None => (None, 0) end in
  let backlen := match ele with Some _ => lpEncodeBacklen enclen | None => [] end in
  let backlen_size := zlen backlen in
  old_listpack_bytes ← lpGetTotalBytes lp;
  replaced_len ← (if (replace : bool) then
                    n ← lpCurrentEncodedSizeUnsafe lp p;
                    let n := u32 (n + lpEncodeBacklen_NULL n) in
                    _ ← ASSERT_INTEGRITY_LEN lp p n;
                    Some n
                  else Some 0);
  let new_listpack_bytes := u64 (old_listpack_bytes + enclen + backlen_size - replaced_len) in
  if UINT32_MAX <? new_listpack_bytes then Some None
  else
    let dst := poff in
    let lp := if (old_listpack_bytes <? new_listpack_bytes) && (zlen lp <? new_listpack_bytes)
              then lp_realloc lp new_listpack_bytes else lp in
    lp ← (if negb replace then buf_move lp (dst + enclen + backlen_size) dst (old_listpack_bytes - poff)
          else
            let lendiff := enclen + backlen_size - replaced_len in
            buf_move lp (dst + replaced_len + lendiff) (dst + replaced_len) (old_listpack_bytes - poff - replaced_len));
    let lp := if new_listpack_bytes <? old_listpack_bytes then lp_realloc lp new_listpack_bytes else lp in
    newp ← (match ele with
            | None => b ← byte_at lp dst; Some (if b =? LP_EOF then None else Some dst)
            | Some _ => Some (Some dst)
            end);
    lp ← (match ele with
          | Some s =>
              lp ← (match intenc with Some bs => buf_write lp dst bs | None => lpEncodeString lp dst s end);
              buf_write lp (dst + enclen) backlen
          | None => Some lp
          end);
    lp ← (if negb replace || match ele with None => true | Some _ => false end then
            num_elements ← lpGetNumElements lp;
            if negb (num_elements =? LP_HDR_NUMELE_UNKNOWN) then
              lpSetNumElements lp (match ele with Some _ => num_elements + 1 | None => u32 (num_elements - 1) end)
            else Some lp
          else Some lp);
    lp ← lpSetTotalBytes lp new_listpack_bytes;
    Some (Some (lp, newp)).

Definition lpAppend (lp : list byte) (ele : list byte) : option (option (list byte * option Z)) :=
  listpack_bytes ← lpGetTotalBytes lp;
  lpInsert lp (Some ele) (listpack_bytes - 1) LP_BEFORE.

Definition lpDelete (lp : list byte) (p : Z) : option (option (list byte * option Z)) := lpInsert lp None p LP_REPLACE.

End Listpack.

Definition lpBytes (lp : list byte) : option Z := lpGetTotalBytes lp.

(** ** Validation *)

(** The result is [None] for 0, otherwise what [*pp] is set to. *)
Definition lpValidateNext (lp : list byte) (pp : option Z) (lpbytes : Z) : option (option (option Z)) :=
  let OUT_OF_RANGE p := (p <? LP_HDR_SIZE) || (lpbytes - 1 <? p) in
  match pp with
  | None => Some None
  | Some p =>
      b ← byte_at lp p;
      if b =? LP_EOF then Some (Some None)
      else
        lenbytes ← lpCurrentEncodedSizeBytes lp p;
        if lenbytes =? 0 then Some None
        else if OUT_OF_RANGE (p + lenbytes) then Some None
        else
          entrylen ← lpCurrentEncodedSizeUnsafe lp p;
          let encodedBacklen := lpEncodeBacklen_NULL entrylen in
          let entrylen := entrylen + encodedBacklen in
          if OUT_OF_RANGE (p + entrylen) then Some None
          else
            let p := p + entrylen in
            prevlen ← lpDecodeBacklen lp (p - 1);
            if negb (u64 (prevlen + encodedBacklen) =? entrylen) then Some None
            else Some (Some (Some p))
  end.

(** [while(p)]: [None] inside for the result 0, otherwise the count. *)
Fixpoint lp_validate_loop (fuel : nat) (lp : list byte) (bytes : Z) (p : option Z) (count : Z) : option (option Z) :=
  match p with
  | None => Some (Some count)
  | Some _ =>
      match fuel with
      | O => None
      | S fuel' =>
          r ← lpValidateNext lp p bytes;
          match r with
          | None => Some None
          | Some p => lp_validate_loop fuel' lp bytes p (u32 (count + 1))
          end
      end
  end.

Definition lpValidateIntegrity (lp : list byte) (size : Z) (deep : bool) : option bool :=
  if size <? LP_HDR_SIZE + 1 then Some false
  else
    bytes ← lpGetTotalBytes lp;
    if negb (bytes =? size) then Some false
    else
      b ← byte_at lp (size - 1);
      if negb (b =? LP_EOF) then Some false
      else if negb deep then Some true
      else
        p ← lpFirst lp;
        r ← lp_validate_loop (length lp) lp bytes p 0;
        match r with
        | None => Some false
        | Some count =>
            numele ← lpGetNumElements lp;
            Some (negb (negb (numele =? LP_HDR_NUMELE_UNKNOWN) && negb (numele =? count)))
        end.
