(* ===== verification/ListpackFacts.v ===== *)
(** * Listpacks: encodings

    What the code writes for an element and for its length, and that reading
    gives it back. *)

From stdpp Require Import base list option sets.
From Stdlib Require Import ZArith Lia Bool.
From S2P Require Import Prelude Util UtilFacts BitopsFacts Listpack.

Local Open Scope Z_scope.

(** ** Bytes *)

Lemma land_low8 v : Z.land v 0xff = v mod 256.
Proof. exact (Z.land_ones v 8 ltac:(lia)). Qed.

Lemma shiftr_8 v : Z.shiftr v 8 = v / 256.
Proof. exact (Z.shiftr_div_pow2 v 8 ltac:(lia)). Qed.

Lemma split_bytes_le n v : split_bytes n v = le_split n v.
Proof. revert v. induction n as [|n IH]; intros v; [done|]. cbn [split_bytes le_split]. by rewrite land_low8, IH, shiftr_8. Qed.

Lemma lor_shifted b x : is_byte b -> Z.lor b (Z.shiftl x 8) = b + 256 * x.
Proof. intros Hb. rewrite Z.lor_comm, Z.shiftl_mul_pow2 by lia. change (2 ^ 8) with 256. rewrite lor_byte by done. lia. Qed.

Lemma or_bytes_spec a bs c sh : Forall is_byte bs -> 0 <= sh ->
  or_bytes (a ++ bs ++ c) (zlen a) (length bs) sh = Some (Z.shiftl (le_join bs) sh).
Proof.
  revert a sh. induction bs as [|b bs IH]; intros a sh Hb Hs; cbn [or_bytes length le_join]; [by rewrite Z.shiftl_0_l|]. apply Forall_cons_1 in Hb as [Hb Hbs].
  cbn [app]. rewrite byte_at_app. cbn [mbind option_bind]. replace (a ++ b :: bs ++ c) with ((a ++ [b]) ++ bs ++ c) by (by rewrite <- app_assoc).
  replace (zlen a + 1) with (zlen (a ++ [b])) by zlen. rewrite IH by (done || lia). cbn [mbind option_bind]. f_equal.
  replace (sh + 8) with (8 + sh) by lia. rewrite <- Z.shiftl_shiftl, <- Z.shiftl_lor by lia. by rewrite lor_shifted.
Qed.

Lemma or_bytes_at a bs c p n : Forall is_byte bs -> p = zlen a -> n = length bs -> or_bytes (a ++ bs ++ c) p n 0 = Some (le_join bs).
Proof. intros Hb -> ->. rewrite or_bytes_spec by (done || lia). by rewrite Z.shiftl_0_r. Qed.

Lemma or_bytes_local a b c i n sh x : or_bytes b i n sh = Some x -> or_bytes (a ++ b ++ c) (zlen a + i) n sh = Some x.
Proof.
  revert i sh x. induction n as [|n IH]; intros i sh x; cbn [or_bytes]; [done|]. intros E. destruct (byte_at b i) as [y|] eqn:Ey; [|done]. cbn [mbind option_bind] in E.
  rewrite (byte_at_local _ _ _ _ _ Ey). cbn [mbind option_bind]. destruct (or_bytes b (i + 1) n (sh + 8)) as [r|] eqn:Er; [|done]. cbn [mbind option_bind] in E.
  replace (zlen a + i + 1) with (zlen a + (i + 1)) by lia. by rewrite (IH _ _ _ Er).
Qed.

Lemma buf_read_local a b c i n s : buf_read b i n = Some s -> buf_read (a ++ b ++ c) (zlen a + i) n = Some s.
Proof.
  intros E. apply buf_read_Some in E as (x & y & -> & -> & ->). rewrite <- !app_assoc, (app_assoc a x). apply buf_read_app; zlen.
Qed.

Lemma byte_at_byte l i b : Forall is_byte l -> byte_at l i = Some b -> is_byte b.
Proof. unfold byte_at. intros Hl E. case_if_in E; [|done]. rewrite Forall_lookup in Hl. by eapply Hl. Qed.

Lemma byte_at_Some l i : 0 <= i < zlen l -> exists b, byte_at l i = Some b.
Proof.
  intros Hi. unfold byte_at. rewrite (proj2 (Z.leb_le 0 i)) by lia. destruct (lookup_lt_is_Some_2 l (Z.to_nat i)) as [b Hb]; [unfold zlen in Hi; lia|by exists b].
Qed.

Lemma byte_at_inside l i b : byte_at l i = Some b -> 0 <= i < zlen l.
Proof. unfold byte_at, zlen. intros E. case_if_in E; [|done]. apply lookup_lt_Some in E. lia. Qed.

(** ** Lengths read backwards *)

(** [S k] digits of seven bits, the most significant first. *)
Fixpoint digits7 (k : nat) (n : Z) : list byte :=
  match k with
  | O => [u8 n]
  | S k' => digits7 k' (Z.shiftr n 7) ++ [Z.lor (Z.land n 127) 128]
  end.

Lemma lpEncodeBacklen_digits n : 0 <= n < 2 ^ 35 ->
  exists k, (k <= 4)%nat /\ lpEncodeBacklen n = digits7 k n /\ n < 2 ^ (7 * (Z.of_nat k + 1)).
Proof.
  intros Hn. unfold lpEncodeBacklen. repeat case_if; [exists 0%nat|exists 1%nat|exists 2%nat|exists 3%nat|exists 4%nat]; (split_and!; [lia| |cbn; lia]);
    cbn [digits7 app]; rewrite ?Z.shiftr_shiftr by lia; done.
Qed.

Lemma digits7_length k n : length (digits7 k n) = S k.
Proof. revert n. induction k as [|k IH]; intros n; cbn [digits7]; [done|]. rewrite length_app, IH. cbn. lia. Qed.

Lemma land_127 n : Z.land n 127 = n mod 128.
Proof. exact (Z.land_ones n 7 ltac:(lia)). Qed.

Definition digit7_test (d : Z) : bool :=
  negb (d <? 128) || ((Z.land d 127 =? d) && (Z.land d 128 =? 0) && (Z.land (Z.lor d 128) 127 =? d) && (Z.land (Z.lor d 128) 128 =? 128) && (Z.lor d 128 =? 128 + d)).

Lemma digit7 d : 0 <= d < 128 -> Z.land d 127 = d /\ Z.land d 128 = 0 /\ Z.land (Z.lor d 128) 127 = d /\ Z.land (Z.lor d 128) 128 = 128 /\ Z.lor d 128 = 128 + d.
Proof.
  intros Hd. assert (digit7_test d = true) as Ht by (apply forall_byte; [vm_compute; done|unfold is_byte; lia]).
  unfold digit7_test in Ht. rewrite (proj2 (Z.ltb_lt d 128)) in Ht by lia. cbn [negb orb] in Ht. repeat rewrite andb_true_iff in Ht. lia.
Qed.

Lemma digits7_bytes k n : Forall is_byte (digits7 k n).
Proof.
  revert n. induction k as [|k IH]; intros n; cbn [digits7].
  - apply Forall_singleton. apply (wrap_range 8). lia.
  - apply Forall_app. split; [done|]. apply Forall_singleton. rewrite land_127. destruct (digit7 (n mod 128)) as (_ & _ & _ & _ & ->); [dlia|]. unfold is_byte. dlia.
Qed.

Lemma low7_split n : 0 <= n -> Z.lor (n mod 128) (Z.shiftl (Z.shiftr n 7) 7) = n.
Proof.
  intros Hn. apply Z.bits_inj'. intros i Hi. rewrite Z.lor_spec, Z.shiftl_spec by done. change 128 with (2 ^ 7). destruct (Z.lt_ge_cases i 7).
  - rewrite Z.mod_pow2_bits_low, (Z.testbit_neg_r _ (i - 7)) by lia. apply orb_false_r.
  - rewrite Z.mod_pow2_bits_high, Z.shiftr_spec by lia. cbn [orb]. f_equal; lia.
Qed.

Lemma backlen_loop_spec k : forall fuel h n c val sh, 0 <= n < 2 ^ (7 * (Z.of_nat k + 1)) -> 0 <= sh -> sh + 7 * Z.of_nat k <= 28 -> (k < fuel)%nat ->
  backlen_loop fuel (h ++ digits7 k n ++ c) (zlen h + Z.of_nat k) val sh = Some (Z.lor val (Z.shiftl n sh)).
Proof.
  assert (Hu : forall d sh, 0 <= d < 128 -> 0 <= sh <= 28 -> u64 (Z.shiftl d sh) = Z.shiftl d sh).
  { intros d sh Hd Hs. apply u64_small. rewrite Z.shiftl_mul_pow2 by lia. assert (2 ^ sh <= 2 ^ 28) by (apply Z.pow_le_mono_r; lia). pose proof (Z.pow_pos_nonneg 2 sh). nia. }
  induction k as [|k IH]; intros fuel h n c val sh Hn Hs Hk Hf; (destruct fuel as [|fuel]; [lia|]); cbn [backlen_loop digits7].
  - rewrite Z.add_0_r. cbn [app]. rewrite byte_at_app. cbn [mbind option_bind]. assert (0 <= n < 128) as Hd by (cbn in Hn; lia). rewrite (wrap_small 8) by lia.
    destruct (digit7 n Hd) as (-> & -> & _). by rewrite Hu by lia.
  - rewrite <- !app_assoc. set (d := Z.shiftr n 7). assert (0 <= n mod 128 < 128) as Hd by dlia. rewrite land_127. destruct (digit7 _ Hd) as (_ & _ & E1 & E2 & _).
    assert (zlen h + Z.of_nat (S k) = zlen (h ++ digits7 k d)) as Hz by (rewrite zlen_app; unfold zlen at 3; rewrite digits7_length; lia).
    rewrite app_assoc, Hz. cbn [app]. rewrite byte_at_app. cbn [mbind option_bind]. rewrite E1, E2. cbn [Z.eqb]. rewrite (proj2 (Z.ltb_ge 28 _)) by lia.
    rewrite <- app_assoc. replace (zlen (h ++ digits7 k d) - 1) with (zlen h + Z.of_nat k) by lia. rewrite Hu by lia. rewrite IH; [|unfold d; rewrite Z.shiftr_div_pow2 by lia|lia..].
    + f_equal. rewrite <- Z.lor_assoc. f_equal. replace (sh + 7) with (7 + sh) by lia. rewrite <- Z.shiftl_shiftl, <- Z.shiftl_lor by lia. unfold d. by rewrite low7_split by lia.
    + split; [apply Z.div_pos; lia|]. apply Z.div_lt_upper_bound; [lia|]. rewrite <- Z.pow_add_r by lia. replace (7 + 7 * (Z.of_nat k + 1)) with (7 * (Z.of_nat (S k) + 1)) by lia. lia.
Qed.

(** The length before an element is read from its last byte. *)
Lemma decode_backlen h n c p : 0 <= n < 2 ^ 35 -> p = zlen h + zlen (lpEncodeBacklen n) - 1 -> lpDecodeBacklen (h ++ lpEncodeBacklen n ++ c) p = Some n.
Proof.
  intros Hn ->. destruct (lpEncodeBacklen_digits n Hn) as (k & Hk & E & Hb). rewrite E. unfold zlen at 2. rewrite digits7_length.
  replace (zlen h + Z.of_nat (S k) - 1) with (zlen h + Z.of_nat k) by lia. unfold lpDecodeBacklen. rewrite backlen_loop_spec by lia. by rewrite Z.shiftl_0_r.
Qed.

Lemma backlen_zlen n : 1 <= zlen (lpEncodeBacklen n) <= 5.
Proof. unfold lpEncodeBacklen. repeat case_if; (split; [|]; done). Qed.

Lemma backlen_bytes n : 0 <= n < 2 ^ 35 -> Forall is_byte (lpEncodeBacklen n).
Proof. intros Hn. destruct (lpEncodeBacklen_digits n Hn) as (k & _ & -> & _). apply digits7_bytes. Qed.

(** ** Numbers in text *)

Lemma lpStringToInt64_string2ll s : lpStringToInt64 s = string2ll s.
Proof.
  destruct s as [|c s]; [done|]. unfold lpStringToInt64, string2ll. destruct ((zlen (c :: s) =? 1) && (c =? c_0)) eqn:E0; [done|].
  set (p := if c =? c_minus then drop 1 (c :: s) else c :: s). destruct p as [|d p'] eqn:Ep; [done|]. destruct ((c_1 <=? d) && (d <=? c_9)); [done|].
  destruct ((d =? c_0) && (zlen (c :: s) =? 1)) eqn:E1; [|done]. exfalso. apply andb_true_iff in E1 as [E1 E2]. rewrite E2 in E0. cbn [andb] in E0.
  destruct s; [|rewrite !zlen_cons in E2; pose proof (zlen_nonneg s); lia]. subst p. destruct (c =? c_minus); [done|]. injection Ep as -> _. by rewrite E0 in E1.
Qed.

Lemma lp_signed_spec k v : 1 <= k <= 64 -> - 2 ^ (k - 1) <= v < 2 ^ (k - 1) -> lp_signed (v mod 2 ^ k) (2 ^ (k - 1)) (2 ^ k - 1) = v.
Proof.
  intros Hk Hv. pose proof (pow2_half k ltac:(lia)) as Hp. assert (2 ^ (k - 1) <= 2 ^ 63) by (apply Z.pow_le_mono_r; lia). unfold lp_signed. destruct (Z.lt_ge_cases v 0) as [Hn|Hn].
  - assert (v mod 2 ^ k = 2 ^ k + v) as -> by (rewrite <- (Z.mod_add v 1) by lia; rewrite Z.mod_small; lia). rewrite_if_true. rewrite u64_small, i64_small by lia. lia.
  - rewrite Z.mod_small by lia. rewrite_if_false. rewrite i64_small by lia. done.
Qed.

Lemma le_split_snoc n v : le_split (S n) v = le_split n v ++ [u8 (Z.shiftr v (8 * Z.of_nat n))].
Proof.
  revert v. induction n as [|n IH]; intros v; [by rewrite Z.shiftr_0_r|]. change (le_split (S (S n)) v) with (v mod 256 :: le_split (S n) (v / 256)). rewrite IH.
  cbn [le_split app]. do 3 f_equal. rewrite <- shiftr_8, Z.shiftr_shiftr by lia. do 2 f_equal. lia.
Qed.

(** ** Elements *)

(** An encoded element without its length. *)
Definition lp_ent_ok (e : list byte) : Prop :=
  Forall is_byte e /\ lpCurrentEncodedSizeUnsafe e 0 = Some (zlen e) /\ byte_at e 0 <> Some LP_EOF /\ 0 < zlen e < 2 ^ 32.

(** What an element stands for, by the table of encodings: 0xxxxxxx is a number of
    7 bits, 10xxxxxx a string of up to 63 bytes, 110xxxxx a signed number of 13
    bits, 1110xxxx and 11110000 a string with a length of 12 and of 32 bits, and
    the other tags come before a little endian signed number. *)
Definition lp_val (e : list byte) : lpvalue :=
  match e with
  | [] => LStr []
  | b :: r =>
      if b <? 128 then LInt b
      else if b <? 192 then LStr r
      else if b <? 224 then LInt (swrap 13 ((b - 192) * 256 + le_join r))
      else if b <? 240 then LStr (drop 1 r)
      else if b =? 240 then LStr (drop 4 r)
      else LInt (swrap (8 * zlen r) (le_join r))
  end.
Definition lp_text (v : lpvalue) : list byte := match v with LStr s => s | LInt n => decimal n end.

Definition str_head (len : Z) : list byte :=
  if len <? 64 then [Z.lor len LP_ENCODING_6BIT_STR]
  else if len <? 4096 then [Z.lor (Z.shiftr len 8) LP_ENCODING_12BIT_STR; Z.land len 0xff]
  else LP_ENCODING_32BIT_STR :: split_bytes 4 len.

Definition lp_new (s : list byte) : list byte :=
  match lpEncodeGetType s with (Some bs, _) => bs | (None, _) => str_head (zlen s) ++ s end.

Definition head_test (b : Z) : bool :=
  (negb (b <? 32) || (negb (LP_ENCODING_IS_7BIT_UINT (Z.lor b 0xC0)) && negb (LP_ENCODING_IS_6BIT_STR (Z.lor b 0xC0)) && LP_ENCODING_IS_13BIT_INT (Z.lor b 0xC0) &&
     (Z.land (Z.lor b 0xC0) 0x1f =? b) && (Z.lor b 0xC0 =? 0xC0 + b))) &&
  (negb (b <? 64) || (negb (LP_ENCODING_IS_7BIT_UINT (Z.lor b 0x80)) && LP_ENCODING_IS_6BIT_STR (Z.lor b 0x80) && (Z.land (Z.lor b 0x80) 0x3f =? b) && (Z.lor b 0x80 =? 0x80 + b))) &&
  (negb (b <? 16) || (negb (LP_ENCODING_IS_7BIT_UINT (Z.lor b 0xE0)) && negb (LP_ENCODING_IS_6BIT_STR (Z.lor b 0xE0)) && negb (LP_ENCODING_IS_13BIT_INT (Z.lor b 0xE0)) &&
     negb (LP_ENCODING_IS_16BIT_INT (Z.lor b 0xE0)) && negb (LP_ENCODING_IS_24BIT_INT (Z.lor b 0xE0)) && negb (LP_ENCODING_IS_32BIT_INT (Z.lor b 0xE0)) &&
     negb (LP_ENCODING_IS_64BIT_INT (Z.lor b 0xE0)) && LP_ENCODING_IS_12BIT_STR (Z.lor b 0xE0) && (Z.land (Z.lor b 0xE0) 0xF =? b) && (Z.lor b 0xE0 =? 0xE0 + b))).

Lemma head_tests b : is_byte b -> head_test b = true.
Proof. apply forall_byte. vm_compute. done. Qed.

Ltac use_head b Hb :=
  let H := fresh "Ht" in
  pose proof (head_tests b Hb) as H; unfold head_test in H;
  repeat rewrite ?andb_true_iff, ?orb_true_iff, ?negb_true_iff, ?Z.ltb_ge, ?Z.eqb_eq in H.

(** The pieces of a new element: its size, and what reading it gives. *)
Record reads_as (e : list byte) (v : lpvalue) : Prop := {
  ra_bytes : Forall is_byte e;
  ra_size : lpCurrentEncodedSizeUnsafe e 0 = Some (zlen e);
  ra_head : byte_at e 0 <> Some LP_EOF;
  ra_get : lpGet e 0 false = Some v;
}.

Lemma reads_7bit v : 0 <= v <= 127 -> reads_as [u8 v] (LInt v).
Proof.
  intros Hv. rewrite (wrap_small 8) by lia. destruct (digit7 v ltac:(lia)) as (E1 & E2 & _). split.
  - apply Forall_singleton. unfold is_byte. lia.
  - unfold lpCurrentEncodedSizeUnsafe, LP_ENCODING_IS_7BIT_UINT. change (byte_at [v] 0) with (Some v). cbn [mbind option_bind]. by rewrite E2.
  - change (byte_at [v] 0) with (Some v). unfold LP_EOF. intros [=]. lia.
  - unfold lpGet, LP_ENCODING_IS_7BIT_UINT. change (byte_at [v] 0) with (Some v). cbn [mbind option_bind]. rewrite E2. cbn [Z.eqb mbind option_bind]. change 0x7f with 127. rewrite E1.
    unfold lp_signed, ULLONG_MAX. rewrite_if_false. by rewrite i64_small by lia.
Qed.

Lemma reads_13bit v : - 4096 <= v <= 4095 ->
  reads_as [u8 (Z.lor (Z.shiftr (v mod 2 ^ 13) 8) LP_ENCODING_13BIT_INT); Z.land (v mod 2 ^ 13) 0xff] (LInt v).
Proof.
  intros Hv. set (w := v mod 2 ^ 13). assert (0 <= w < 2 ^ 13) as Hw by (apply Z.mod_pos_bound; lia). rewrite land_low8, shiftr_8. set (d := w / 256). assert (0 <= d < 32) as Hd by (unfold d; dlia).
  assert (is_byte d) as Hdb by (unfold is_byte; lia). use_head d Hdb. destruct Ht as [[[Ht|Ht] _] _]; [lia|]. unfold LP_ENCODING_13BIT_INT. rewrite (wrap_small 8) by lia. set (h := Z.lor d 0xC0) in *.
  destruct Ht as [[[[H1 H2] H3] H4] H5]. set (b1 := w mod 256). assert (is_byte b1) by (unfold is_byte, b1; dlia). split.
  - repeat apply Forall_cons_2; [unfold is_byte; lia|done|constructor].
  - unfold lpCurrentEncodedSizeUnsafe. change (byte_at [h; b1] 0) with (Some h). cbn [mbind option_bind]. by rewrite H1, H2, H3.
  - change (byte_at [h; b1] 0) with (Some h). unfold LP_EOF. intros [=]. lia.
  - unfold lpGet. change (byte_at [h; b1] 0) with (Some h). change (byte_at [h; b1] (0 + 1)) with (Some b1). cbn [mbind option_bind]. rewrite H1, H2, H3, H4. cbn [mbind option_bind].
    rewrite Z.lor_comm, lor_shifted by done. replace (b1 + 256 * d) with w by (unfold b1, d; dlia). do 2 f_equal. apply (lp_signed_spec 13); lia.
Qed.

(** The wider integers: a tag and the bytes of the number. *)
Lemma reads_int tag n v : (tag, n) ∈ [(LP_ENCODING_16BIT_INT, 2%nat); (LP_ENCODING_24BIT_INT, 3%nat); (LP_ENCODING_32BIT_INT, 4%nat); (LP_ENCODING_64BIT_INT, 8%nat)] ->
  - 2 ^ (8 * Z.of_nat n - 1) <= v < 2 ^ (8 * Z.of_nat n - 1) -> reads_as (tag :: le_split n (v mod 2 ^ (8 * Z.of_nat n))) (LInt v).
Proof.
  intros Hin Hv. set (w := v mod 2 ^ (8 * Z.of_nat n)).
  assert (forall c, or_bytes (tag :: le_split n w) c n 0 = or_bytes ([tag] ++ le_split n w ++ []) c n 0) as Hor by (intros; by rewrite app_nil_r).
  assert (or_bytes (tag :: le_split n w) (0 + 1) n 0 = Some w) as Hr.
  { rewrite Hor, or_bytes_at by (done || apply le_split_bytes || by rewrite le_split_length). rewrite le_join_split. f_equal. change 256 with (2 ^ 8). rewrite <- Z.pow_mul_r by lia. unfold w. by rewrite Z.mod_mod by lia. }
  assert (lp_signed w (2 ^ (8 * Z.of_nat n - 1)) (2 ^ (8 * Z.of_nat n) - 1) = v) as Hs.
  { apply lp_signed_spec; [|done]. repeat (apply elem_of_cons in Hin as [[= -> ->]|Hin]; [lia|]). by apply elem_of_nil in Hin. }
  split.
  - apply Forall_cons_2; [|apply le_split_bytes]. repeat (apply elem_of_cons in Hin as [[= -> _]|Hin]; [done|]). by apply elem_of_nil in Hin.
  - rewrite zlen_cons. unfold zlen. rewrite le_split_length. repeat (apply elem_of_cons in Hin as [[= -> ->]|Hin]; [done|]). by apply elem_of_nil in Hin.
  - repeat (apply elem_of_cons in Hin as [[= -> ->]|Hin]; [done|]). by apply elem_of_nil in Hin.
  - unfold lpGet. change (byte_at (tag :: le_split n w) 0) with (Some tag). cbn [mbind option_bind].
    repeat (apply elem_of_cons in Hin as [[= -> ->]|Hin]; [cbv [LP_ENCODING_16BIT_INT LP_ENCODING_24BIT_INT LP_ENCODING_32BIT_INT LP_ENCODING_64BIT_INT] in *;
      match goal with |- context [LP_ENCODING_IS_7BIT_UINT ?t] => change (LP_ENCODING_IS_7BIT_UINT t) with false; change (LP_ENCODING_IS_6BIT_STR t) with false; change (LP_ENCODING_IS_13BIT_INT t) with false end;
      cbn [LP_ENCODING_IS_16BIT_INT LP_ENCODING_IS_24BIT_INT LP_ENCODING_IS_32BIT_INT LP_ENCODING_IS_64BIT_INT]; cbv iota; rewrite Hr; cbn [mbind option_bind]; do 2 f_equal; exact Hs|]).
    by apply elem_of_nil in Hin.
Qed.

Lemma byte_at_cons b l : byte_at (b :: l) 0 = Some b.
Proof. done. Qed.

Lemma reads_str s : Forall is_byte s -> zlen s + 5 < 2 ^ 32 -> reads_as (str_head (zlen s) ++ s) (LStr s).
Proof.
  intros Hs Hl. pose proof (zlen_nonneg s) as Hn. set (n := zlen s) in *. unfold str_head, LP_ENCODING_6BIT_STR, LP_ENCODING_12BIT_STR. repeat case_if.
  - assert (is_byte n) as Hb by (unfold is_byte; lia). use_head n Hb. destruct Ht as [[_ [Ht|Ht]] _]; [lia|]. destruct Ht as [[[H1 H2] H3] H4]. set (h := Z.lor n 0x80) in *.
    cbn [app]. split; unfold lpCurrentEncodedSizeUnsafe, lpGet, LP_ENCODING_6BIT_STR_LEN, LP_EOF; rewrite ?byte_at_cons; cbn [mbind option_bind]; rewrite ?H1, ?H2; cbn [mbind option_bind]; rewrite ?H3.
    + apply Forall_cons_2; [unfold is_byte; lia|done].
    + by rewrite zlen_cons.
    + intros [=]. lia.
    + rewrite <- (app_nil_r s) at 1. change (h :: s ++ []) with ([h] ++ s ++ []). by rewrite buf_read_app.
  - rewrite shiftr_8, land_low8. set (d := n / 256). set (b1 := n mod 256). assert (is_byte d /\ is_byte b1 /\ d < 16) as (Hd & Hb1 & Hd') by (unfold is_byte, d, b1; dlia).
    use_head d Hd. destruct Ht as [_ [Ht|Ht]]; [lia|]. destruct Ht as [[[[[[[[[H1 H2] H3] H4] H5] H6] H7] H8] H9] H10]. set (h := Z.lor d 0xE0) in *.
    assert (Z.lor (Z.shiftl d 8) b1 = n) as Hj by (rewrite Z.lor_comm, lor_shifted by done; unfold d, b1; dlia).
    cbn [app]. assert (byte_at (h :: b1 :: s) (0 + 1) = Some b1) as Hat by done.
    split; unfold lpCurrentEncodedSizeUnsafe, lpGet, LP_ENCODING_12BIT_STR_LEN, LP_EOF; rewrite ?byte_at_cons, ?Hat; cbn [mbind option_bind]; rewrite ?H1, ?H2, ?H3, ?H4, ?H5, ?H6, ?H7, ?H8; cbn [mbind option_bind]; rewrite ?H9, ?Hj.
    + apply Forall_cons_2; [unfold is_byte in *; lia|]. by apply Forall_cons_2.
    + rewrite !zlen_cons. f_equal. unfold n. lia.
    + intros [=]. unfold is_byte in *. lia.
    + rewrite <- (app_nil_r s) at 1. change (h :: b1 :: s ++ []) with ([h; b1] ++ s ++ []). by rewrite buf_read_app.
  - rewrite split_bytes_le. set (L := le_split 4 n). assert (length L = 4%nat) as HL by apply le_split_length. assert (zlen L = 4) as HL' by (unfold zlen; lia). assert (Forall is_byte L) as HLb by apply le_split_bytes.
    change ((LP_ENCODING_32BIT_STR :: L) ++ s) with ([0xF0] ++ L ++ s).
    assert (LP_ENCODING_32BIT_STR_LEN ([0xF0] ++ L ++ s) 0 = Some n) as Hlen.
    { unfold LP_ENCODING_32BIT_STR_LEN. rewrite or_bytes_at by done. unfold L. rewrite le_join_split. f_equal. apply Z.mod_small. change (256 ^ Z.of_nat 4) with (2 ^ 32). lia. }
    split.
    + apply Forall_app. split; [by apply Forall_singleton|]. by apply Forall_app.
    + unfold lpCurrentEncodedSizeUnsafe. change (byte_at ([0xF0] ++ L ++ s) 0) with (Some 0xF0). cbn [mbind option_bind]. change (LP_ENCODING_IS_32BIT_STR 0xF0) with true. cbv iota beta. rewrite Hlen. cbn [mbind option_bind]. 
      rewrite u32_small by lia. rewrite !zlen_app, HL'. change (zlen [0xF0]) with 1. f_equal. unfold n. lia.
    + done.
    + unfold lpGet. change (byte_at ([0xF0] ++ L ++ s) 0) with (Some 0xF0). cbn [mbind option_bind]. change (LP_ENCODING_IS_32BIT_STR 0xF0) with true. cbv iota beta. rewrite Hlen. cbn [mbind option_bind]. replace ([0xF0] ++ L ++ s) with (([0xF0] ++ L) ++ s ++ []) by (by rewrite app_nil_r, <- app_assoc). by rewrite buf_read_app by zlen.
Qed.

Lemma neg_mod k v : 0 < k -> - 2 ^ (k - 1) <= v < 2 ^ (k - 1) -> (if v <? 0 then Z.shiftl 1 k + v else v) = v mod 2 ^ k.
Proof.
  intros Hk Hv. pose proof (pow2_half k ltac:(lia)) as Hp. rewrite Z.shiftl_1_l. case_if; [|by rewrite Z.mod_small by lia].
  rewrite <- (Z.mod_add v 1) by lia. rewrite Z.mod_small; lia.
Qed.

(** What the code writes for a string stands for that string. *)
Lemma lp_new_spec s : Forall is_byte s -> zlen s < 2 ^ 32 - 5 ->
  zlen (lp_new s) = snd (lpEncodeGetType s) /\ exists v, reads_as (lp_new s) v /\ lp_text v = s.
Proof.
  intros Hs. unfold lp_new, lpEncodeGetType. rewrite lpStringToInt64_string2ll. destruct (string2ll s) as [v|] eqn:Ev.
  - destruct (string2ll_sound s v Ev) as [Hr Hd]. unfold LLONG_MIN, LLONG_MAX in Hr. intros _.
    assert (forall e n, zlen e = n -> reads_as e (LInt v) -> zlen e = n /\ exists w, reads_as e w /\ lp_text w = s) as Hgo by (intros e n Hn He; split; [done|]; exists (LInt v); by rewrite Hd).
    repeat match goal with |- context [if (?a && ?b)%bool then _ else _] => let E := fresh "E" in destruct (a && b) eqn:E; bool_to_prop end; cbn [fst snd].
    + apply Hgo; [done|]. by apply reads_7bit.
    + apply Hgo; [done|]. rewrite (neg_mod 13) by lia. by apply reads_13bit.
    + apply Hgo; [done|]. rewrite (neg_mod 16) by lia. set (w := v mod 2 ^ 16). replace [LP_ENCODING_16BIT_INT; Z.land w 0xff; u8 (Z.shiftr w 8)] with (LP_ENCODING_16BIT_INT :: le_split 2 w) by (rewrite le_split_snoc; cbn [le_split app]; by rewrite land_low8).
      apply (reads_int _ 2); [set_solver|cbn; lia].
    + apply Hgo; [done|]. rewrite (neg_mod 24) by lia. set (w := v mod 2 ^ 24).
      replace [LP_ENCODING_24BIT_INT; Z.land w 0xff; Z.land (Z.shiftr w 8) 0xff; u8 (Z.shiftr w 16)] with (LP_ENCODING_24BIT_INT :: le_split 3 w) by (rewrite le_split_snoc; cbn [le_split app]; by rewrite !land_low8, shiftr_8).
      apply (reads_int _ 3); [set_solver|cbn; lia].
    + apply Hgo; [rewrite split_bytes_le; done|]. rewrite (neg_mod 32) by lia. rewrite split_bytes_le, <- (le_split_snoc 3). apply (reads_int _ 4); [set_solver|cbn; lia].
    + apply Hgo; [rewrite split_bytes_le; done|]. rewrite split_bytes_le, <- (le_split_snoc 7). apply (reads_int _ 8); [set_solver|cbn; lia].
  - cbn [fst snd]. intros Hl. pose proof (zlen_nonneg s). split.
    + rewrite zlen_app. unfold str_head. repeat case_if; rewrite ?u32_small by lia; try lia; done.
    + exists (LStr s). split; [|done]. apply reads_str; [done|lia].
Qed.

(** ** Reading inside a block *)

(** Follow a computation [E] that succeeds on the block [b]: the reads of the goal,
    on a block that contains [b], give the same. *)
Ltac follow b a c E :=
  repeat match type of E with
  | (if ?x then _ else _) = _ => destruct x
  | context [byte_at b ?q] => let H := fresh "Hx" in destruct (byte_at b q) eqn:H; cbn [mbind option_bind] in E; [rewrite (byte_at_local a b c _ _ H); cbn [mbind option_bind]; clear H|discriminate E]
  | context [or_bytes b ?q ?n ?s] => let H := fresh "Hx" in destruct (or_bytes b q n s) eqn:H; cbn [mbind option_bind] in E; [rewrite (or_bytes_local a b c _ _ _ _ H); cbn [mbind option_bind]; clear H|discriminate E]
  | context [buf_read b ?q ?n] => let H := fresh "Hx" in destruct (buf_read b q n) eqn:H; cbn [mbind option_bind] in E; [rewrite (buf_read_local a b c _ _ _ H); cbn [mbind option_bind]; clear H|discriminate E]
  end; try exact E.

Lemma encoded_size_local a b c i n : lpCurrentEncodedSizeUnsafe b i = Some n -> lpCurrentEncodedSizeUnsafe (a ++ b ++ c) (zlen a + i) = Some n.
Proof.
  unfold lpCurrentEncodedSizeUnsafe, LP_ENCODING_6BIT_STR_LEN, LP_ENCODING_12BIT_STR_LEN, LP_ENCODING_32BIT_STR_LEN. rewrite <- !Z.add_assoc. intros E. follow b a c E.
Qed.

Lemma lpGet_local a b c i t v : lpGet b i t = Some v -> lpGet (a ++ b ++ c) (zlen a + i) t = Some v.
Proof.
  unfold lpGet, LP_ENCODING_6BIT_STR_LEN, LP_ENCODING_12BIT_STR_LEN, LP_ENCODING_32BIT_STR_LEN. cbv beta zeta. rewrite <- !Z.add_assoc. intros E. follow b a c E.
Qed.

(** Every element can be read. *)
Lemma or_bytes_total l p n sh : 0 <= p -> p + Z.of_nat n <= zlen l -> exists x, or_bytes l p n sh = Some x.
Proof.
  revert p sh. induction n as [|n IH]; intros p sh Hp Hl; cbn [or_bytes]; [by eexists|]. destruct (byte_at_Some l p) as [b ->]; [lia|]. cbn [mbind option_bind].
  destruct (IH (p + 1) (sh + 8)) as [x ->]; [lia|lia|]. by eexists.
Qed.

Lemma or_bytes_inv l p n x : Forall is_byte l -> (0 < n)%nat -> or_bytes l p n 0 = Some x -> 0 <= p /\ p + Z.of_nat n <= zlen l /\ 0 <= x < 256 ^ Z.of_nat n.
Proof.
  intros Hb Hn E. assert (0 <= p /\ p + Z.of_nat n <= zlen l) as [Hp Hl].
  { clear Hb. revert p x E Hn. generalize 0 at 1 as sh. induction n as [|n IH]; [lia|]. intros sh p x E _. cbn [or_bytes] in E. destruct (byte_at l p) as [b|] eqn:Eb; [|done]. apply byte_at_inside in Eb.
    destruct n as [|n]; [lia|]. cbn [mbind option_bind] in E. destruct (or_bytes l (p + 1) (S n) (sh + 8)) as [y|] eqn:Ey; [|done]. apply IH in Ey; lia. }
  split; [done|]. split; [done|]. set (bs := take n (drop (Z.to_nat p) l)). assert (length bs = n) as Hbn by (unfold bs, zlen in *; rewrite length_take, length_drop; lia).
  assert (Forall is_byte bs) as Hbb by (by apply Forall_take, Forall_drop).
  rewrite <- (take_drop (Z.to_nat p) l), <- (take_drop n (drop (Z.to_nat p) l)) in E. fold bs in E.
  rewrite or_bytes_at in E; [|done|unfold zlen in *; rewrite length_take; lia|done]. injection E as <-. pose proof (le_join_range bs Hbb) as Hr. unfold zlen in Hr. by rewrite Hbn in Hr.
Qed.

Lemma buf_read_inside l p n : 0 <= p -> 0 <= n -> p + n <= zlen l -> exists s, buf_read l p n = Some s.
Proof. intros Hp Hn Hl. unfold buf_read. rewrite_if_true. by eexists. Qed.

Lemma lpGet_text e p : lpGet e p true = option_map (fun v => LStr (lp_text v)) (lpGet e p false).
Proof.
  unfold lpGet, LP_ENCODING_6BIT_STR_LEN, LP_ENCODING_12BIT_STR_LEN, LP_ENCODING_32BIT_STR_LEN. cbv beta zeta. destruct (byte_at e p); [|done]. cbn [mbind option_bind].
  repeat match goal with
  | |- (if ?x then _ else _) = _ => destruct x
  | |- context [byte_at e ?q] => destruct (byte_at e q); [|done]; cbn [mbind option_bind]
  | |- context [or_bytes e ?q ?n ?s] => destruct (or_bytes e q n s); [|done]; cbn [mbind option_bind]
  | |- context [buf_read e ?q ?n] => destruct (buf_read e q n); [|done]; cbn [mbind option_bind]
  end; done.
Qed.

Definition tag_test (b : Z) : bool :=
  Bool.eqb (LP_ENCODING_IS_7BIT_UINT b) (b <? 128) && Bool.eqb (LP_ENCODING_IS_6BIT_STR b) ((128 <=? b) && (b <? 192)) &&
  Bool.eqb (LP_ENCODING_IS_13BIT_INT b) ((192 <=? b) && (b <? 224)) && Bool.eqb (LP_ENCODING_IS_12BIT_STR b) ((224 <=? b) && (b <? 240)) &&
  Bool.eqb (LP_ENCODING_IS_16BIT_INT b) (b =? 241) && Bool.eqb (LP_ENCODING_IS_24BIT_INT b) (b =? 242) && Bool.eqb (LP_ENCODING_IS_32BIT_INT b) (b =? 243) &&
  Bool.eqb (LP_ENCODING_IS_64BIT_INT b) (b =? 244) && Bool.eqb (LP_ENCODING_IS_32BIT_STR b) (b =? 240) &&
  (negb (b <? 128) || (Z.land b 0x7f =? b)) && (negb ((192 <=? b) && (b <? 224)) || (Z.land b 0x1f =? b - 192)).

Lemma tag_tests b : is_byte b -> tag_test b = true.
Proof. apply forall_byte. vm_compute. done. Qed.

(** The conversion at the end of [lpGet] is the one of two's complement. *)
Lemma lp_signed_swrap k x : 1 <= k <= 64 -> 0 <= x < 2 ^ k -> lp_signed x (2 ^ (k - 1)) (2 ^ k - 1) = swrap k x.
Proof.
  intros Hk Hx. rewrite <- (lp_signed_spec k (swrap k x)) by (done || (apply swrap_range; lia)). f_equal. change (x = wrap k (swrap k x)). rewrite wrap_swrap, wrap_small by lia. done.
Qed.

(** The tags of integers of [n] bytes. *)
Lemma get_int h r n : Forall is_byte r -> length r = n -> (1 <= n <= 8)%nat ->
  or_bytes (h :: r) (0 + 1) n 0 = Some (le_join r) /\ lp_signed (le_join r) (2 ^ (8 * Z.of_nat n - 1)) (2 ^ (8 * Z.of_nat n) - 1) = swrap (8 * zlen r) (le_join r).
Proof.
  intros Hr Hn Hl. replace (h :: r) with ([h] ++ r ++ []) by (by rewrite app_nil_r). split; [by apply or_bytes_at|]. pose proof (le_join_range r Hr) as Hj. unfold zlen in *. rewrite Hn in *.
  apply lp_signed_swrap; [lia|]. by rewrite Z.pow_mul_r by lia.
Qed.

(** A string of the rest after [k] bytes. *)
Lemma get_str e k n : 0 <= k -> 0 <= n -> k + n = zlen e -> (s ← buf_read e (0 + k) n; Some (LStr s)) = Some (LStr (drop (Z.to_nat k) e)).
Proof.
  intros Hk Hn He. rewrite <- (take_drop (Z.to_nat k) e) at 1. rewrite <- (app_nil_r (drop _ _)) at 1. rewrite buf_read_app; [done| |]; unfold zlen in *; rewrite ?length_take, ?length_drop; lia.
Qed.

Lemma lp_ent_get_false e : lp_ent_ok e -> lpGet e 0 false = Some (lp_val e).
Proof.
  intros (Hb & Hs & He & Hz). destruct e as [|h r]; [done|]. pose proof Hb as Hb'. apply Forall_cons_1 in Hb as [Hh Hr]. pose proof (tag_tests h Hh) as Ht. unfold tag_test in Ht. repeat rewrite andb_true_iff in Ht. rewrite !eqb_true_iff in Ht.
  destruct Ht as [[[[[[[[[[T1 T2] T3] T4] T5] T6] T7] T8] T9] L1] L2]. revert Hs. rewrite zlen_cons in Hz. unfold lpCurrentEncodedSizeUnsafe, lpGet. cbv beta zeta. rewrite byte_at_cons in *. cbn [mbind option_bind]. rewrite T1, T2, T3, T4, T5, T6, T7, T8, T9. clear T1 T2 T3 T4 T5 T6 T7 T8 T9.
  unfold lp_val. destruct (Z.ltb_spec h 128) as [H1|H1].
  { intros _. cbn [negb orb] in L1. apply Z.eqb_eq in L1. rewrite L1. cbn [mbind option_bind]. unfold lp_signed, ULLONG_MAX. unfold is_byte in Hh. rewrite_if_false. by rewrite i64_small by lia. }
  rewrite (proj2 (Z.leb_le 128 h)) by lia. cbn [andb]. destruct (Z.ltb_spec h 192) as [H2|H2].
  { unfold LP_ENCODING_6BIT_STR_LEN. rewrite byte_at_cons. cbn [mbind option_bind]. intros Hs. apply (inj Some) in Hs. apply (get_str (h :: r) 1); [lia|apply Z.land_nonneg; right; done|by rewrite Hs]. }
  rewrite (proj2 (Z.leb_le 192 h)) in * by lia. cbn [andb] in *. destruct (Z.ltb_spec h 224) as [H3|H3].
  { intros Hs. apply (inj Some) in Hs. rewrite zlen_cons in Hs. destruct r as [|x [|? ?]]; [change (zlen (@nil byte)) with 0 in Hs; lia| |rewrite !zlen_cons in Hs; pose proof (zlen_nonneg l); lia]. apply Forall_cons_1 in Hr as [Hx _].
    change (byte_at [h; x] (0 + 1)) with (Some x). cbn [mbind option_bind negb orb] in *. apply Z.eqb_eq in L2. rewrite L2, Z.lor_comm, lor_shifted by done. change (Z.shiftl 1 12) with (2 ^ (13 - 1)). change 8191 with (2 ^ 13 - 1). unfold is_byte in Hx.
    rewrite lp_signed_swrap by lia. cbn [le_join]. do 3 f_equal. lia. }
  rewrite (proj2 (Z.leb_le 224 h)) by lia. cbn [andb].
  destruct (Z.ltb_spec h 240) as [H4|H4]; [rewrite (proj2 (Z.eqb_neq h 241)), (proj2 (Z.eqb_neq h 242)), (proj2 (Z.eqb_neq h 243)), (proj2 (Z.eqb_neq h 244)) by lia|].
  { unfold LP_ENCODING_12BIT_STR_LEN. rewrite byte_at_cons. destruct (byte_at (h :: r) (0 + 1)) as [x|] eqn:Ex; [|done]. cbn [mbind option_bind]. intros Hs. apply (inj Some) in Hs. pose proof (byte_at_byte _ _ _ Hb' Ex) as Hx.
    rewrite get_str; [destruct r; [done|]; done|lia| |by rewrite Hs]. apply Z.lor_nonneg. split; [apply Z.shiftl_nonneg, Z.land_nonneg; right; done|apply Hx]. }
  assert (forall n, Some n = Some (zlen (h :: r)) -> length r = Z.to_nat (n - 1)) as Hlen by (intros n [= ->]; rewrite zlen_cons; unfold zlen; lia).
  destruct (Z.eqb_spec h 241) as [->|N1]; [intros Hs; destruct (get_int 241 r 2) as [-> E]; [done|by rewrite (Hlen _ Hs)|lia|exact (f_equal (fun v => Some (LInt v)) E)]|].
  destruct (Z.eqb_spec h 242) as [->|N2]; [intros Hs; destruct (get_int 242 r 3) as [-> E]; [done|by rewrite (Hlen _ Hs)|lia|exact (f_equal (fun v => Some (LInt v)) E)]|].
  destruct (Z.eqb_spec h 243) as [->|N3]; [intros Hs; destruct (get_int 243 r 4) as [-> E]; [done|by rewrite (Hlen _ Hs)|lia|exact (f_equal (fun v => Some (LInt v)) E)]|].
  destruct (Z.eqb_spec h 244) as [->|N4]; [intros Hs; destruct (get_int 244 r 8) as [-> E]; [done|by rewrite (Hlen _ Hs)|lia|exact (f_equal (fun v => Some (LInt v)) E)]|].
  destruct (Z.eqb_spec h 240) as [->|N5].
  - unfold LP_ENCODING_32BIT_STR_LEN. destruct (or_bytes (240 :: r) (0 + 1) 4 0) as [n|] eqn:En; [|done]. cbn [mbind option_bind]. intros Hs. apply (inj Some) in Hs. apply or_bytes_inv in En as (_ & Hl & Hn); [|done|lia]. change (256 ^ Z.of_nat 4) with (2 ^ 32) in Hn.
    rewrite get_str; [done|lia|lia|]. unfold wrap in Hs. rewrite zlen_cons in *. dlia.
  - unfold LP_EOF in *. destruct (Z.eqb_spec h 0xFF) as [->|]; [done|]. intros Hs. apply (inj Some) in Hs. rewrite zlen_cons in Hs. lia.
Qed.

Lemma reads_as_ok e v : reads_as e v -> zlen e < 2 ^ 32 -> lp_ent_ok e /\ lp_val e = v.
Proof.
  intros [H1 H2 H3 H4] Hz. assert (lp_ent_ok e) as He. { split_and!; [done..| |done]. destruct e; [done|]. rewrite zlen_cons. pose proof (zlen_nonneg e). lia. }
  split; [done|]. apply lp_ent_get_false in He. congruence.
Qed.

Lemma lp_ent_get e t : lp_ent_ok e -> lpGet e 0 t = Some (if t then LStr (lp_text (lp_val e)) else lp_val e).
Proof. intros He. destruct t; rewrite ?lpGet_text; by rewrite lp_ent_get_false. Qed.
