(* ===== verification/ListpackOps.v ===== *)
(** * Listpacks: blocks, walking and changes *)

From stdpp Require Import base list option.
From Stdlib Require Import ZArith Lia Bool.
From S2P Require Import Prelude Util UtilFacts Listpack ListpackFacts.

Local Open Scope Z_scope.

(** ** Blocks *)

(** An element with its length, and the elements of a list. *)
Definition lp_bytes (e : list byte) : list byte := e ++ lpEncodeBacklen (zlen e).
Definition lp_flat (es : list (list byte)) : list byte := concat (map lp_bytes es).

(** Where the element after [A] is. *)
Definition lp_pos (A : list (list byte)) : Z := 6 + zlen (lp_flat A).

Definition lp_header (total cnt : Z) : list byte := le_split 4 total ++ le_split 2 cnt.

Definition lp_count_ok (cnt n : Z) : Prop := cnt = LP_HDR_NUMELE_UNKNOWN \/ 0 <= cnt < LP_HDR_NUMELE_UNKNOWN /\ cnt = n.

(** A block for the elements [es]; what the allocation has after the end byte is
    of no importance. *)
Definition lp_rep (lp : list byte) (es : list (list byte)) : Prop :=
  exists cnt junk, lp = lp_header (lp_pos es + 1) cnt ++ lp_flat es ++ [LP_EOF] ++ junk /\
    lp_count_ok cnt (zlen es) /\ Forall lp_ent_ok es /\ lp_pos es + 1 <= UINT32_MAX.

Lemma lp_header_zlen total cnt : zlen (lp_header total cnt) = 6.
Proof. unfold lp_header. rewrite zlen_app. unfold zlen. by rewrite !le_split_length. Qed.
#[local] Hint Rewrite lp_header_zlen : zlen.

Lemma lp_flat_app A B : lp_flat (A ++ B) = lp_flat A ++ lp_flat B.
Proof. unfold lp_flat. by rewrite map_app, concat_app. Qed.

Lemma lp_flat_cons e B : lp_flat (e :: B) = lp_bytes e ++ lp_flat B.
Proof. done. Qed.

Lemma lp_pos_app A B : lp_pos (A ++ B) = lp_pos A + zlen (lp_flat B).
Proof. unfold lp_pos. rewrite lp_flat_app. zlen. Qed.

Lemma lp_pos_snoc A e : lp_pos (A ++ [e]) = lp_pos A + zlen (lp_bytes e).
Proof. rewrite lp_pos_app. unfold lp_flat. cbn [map concat]. by rewrite app_nil_r. Qed.

Lemma lp_bytes_zlen e : 0 < zlen e -> zlen (lp_bytes e) = zlen e + lpEncodeBacklen_NULL (zlen e) /\ 2 <= zlen (lp_bytes e).
Proof. intros He. unfold lp_bytes, lpEncodeBacklen_NULL. pose proof (backlen_zlen (zlen e)). zlen. Qed.

Lemma header_total total cnt c : 0 <= total < 2 ^ 32 -> lpGetTotalBytes (lp_header total cnt ++ c) = Some total.
Proof.
  intros Ht. unfold lpGetTotalBytes, lp_header. rewrite <- app_assoc. transitivity (Some (le_join (le_split 4 total))); [by apply (or_bytes_at []); [apply le_split_bytes|done|rewrite le_split_length]|].
  rewrite le_join_split. f_equal. by apply Z.mod_small.
Qed.

Lemma header_count total cnt c : 0 <= cnt < 2 ^ 16 -> lpGetNumElements (lp_header total cnt ++ c) = Some cnt.
Proof.
  intros Ht. unfold lpGetNumElements, lp_header. rewrite <- app_assoc. rewrite (or_bytes_at (le_split 4 total)) by (apply le_split_bytes || (by rewrite le_split_length) || (unfold zlen; by rewrite le_split_length)).
  rewrite le_join_split. f_equal. by apply Z.mod_small.
Qed.

Lemma set_total total total' cnt c : lpSetTotalBytes (lp_header total cnt ++ c) total' = Some (lp_header total' cnt ++ c).
Proof.
  unfold lpSetTotalBytes, lp_header. rewrite split_bytes_le, <- !app_assoc. apply (buf_write_app []); [done|by rewrite !le_split_length].
Qed.

Lemma set_count total cnt cnt' c : lpSetNumElements (lp_header total cnt ++ c) cnt' = Some (lp_header total cnt' ++ c).
Proof.
  unfold lpSetNumElements, lp_header. rewrite split_bytes_le, <- !app_assoc. rewrite (buf_write_app (le_split 4 total)); [done|unfold zlen; by rewrite le_split_length|by rewrite !le_split_length].
Qed.

Lemma lp_count_range cnt n : lp_count_ok cnt n -> 0 <= cnt < 2 ^ 16.
Proof. unfold lp_count_ok, LP_HDR_NUMELE_UNKNOWN. lia. Qed.

(** ** One element of a list *)

Lemma lp_rep_total lp es : lp_rep lp es -> lpGetTotalBytes lp = Some (lp_pos es + 1) /\ 7 <= lp_pos es + 1 < 2 ^ 32 /\ lp_pos es + 1 <= zlen lp.
Proof.
  intros (cnt & junk & -> & _ & _ & Hs). pose proof (zlen_nonneg (lp_flat es)). unfold UINT32_MAX, lp_pos in *. rewrite header_total by lia. split_and!; [done|lia|lia|zlen].
Qed.

Lemma lp_rep_split lp A B : lp_rep lp (A ++ B) -> exists h c, lp = h ++ lp_flat B ++ [LP_EOF] ++ c /\ zlen h = lp_pos A /\ Forall lp_ent_ok A /\ Forall lp_ent_ok B /\
  exists h', h = h' ++ lp_flat A /\ zlen h' = 6.
Proof.
  intros (cnt & junk & -> & _ & Hf & _). apply Forall_app in Hf as [HA HB]. set (H := lp_header _ cnt). exists (H ++ lp_flat A), junk. rewrite lp_flat_app, <- !app_assoc.
  split_and!; [done|unfold H, lp_pos; zlen|done|done|]. exists H. unfold H. by rewrite lp_header_zlen.
Qed.

Lemma lp_rep_eof lp es : lp_rep lp es -> byte_at lp (lp_pos es) = Some LP_EOF.
Proof.
  intros Hr. rewrite <- (app_nil_r es) in Hr. destruct (lp_rep_split lp es [] Hr) as (h & c & -> & <- & _). cbn [lp_flat map concat app]. apply byte_at_app.
Qed.

Lemma lp_rep_elem lp A e B : lp_rep lp (A ++ e :: B) -> lp_ent_ok e /\ exists h c, lp = h ++ e ++ lpEncodeBacklen (zlen e) ++ c /\ zlen h = lp_pos A.
Proof.
  intros Hr. destruct (lp_rep_split lp A (e :: B) Hr) as (h & c & -> & Hh & _ & HB & _). apply Forall_cons_1 in HB as [He _]. split; [done|].
  exists h, (lp_flat B ++ [LP_EOF] ++ c). split; [|done]. rewrite lp_flat_cons. unfold lp_bytes. by rewrite <- !app_assoc.
Qed.

Lemma lp_rep_head lp A e B : lp_rep lp (A ++ e :: B) -> exists b, byte_at lp (lp_pos A) = Some b /\ (b =? LP_EOF) = false.
Proof.
  intros Hr. destruct (lp_rep_elem lp A e B Hr) as ((_ & _ & Hne & Hz) & h & c & -> & <-). destruct (byte_at_Some e 0) as [b Hb]; [lia|]. exists b.
  pose proof (byte_at_local h e (lpEncodeBacklen (zlen e) ++ c) 0 b Hb) as Hl. rewrite Z.add_0_r in Hl. split; [done|]. apply Z.eqb_neq. intros ->. by rewrite Hb in Hne.
Qed.

Lemma lp_rep_size lp A e B : lp_rep lp (A ++ e :: B) -> lpCurrentEncodedSizeUnsafe lp (lp_pos A) = Some (zlen e).
Proof.
  intros Hr. destruct (lp_rep_elem lp A e B Hr) as ((_ & Hs & _) & h & c & -> & <-). rewrite <- (Z.add_0_r (zlen h)). by apply encoded_size_local.
Qed.

Lemma lp_rep_get lp A e B t : lp_rep lp (A ++ e :: B) -> lpGet lp (lp_pos A) t = Some (if t then LStr (lp_text (lp_val e)) else lp_val e).
Proof.
  intros Hr. destruct (lp_rep_elem lp A e B Hr) as (He & h & c & -> & <-). rewrite <- (Z.add_0_r (zlen h)). apply lpGet_local. by apply lp_ent_get.
Qed.

Lemma lp_rep_skip lp A e B : lp_rep lp (A ++ e :: B) -> lpSkip lp (lp_pos A) = Some (lp_pos (A ++ [e])).
Proof.
  intros Hr. unfold lpSkip. rewrite (lp_rep_size lp A e B Hr). cbn [mbind option_bind]. destruct (lp_rep_elem lp A e B Hr) as ((_ & _ & _ & Hz) & _).
  rewrite lp_pos_snoc. destruct (lp_bytes_zlen e) as [-> _]; [lia|]. done.
Qed.

Lemma lp_rep_snoc lp A e B : lp_rep lp (A ++ e :: B) -> lp_rep lp ((A ++ [e]) ++ B).
Proof. by rewrite <- app_assoc. Qed.

Lemma lp_rep_inside lp A B : lp_rep lp (A ++ B) -> ASSERT_INTEGRITY lp (lp_pos A) = Some tt.
Proof.
  intros Hr. destruct (lp_rep_total lp _ Hr) as (Ht & _ & _). unfold ASSERT_INTEGRITY. rewrite Ht. cbn [mbind option_bind]. rewrite lp_pos_app. unfold lp_pos, LP_HDR_SIZE.
  pose proof (zlen_nonneg (lp_flat A)). pose proof (zlen_nonneg (lp_flat B)). by rewrite_if_true.
Qed.

Lemma lp_rep_fuel lp es : lp_rep lp es -> (length es <= length lp)%nat.
Proof.
  intros (cnt & junk & -> & _ & Hf & _). assert (length es <= length (lp_flat es))%nat; [|rewrite !length_app; lia]. induction Hf as [|e es He Hf IH]; [done|].
  rewrite lp_flat_cons, length_app. cbn [length]. destruct He as (_ & _ & _ & Hz). destruct (lp_bytes_zlen e) as [_ Hl]; [lia|]. unfold zlen in Hl. lia.
Qed.

(** ** Walking *)

(** The element at the front of a list that starts at a place. *)
Definition lp_at (A B : list (list byte)) : option Z := match B with [] => None | _ => Some (lp_pos A) end.

Lemma lp_rep_at lp A B : lp_rep lp (A ++ B) -> (b ← byte_at lp (lp_pos A); Some (if b =? LP_EOF then None else Some (lp_pos A))) = Some (lp_at A B).
Proof.
  intros Hr. destruct B as [|e B].
  - rewrite app_nil_r in Hr. by rewrite lp_rep_eof.
  - destruct (lp_rep_head lp A e B Hr) as (b & -> & Hb). cbn [mbind option_bind lp_at]. by rewrite Hb.
Qed.

Lemma lpFirst_spec lp es : lp_rep lp es -> lpFirst lp = Some (lp_at [] es).
Proof. intros Hr. exact (lp_rep_at lp [] es Hr). Qed.

Lemma lpNext_spec lp A e B : lp_rep lp (A ++ e :: B) -> lpNext lp (lp_pos A) = Some (lp_at (A ++ [e]) B).
Proof.
  intros Hr. unfold lpNext. rewrite (lp_rep_skip lp A e B Hr). cbn [mbind option_bind]. apply lp_rep_snoc in Hr. rewrite (lp_rep_inside lp _ B Hr). cbn [mbind option_bind]. by apply lp_rep_at.
Qed.

(** From the place after [A] back to its last element. *)
Definition lp_before (A : list (list byte)) : option Z := match A with [] => None | _ => Some (lp_pos (removelast A)) end.

Lemma lpPrev_spec lp A B : lp_rep lp (A ++ B) -> lpPrev lp (lp_pos A) = Some (lp_before A).
Proof.
  intros Hr. unfold lpPrev. destruct A as [|e A _] using rev_ind; [done|]. assert (lp_before (A ++ [e]) = Some (lp_pos A)) as ->.
  { unfold lp_before. rewrite removelast_last. by destruct A. }
  rewrite <- app_assoc in Hr. cbn [app] in Hr. destruct (lp_rep_elem lp A e B Hr) as ((_ & _ & _ & Hz) & h & c & E & Hh). destruct (lp_bytes_zlen e ltac:(lia)) as [Hb H2]. pose proof (backlen_zlen (zlen e)) as Hbl.
  pose proof (zlen_nonneg (lp_flat A)). rewrite lp_pos_snoc. unfold LP_HDR_SIZE. rewrite (proj2 (Z.eqb_neq _ 6)) by (unfold lp_pos; lia).
  assert (lpDecodeBacklen lp (lp_pos A + zlen (lp_bytes e) - 1) = Some (zlen e)) as ->.
  { rewrite E, (app_assoc h e). apply decode_backlen; [lia|]. rewrite zlen_app, Hh, Hb. unfold lpEncodeBacklen_NULL. lia. }
  cbn [mbind option_bind]. unfold lpEncodeBacklen_NULL in *. rewrite u64_small by lia. replace (_ - _ - _) with (lp_pos A) by lia. rewrite (lp_rep_inside lp A _ Hr). done.
Qed.

Lemma lpLast_spec lp es : lp_rep lp es -> lpLast lp = Some (lp_before es).
Proof.
  intros Hr. unfold lpLast. destruct (lp_rep_total lp es Hr) as (-> & _). cbn [mbind option_bind]. rewrite <- (app_nil_r es) in Hr.
  replace (lp_pos es + 1 - 1) with (lp_pos es) by lia. by apply (lpPrev_spec lp es []).
Qed.

Lemma lp_rep_short lp es : lp_rep lp es -> 2 * zlen es + 7 < 2 ^ 32.
Proof.
  intros (cnt & junk & _ & _ & Hf & Hs). assert (2 * zlen es <= zlen (lp_flat es)); [|unfold lp_pos, UINT32_MAX in Hs; lia]. clear Hs. induction Hf as [|e es He Hf IH]; [done|].
  rewrite lp_flat_cons, zlen_app, zlen_cons. destruct He as (_ & _ & _ & Hz). destruct (lp_bytes_zlen e) as [_ Hl]; lia.
Qed.

Lemma length_loop_spec lp B : forall A fuel n, lp_rep lp (A ++ B) -> (length B <= fuel)%nat -> 0 <= n -> n + zlen B < 2 ^ 32 ->
  length_loop fuel lp (lp_at A B) n = Some (n + zlen B).
Proof.
  induction B as [|e B IH]; intros A fuel n Hr Hf Hn Hb; cbn [lp_at].
  - destruct fuel; cbn [length_loop]; f_equal; change (zlen (@nil (list byte))) with 0; lia.
  - cbn [length] in Hf. destruct fuel as [|fuel]; [lia|]. cbn [length_loop]. rewrite zlen_cons in *. pose proof (zlen_nonneg B). rewrite (lpNext_spec lp A e B Hr). cbn [mbind option_bind].
    rewrite u32_small by lia. rewrite IH; [f_equal; lia|by apply lp_rep_snoc|lia|lia|lia].
Qed.

Lemma lpLength_spec lp es : lp_rep lp es -> exists lp', lpLength lp = Some (zlen es, lp') /\ lp_rep lp' es.
Proof.
  intros Hr. pose proof (lp_rep_short lp es Hr) as Hs. pose proof (zlen_nonneg es). pose proof Hr as Hr'. destruct Hr as (cnt & junk & E & Hc & Hf & Ht). unfold lpLength.
  assert (lpGetNumElements lp = Some cnt) as -> by (rewrite E; apply header_count; by apply (lp_count_range cnt (zlen es))). cbn [mbind option_bind]. destruct (Z.eqb_spec cnt LP_HDR_NUMELE_UNKNOWN) as [->|Hn]; cbn [negb].
  - rewrite (lpFirst_spec lp es Hr'). cbn [mbind option_bind]. rewrite (length_loop_spec lp es []); [|done|by apply lp_rep_fuel|lia|lia]. cbn [mbind option_bind Z.add]. case_if; [|by exists lp].
    rewrite E, set_count. cbn [mbind option_bind]. eexists. split; [done|]. exists (zlen es), junk. split_and!; [done| |done|done]. right. lia.
  - exists lp. split; [|done]. destruct Hc as [|[_ ->]]; [done|]. done.
Qed.

(** ** Seeking *)

Lemma seek_forward_spec lp B : forall A fuel i, lp_rep lp (A ++ B) -> (length B <= fuel)%nat -> 0 <= i ->
  seek_forward fuel lp (lp_at A B) i = Some (lp_at (A ++ take (Z.to_nat i) B) (drop (Z.to_nat i) B)).
Proof.
  induction B as [|e B IH]; intros A fuel i Hr Hf Hi; cbn [lp_at].
  - rewrite drop_nil. by destruct fuel.
  - cbn [length] in Hf. destruct fuel as [|fuel]; [lia|]. cbn [seek_forward]. destruct (Z.ltb_spec 0 i).
    + rewrite (lpNext_spec lp A e B Hr). cbn [mbind option_bind]. rewrite IH; [|by apply lp_rep_snoc|lia|lia]. replace (Z.to_nat i) with (S (Z.to_nat (i - 1))) by lia. cbn [take drop]. by rewrite <- app_assoc.
    + replace (Z.to_nat i) with 0%nat by lia. cbn [take drop]. by rewrite app_nil_r.
Qed.

Lemma seek_backward_spec lp A : forall B fuel i, lp_rep lp (A ++ B) -> (length A <= fuel)%nat -> i <= -1 ->
  seek_backward fuel lp (lp_before A) i = Some (lp_before (take (length A - Z.to_nat (- i - 1)) A)).
Proof.
  induction A as [|e A IH] using rev_ind; intros B fuel i Hr Hf Hi; [by destruct fuel|]. rewrite length_app in *. cbn [length] in *. destruct fuel as [|fuel]; [lia|].
  assert (lp_before (A ++ [e]) = Some (lp_pos A)) as -> by (unfold lp_before; rewrite removelast_last; by destruct A). cbn [seek_backward]. rewrite <- app_assoc in Hr. cbn [app] in Hr. destruct (Z.ltb_spec i (-1)).
  - rewrite (lpPrev_spec lp A (e :: B) Hr). cbn [mbind option_bind]. rewrite (IH (e :: B)); [|done|lia|lia]. replace (length A + 1 - Z.to_nat (- i - 1))%nat with (length A - Z.to_nat (- (i + 1) - 1))%nat by lia. by rewrite take_app_le by lia.
  - replace (Z.to_nat (- i - 1)) with 0%nat by lia. rewrite take_ge by (rewrite length_app; cbn; lia). unfold lp_before. rewrite removelast_last. by destruct A.
Qed.

Lemma lp_before_take (es : list (list byte)) k : (k < length es)%nat -> lp_before (take (S k) es) = Some (lp_pos (take k es)).
Proof.
  intros Hk. destruct (lookup_lt_is_Some_2 es k Hk) as [x Hx]. rewrite (take_S_r _ _ _ Hx). unfold lp_before. rewrite removelast_last. by destruct (take k es).
Qed.

Lemma lp_at_take (es : list (list byte)) k : (k < length es)%nat -> lp_at (take k es) (drop k es) = Some (lp_pos (take k es)).
Proof. intros Hk. destruct (drop k es) eqn:E; [|done]. apply (f_equal length) in E. rewrite length_drop in E. cbn in E. lia. Qed.

(** The place of an index, from either end. *)
Definition lp_index (n i : Z) : Z := if i <? 0 then n + i else i.

Lemma seek_cases lp es i : lp_rep lp es -> let k := lp_index (zlen es) i in
  (0 <= i -> (ele ← lpFirst lp; seek_forward (length lp) lp ele i) = Some (if (0 <=? k) && (k <? zlen es) then Some (lp_pos (take (Z.to_nat k) es)) else None)) /\
  (i < 0 -> (ele ← lpLast lp; seek_backward (length lp) lp ele i) = Some (if (0 <=? k) && (k <? zlen es) then Some (lp_pos (take (Z.to_nat k) es)) else None)).
Proof.
  intros Hr k. pose proof (lp_rep_fuel lp es Hr) as Hf. unfold k, lp_index, zlen. split; intros Hi.
  - rewrite (proj2 (Z.ltb_ge i 0)) by lia. rewrite (lpFirst_spec lp es Hr). cbn [mbind option_bind]. rewrite (seek_forward_spec lp es []) by done. cbn [app]. case_if.
    + by rewrite lp_at_take by lia.
    + rewrite drop_ge; [done|]. apply andb_false_iff in E. lia.
  - rewrite (proj2 (Z.ltb_lt i 0)) by lia. rewrite (lpLast_spec lp es Hr). cbn [mbind option_bind]. rewrite (seek_backward_spec lp es []) by (rewrite ?app_nil_r; done || lia). case_if.
    + replace (length es - Z.to_nat (- i - 1))%nat with (S (Z.to_nat (Z.of_nat (length es) + i))) by lia. by rewrite lp_before_take by lia.
    + apply andb_false_iff in E. by replace (length es - Z.to_nat (- i - 1))%nat with 0%nat by lia.
Qed.

Lemma lpSeek_spec lp es i : lp_rep lp es -> let k := lp_index (zlen es) i in
  lpSeek lp i = Some (if (0 <=? k) && (k <? zlen es) then Some (lp_pos (take (Z.to_nat k) es)) else None).
Proof.
  intros Hr k. unfold lpSeek. pose proof Hr as (cnt & junk & E & Hc & _). pose proof (zlen_nonneg es).
  assert (lpGetNumElements lp = Some cnt) as -> by (rewrite E; apply header_count; by apply (lp_count_range cnt (zlen es))). cbn [mbind option_bind].
  destruct (Z.eqb_spec cnt LP_HDR_NUMELE_UNKNOWN) as [->|Hn]; cbn [negb].
  - destruct (seek_cases lp es i Hr) as [H1 H2]. case_if; [by apply H2; lia|by apply H1; lia].
  - destruct Hc as [|[_ ->]]; [done|]. fold (lp_index (zlen es) i). fold k. destruct (Z.ltb_spec k 0).
    { rewrite (proj2 (Z.leb_gt 0 k)) by lia. done. }
    destruct (Z.leb_spec (zlen es) k). { rewrite (proj2 (Z.ltb_ge k _)), andb_false_r by lia. done. }
    destruct (Z.ltb_spec (zlen es / 2) k).
    + destruct (seek_cases lp es (k - zlen es) Hr) as [_ Hk]. rewrite Hk by lia. unfold lp_index at 1 2 3. rewrite (proj2 (Z.ltb_lt (k - zlen es) 0)) by lia. by replace (zlen es + (k - zlen es)) with k by lia.
    + destruct (seek_cases lp es k Hr) as [Hk _]. rewrite Hk by lia. unfold lp_index at 1 2 3. by rewrite (proj2 (Z.ltb_ge k 0)) by lia.
Qed.

(** ** Changes *)

(** Move a tail so that it starts [n] bytes after [H]. *)
Lemma move_tail H r T J n : 0 <= n <= zlen r + zlen J -> exists g J', zlen g = n /\
  buf_move (H ++ r ++ T ++ J) (zlen H + n) (zlen H + zlen r) (zlen T) = Some (H ++ g ++ T ++ J').
Proof.
  intros Hn. unfold buf_move. rewrite (app_assoc H r), buf_read_app by zlen. cbn [mbind option_bind]. set (X := r ++ T ++ J). rewrite <- (app_assoc H r). fold X.
  assert (zlen X = zlen r + zlen T + zlen J) as HX by (unfold X; zlen). pose proof (zlen_nonneg T).
  exists (take (Z.to_nat n) X), (drop (Z.to_nat n + length T) X). split; [unfold zlen in *; rewrite length_take; lia|].
  rewrite <- (take_drop (Z.to_nat n) X) at 1. rewrite <- (take_drop (length T) (drop (Z.to_nat n) X)), drop_drop, (app_assoc H).
  rewrite buf_write_app; [by rewrite <- app_assoc|unfold zlen in *; rewrite length_app, length_take; lia|unfold zlen in *; rewrite length_take, length_drop; lia].
Qed.

Section Changes.
Context (fill : nat -> byte) (usable : Z -> Z -> Z).
Hypothesis usable_enough : forall old n, n <= usable old n.

Lemma lp_realloc_keep X J n : zlen X <= n -> exists J', lp_realloc fill usable (X ++ J) n = X ++ J' /\ n <= zlen (X ++ J').
Proof.
  intros Hn. unfold lp_realloc. pose proof (usable_enough (zlen (X ++ J)) n) as Hu. set (u := usable _ _) in *. pose proof (zlen_nonneg X).
  pose proof (realloc_length fill (X ++ J) u ltac:(lia)) as Hl. unfold realloc in *. rewrite take_app, take_ge, <- app_assoc in * by (unfold zlen in *; lia). eexists. split; [done|]. lia.
Qed.

(** Make room for [n] bytes in place of [r]. *)
Lemma splice H r T J n : 0 <= n -> let lp := H ++ r ++ T ++ J in let old := zlen (H ++ r ++ T) in let new := zlen H + n + zlen T in
  exists g J' lp2, zlen g = n /\
    buf_move (if (old <? new) && (zlen lp <? new) then lp_realloc fill usable lp new else lp) (zlen H + n) (zlen H + zlen r) (zlen T) = Some lp2 /\
    (if new <? old then lp_realloc fill usable lp2 new else lp2) = H ++ g ++ T ++ J'.
Proof.
  intros Hn lp old new. pose proof (zlen_nonneg J). pose proof (zlen_nonneg r). assert (exists J1, (if (old <? new) && (zlen lp <? new) then lp_realloc fill usable lp new else lp) = H ++ r ++ T ++ J1 /\ n <= zlen r + zlen J1) as (J1 & -> & HJ).
  { assert (lp = (H ++ r ++ T) ++ J) as Hlp by (unfold lp; by rewrite <- !app_assoc). case_if.
    - destruct (lp_realloc_keep (H ++ r ++ T) J new) as (J1 & E1 & HJ); [unfold old in *; lia|]. exists J1. rewrite Hlp, E1. split; [by rewrite <- !app_assoc|]. unfold new in HJ. autorewrite with zlen in HJ. lia.
    - exists J. split; [done|]. apply andb_false_iff in E. unfold old, new, lp in E. autorewrite with zlen in E. lia. }
  destruct (move_tail H r T J1 n) as (g & J' & Hg & Hm); [lia|]. case_if.
  - destruct (lp_realloc_keep (H ++ g ++ T) J' new) as (J2 & E2 & _); [unfold new; zlen|]. exists g, J2, (H ++ g ++ T ++ J'). split_and!; [done|done|]. rewrite <- !app_assoc in E2. by rewrite E2.
  - by exists g, J', (H ++ g ++ T ++ J').
Qed.

Lemma encode_string a g c s p : zlen g = zlen (str_head (zlen s) ++ s) -> p = zlen a ->
  lpEncodeString (a ++ g ++ c) p s = Some (a ++ (str_head (zlen s) ++ s) ++ c).
Proof.
  intros Hg ->. unfold lpEncodeString. fold (str_head (zlen s)). set (hd := str_head (zlen s)) in *. rewrite <- (take_drop (length hd) g).
  assert (length (take (length hd) g) = length hd /\ length (drop (length hd) g) = length s) as [H1 H2] by (rewrite length_take, length_drop; unfold zlen in Hg; rewrite length_app in Hg; lia).
  rewrite <- (app_assoc (take _ _)), buf_write_app by done. cbn [mbind option_bind]. rewrite (app_assoc a hd), buf_write_app by (zlen || done). by rewrite <- !app_assoc.
Qed.

(** Writing an element and its length. *)
Lemma write_elem a g c s p : Forall is_byte s -> zlen s < 2 ^ 32 - 5 -> zlen g = zlen (lp_bytes (lp_new s)) -> p = zlen a ->
  (lp ← (match fst (lpEncodeGetType s) with Some bs => buf_write (a ++ g ++ c) p bs | None => lpEncodeString (a ++ g ++ c) p s end);
   buf_write lp (p + snd (lpEncodeGetType s)) (lpEncodeBacklen (snd (lpEncodeGetType s)))) = Some (a ++ lp_bytes (lp_new s) ++ c).
Proof.
  intros Hs Hl Hg ->. destruct (lp_new_spec s Hs Hl) as [Hz _]. rewrite <- Hz. unfold lp_bytes in *. set (e := lp_new s) in *. set (bk := lpEncodeBacklen (zlen e)) in *.
  rewrite <- (take_drop (length e) g). assert (length (take (length e) g) = length e /\ length (drop (length e) g) = length bk) as [H1 H2].
  { unfold zlen in Hg. rewrite length_app in Hg. rewrite length_take, length_drop. lia. }
  assert ((match fst (lpEncodeGetType s) with Some bs => buf_write (a ++ take (length e) g ++ drop (length e) g ++ c) (zlen a) bs
           | None => lpEncodeString (a ++ take (length e) g ++ drop (length e) g ++ c) (zlen a) s end) = Some (a ++ e ++ drop (length e) g ++ c)) as Hw.
  { unfold e, lp_new in H1 |- *. destruct (lpEncodeGetType s) as [[bs|] n]; cbv beta iota in *; cbn [fst]; [by apply buf_write_app|]. apply encode_string; [unfold zlen in *; lia|done]. }
  rewrite <- (app_assoc (take _ _)), Hw. cbn [mbind option_bind]. rewrite (app_assoc a e), buf_write_app by (zlen || done). by rewrite <- !app_assoc.
Qed.

(** The size of a new element with its length. *)
Definition lp_need (ele : option (list byte)) : Z :=
  match ele with Some s => snd (lpEncodeGetType s) + lpEncodeBacklen_NULL (snd (lpEncodeGetType s)) | None => 0 end.

Definition lp_put (ele : option (list byte)) : list (list byte) := match ele with Some s => [lp_new s] | None => [] end.

Lemma enclen_range s : zlen s < 2 ^ 32 - 5 -> 0 <= snd (lpEncodeGetType s) <= Z.max 9 (5 + zlen s).
Proof.
  intros Hs. pose proof (zlen_nonneg s). unfold lpEncodeGetType. destruct (lpStringToInt64 s); repeat match goal with |- context [if (?a && ?b)%bool then _ else _] => destruct (a && b)%bool end; cbn [snd]; repeat case_if; rewrite ?u32_small by lia; lia.
Qed.

Definition can_store (ele : option (list byte)) : Prop := forall s, ele = Some s -> Forall is_byte s /\ zlen s < 2 ^ 32 - 5.

Lemma lp_put_zlen ele : can_store ele -> zlen (lp_flat (lp_put ele)) = lp_need ele /\ Forall lp_ent_ok (lp_put ele).
Proof.
  intros Hs. destruct ele as [s|]; [|done]. destruct (Hs s eq_refl) as [Hb Hl]. cbn [lp_need lp_put]. unfold lpEncodeBacklen_NULL. pose proof (enclen_range s Hl).
  destruct (lp_new_spec s Hb Hl) as (Hz & v & Hv & _). split.
  - unfold lp_flat, lp_bytes. cbn [map concat]. rewrite app_nil_r, zlen_app, Hz. done.
  - apply Forall_singleton. apply (reads_as_ok _ v Hv). lia.
Qed.

Lemma lp_need_range ele : can_store ele -> 0 <= lp_need ele < 2 ^ 33.
Proof.
  intros Hs. destruct ele as [s|]; [|done]. destruct (Hs s eq_refl) as [_ Hl]. cbn [lp_need]. unfold lpEncodeBacklen_NULL. pose proof (backlen_zlen (snd (lpEncodeGetType s))). pose proof (enclen_range s Hl). lia.
Qed.

(** What is found after a place. *)
Lemma flat_at h A B J : zlen h = lp_pos A -> Forall lp_ent_ok B ->
  (b ← byte_at (h ++ lp_flat B ++ [LP_EOF] ++ J) (lp_pos A); Some (if b =? LP_EOF then None else Some (lp_pos A))) = Some (lp_at A B).
Proof.
  intros Hh HB. rewrite <- Hh at 1. destruct B as [|e B].
  - cbn [lp_flat map concat app]. rewrite byte_at_app. done.
  - apply Forall_cons_1 in HB as [(_ & _ & Hne & Hz) _]. destruct (byte_at_Some e 0) as [b Hb]; [lia|]. rewrite lp_flat_cons. unfold lp_bytes. rewrite <- !app_assoc, <- (Z.add_0_r (zlen h)) at 1.
    rewrite (byte_at_local h e _ 0 b Hb). cbn [mbind option_bind lp_at]. by destruct (Z.eqb_spec b LP_EOF) as [->|].
Qed.

(** The element a place stands for is replaced, or nothing is. *)
Definition replaces (replace : bool) (R : list (list byte)) (ele : option (list byte)) : Prop :=
  if replace then exists e, R = [e] else R = [] /\ ele <> None.

Lemma replaced_len lp A R B ele (replace : bool) : lp_rep lp (A ++ R ++ B) -> replaces replace R ele ->
  (if replace then
     n ← lpCurrentEncodedSizeUnsafe lp (lp_pos A);
     _ ← ASSERT_INTEGRITY_LEN lp (lp_pos A) (u32 (n + lpEncodeBacklen_NULL n));
     Some (u32 (n + lpEncodeBacklen_NULL n))
   else Some 0) = Some (zlen (lp_flat R)).
Proof.
  intros Hr HR. destruct replace; [|by destruct HR as [-> _]]. destruct HR as [e ->]. cbn [app] in Hr. rewrite (lp_rep_size lp A e B Hr). cbn [mbind option_bind].
  destruct (lp_rep_elem lp A e B Hr) as ((_ & _ & _ & Hz) & _). destruct (lp_bytes_zlen e ltac:(lia)) as [Hb _]. rewrite <- Hb. destruct (lp_rep_total lp _ Hr) as (Ht & Hs & _).
  assert (lp_pos (A ++ e :: B) = lp_pos A + zlen (lp_bytes e) + zlen (lp_flat B)) as Hp by (rewrite lp_pos_app, lp_flat_cons; zlen). pose proof (zlen_nonneg (lp_flat B)). pose proof (zlen_nonneg (lp_flat A)). pose proof (zlen_nonneg (lp_bytes e)).
  assert (6 <= lp_pos A) by (unfold lp_pos; lia). rewrite u32_small by lia. unfold ASSERT_INTEGRITY_LEN, LP_HDR_SIZE. rewrite Ht. cbn [mbind option_bind]. rewrite_if_true. cbn [mbind option_bind]. unfold lp_flat. cbn [map concat]. by rewrite app_nil_r.
Qed.

(** The new count. *)
Lemma new_count total cnt c (replace : bool) ele A R B : lp_count_ok cnt (zlen (A ++ R ++ B)) -> replaces replace R ele ->
  exists cnt', (if negb replace || match ele with None => true | Some _ => false end then
     num_elements ← lpGetNumElements (lp_header total cnt ++ c);
     if negb (num_elements =? LP_HDR_NUMELE_UNKNOWN) then
       lpSetNumElements (lp_header total cnt ++ c) (match ele with Some _ => num_elements + 1 | None => u32 (num_elements - 1) end)
     else Some (lp_header total cnt ++ c)
   else Some (lp_header total cnt ++ c)) = Some (lp_header total cnt' ++ c) /\ lp_count_ok cnt' (zlen (A ++ lp_put ele ++ B)).
Proof.
  intros Hc HR. assert (zlen (A ++ lp_put ele ++ B) = zlen (A ++ R ++ B) + zlen (lp_put ele) - zlen R) as Hz by zlen. rewrite header_count by (by apply (lp_count_range cnt (zlen (A ++ R ++ B)))). cbn [mbind option_bind].
  assert (zlen (lp_put ele) = match ele with Some _ => 1 | None => 0 end) as Hp by by destruct ele. assert (zlen R = if replace then 1 else 0) as HRz by (destruct replace; [by destruct HR as [e ->]|by destruct HR as [-> _]]).
  assert (zlen R <= zlen (A ++ R ++ B)) by zlen. rewrite Hz, Hp, HRz in *. clear Hz Hp. unfold lp_count_ok, LP_HDR_NUMELE_UNKNOWN in *.
  destruct (Z.eqb_spec cnt 65535) as [->|Hn]; cbn [negb].
  - exists 65535. split; [|by left]. by destruct (negb replace || _).
  - destruct Hc as [|[Hc ->]]; [done|]. rewrite set_count. destruct replace, ele; cbn [negb orb].
    + eexists. split; [done|]. right. lia.
    + eexists. split; [done|]. rewrite u32_small by lia. right. lia.
    + eexists. split; [done|]. lia.
    + destruct HR as [_ HR]. done.
Qed.

Lemma lpInsert_at lp A R B ele w (replace : bool) p0 : lp_rep lp (A ++ R ++ B) -> replaces replace R ele -> can_store ele ->
  (match (match ele with None => LP_REPLACE | Some _ => w end) with
   | LP_AFTER => p ← lpSkip lp p0; _ ← ASSERT_INTEGRITY lp p; Some (p, false)
   | LP_BEFORE => Some (p0, false)
   | LP_REPLACE => Some (p0, true)
   end) = Some (lp_pos A, replace) ->
  if UINT32_MAX <? lp_pos (A ++ R ++ B) + 1 + lp_need ele - zlen (lp_flat R) then lpInsert fill usable lp ele p0 w = Some None
  else exists lp', lpInsert fill usable lp ele p0 w = Some (Some (lp', match ele with None => lp_at A B | Some _ => Some (lp_pos A) end)) /\ lp_rep lp' (A ++ lp_put ele ++ B).
Proof.
  intros Hr HR Hs Hw. unfold lpInsert. cbv zeta. rewrite Hw. clear Hw. cbn [mbind option_bind]. destruct (lp_rep_total lp _ Hr) as (Ht & Htr & _).
  set (ty := match ele with Some s => lpEncodeGetType s | None => (None, 0) end). destruct ty as [intenc enclen] eqn:Ety. set (bk := match ele with Some _ => lpEncodeBacklen enclen | None => [] end).
  rewrite Ht. cbn [mbind option_bind]. rewrite (replaced_len lp A R B ele replace Hr HR). cbn [mbind option_bind]. destruct (lp_need_range ele Hs) as [Hn0 Hn33].
  assert (lp_pos (A ++ R ++ B) = lp_pos A + zlen (lp_flat R) + zlen (lp_flat B)) as Hpos by (rewrite lp_pos_app, lp_flat_app; zlen). pose proof (zlen_nonneg (lp_flat B)). pose proof (zlen_nonneg (lp_flat R)).
  assert (enclen + zlen bk = lp_need ele) as Hneed by (unfold bk; destruct ele as [s|]; unfold ty in Ety; [cbn [lp_need]; by rewrite Ety|by injection Ety as <- <-]).
  assert (6 <= lp_pos A) as HA6 by (unfold lp_pos; pose proof (zlen_nonneg (lp_flat A)); lia).
  set (new := lp_pos (A ++ R ++ B) + 1 + lp_need ele - zlen (lp_flat R)).
  assert (u64 (lp_pos (A ++ R ++ B) + 1 + enclen + zlen bk - zlen (lp_flat R)) = new) as -> by (unfold new; rewrite u64_small; lia).
  destruct (Z.ltb_spec UINT32_MAX new) as [|Hmax]; [done|]. unfold UINT32_MAX in Hmax.
  destruct Hr as (cnt & junk & E & Hc & Hf & Hmax'). set (total := lp_pos (A ++ R ++ B) + 1) in *. set (T := lp_flat B ++ [LP_EOF]).
  set (Hd := lp_header total cnt ++ lp_flat A). assert (zlen Hd = lp_pos A) as HH by (unfold Hd, lp_pos; zlen).
  assert (lp = Hd ++ lp_flat R ++ T ++ junk) as Elp by (rewrite E; unfold Hd, T; rewrite !lp_flat_app, <- !app_assoc; done).
  assert (zlen T = zlen (lp_flat B) + 1) as HT by (unfold T; zlen).
  destruct (splice Hd (lp_flat R) T junk (lp_need ele) Hn0) as (g & J & lp2 & Hg & Hm & Hsh).
  replace (zlen (Hd ++ lp_flat R ++ T)) with total in * by (autorewrite with zlen; unfold total; lia). replace (zlen Hd + lp_need ele + zlen T) with new in * by (unfold new, total; lia). rewrite <- Elp, HH, HT in Hm.
  match goal with |- context [if negb replace then ?x else ?y] => assert ((if negb replace then x else y) = Some lp2) as -> end.
  { rewrite <- Hm. destruct replace; cbn [negb]; [f_equal; unfold total; lia|]. destruct HR as [-> _]. f_equal; unfold total in *; change (zlen (lp_flat [])) with 0 in *; lia. }
  cbn [mbind option_bind]. rewrite Hsh. clear Hm Hsh lp2.
  destruct (lp_put_zlen ele Hs) as [Hput Hok].
  match goal with |- context [mbind _ (match ele with None => ?x | Some _ => ?y end)] => assert (match ele with None => x | Some _ => y end = Some (match ele with None => lp_at A B | Some _ => Some (lp_pos A) end)) as -> end.
  { destruct ele as [s|]; [done|]. destruct g; [|rewrite zlen_cons in Hg; cbn [lp_need] in Hg; pose proof (zlen_nonneg g); lia]. unfold T. cbn [app]. rewrite <- app_assoc. apply flat_at; [done|].
    apply Forall_app in Hf as [_ Hf]. by apply Forall_app in Hf as [_ Hf]. }
  cbn [mbind option_bind].
  match goal with |- context [mbind _ (match ele with Some _ => _ | None => Some ?x end)] => set (body := x) end.
  match goal with |- context [mbind _ (match ele with Some s => @?y s | None => Some body end)] => assert (match ele with Some s => y s | None => Some body end = Some (Hd ++ lp_flat (lp_put ele) ++ T ++ J)) as -> end.
  { unfold body, bk, ty in *. destruct ele as [s|].
    - pose proof (write_elem Hd g (T ++ J) s (lp_pos A) (proj1 (Hs s eq_refl))) as Hwr. rewrite Ety in Hwr. cbn [fst snd] in Hwr. rewrite Hwr; [|by apply Hs| |done].
      + unfold lp_flat. cbn [lp_put map concat]. by rewrite app_nil_r.
      + rewrite Hg, <- Hput. unfold lp_flat. cbn [lp_put map concat]. by rewrite app_nil_r.
    - by destruct g; [|rewrite zlen_cons in Hg; cbn [lp_need] in Hg; pose proof (zlen_nonneg g); lia]. }
  clear body. cbn [mbind option_bind]. unfold Hd. rewrite <- (app_assoc (lp_header total cnt)). destruct (new_count total cnt (lp_flat A ++ lp_flat (lp_put ele) ++ T ++ J) replace ele A R B Hc HR) as (cnt' & -> & Hc').
  cbn [mbind option_bind]. rewrite set_total. cbn [mbind option_bind]. eexists. split; [done|]. exists cnt', J.
  assert (lp_pos (A ++ lp_put ele ++ B) + 1 = new) as Hnew by (rewrite lp_pos_app, lp_flat_app, zlen_app, Hput; unfold new; lia). rewrite Hnew. split_and!; [|done| |done].
  - rewrite !lp_flat_app. unfold T. by rewrite <- !app_assoc.
  - apply Forall_app in Hf as [HfA Hf]. apply Forall_app in Hf as [_ HfB]. apply Forall_app. split; [done|]. by apply Forall_app.
Qed.
(** For a string within five bytes of 2^32 [5 + size] wraps around to a few bytes,
    and the string is written past the end of the block. *)
Lemma long_type s : 2 ^ 32 - 5 <= zlen s -> lpEncodeGetType s = (None, u32 (5 + zlen s)).
Proof.
  intros Hl. unfold lpEncodeGetType. rewrite lpStringToInt64_string2ll. destruct (string2ll s) as [v|] eqn:Ev.
  - destruct (string2ll_sound s v Ev) as [Hr Hd]. pose proof (decimal_short v Hr) as Hs. rewrite <- Hd in Hs. lia.
  - rewrite_if_false. by rewrite_if_false.
Qed.

Lemma encode_long lp p s : 2 ^ 32 - 5 <= zlen s -> zlen lp <= UINT32_MAX -> lpEncodeString lp p s = None.
Proof.
  unfold UINT32_MAX. intros Hl Hz. unfold lpEncodeString. rewrite_if_false. rewrite_if_false. set (hd := LP_ENCODING_32BIT_STR :: split_bytes 4 (zlen s)). assert (zlen hd = 5) as Hh by done.
  destruct (buf_write lp p hd) as [lp1|] eqn:E1; [|done]. cbn [mbind option_bind]. pose proof (buf_write_length _ _ _ _ E1) as Hl1. unfold buf_write in E1 |- *. case_if_in E1; [|done]. rewrite (proj2 (Z.leb_gt (p + zlen hd + zlen s) (zlen lp1))); [by rewrite andb_false_r|]. assert (zlen lp1 = zlen lp) by (unfold zlen; by rewrite Hl1). lia.
Qed.

Lemma lp_realloc_small lp n : zlen lp <= UINT32_MAX -> 0 <= n <= UINT32_MAX -> (forall old m, m <= UINT32_MAX -> usable old m <= UINT32_MAX) -> forall b : bool,
  zlen (if b then lp_realloc fill usable lp n else lp) <= UINT32_MAX.
Proof.
  intros Hl Hn Hu []; [|done]. unfold lp_realloc. pose proof (usable_enough (zlen lp) n). rewrite realloc_length by lia. apply Hu. lia.
Qed.

Lemma lpInsert_long lp s p w : 2 ^ 32 - 5 <= zlen s -> zlen lp <= UINT32_MAX -> (forall old m, m <= UINT32_MAX -> usable old m <= UINT32_MAX) ->
  forall r, lpInsert fill usable lp (Some s) p w <> Some (Some r).
Proof.
  intros Hl Hz Hu r. unfold lpInsert. cbv zeta. rewrite (long_type s Hl). cbn match.
  match goal with |- mbind _ ?x <> _ => destruct x as [[p1 replace]|]; [|done] end. cbn [mbind option_bind]. destruct (lpGetTotalBytes lp) as [old|]; [|done]. cbn [mbind option_bind].
  match goal with |- mbind _ ?x <> _ => destruct x as [rl|]; [|done] end. cbn [mbind option_bind]. match goal with |- context [UINT32_MAX <? ?x] => set (new := x) end.
  destruct (Z.ltb_spec UINT32_MAX new) as [|Hnew]; [done|]. assert (0 <= new <= UINT32_MAX) as Hn by (split; [apply (wrap_range 64); lia|done]).
  set (b := (old <? new) && (zlen lp <? new)). pose proof (lp_realloc_small lp new Hz Hn Hu b) as Hz1. set (lp1 := if b then _ else _) in *.
  match goal with |- mbind _ ?x <> _ => assert (forall lp2, x = Some lp2 -> zlen lp2 = zlen lp1) as Hmv; [|destruct x as [lp2|]; [|done]] end.
  { intros lp2. unfold buf_move. destruct replace; cbn [negb]; (match goal with |- mbind _ ?x = _ -> _ => destruct x; [|done] end); cbn [mbind option_bind]; intros E; apply buf_write_length in E; unfold zlen; by rewrite E. }
  specialize (Hmv lp2 eq_refl). cbn [mbind option_bind]. rewrite <- Hmv in Hz1. pose proof (lp_realloc_small lp2 new Hz1 Hn Hu (new <? old)) as Hz2. by rewrite (encode_long _ _ _ Hl Hz2).
Qed.

Lemma lpAppend_long lp es s : lp_rep lp es -> 2 ^ 32 - 5 <= zlen s -> zlen lp <= UINT32_MAX -> (forall old m, m <= UINT32_MAX -> usable old m <= UINT32_MAX) ->
  lpAppend fill usable lp s = if UINT32_MAX <? lp_pos es + 1 + lp_need (Some s) then Some None else None.
Proof.
  intros Hr Hl Hz Hu. unfold lpAppend. destruct (lp_rep_total lp es Hr) as (Ht & Hts & _). rewrite Ht. cbn [mbind option_bind]. pose proof (lpInsert_long lp s (lp_pos es + 1 - 1) LP_BEFORE Hl Hz Hu) as Hno. revert Hno.
  unfold lpInsert. cbv zeta. rewrite Ht. cbn [lp_need]. rewrite (long_type s Hl). cbn [mbind option_bind fst snd]. unfold lpEncodeBacklen_NULL. set (n := u32 (5 + zlen s)). assert (0 <= n < 2 ^ 32) as Hn by (apply (wrap_range 32); lia). pose proof (backlen_zlen n). 
  rewrite u64_small by lia. rewrite Z.sub_0_r, <- Z.add_assoc. destruct (UINT32_MAX <? _); [done|]. intros Hno. match goal with |- ?x = None => destruct x as [[r|]|] eqn:E; [by destruct (Hno r)| |done] end. exfalso. revert E. clear.
  repeat (match goal with |- mbind _ ?x = _ -> _ => destruct x; [|done] end; cbn [mbind option_bind]). done.
Qed.
End Changes.
