(* ===== verification/ListpackProps.v ===== *)
(** * What listpacks promise *)

From stdpp Require Import base list option.
From Stdlib Require Import ZArith Lia Bool.
From S2P Require Import Prelude Util UtilFacts Listpack ListpackFacts ListpackOps.

Local Open Scope Z_scope.

Definition lp_texts (es : list (list byte)) : list (list byte) := map (fun e => lp_text (lp_val e)) es.

(** A block stands for a list of strings. *)
Definition lp_represents (lp : list byte) (l : list (list byte)) : Prop := exists es, lp_rep lp es /\ lp_texts es = l.

(** How a change ends: with NULL, if the listpack would be larger than 32 bits can
    say, or with a block of [size] bytes for [l] and a pointer to the element of
    the index [next]. *)
Definition lp_outcome (r : option (option (list byte * option Z))) (size : Z) (l : list (list byte)) (next : Z) : Prop :=
  if UINT32_MAX <? size then r = Some None
  else exists lp' q, r = Some (Some (lp', q)) /\ lp_represents lp' l /\ lpBytes lp' = Some size /\ lpSeek lp' next = Some q.

Lemma lp_texts_app A B : lp_texts (A ++ B) = lp_texts A ++ lp_texts B.
Proof. apply map_app. Qed.

Lemma lp_texts_take es k : take k (lp_texts es) = lp_texts (take k es).
Proof. apply firstn_map. Qed.

Lemma lp_texts_drop es k : drop k (lp_texts es) = lp_texts (drop k es).
Proof. apply skipn_map. Qed.

Lemma lp_texts_zlen es : zlen (lp_texts es) = zlen es.
Proof. unfold zlen, lp_texts. by rewrite length_map. Qed.

Lemma lp_texts_put ele : can_store ele -> lp_texts (lp_put ele) = match ele with Some s => [s] | None => [] end.
Proof.
  intros Hs. destruct ele as [s|]; [|done]. destruct (Hs s eq_refl) as [Hb Hl]. pose proof (enclen_range s Hl).
  destruct (lp_new_spec s Hb Hl) as (Hz & v & Hv & Ht). destruct (reads_as_ok _ v Hv) as [_ E]; [lia|]. unfold lp_texts. cbn [lp_put map]. by rewrite E, Ht.
Qed.

Lemma seek_at lp A B : lp_rep lp (A ++ B) -> lpSeek lp (zlen A) = Some (lp_at A B).
Proof.
  intros Hr. rewrite (lpSeek_spec lp _ _ Hr). unfold lp_index. pose proof (zlen_nonneg A). rewrite (proj2 (Z.ltb_ge (zlen A) 0)) by lia. rewrite zlen_app, (proj2 (Z.leb_le 0 _)) by lia. cbn [andb].
  rewrite zlen_to_nat, take_app_length. destruct B; [change (zlen (@nil (list byte))) with 0; by rewrite Z.add_0_r, Z.ltb_irrefl|].
  rewrite zlen_cons. pose proof (zlen_nonneg B). by rewrite (proj2 (Z.ltb_lt _ _)) by lia.
Qed.

Lemma seek_inv lp es i p : lp_rep lp es -> lpSeek lp i = Some (Some p) -> exists A e B, es = A ++ e :: B /\ p = lp_pos A /\ zlen A = lp_index (zlen es) i.
Proof.
  intros Hr Hp. rewrite (lpSeek_spec lp es i Hr) in Hp. case_if_in Hp; [|done]. injection Hp as <-. set (k := lp_index (zlen es) i) in *. assert (Z.to_nat k < length es)%nat as Hk by (unfold zlen in *; lia).
  destruct (lookup_lt_is_Some_2 es _ Hk) as [e He]. exists (take (Z.to_nat k) es), e, (drop (S (Z.to_nat k)) es). split_and!; [by rewrite take_drop_middle|done|unfold zlen; rewrite length_take; lia].
Qed.

Section Props.
Context (fill : nat -> byte) (usable : Z -> Z -> Z).
Hypothesis usable_enough : forall old n, n <= usable old n.

(** An insertion in terms of strings. *)
Lemma insert_outcome lp A R B ele w (replace : bool) p0 : lp_rep lp (A ++ R ++ B) -> replaces replace R ele -> can_store ele ->
  (match (match ele with None => LP_REPLACE | Some _ => w end) with
   | LP_AFTER => p ← lpSkip lp p0; _ ← ASSERT_INTEGRITY lp p; Some (p, false)
   | LP_BEFORE => Some (p0, false)
   | LP_REPLACE => Some (p0, true)
   end) = Some (lp_pos A, replace) ->
  lp_outcome (lpInsert fill usable lp ele p0 w) (lp_pos (A ++ R ++ B) + 1 + lp_need ele - zlen (lp_flat R))
    (lp_texts A ++ match ele with Some s => [s] | None => [] end ++ lp_texts B) (zlen A).
Proof.
  intros Hr HR Hs Hw. pose proof (lpInsert_at fill usable usable_enough lp A R B ele w replace p0 Hr HR Hs Hw) as Hi. unfold lp_outcome. set (size := lp_pos (A ++ R ++ B) + 1 + lp_need ele - zlen (lp_flat R)) in *.
  destruct (Z.ltb_spec UINT32_MAX size) as [|Hsz]; [done|]. destruct Hi as (lp' & Hi & Hr'). eexists lp', _. split; [exact Hi|].
  assert (lp_pos (A ++ R ++ B) = lp_pos A + zlen (lp_flat R) + zlen (lp_flat B)) as Hpos by (rewrite lp_pos_app, lp_flat_app; zlen). pose proof (zlen_nonneg (lp_flat B)). pose proof (zlen_nonneg (lp_flat A)).
  destruct (lp_put_zlen ele Hs) as [Hput _]. split_and!.
  - exists (A ++ lp_put ele ++ B). split; [done|]. by rewrite !lp_texts_app, lp_texts_put.
  - unfold lpBytes. destruct (lp_rep_total lp' _ Hr') as (-> & _). f_equal. rewrite lp_pos_app, lp_flat_app, zlen_app, Hput. unfold size. lia.
  - rewrite (seek_at lp' A _ Hr'). by destruct ele.
Qed.

Lemma lpNew_rep capacity : exists lp, lpNew fill usable capacity = Some lp /\ lp_rep lp [].
Proof.
  unfold lpNew, lp_realloc, LP_HDR_SIZE. set (n := if 6 + 1 <? capacity then capacity else 6 + 1). assert (7 <= n) by (unfold n; case_if; lia). pose proof (usable_enough (zlen (@nil byte)) n) as Hu. set (u := usable _ n) in *.
  set (m := realloc fill [] u). assert (zlen m = u) as Hm by (apply realloc_length; lia).
  rewrite <- (take_drop 4 m), <- (take_drop 2 (drop 4 m)), drop_drop, <- (take_drop 1 (drop (4 + 2) m)), drop_drop. set (J := drop (4 + 2 + 1) m).
  assert (length (take 4 m) = 4%nat /\ length (take 2 (drop 4 m)) = 2%nat /\ length (take 1 (drop (4 + 2) m)) = 1%nat) as (H4 & H2 & H1) by (unfold zlen in Hm; rewrite !length_take, !length_drop; lia).
  unfold lpSetTotalBytes, lpSetNumElements. rewrite !split_bytes_le. 
  assert (buf_write (take 4 m ++ take 2 (drop 4 m) ++ take 1 (drop (4 + 2) m) ++ J) 0 (le_split 4 (6 + 1)) = Some (le_split 4 (6 + 1) ++ take 2 (drop 4 m) ++ take 1 (drop (4 + 2) m) ++ J)) as -> by (apply (buf_write_app []); [done|by rewrite le_split_length]).
  cbn [mbind option_bind]. rewrite (buf_write_app (le_split 4 (6 + 1))) by (done || by rewrite le_split_length). cbn [mbind option_bind]. rewrite (app_assoc (le_split 4 (6 + 1))), buf_write_app by done.
  eexists. split; [done|]. exists 0, J. split_and!; [done|by right|constructor|done].
Qed.

Lemma shrink_rep lp es : lp_rep lp es -> exists lp', lpShrinkToFit fill usable lp = Some lp' /\ lp_rep lp' es.
Proof.
  intros Hr. unfold lpShrinkToFit. destruct (lp_rep_total lp es Hr) as (-> & _). cbn [mbind option_bind]. case_if; [|by exists lp]. destruct Hr as (cnt & junk & -> & Hc & Hf & Ht).
  destruct (lp_realloc_keep fill usable usable_enough (lp_header (lp_pos es + 1) cnt ++ lp_flat es ++ [LP_EOF]) junk (lp_pos es + 1)) as (J & HJ & _); [rewrite !zlen_app, lp_header_zlen; unfold lp_pos; change (zlen [LP_EOF]) with 1; lia|].
  rewrite <- !app_assoc in HJ. rewrite HJ. eexists. split; [done|]. by exists cnt, J.
Qed.

(** C3. Listpacks refine lists of strings: from the empty list of [lpNew], with
    any capacity, appending, inserting before and after, replacing and deleting
    the element an index gives represent the list after the operation, or return
    NULL exactly when the new size does not fit 32 bits; the pointer returned is
    that of the new element, and of the next one after a deletion. Shrinking the
    allocation changes nothing. Every operation has a result: no assertion fails
    and no access is outside the block.

    This is for strings of less than 2^32 - 5 bytes. For a longer one [5 + size]
    wraps around, the check of the new size is made with the sum, and in a block
    of less than four gigabytes the string is written past the end (no result)
    unless the listpack was almost full: no longer string is ever stored. *)
Theorem listpack_refines lp l s n : lp_represents lp l -> lpBytes lp = Some n -> Forall is_byte s -> zlen s < 2 ^ 32 - 5 ->
  (forall capacity, exists lp0, lpNew fill usable capacity = Some lp0 /\ lp_represents lp0 []) /\
  (exists lp', lpShrinkToFit fill usable lp = Some lp' /\ lp_represents lp' l) /\
  lp_outcome (lpAppend fill usable lp s) (n + lp_need (Some s)) (l ++ [s]) (zlen l) /\
  (forall i p, lpSeek lp i = Some (Some p) -> let k := lp_index (zlen l) i in exists d, lpSkip lp p = Some (p + d) /\
    lp_outcome (lpInsert fill usable lp (Some s) p LP_BEFORE) (n + lp_need (Some s)) (take (Z.to_nat k) l ++ [s] ++ drop (Z.to_nat k) l) k /\
    lp_outcome (lpInsert fill usable lp (Some s) p LP_AFTER) (n + lp_need (Some s)) (take (Z.to_nat (k + 1)) l ++ [s] ++ drop (Z.to_nat (k + 1)) l) (k + 1) /\
    lp_outcome (lpInsert fill usable lp (Some s) p LP_REPLACE) (n + lp_need (Some s) - d) (<[Z.to_nat k := s]> l) k /\
    lp_outcome (lpDelete fill usable lp p) (n - d) (delete (Z.to_nat k) l) k) /\
  (forall s', 2 ^ 32 - 5 <= zlen s' < 2 ^ 32 -> zlen lp <= UINT32_MAX -> (forall old m, m <= UINT32_MAX -> usable old m <= UINT32_MAX) ->
    lpAppend fill usable lp s' = (if UINT32_MAX <? n + lp_need (Some s') then Some None else None) /\
    forall p w r, lpInsert fill usable lp (Some s') p w <> Some (Some r)).
Proof.
  intros (es & Hr & <-) Hn Hs Hz. destruct (lp_rep_total lp es Hr) as (Ht & Hts & _). unfold lpBytes in Hn. rewrite Ht in Hn. injection Hn as <-.
  assert (Hsome : can_store (Some s)) by (intros s' [= <-]; done). rewrite lp_texts_zlen. split_and!.
  - intros cap. destruct (lpNew_rep cap) as (lp0 & H0 & Hr0). exists lp0. split; [done|]. by exists [].
  - destruct (shrink_rep lp es Hr) as (lp' & H' & Hr'). exists lp'. split; [done|]. by exists es.
  - unfold lpAppend. rewrite Ht. cbn [mbind option_bind]. replace (lp_pos es + 1 - 1) with (lp_pos es) by lia. rewrite <- (app_nil_r es), <- (app_nil_r []) in Hr.
    pose proof (insert_outcome lp es [] [] (Some s) LP_BEFORE false (lp_pos es) Hr ltac:(done) Hsome eq_refl) as Ho. rewrite !app_nil_r in Ho. by rewrite Z.sub_0_r in Ho.
  - intros i p Hp k. destruct (seek_inv lp es i p Hr Hp) as (A & e & B & -> & -> & Hk). fold k in Hk. rewrite <- Hk. exists (zlen (lp_bytes e)). rewrite <- lp_pos_snoc. split; [by apply (lp_rep_skip lp A e B)|].
    assert (Z.to_nat (zlen A + 1) = S (length A)) as Hk1 by (unfold zlen; lia). assert (length (lp_texts A) = length A) as HlA by (unfold lp_texts; by rewrite length_map).
    assert (forall x, lp_texts (A ++ x) = lp_texts A ++ lp_texts x) as Happ by (intros; apply lp_texts_app). rewrite Happ, Hk1, zlen_to_nat, <- HlA. cbn [lp_texts map] in *. fold (lp_texts B). set (x := lp_text (lp_val e)) in *.
    assert (zlen (lp_flat [e]) = zlen (lp_bytes e)) as Hfl by (unfold lp_flat; cbn [map concat]; by rewrite app_nil_r). split_and!.
    + pose proof (insert_outcome lp A [] (e :: B) (Some s) LP_BEFORE false (lp_pos A) Hr ltac:(done) Hsome eq_refl) as Ho. rewrite Z.sub_0_r in Ho. by rewrite take_app_length, drop_app_length.
    + pose proof (lp_rep_snoc lp A e B Hr) as Hr2. pose proof (insert_outcome lp (A ++ [e]) [] B (Some s) LP_AFTER false (lp_pos A) Hr2 ltac:(done) Hsome) as Ho.
      rewrite (lp_rep_skip lp A e B Hr) in Ho. cbn [mbind option_bind] in Ho. rewrite (lp_rep_inside lp _ B Hr2) in Ho. specialize (Ho eq_refl). cbn [app] in Ho. rewrite <- app_assoc, Z.sub_0_r, zlen_app in Ho. rewrite Happ in Ho.
      replace (S (length (lp_texts A))) with (length (lp_texts A ++ [x])) by (rewrite length_app; cbn; lia). replace (lp_texts A ++ x :: lp_texts B) with ((lp_texts A ++ [x]) ++ lp_texts B) by (by rewrite <- app_assoc). by rewrite take_app_length, drop_app_length.
    + pose proof (insert_outcome lp A [e] B (Some s) LP_REPLACE true (lp_pos A) Hr ltac:(by exists e) Hsome eq_refl) as Ho. rewrite Hfl in Ho. by rewrite insert_app_r_alt, Nat.sub_diag by lia.
    + pose proof (insert_outcome lp A [e] B None LP_REPLACE true (lp_pos A) Hr ltac:(by exists e) ltac:(done) eq_refl) as Ho. rewrite Hfl in Ho. cbn [lp_need app] in Ho. rewrite Z.add_0_r in Ho. unfold lpDelete. by rewrite delete_middle.
  - intros s' Hl Hlp Hu. split; [apply (lpAppend_long fill usable usable_enough); [done|lia|done..]|]. intros p w. apply (lpInsert_long fill usable usable_enough); [lia|done..].
Qed.

(** C19. Reading a listpack that represents [l]: its size and length, the first and
    the last element, the element of an index from either end and none out of
    range, its value as an integer or as text, and the elements after and before
    it. *)
Theorem listpack_reads lp l : lp_represents lp l ->
  (exists n, lpBytes lp = Some n /\ 7 <= n <= zlen lp) /\
  (exists lp', lpLength lp = Some (zlen l, lp') /\ lp_represents lp' l) /\
  lpFirst lp = lpSeek lp 0 /\ lpLast lp = lpSeek lp (-1) /\
  forall i, let k := lp_index (zlen l) i in
    match (if 0 <=? k then l !! Z.to_nat k else None) with
    | None => lpSeek lp i = Some None
    | Some x => exists p v, lpSeek lp i = Some (Some p) /\ lpGet lp p true = Some (LStr x) /\ lpGet lp p false = Some v /\ lp_text v = x /\
        lpNext lp p = lpSeek lp (k + 1) /\ lpPrev lp p = (if 0 <? k then lpSeek lp (k - 1) else Some None)
    end.
Proof.
  intros (es & Hr & <-). rewrite lp_texts_zlen. destruct (lp_rep_total lp es Hr) as (Ht & Hts & Htz). split_and!.
  - exists (lp_pos es + 1). split; [done|lia].
  - destruct (lpLength_spec lp es Hr) as (lp' & -> & Hr'). exists lp'. split; [done|]. by exists es.
  - rewrite (lpFirst_spec lp es Hr). symmetry. apply (seek_at lp [] es Hr).
  - rewrite (lpLast_spec lp es Hr), (lpSeek_spec lp es _ Hr). unfold lp_index. cbn [Z.ltb Z.compare]. destruct es as [|e A _] using rev_ind; [done|]. rewrite zlen_app. change (zlen [e]) with 1. pose proof (zlen_nonneg A). rewrite_if_true.
    replace (Z.to_nat (zlen A + 1 + -1)) with (length A) by (unfold zlen; lia). rewrite take_app_length. unfold lp_before. rewrite removelast_last. by destruct A.
  - intros i k. rewrite (lpSeek_spec lp es i Hr). fold k. unfold lp_texts. destruct (Z.leb_spec 0 k) as [Hk|]; [|done]. rewrite list_lookup_fmap. cbn [andb]. destruct (Z.ltb_spec k (zlen es)) as [Hlt|Hge].
    + destruct (lookup_lt_is_Some_2 es (Z.to_nat k)) as [e He]; [unfold zlen in Hlt; lia|]. rewrite He. cbn [fmap option_fmap option_map]. set (A := take (Z.to_nat k) es). set (B := drop (S (Z.to_nat k)) es).
      assert (es = A ++ e :: B) as Hes by (unfold A, B; by rewrite take_drop_middle). assert (zlen A = k) as HA by (unfold A, zlen in *; rewrite length_take; lia). rewrite Hes in Hr. exists (lp_pos A), (lp_val e).
      rewrite (lp_rep_get lp A e B true Hr), (lp_rep_get lp A e B false Hr), (lpNext_spec lp A e B Hr), (lpPrev_spec lp A (e :: B) Hr). split_and!; [done..| |].
      * rewrite <- (seek_at lp (A ++ [e]) B) by (by apply lp_rep_snoc). rewrite zlen_app, HA. done.
      * destruct (Z.ltb_spec 0 k); [|by destruct A; [|rewrite zlen_cons in HA; pose proof (zlen_nonneg A); lia]]. clearbody A. destruct A as [|a A' _] using rev_ind; [change (zlen (@nil (list byte))) with 0 in HA; lia|].
        rewrite <- app_assoc in Hr. pose proof (seek_at lp A' _ Hr) as Hsk. rewrite zlen_app in HA. change (zlen [a]) with 1 in HA. replace (k - 1) with (zlen A') by lia. rewrite Hsk. cbn [lp_at app]. unfold lp_before. rewrite removelast_last. by destruct A'.
    + rewrite lookup_ge_None_2 by (unfold zlen in Hge; lia). done.
Qed.
End Props.

(** ** Instances *)

(** An allocator that gives up to three bytes more than asked for. *)
Definition lp_fill (_ : nat) : byte := 170.
Definition lp_usable (_ n : Z) : Z := if n <=? UINT32_MAX then Z.min (n + 3) UINT32_MAX else n.

Lemma lp_usable_enough old n : n <= lp_usable old n.
Proof. unfold lp_usable. case_if; lia. Qed.

Lemma lp_usable_small old m : m <= UINT32_MAX -> lp_usable old m <= UINT32_MAX.
Proof. unfold lp_usable. intros Hm. rewrite_if_true. lia. Qed.

(** "hello", "-1234" and a string of 200 bytes. *)
Definition lp_strings : list (list byte) := [[104; 101; 108; 108; 111]; [45; 49; 50; 51; 52]; replicate 200 97].
Definition lp_elements : list (list byte) := map lp_new lp_strings.
Definition lp_block : list byte := lp_header (lp_pos lp_elements + 1) 3 ++ lp_flat lp_elements ++ [LP_EOF] ++ [170; 170; 170].

Lemma lp_block_represents : lp_represents lp_block lp_strings.
Proof.
  assert (forall s, In s lp_strings -> lp_ent_ok (lp_new s)) as He.
  { intros s Hs. assert (Forall (fun s => Forall is_byte s /\ zlen s < 2 ^ 32 - 5) lp_strings) as Hb by (apply (bool_decide_eq_true_1 _); vm_compute; done).
    rewrite Forall_forall in Hb. destruct (Hb s Hs) as [H1 H2]. destruct (lp_new_spec s H1 H2) as (Hz & v & Hv & _). apply (reads_as_ok _ v Hv). pose proof (enclen_range s H2). lia. }
  exists lp_elements. split; [|vm_compute; reflexivity]. exists 3, [170; 170; 170]. split_and!; [done|right; split; [unfold LP_HDR_NUMELE_UNKNOWN; lia|done]| |vm_compute; congruence].
  apply Forall_map, Forall_forall. exact He.
Qed.

(** Replacing the second string by a number, deleting the last, and appending one
    that is too long. *)
Lemma listpack_refines_witness : lpSeek lp_block 1 = Some (Some 13) /\ lpSeek lp_block (-1) = Some (Some 16) /\
  lp_outcome (lpInsert lp_fill lp_usable lp_block (Some [55; 55]) 13 LP_REPLACE) 220 [[104; 101; 108; 108; 111]; [55; 55]; replicate 200 97] 1 /\
  lp_outcome (lpDelete lp_fill lp_usable lp_block 16) 17 [[104; 101; 108; 108; 111]; [45; 49; 50; 51; 52]] 2 /\
  forall s', 2 ^ 32 - 5 <= zlen s' < 2 ^ 32 -> lpAppend lp_fill lp_usable lp_block s' = if UINT32_MAX <? 221 + lp_need (Some s') then Some None else None.
Proof.
  assert (lpSeek lp_block 1 = Some (Some 13)) as H1 by (vm_compute; reflexivity). assert (lpSeek lp_block (-1) = Some (Some 16)) as H2 by (vm_compute; reflexivity).
  destruct (listpack_refines lp_fill lp_usable lp_usable_enough lp_block lp_strings [55; 55] 221 lp_block_represents) as (_ & _ & _ & Hops & Hlong); [vm_compute; reflexivity|repeat constructor; lia|vm_compute; reflexivity|].
  split; [exact H1|]. split; [exact H2|]. split_and!.
  - destruct (Hops 1 13 H1) as (d & Hd & _ & _ & Hr & _). assert (d = 3) as -> by (assert (lpSkip lp_block 13 = Some 16) as Hd' by (vm_compute; reflexivity); rewrite Hd' in Hd; injection Hd; lia). exact Hr.
  - destruct (Hops (-1) 16 H2) as (d & Hd & _ & _ & _ & Hr). assert (d = 204) as -> by (assert (lpSkip lp_block 16 = Some 220) as Hd' by (vm_compute; reflexivity); rewrite Hd' in Hd; injection Hd; lia). exact Hr.
  - intros s' Hs'. apply (Hlong s' Hs'); [vm_compute; congruence|exact lp_usable_small].
Defined.

Lemma listpack_reads_witness : exists p v, lpSeek lp_block (-2) = Some (Some p) /\ lpGet lp_block p true = Some (LStr [45; 49; 50; 51; 52]) /\
  lpGet lp_block p false = Some v /\ lp_text v = [45; 49; 50; 51; 52] /\ lpNext lp_block p = lpSeek lp_block 2 /\ lpPrev lp_block p = lpSeek lp_block 0.
Proof.
  destruct (listpack_reads lp_block lp_strings lp_block_represents) as (_ & _ & _ & _ & Hix). exact (Hix (-2)).
Defined.
