(* ===== verification/ListpackValid.v ===== *)
(** * Listpacks: validation of a block from outside *)

From stdpp Require Import base list option.
From Stdlib Require Import ZArith Lia Bool.
From S2P Require Import Prelude Util UtilFacts BitopsFacts Listpack ListpackFacts ListpackOps.

Local Open Scope Z_scope.

(** ** What is accepted

    Elements after the bytes [h], each with a field from which its length is read
    backwards. *)
Fixpoint lp_entries_ok (h : list byte) (es : list (list byte * list byte)) : Prop :=
  match es with
  | [] => True
  | (e, bk) :: es' =>
      lp_ent_ok e /\ zlen bk = lpEncodeBacklen_NULL (zlen e) /\
      lpDecodeBacklen (h ++ e ++ bk) (zlen (h ++ e ++ bk) - 1) = Some (zlen e) /\ lp_entries_ok (h ++ e ++ bk) es'
  end.

Definition lp_joined (es : list (list byte * list byte)) : list byte := concat (map (fun x => x.1 ++ x.2) es).

(** The count that is asked for: one more than the elements, if there are any. *)
Definition lp_valid_count (cnt : Z) (es : list (list byte * list byte)) : Prop :=
  cnt = LP_HDR_NUMELE_UNKNOWN \/ cnt = match es with [] => 0 | _ => zlen es + 1 end.

Definition lp_valid (lp : list byte) : Prop :=
  exists cnt es Y, lp = lp_header (zlen lp) cnt ++ lp_joined es ++ [LP_EOF] ++ Y /\ 0 <= cnt < 2 ^ 16 /\ zlen lp < 2 ^ 32 /\
    byte_at lp (zlen lp - 1) = Some LP_EOF /\ lp_entries_ok (lp_header (zlen lp) cnt) es /\ lp_valid_count cnt es.

(** ** Reading a length backwards *)

Lemma backlen_loop_total lp : forall fuel p val sh, (28 < sh + 7 * Z.of_nat fuel) -> Z.of_nat fuel <= p + 1 -> p < zlen lp -> (0 < fuel)%nat -> exists x, backlen_loop fuel lp p val sh = Some x.
Proof.
  induction fuel as [|fuel IH]; intros p val sh Hs Hp Hl Hf; [lia|]. cbn [backlen_loop]. destruct (byte_at_Some lp p) as [b ->]; [lia|]. cbn [mbind option_bind]. case_if; [by eexists|]. case_if; [by eexists|]. apply IH; lia.
Qed.

Lemma decode_total lp p : 4 <= p < zlen lp -> exists x, lpDecodeBacklen lp p = Some x.
Proof. intros Hp. apply backlen_loop_total; lia. Qed.

Lemma backlen_loop_low fuel lp : forall p val sh r, 7 <= sh -> backlen_loop fuel lp p val sh = Some r -> r = ULLONG_MAX \/ Z.land r 127 = Z.land val 127.
Proof.
  induction fuel as [|fuel IH]; intros p val sh r Hs E; [done|]. cbn [backlen_loop] in E. destruct (byte_at lp p) as [b|]; [|done]. cbn [mbind option_bind] in E. set (v := Z.lor val _) in E.
  assert (Z.land v 127 = Z.land val 127) as Hv.
  { unfold v. rewrite Z.land_lor_distr_l, !land_127. set (d := b mod 128). assert (u64 (Z.shiftl d sh) mod 128 = 0) as ->; [|apply Z.lor_0_r].
    unfold wrap. rewrite Z.shiftl_mul_pow2 by lia. replace sh with (sh - 7 + 7) by lia. rewrite Z.pow_add_r by lia. set (q := 2 ^ (sh - 7)). replace (d * (q * 2 ^ 7)) with (d * q * 2 ^ 7) by ring. set (z := d * q). dlia. }
  case_if_in E; [injection E as <-; by right|]. case_if_in E; [injection E as <-; by left|]. apply IH in E as [->|E]; [by left|right; congruence|lia].
Qed.

(** The last byte has the low bits of the length. *)
Lemma decode_low lp p r : lpDecodeBacklen lp p = Some r -> exists b, byte_at lp p = Some b /\ (r = ULLONG_MAX \/ Z.land r 127 = Z.land b 127).
Proof.
  unfold lpDecodeBacklen. assert (exists k, 5%nat = S k) as [k ->] by (by exists 4%nat). cbn [backlen_loop]. destruct (byte_at lp p) as [b|]; [|done]. cbn [mbind option_bind]. intros E. exists b. split; [done|].
  assert (Z.land (Z.lor 0 (u64 (Z.shiftl (Z.land b 127) 0))) 127 = Z.land b 127) as Hb.
  { rewrite Z.lor_0_l, Z.shiftl_0_r, !land_127. rewrite u64_small by dlia. dlia. }
  case_if_in E; [injection E as <-; by right|]. case_if_in E; [injection E as <-; by left|]. apply backlen_loop_low in E as [->|E]; [by left|right; congruence|lia].
Qed.

(** Only bytes at or before the place are read. *)
Lemma backlen_loop_prefix fuel a c : forall p val sh, p < zlen a -> backlen_loop fuel (a ++ c) p val sh = backlen_loop fuel a p val sh.
Proof.
  assert (forall p, p < zlen a -> byte_at (a ++ c) p = byte_at a p) as Hb.
  { intros p Hp. unfold byte_at. case_if; [|done]. apply lookup_app_l. unfold zlen in Hp. lia. }
  induction fuel as [|fuel IH]; intros p val sh Hp; [done|]. cbn [backlen_loop]. rewrite Hb by done. destruct (byte_at a p); [|done]. cbn [mbind option_bind]. by rewrite IH by lia.
Qed.

Lemma decode_prefix a c p : p < zlen a -> lpDecodeBacklen (a ++ c) p = lpDecodeBacklen a p.
Proof. apply backlen_loop_prefix. Qed.

(** ** Reading an encoding *)

Lemma encoded_size_total x m : lpCurrentEncodedSizeBytes x 0 = Some m -> m <= zlen x -> exists n, lpCurrentEncodedSizeUnsafe x 0 = Some n.
Proof.
  unfold lpCurrentEncodedSizeBytes, lpCurrentEncodedSizeUnsafe, LP_ENCODING_6BIT_STR_LEN, LP_ENCODING_12BIT_STR_LEN, LP_ENCODING_32BIT_STR_LEN.
  destruct (byte_at x 0) as [b|] eqn:Eb; [|done]. cbn [mbind option_bind]. intros [= <-] Hm.
  repeat match goal with |- exists n, (if ?c then _ else _) = _ => destruct c end; try (by eexists).
  - destruct (byte_at_Some x (0 + 1)) as [y ->]; [lia|]. by eexists.
  - destruct (or_bytes_total x (0 + 1) 4 0) as [y ->]; [lia..|]. by eexists.
Qed.

Lemma size_bytes_local a b c i n : lpCurrentEncodedSizeBytes b i = Some n -> lpCurrentEncodedSizeBytes (a ++ b ++ c) (zlen a + i) = Some n.
Proof.
  unfold lpCurrentEncodedSizeBytes. intros E. destruct (byte_at b i) as [x|] eqn:Ex; [|done]. by rewrite (byte_at_local a b c i x Ex).
Qed.

(** The header is part of the element, unless the length of a long string makes
    the 32-bit size wrap. *)
Lemma size_cases lp p m n : Forall is_byte lp -> lpCurrentEncodedSizeBytes lp p = Some m -> m <> 0 -> lpCurrentEncodedSizeUnsafe lp p = Some n ->
  0 <= n < 2 ^ 32 /\ (1 <= m <= n \/ exists len, byte_at lp p = Some 0xF0 /\ or_bytes lp (p + 1) 4 0 = Some len /\ 2 ^ 32 <= 5 + len /\ n = 5 + len - 2 ^ 32).
Proof.
  intros Hb. unfold lpCurrentEncodedSizeBytes, lpCurrentEncodedSizeUnsafe, LP_ENCODING_6BIT_STR_LEN, LP_ENCODING_12BIT_STR_LEN, LP_ENCODING_32BIT_STR_LEN.
  destruct (byte_at lp p) as [b|] eqn:Eb; [|done]. cbn [mbind option_bind]. pose proof (byte_at_byte lp p b Hb Eb) as Hbb. intros [= <-].
  repeat match goal with |- _ -> (if ?c then _ else _) = _ -> _ => destruct c eqn:? end; intros Hm E; try injection E as <-; try lia.
  - pose proof (land_range 8 b 0x3f ltac:(lia) Hbb). lia.
  - destruct (byte_at lp (p + 1)) as [y|] eqn:Ey; [|done]. cbn [mbind option_bind] in E. injection E as <-. pose proof (byte_at_byte lp _ y Hb Ey) as Hy. pose proof (land_range 8 b 0xF ltac:(lia) Hbb) as Hl.
    rewrite Z.shiftl_mul_pow2 by lia. change (2 ^ 8) with 256. rewrite lor_byte by done. unfold is_byte in Hy. lia.
  - destruct (or_bytes lp (p + 1) 4 0) as [len|] eqn:El; [|done]. cbn [mbind option_bind] in E. injection E as <-. pose proof (or_bytes_inv lp (p + 1) 4 len Hb ltac:(lia) El) as (_ & _ & Hr). change (256 ^ Z.of_nat 4) with (2 ^ 32) in Hr.
    assert (b = 0xF0) as ->.
    { assert (LP_ENCODING_IS_32BIT_STR b = true) as H32 by done. unfold LP_ENCODING_IS_32BIT_STR, LP_ENCODING_32BIT_STR in H32. apply Z.eqb_eq in H32. rewrite land_low8 in H32. unfold is_byte in Hbb. rewrite Z.mod_small in H32 by lia. done. }
    destruct (Z.lt_ge_cases (5 + len) (2 ^ 32)); [rewrite u32_small by lia; lia|]. split; [apply wrap_range; lia|]. right. exists len. split_and!; [done..|]. unfold wrap. dlia.
Qed.

Lemma backlen_loop_range fuel lp : forall p val sh r, 0 <= val < 2 ^ 64 -> backlen_loop fuel lp p val sh = Some r -> 0 <= r < 2 ^ 64.
Proof.
  induction fuel as [|fuel IH]; intros p val sh r Hv; [done|]. cbn [backlen_loop]. destruct (byte_at lp p) as [b|]; [|done]. cbn [mbind option_bind].
  assert (0 <= Z.lor val (u64 (Z.shiftl (Z.land b 127) sh)) < 2 ^ 64) as Hl.
  { pose proof (wrap_range 64 (Z.shiftl (Z.land b 127) sh) ltac:(lia)) as Hw. set (y := u64 _) in *. split; [apply Z.lor_nonneg; lia|]. rewrite <- (Z.mod_small val (2 ^ 64)), <- (Z.mod_small y (2 ^ 64)) by lia.
    rewrite <- !Z.land_ones, <- Z.land_lor_distr_l, Z.land_ones by lia. apply Z.mod_pos_bound. lia. }
  case_if; [by intros [= <-]|]. case_if; [intros [= <-]; unfold ULLONG_MAX; lia|]. by apply IH.
Qed.

Lemma decode_range lp p r : lpDecodeBacklen lp p = Some r -> 0 <= r < 2 ^ 64.
Proof. apply backlen_loop_range. lia. Qed.

(** A wrapped size never agrees with the length read backwards: the last bytes
    of the header have too large digits. *)
Lemma wrapped_size lp p len n r : Forall is_byte lp -> byte_at lp p = Some 0xF0 -> or_bytes lp (p + 1) 4 0 = Some len -> 2 ^ 32 <= 5 + len -> n = 5 + len - 2 ^ 32 ->
  lpDecodeBacklen lp (p + n) = Some r -> r <> n.
Proof.
  intros Hb H0 Hor Hl -> Hd ->. apply decode_low in Hd as (b & Hbn & Hlow). destruct (or_bytes_inv lp (p + 1) 4 len Hb ltac:(lia) Hor) as (Hp & Hz & Hr). change (256 ^ Z.of_nat 4) with (2 ^ 32) in Hr.
  destruct Hlow as [Hlow|Hlow]; [unfold ULLONG_MAX in Hlow; lia|]. rewrite !land_127 in Hlow. assert (112 <= b mod 128); [|dlia].
  set (bs := take 4 (drop (Z.to_nat (p + 1)) lp)). assert (length bs = 4%nat) as H4 by (unfold bs, zlen in *; rewrite length_take, length_drop; lia). assert (Forall is_byte bs) as Hbs by (by apply Forall_take, Forall_drop).
  assert (lp = take (Z.to_nat (p + 1)) lp ++ bs ++ drop 4 (drop (Z.to_nat (p + 1)) lp)) as Elp by (unfold bs; by rewrite !take_drop).
  assert (zlen (take (Z.to_nat (p + 1)) lp) = p + 1) as Hzt by (unfold zlen in *; rewrite length_take; lia). rewrite Elp, or_bytes_at in Hor by done. injection Hor as Hj.
  assert (forall i x, bs !! i = Some x -> byte_at lp (p + 1 + Z.of_nat i) = Some x) as Hi.
  { intros i x Hx. pose proof (byte_at_local (take (Z.to_nat (p + 1)) lp) bs (drop 4 (drop (Z.to_nat (p + 1)) lp)) (Z.of_nat i) x) as Hloc. rewrite Hzt, <- Elp in Hloc. apply Hloc. unfold byte_at. rewrite (proj2 (Z.leb_le 0 _)) by lia. by rewrite Nat2Z.id. }
  destruct bs as [|b1 [|b2 [|b3 [|b4 [|]]]]]; try discriminate H4. cbn [le_join] in Hj. unfold is_byte in Hbs. do 4 (apply Forall_cons_1 in Hbs as [? Hbs]).
  assert (5 + len - 2 ^ 32 = 0 \/ 5 + len - 2 ^ 32 = 1 \/ 5 + len - 2 ^ 32 = 2 \/ 5 + len - 2 ^ 32 = 3 \/ 5 + len - 2 ^ 32 = 4) as [E|[E|[E|[E|E]]]] by lia; rewrite E in *.
  - rewrite Z.add_0_r, H0 in Hbn. injection Hbn as <-. done.
  - specialize (Hi 0%nat b1 eq_refl). rewrite Z.add_0_r in Hi. rewrite Hi in Hbn. injection Hbn as <-. dlia.
  - specialize (Hi 1%nat b2 eq_refl). replace (p + 1 + Z.of_nat 1) with (p + 2) in Hi by lia. rewrite Hi in Hbn. injection Hbn as <-. dlia.
  - specialize (Hi 2%nat b3 eq_refl). replace (p + 1 + Z.of_nat 2) with (p + 3) in Hi by lia. rewrite Hi in Hbn. injection Hbn as <-. dlia.
  - specialize (Hi 3%nat b4 eq_refl). replace (p + 1 + Z.of_nat 3) with (p + 4) in Hi by lia. rewrite Hi in Hbn. injection Hbn as <-. dlia.
Qed.

(** ** One element *)

Lemma size_bytes_ok e : lp_ent_ok e -> exists m, lpCurrentEncodedSizeBytes e 0 = Some m /\ 1 <= m <= zlen e.
Proof.
  intros (Hb & Hs & _ & Hz). destruct (byte_at_Some e 0) as [b Eb]; [lia|]. assert (exists m, lpCurrentEncodedSizeBytes e 0 = Some m) as [m Hm] by (unfold lpCurrentEncodedSizeBytes; rewrite Eb; by eexists).
  exists m. split; [done|]. destruct (Z.eq_dec m 0) as [->|Hm0].
  - exfalso. unfold lpCurrentEncodedSizeBytes, lpCurrentEncodedSizeUnsafe in *. rewrite Eb in *. cbn [mbind option_bind] in *. injection Hm as Hm. repeat match type of Hm with (if ?c then _ else _) = _ => destruct c; [done|] end. injection Hs as Hs. lia.
  - destruct (size_cases e 0 m (zlen e) Hb Hm Hm0 Hs) as [_ [?|(len & _ & Hor & _ & Hn)]]; [done|]. destruct (or_bytes_inv e (0 + 1) 4 len Hb ltac:(lia) Hor) as (_ & Hl & Hr). change (256 ^ Z.of_nat 4) with (2 ^ 32) in Hr. lia.
Qed.

Lemma validate_eof h c : lpValidateNext (h ++ LP_EOF :: c) (Some (zlen h)) (zlen (h ++ LP_EOF :: c)) = Some (Some None).
Proof. unfold lpValidateNext. by rewrite byte_at_app. Qed.

Lemma validate_complete h e bk c : lp_ent_ok e -> zlen bk = lpEncodeBacklen_NULL (zlen e) -> lpDecodeBacklen (h ++ e ++ bk) (zlen (h ++ e ++ bk) - 1) = Some (zlen e) ->
  6 <= zlen h -> c <> [] -> lpValidateNext (h ++ e ++ bk ++ c) (Some (zlen h)) (zlen (h ++ e ++ bk ++ c)) = Some (Some (Some (zlen (h ++ e ++ bk)))).
Proof.
  intros He Hbk Hd Hh Hc. pose proof He as (Hb & Hs & Hne & Hz). unfold lpValidateNext, LP_HDR_SIZE. set (lp := h ++ e ++ bk ++ c). assert (0 < zlen c) as Hc0 by (destruct c; [done|rewrite zlen_cons; pose proof (zlen_nonneg c); lia]).
  assert (zlen lp = zlen h + zlen e + zlen bk + zlen c) as Hlp by (unfold lp; zlen). pose proof (backlen_zlen (zlen e)) as Hbl. unfold lpEncodeBacklen_NULL in *.
  assert (exists b, byte_at lp (zlen h) = Some b /\ (b =? LP_EOF) = false) as (b & -> & Hbe).
  { destruct (byte_at_Some e 0) as [b Eb]; [lia|]. exists b. pose proof (byte_at_local h e (bk ++ c) 0 b Eb) as Hl. rewrite Z.add_0_r in Hl. split; [exact Hl|]. apply Z.eqb_neq. intros ->. by rewrite Eb in Hne. }
  cbn [mbind option_bind]. rewrite Hbe. pose proof (encoded_size_local h e (bk ++ c) 0 _ Hs) as Hsl. rewrite Z.add_0_r in Hsl. fold lp in Hsl.
  assert (exists m, lpCurrentEncodedSizeBytes lp (zlen h) = Some m /\ 1 <= m <= zlen e) as (m & -> & Hm).
  { destruct (size_bytes_ok e) as (m & Em & Hm); [done|]. exists m. pose proof (size_bytes_local h e (bk ++ c) 0 m Em) as Hl. rewrite Z.add_0_r in Hl. by split. }
  cbn [mbind option_bind]. rewrite (proj2 (Z.eqb_neq m 0)) by lia.
  assert (forall q, zlen h <= q <= zlen h + zlen e + zlen bk -> (q <? 6) || (zlen lp - 1 <? q) = false) as Hin by (intros q Hq; apply orb_false_intro; lia).
  rewrite Hin by lia. rewrite Hsl. cbn [mbind option_bind]. rewrite Hin by lia.
  assert (lpDecodeBacklen lp (zlen h + (zlen e + zlen (lpEncodeBacklen (zlen e))) - 1) = Some (zlen e)) as ->.
  { rewrite <- Hd. unfold lp. rewrite !zlen_app, Hbk, !(app_assoc _ _ c). rewrite decode_prefix by (rewrite !zlen_app; lia). f_equal; lia. }
  cbn [mbind option_bind]. rewrite u64_small, Z.eqb_refl by lia. cbn [negb]. do 3 f_equal. zlen.
Qed.

Lemma validate_sound h rest : Forall is_byte (h ++ rest) -> 6 <= zlen h -> rest <> [] -> exists r, lpValidateNext (h ++ rest) (Some (zlen h)) (zlen (h ++ rest)) = Some r /\
  (r = None \/ (r = Some None /\ exists c, rest = LP_EOF :: c) \/
   exists e bk c, r = Some (Some (zlen (h ++ e ++ bk))) /\ rest = e ++ bk ++ c /\ c <> [] /\ lp_ent_ok e /\ zlen bk = lpEncodeBacklen_NULL (zlen e) /\
     lpDecodeBacklen (h ++ e ++ bk) (zlen (h ++ e ++ bk) - 1) = Some (zlen e)).
Proof.
  intros Hb Hh Hne. destruct rest as [|b rest']; [done|]. set (rest := b :: rest') in *. set (lp := h ++ rest) in *. unfold lpValidateNext, LP_HDR_SIZE.
  assert (byte_at lp (zlen h) = Some b) as E0 by apply byte_at_app. rewrite E0. cbn [mbind option_bind]. destruct (Z.eqb_spec b LP_EOF) as [->|Hbe]; [eexists; split; [done|]; right; left; split; [done|by exists rest']|].
  assert (zlen lp = zlen h + zlen rest) as Hlp by (unfold lp; zlen). assert (exists m, lpCurrentEncodedSizeBytes rest 0 = Some m) as [m Em] by (unfold lpCurrentEncodedSizeBytes; change (byte_at rest 0) with (Some b); by eexists).
  pose proof (size_bytes_local h rest [] 0 m Em) as Eml. rewrite Z.add_0_r, app_nil_r in Eml. fold lp in Eml. rewrite Eml. cbn [mbind option_bind]. destruct (Z.eqb_spec m 0) as [|Hm0]; [eexists; split; [done|by left]|].
  destruct ((zlen h + m <? 6) || (zlen lp - 1 <? zlen h + m)) eqn:O1; [eexists; split; [done|by left]|]. apply orb_false_iff in O1 as [O1 O1'].
  destruct (encoded_size_total rest m Em) as [n En]; [lia|]. pose proof (encoded_size_local h rest [] 0 n En) as Enl. rewrite Z.add_0_r, app_nil_r in Enl. fold lp in Enl. rewrite Enl. cbn [mbind option_bind].
  set (bl := lpEncodeBacklen_NULL n). assert (1 <= bl <= 5) as Hbl by apply backlen_zlen. destruct (size_cases lp (zlen h) m n Hb Eml Hm0 Enl) as [Hn Hc].
  destruct ((zlen h + (n + bl) <? 6) || (zlen lp - 1 <? zlen h + (n + bl))) eqn:O2; [eexists; split; [done|by left]|]. apply orb_false_iff in O2 as [O2 O2'].
  destruct (decode_total lp (zlen h + (n + bl) - 1)) as [r Er]; [lia|]. rewrite Er. cbn [mbind option_bind]. pose proof (decode_range lp _ r Er) as Hr.
  destruct (Z.eqb_spec (u64 (r + bl)) (n + bl)) as [Heq|]; cbn [negb]; [|eexists; split; [done|by left]]. assert (r = n) as -> by (unfold wrap in Heq; dlia). clear Heq. eexists. split; [done|]. right. right.
  destruct Hc as [Hmn|(len & Hf0 & Hor & Hl32 & Hlen)].
  2:{ exfalso. destruct (or_bytes_inv lp _ 4 len Hb ltac:(lia) Hor) as (_ & _ & Hlr). change (256 ^ Z.of_nat 4) with (2 ^ 32) in Hlr.
      assert (bl = 1) as Hb1 by (unfold bl, lpEncodeBacklen_NULL, lpEncodeBacklen; by rewrite_if_true).
      apply (wrapped_size lp (zlen h) len n n Hb Hf0 Hor Hl32 Hlen); [|done]. rewrite <- Er. f_equal; lia. }
  set (e := take (Z.to_nat n) rest). set (bk := take (Z.to_nat bl) (drop (Z.to_nat n) rest)). set (c := drop (Z.to_nat bl) (drop (Z.to_nat n) rest)).
  assert (rest = e ++ bk ++ c) as Hrest by (unfold e, bk, c; by rewrite !take_drop).
  assert (zlen e = n /\ zlen bk = bl) as [Hze Hzb] by (unfold e, bk, zlen in *; rewrite !length_take, length_drop; lia). assert (0 < zlen c) by (rewrite Hrest, !zlen_app in Hlp; lia).
  assert (lp = (h ++ e ++ bk) ++ c) as Elp by (unfold lp; rewrite Hrest; by rewrite <- !app_assoc).
  assert (Forall is_byte e) as Hbe' by (by apply Forall_app in Hb as [_ Hb]; apply Forall_take).
  exists e, bk, c. split; [do 2 f_equal; zlen|]. split; [done|]. split; [by intros ->|]. split; [|rewrite Hze; split; [done|]].
  - assert (byte_at e 0 = Some b) as Eb by (unfold e; replace (Z.to_nat n) with (S (Z.to_nat (n - 1))) by lia; done).
    assert (lpCurrentEncodedSizeBytes e 0 = Some m) as Eme by (unfold lpCurrentEncodedSizeBytes in Em |- *; rewrite Eb; exact Em).
    destruct (encoded_size_total e m Eme) as [n' En']; [lia|]. pose proof (encoded_size_local [] e (bk ++ c) 0 n' En') as Hl. change ([] ++ e ++ bk ++ c) with (e ++ bk ++ c) in Hl. rewrite <- Hrest in Hl. change (zlen [] + 0) with 0 in Hl. rewrite En in Hl. injection Hl as <-.
    split_and!; [done|by rewrite Hze|rewrite Eb; intros [=]; done|lia|lia].
  - rewrite <- Er, Elp. symmetry. rewrite decode_prefix by zlen. f_equal. zlen.
Qed.

(** ** The list *)

Lemma lp_joined_cons e bk es : lp_joined ((e, bk) :: es) = e ++ bk ++ lp_joined es.
Proof. unfold lp_joined. cbn [map concat fst snd]. by rewrite <- app_assoc. Qed.

Lemma validate_loop_complete es : forall h Y fuel n, lp_entries_ok h es -> 6 <= zlen h -> (length es < fuel)%nat -> 0 <= n -> n + zlen es + 1 < 2 ^ 32 ->
  let lp := h ++ lp_joined es ++ [LP_EOF] ++ Y in lp_validate_loop fuel lp (zlen lp) (Some (zlen h)) n = Some (Some (n + zlen es + 1)).
Proof.
  induction es as [|[e bk] es IH]; intros h Y fuel n Hok Hh Hf Hn Hs lp; (destruct fuel as [|fuel]; [lia|]); cbn [lp_validate_loop]; unfold lp.
  - cbn [lp_joined map concat app]. rewrite validate_eof. cbn [mbind option_bind]. change (zlen (@nil (list byte * list byte))) with 0 in *. rewrite u32_small by lia. destruct fuel; cbn [lp_validate_loop]; do 2 f_equal; lia.
  - destruct Hok as (He & Hbk & Hd & Hok). rewrite lp_joined_cons, <- !app_assoc. rewrite validate_complete; [|done|done|done|done|by destruct (lp_joined es)]. cbn [mbind option_bind]. rewrite zlen_cons in *. pose proof (zlen_nonneg es). cbn [length] in Hf.
    rewrite u32_small by lia. specialize (IH (h ++ e ++ bk) Y fuel (n + 1) Hok). cbv zeta in IH. rewrite <- !app_assoc in IH. rewrite IH; [do 2 f_equal; lia|zlen|lia|lia|lia].
Qed.

Lemma validate_loop_sound fuel : forall h rest n, Forall is_byte (h ++ rest) -> 6 <= zlen h -> rest <> [] -> (length rest <= fuel)%nat -> 0 <= n -> n + zlen rest < 2 ^ 32 ->
  exists r, lp_validate_loop fuel (h ++ rest) (zlen (h ++ rest)) (Some (zlen h)) n = Some r /\
    (r = None \/ exists es Y, rest = lp_joined es ++ [LP_EOF] ++ Y /\ lp_entries_ok h es /\ r = Some (n + zlen es + 1)).
Proof.
  induction fuel as [|fuel IH]; intros h rest n Hb Hh Hne Hf Hn Hs; [by destruct rest; [|cbn in Hf; lia]|]. assert (1 <= zlen rest) by (destruct rest; [done|rewrite zlen_cons; pose proof (zlen_nonneg rest); lia]).
  cbn [lp_validate_loop]. destruct (validate_sound h rest Hb Hh Hne) as (r & -> & [->|[[-> [c ->]]|(e & bk & c & -> & -> & Hc & He & Hbk & Hd)]]); cbn [mbind option_bind].
  - eexists. split; [done|by left].
  - rewrite u32_small by lia. exists (Some (n + 1)). split; [by destruct fuel|]. right. exists [], c. split_and!; [done|done|]. change (zlen (@nil (list byte * list byte))) with 0. f_equal. lia.
  - assert (1 <= zlen e) as He1 by (destruct He as (_ & _ & _ & Hz); lia). pose proof (backlen_zlen (zlen e)) as Hbl. unfold lpEncodeBacklen_NULL in Hbk. rewrite u32_small by lia. 
    assert (h ++ e ++ bk ++ c = (h ++ e ++ bk) ++ c) as E by by rewrite <- !app_assoc. rewrite E in *. autorewrite with zlen in Hs. destruct (IH (h ++ e ++ bk) c (n + 1)) as (r & Hr & Hcase); [done|zlen|done|rewrite !length_app in Hf; unfold zlen in *; lia|lia|lia|].
    exists r. split; [done|]. destruct Hcase as [->|(es & Y & -> & Hok & ->)]; [by left|]. right. exists ((e, bk) :: es), Y. rewrite lp_joined_cons, <- !app_assoc. split; [done|]. split; [by split_and!|]. rewrite zlen_cons. f_equal. lia.
Qed.

(** ** The header *)

Lemma header_split lp : Forall is_byte lp -> 7 <= zlen lp -> exists total cnt rest, lp = lp_header total cnt ++ rest /\ 0 <= total < 2 ^ 32 /\ 0 <= cnt < 2 ^ 16 /\ rest <> [] /\ Forall is_byte rest.
Proof.
  intros Hb Hz. set (t := take 4 lp). set (c := take 2 (drop 4 lp)). set (rest := drop 2 (drop 4 lp)). assert (lp = t ++ c ++ rest) as E by (unfold t, c, rest; by rewrite !take_drop).
  assert (length t = 4%nat /\ length c = 2%nat /\ (0 < length rest)%nat) as (Ht & Hc & Hr) by (unfold t, c, rest, zlen in *; rewrite !length_take, !length_drop; lia).
  rewrite E, !Forall_app in Hb. destruct Hb as (Hbt & Hbc & Hbr). pose proof (le_join_range t Hbt) as Rt. pose proof (le_join_range c Hbc) as Rc. unfold zlen in Rt, Rc. rewrite Ht in Rt. rewrite Hc in Rc.
  exists (le_join t), (le_join c), rest. split; [|split; [done|split; [done|split; [|done]]]; intros Hnil; rewrite Hnil in Hr; cbn in Hr; lia]. unfold lp_header.
  pose proof (le_split_join t Hbt) as Jt. pose proof (le_split_join c Hbc) as Jc. rewrite Ht in Jt. rewrite Hc in Jc. by rewrite Jt, Jc, <- app_assoc.
Qed.

Lemma lp_joined_length h es : lp_entries_ok h es -> 2 * zlen es <= zlen (lp_joined es).
Proof.
  revert h. induction es as [|[e bk] es IH]; intros h Hok; [done|]. destruct Hok as ((_ & _ & _ & Hz) & Hbk & _ & Hok). rewrite lp_joined_cons, !zlen_app, zlen_cons. specialize (IH _ Hok). pose proof (backlen_zlen (zlen e)). unfold lpEncodeBacklen_NULL in Hbk. lia.
Qed.

(** A well-formed list passes the check of its elements. *)
Lemma rep_entries h es : Forall lp_ent_ok es -> lp_entries_ok h (map (fun e => (e, lpEncodeBacklen (zlen e))) es) /\ lp_joined (map (fun e => (e, lpEncodeBacklen (zlen e))) es) = lp_flat es.
Proof.
  intros Hf. split.
  - revert h. induction Hf as [|e es He Hf IH]; intros h; [done|]. cbn [map lp_entries_ok]. split_and!; [done|done| |apply IH]. destruct He as (_ & _ & _ & Hz).
    rewrite app_assoc, <- (app_nil_r ((h ++ e) ++ _)), <- app_assoc. apply decode_backlen; [lia|zlen].
  - unfold lp_joined, lp_flat, lp_bytes. by rewrite map_map.
Qed.

(** The count decides once the elements are well formed. *)
Lemma validate_entries total cnt es Y : 0 <= cnt < 2 ^ 16 -> lp_entries_ok (lp_header total cnt) es ->
  let lp := lp_header total cnt ++ lp_joined es ++ [LP_EOF] ++ Y in total = zlen lp -> zlen lp < 2 ^ 32 -> byte_at lp (zlen lp - 1) = Some LP_EOF ->
  lpValidateIntegrity lp (zlen lp) true = Some (negb (negb (cnt =? LP_HDR_NUMELE_UNKNOWN) && negb (cnt =? match es with [] => 0 | _ => zlen es + 1 end))).
Proof.
  intros Hc Hok lp Ht Hz Hl. pose proof (lp_joined_length _ es Hok) as Hj. pose proof (zlen_nonneg es). assert (zlen lp = 6 + zlen (lp_joined es) + 1 + zlen Y) as Hzl by (unfold lp; rewrite !zlen_app, lp_header_zlen; change (zlen [LP_EOF]) with 1; lia). pose proof (zlen_nonneg Y).
  unfold lpValidateIntegrity, LP_HDR_SIZE. rewrite (proj2 (Z.ltb_ge _ _)) by lia. assert (lpGetTotalBytes lp = Some total) as -> by (unfold lp; apply header_total; lia). cbn [mbind option_bind]. rewrite Ht, Z.eqb_refl, Hl. cbn [negb mbind option_bind Z.eqb LP_EOF Pos.eqb].
  assert (lpGetNumElements lp = Some cnt) as -> by (by apply header_count). destruct es as [|x es].
  - assert (lpFirst lp = Some None) as -> by (unfold lpFirst, lp; change LP_HDR_SIZE with 6; rewrite <- (lp_header_zlen total cnt); cbn [lp_joined map concat app]; by rewrite byte_at_app). cbn [mbind option_bind]. by destruct (length lp).
  - assert (lpFirst lp = Some (Some (zlen (lp_header total cnt)))) as ->.
    { destruct x as [e bk]. destruct Hok as ((_ & _ & Hne & Hez) & _). destruct (byte_at_Some e 0) as [b Hb]; [lia|]. unfold lpFirst, lp. rewrite lp_joined_cons, <- !app_assoc. change LP_HDR_SIZE with 6. rewrite <- (lp_header_zlen total cnt) at 1.
      rewrite <- (Z.add_0_r (zlen (lp_header total cnt))) at 1. rewrite (byte_at_local _ e _ 0 b Hb). cbn [mbind option_bind]. destruct (Z.eqb_spec b LP_EOF) as [->|]; [by rewrite Hb in Hne|]. by rewrite lp_header_zlen. }
    cbn [mbind option_bind]. unfold lp. rewrite validate_loop_complete; [done|done|by rewrite lp_header_zlen| |lia|lia]. fold lp. unfold zlen in *. lia.
Qed.

(** What both checks begin with. *)
Definition lp_shape (lp : list byte) : Prop := 7 <= zlen lp /\ lpGetTotalBytes lp = Some (zlen lp) /\ byte_at lp (zlen lp - 1) = Some LP_EOF.

Lemma validate_shallow lp : Forall is_byte lp -> exists b, lpValidateIntegrity lp (zlen lp) false = Some b /\ (b = true <-> lp_shape lp) /\ (b = false -> lpValidateIntegrity lp (zlen lp) true = Some false).
Proof.
  intros Hb. unfold lpValidateIntegrity, lp_shape, LP_HDR_SIZE. change (6 + 1) with 7. destruct (Z.ltb_spec (zlen lp) 7) as [Hs|Hs]. { exists false. split_and!; [done| |done]. split; [done|lia]. }
  destruct (or_bytes_total lp 0 4 0) as [t Ht]; [lia|lia|]. change (or_bytes lp 0 4 0) with (lpGetTotalBytes lp) in Ht. rewrite Ht. cbn [mbind option_bind]. destruct (Z.eqb_spec t (zlen lp)) as [->|Hn]; cbn [negb].
  - destruct (byte_at_Some lp (zlen lp - 1)) as [x ->]; [lia|]. cbn [mbind option_bind]. destruct (Z.eqb_spec x LP_EOF) as [->|Hx]; cbn [negb].
    + exists true. split_and!; [done| |done]. done.
    + exists false. split_and!; [done| |done]. split; [done|]. intros (_ & _ & [= ->]). done.
  - exists false. split_and!; [done| |done]. split; [done|]. intros (_ & [= ->] & _). done.
Qed.

Lemma valid_shape lp : lp_valid lp -> lp_shape lp.
Proof.
  intros (cnt & es & Y & E & Hc & Hz & Hl & _). unfold lp_shape. pose proof (zlen_nonneg lp). pose proof (zlen_nonneg (lp_joined es)). pose proof (zlen_nonneg Y). split_and!; [|rewrite E at 1; apply header_total; lia|done].
  rewrite E, !zlen_app, lp_header_zlen. change (zlen [LP_EOF]) with 1. lia.
Qed.

Lemma count_test cnt (es : list (list byte * list byte)) : negb (negb (cnt =? LP_HDR_NUMELE_UNKNOWN) && negb (cnt =? match es with [] => 0 | _ => zlen es + 1 end)) = true <-> lp_valid_count cnt es.
Proof. unfold lp_valid_count. rewrite negb_true_iff, andb_false_iff, !negb_false_iff, !Z.eqb_eq. done. Qed.

Lemma valid_accepted lp : lp_valid lp -> lpValidateIntegrity lp (zlen lp) true = Some true.
Proof.
  intros (cnt & es & Y & E & Hc & Hz & Hl & Hok & Hcnt). pose proof (validate_entries (zlen lp) cnt es Y Hc Hok) as Hv. cbv zeta in Hv. rewrite <- E in Hv. rewrite Hv by done. f_equal. by apply count_test.
Qed.

Lemma validate_deep lp : Forall is_byte lp -> lp_shape lp -> exists b, lpValidateIntegrity lp (zlen lp) true = Some b /\ (b = true <-> lp_valid lp).
Proof.
  intros Hb (Hs & Ht & Hl). destruct (header_split lp Hb Hs) as (total & cnt & rest & E & Htr & Hc & Hne & Hbr). assert (lpGetTotalBytes lp = Some total) as Et by (rewrite E; by apply header_total). rewrite Et in Ht. injection Ht as ->.
  set (h := lp_header (zlen lp) cnt) in *. assert (zlen h = 6) as Hh by apply lp_header_zlen. assert (zlen lp = 6 + zlen rest) as Hz by (rewrite E at 1; rewrite zlen_app; lia).
  assert (forall b, lpValidateIntegrity lp (zlen lp) true = Some b -> (b = true -> lp_valid lp) -> exists b, lpValidateIntegrity lp (zlen lp) true = Some b /\ (b = true <-> lp_valid lp)) as Hgo.
  { intros b H1 H2. exists b. split; [done|]. split; [done|]. intros Hv. rewrite (valid_accepted lp Hv) in H1. by injection H1. }
  assert (forall es Y, rest = lp_joined es ++ [LP_EOF] ++ Y -> lp_entries_ok h es -> exists b, lpValidateIntegrity lp (zlen lp) true = Some b /\ (b = true <-> lp_valid lp)) as Hes.
  { intros es Y Erest Hok. pose proof (validate_entries (zlen lp) cnt es Y Hc Hok) as Hv. cbv zeta in Hv. fold h in Hv. rewrite <- Erest, <- E in Hv. eapply Hgo; [apply Hv; done || lia|]. intros Hcnt. apply count_test in Hcnt.
    exists cnt, es, Y. rewrite <- Erest. split_and!; try done; lia. }
  destruct (validate_loop_sound (length lp) h rest 0) as (r & Hr & Hcase); [by rewrite <- E|lia|done|unfold zlen in Hz; lia|lia|lia|]. rewrite <- E in Hr. destruct Hcase as [->|(es & Y & Erest & Hok & _)]; [|by apply (Hes es Y)].
  destruct rest as [|x rest]; [done|]. destruct (decide (x = LP_EOF)) as [->|Hx]; [by apply (Hes [] rest)|]. apply (Hgo false); [|done].
  unfold lpValidateIntegrity, LP_HDR_SIZE. rewrite (proj2 (Z.ltb_ge _ _)) by lia. rewrite Et. cbn [mbind option_bind]. rewrite Z.eqb_refl, Hl. cbn [negb mbind option_bind Z.eqb LP_EOF Pos.eqb].
  assert (lpFirst lp = Some (Some (zlen h))) as ->; [|cbn [mbind option_bind]; by rewrite Hr]. unfold lpFirst, LP_HDR_SIZE. rewrite Hh. rewrite E at 1. rewrite <- Hh at 1. rewrite byte_at_app. cbn [mbind option_bind]. by rewrite (proj2 (Z.eqb_neq x _)).
Qed.

Lemma validate_rep lp es : lp_rep lp es -> es <> [] -> lpGetNumElements lp <> Some LP_HDR_NUMELE_UNKNOWN -> lp_shape lp -> lpValidateIntegrity lp (zlen lp) true = Some false.
Proof.
  intros Hr Hne Hn (Hs & Ht & Hl). destruct (lp_rep_total lp es Hr) as (Ht' & Hts & _). rewrite Ht in Ht'. injection Ht' as Hz. destruct Hr as (cnt & junk & E & Hc & Hf & Hmax).
  destruct (rep_entries (lp_header (lp_pos es + 1) cnt) es Hf) as [Hok Hj]. pose proof (lp_count_range cnt (zlen es) Hc) as Hcr.
  pose proof (validate_entries (lp_pos es + 1) cnt _ junk Hcr Hok) as Hv. cbv zeta in Hv. rewrite Hj, <- E in Hv. rewrite Hv by (done || lia). f_equal.
  assert (lpGetNumElements lp = Some cnt) as En by (rewrite E; by apply header_count). rewrite En in Hn. destruct Hc as [->|[Hc ->]]; [done|]. rewrite (proj2 (Z.eqb_neq (zlen es) LP_HDR_NUMELE_UNKNOWN)) by lia. destruct es as [|e es]; [done|].
  cbn [map]. rewrite !zlen_cons. assert (zlen (map (fun e => (e, lpEncodeBacklen (zlen e))) es) = zlen es) as -> by (unfold zlen; by rewrite length_map). rewrite (proj2 (Z.eqb_neq _ _)) by lia. done.
Qed.

(** C11. [lpValidateIntegrity] on any bytes has a result: it reads only inside the
    block and ends. The shallow check accepts the blocks with a right size and a
    right last byte; the deep one those whose elements, up to the first end
    byte, are well encoded and can be read in both directions, if the header
    counts one element more than there are. So it rejects the listpacks the code
    itself builds, unless they are empty or their count is unknown. *)
Theorem lpValidateIntegrity_correct lp : Forall is_byte lp -> exists shallow deep,
  lpValidateIntegrity lp (zlen lp) false = Some shallow /\ lpValidateIntegrity lp (zlen lp) true = Some deep /\
  (shallow = true <-> 7 <= zlen lp /\ lpGetTotalBytes lp = Some (zlen lp) /\ byte_at lp (zlen lp - 1) = Some LP_EOF) /\
  (deep = true <-> lp_valid lp) /\
  (forall es, lp_rep lp es -> es <> [] -> lpGetNumElements lp <> Some LP_HDR_NUMELE_UNKNOWN -> deep = false).
Proof.
  intros Hb. destruct (validate_shallow lp Hb) as (b & Hsh & Hiff & Hfalse). destruct b.
  - destruct (validate_deep lp Hb (proj1 Hiff eq_refl)) as (d & Hd & Hvd). exists true, d. split_and!; [done..|]. intros es Hr Hes Hn. rewrite (validate_rep lp es Hr Hes Hn (proj1 Hiff eq_refl)) in Hd. congruence.
  - exists false, false. split_and!; [done|by apply Hfalse|done| |done]. split; [done|]. intros Hv. apply valid_shape, Hiff in Hv. done.
Qed.

(** ** Instances *)

(** The listpack of the one string "a", with the right count and with the one that
    is asked for. *)
Definition lp_one (cnt : Z) : list byte := [10; 0; 0; 0; cnt; 0; 0x81; 97; 2; 255].

Lemma lpValidateIntegrity_correct_witness : lp_valid (lp_one 2) /\ ~ lp_valid (lp_one 1).
Proof.
  split.
  - destruct (lpValidateIntegrity_correct (lp_one 2)) as (sh & d & _ & Hd & _ & Hv & _); [repeat constructor; lia|]. apply Hv. assert (lpValidateIntegrity (lp_one 2) (zlen (lp_one 2)) true = Some true) as E by (vm_compute; reflexivity). rewrite E in Hd. injection Hd as <-. reflexivity.
  - destruct (lpValidateIntegrity_correct (lp_one 1)) as (sh & d & _ & Hd & _ & Hv & _); [repeat constructor; lia|]. intros H. apply Hv in H. assert (lpValidateIntegrity (lp_one 1) (zlen (lp_one 1)) true = Some false) as E by (vm_compute; reflexivity). rewrite E, H in Hd. discriminate Hd.
Defined.
