(* ===== verification/Sds.v ===== *)
(** * Dynamic strings ([sds.c], [sds.h])

    A string is a pointer to its first byte; before it, in the same block, is a
    header with the length, the room and the type, which is the width of these
    fields, and after it a zero byte. The model keeps the block and the offset of
    the string in it; every access is checked against the block. *)

From stdpp Require Import base list option.
From Stdlib Require Import ZArith Lia Bool.
From S2P Require Import Prelude Endian Util.

Local Open Scope Z_scope.

Definition SDS_MAX_PREALLOC : Z := 1024 * 1024.
Definition SDS_TYPE_5 : Z := 0.
Definition SDS_TYPE_8 : Z := 1.
Definition SDS_TYPE_16 : Z := 2.
Definition SDS_TYPE_32 : Z := 3.
Definition SDS_TYPE_64 : Z := 4.
Definition SDS_TYPE_MASK : Z := 7.
Definition SDS_TYPE_BITS : Z := 3.
Definition SDS_LLSTR_SIZE : Z := 21.
Definition SDS_TYPE_5_LEN (f : Z) : Z := Z.shiftr f SDS_TYPE_BITS.

Record sds := mk_sds { blk : list byte; ptr : Z }.

(** The bytes from [s] on. *)
Definition bytes_from (s : sds) : list byte := drop (Z.to_nat (ptr s)) (blk s).

(** [n] bytes at [s + k]. *)
Definition sds_read (s : sds) (k n : Z) : option (list byte) := buf_read (blk s) (ptr s + k) n.
Definition sds_write (s : sds) (k : Z) (bs : list byte) : option sds :=
  b ← buf_write (blk s) (ptr s + k) bs; Some (mk_sds b (ptr s)).

(** [s[-1]] *)
Definition flags_of (s : sds) : option Z := byte_at (blk s) (ptr s - 1).

(** The cases of a [switch] on the type: the length in the flags, or two fields
    of [w] bytes. *)
Inductive hdrcase := HDR5 | HDR (w : nat) | HDR_other.

Definition hdr_case (type : Z) : hdrcase :=
  let t := Z.land type SDS_TYPE_MASK in
  if t =? SDS_TYPE_5 then HDR5
  else if t =? SDS_TYPE_8 then HDR 1
  else if t =? SDS_TYPE_16 then HDR 2
  else if t =? SDS_TYPE_32 then HDR 4
  else if t =? SDS_TYPE_64 then HDR 8
  else HDR_other.

(** The size of [struct sdshdr5], [struct sdshdr8], ... *)
Definition sdsHdrSize (type : Z) : Z :=
  match hdr_case type with HDR5 => 1 | HDR w => 2 * Z.of_nat w + 1 | HDR_other => 0 end.

Definition sdsReqType (string_size : Z) : Z :=
  if string_size <? Z.shiftl 1 5 then SDS_TYPE_5
  else if string_size <? Z.shiftl 1 8 then SDS_TYPE_8
  else if string_size <? Z.shiftl 1 16 then SDS_TYPE_16
  else if string_size <? Z.shiftl 1 32 then SDS_TYPE_32
  else SDS_TYPE_64.

Definition sdsTypeMaxSize (type : Z) : Z :=
  if type =? SDS_TYPE_5 then Z.shiftl 1 5 - 1
  else if type =? SDS_TYPE_8 then Z.shiftl 1 8 - 1
  else if type =? SDS_TYPE_16 then Z.shiftl 1 16 - 1
  else if type =? SDS_TYPE_32 then Z.shiftl 1 32 - 1
  else u64 (-1).

Section Header.
Context `{Host}.

(** The fields [len] and [alloc] of [struct sdshdr8] ... [struct sdshdr64]. *)
Definition hdr_len (w : nat) (s : sds) : option Z :=
  bs ← sds_read s (- (2 * Z.of_nat w + 1)) (Z.of_nat w); Some (native_load bs).
Definition hdr_alloc (w : nat) (s : sds) : option Z :=
  bs ← sds_read s (- (Z.of_nat w + 1)) (Z.of_nat w); Some (native_load bs).
Definition set_hdr_len (w : nat) (s : sds) (v : Z) : option sds :=
  sds_write s (- (2 * Z.of_nat w + 1)) (native_store w v).
Definition set_hdr_alloc (w : nat) (s : sds) (v : Z) : option sds :=
  sds_write s (- (Z.of_nat w + 1)) (native_store w v).

Definition sdslen (s : sds) : option Z :=
  flags ← flags_of s;
  match hdr_case flags with
  | HDR5 => Some (SDS_TYPE_5_LEN flags)
  | HDR w => hdr_len w s
  | HDR_other => Some 0
  end.

(** [sh->alloc - sh->len]: narrow fields are promoted to [int]. *)
Definition hdr_room (w : nat) (alloc len : Z) : Z :=
  if (w =? 4)%nat then u32 (alloc - len) else u64 (alloc - len).

Definition sdsavail (s : sds) : option Z :=
  flags ← flags_of s;
  match hdr_case flags with
  | HDR5 => Some 0
  | HDR w => alloc ← hdr_alloc w s; len ← hdr_len w s; Some (hdr_room w alloc len)
  | HDR_other => Some 0
  end.

Definition sdssetlen (s : sds) (newlen : Z) : option sds :=
  flags ← flags_of s;
  match hdr_case flags with
  | HDR5 => sds_write s (-1) [u8 (Z.lor SDS_TYPE_5 (Z.shiftl newlen SDS_TYPE_BITS))]
  | HDR w => set_hdr_len w s newlen
  | HDR_other => Some s
  end.

Definition sdsinclen (s : sds) (inc : Z) : option sds :=
  flags ← flags_of s;
  match hdr_case flags with
  | HDR5 =>
      let newlen := u8 (SDS_TYPE_5_LEN flags + inc) in
      sds_write s (-1) [u8 (Z.lor SDS_TYPE_5 (Z.shiftl newlen SDS_TYPE_BITS))]
  | HDR w => len ← hdr_len w s; set_hdr_len w s (len + inc)
  | HDR_other => Some s
  end.

Definition sdsalloc (s : sds) : option Z :=
  flags ← flags_of s;
  match hdr_case flags with
  | HDR5 => Some (SDS_TYPE_5_LEN flags)
  | HDR w => hdr_alloc w s
  | HDR_other => Some 0
  end.

Definition sdssetalloc (s : sds) (newlen : Z) : option sds :=
  flags ← flags_of s;
  match hdr_case flags with
  | HDR5 => Some s
  | HDR w => set_hdr_alloc w s newlen
  | HDR_other => Some s
  end.

Definition sdsAllocSize (s : sds) : option Z :=
  alloc ← sdsalloc s;
  flags ← flags_of s;
  Some (u64 (sdsHdrSize flags + alloc + 1)).

(** The offset of the allocation in its block. *)
Definition sdsAllocPtr (s : sds) : option Z :=
  flags ← flags_of s; Some (ptr s - sdsHdrSize flags).

(** [strlen] of the bytes from a pointer on. *)
Fixpoint strlen (t : list byte) : option Z :=
  match t with
  | [] => None
  | c :: t' => if c =? 0 then Some 0 else n ← strlen t'; Some (1 + n)
  end.

Definition sdsupdatelen (s : sds) : option sds :=
  reallen ← strlen (bytes_from s); sdssetlen s reallen.

Definition sdsclear (s : sds) : option sds :=
  s ← sdssetlen s 0; sds_write s 0 [0].

(** The assertions of [sdsIncrLen] on the fields of [w] bytes. *)
Definition incr_ok (w : nat) (alloc len incr : Z) : option bool :=
  if 0 <=? incr then
    Some (match w with
          | 4%nat => u32 incr <=? u32 (alloc - len)
          | 8%nat => u64 incr <=? u64 (alloc - len)
          | _ => incr <=? alloc - len
          end)
  else if incr =? LLONG_MIN then None
  else Some (match w with 8%nat => u64 (- incr) <=? len | _ => u32 (- incr) <=? len end).

Definition sdsIncrLen (s : sds) (incr : Z) : option sds :=
  flags ← flags_of s;
  '(s, len) ← (match hdr_case flags with
               | HDR5 =>
                   let oldlen := SDS_TYPE_5_LEN flags in
                   if incr =? LLONG_MIN then None
                   else if ((0 <? incr) && (oldlen + incr <? 32)) || ((incr <? 0) && (u32 (- incr) <=? oldlen)) then
                     s ← sds_write s (-1) [u8 (Z.lor SDS_TYPE_5 (Z.shiftl (oldlen + incr) SDS_TYPE_BITS))];
                     Some (s, oldlen + incr)
                   else None
               | HDR w =>
                   alloc ← hdr_alloc w s;
                   len ← hdr_len w s;
                   ok ← incr_ok w alloc len incr;
                   if (ok : bool) then
                     s ← set_hdr_len w s (len + incr);
                     len ← hdr_len w s;
                     Some (s, len)
                   else None
               | HDR_other => Some (s, 0)
               end);
  sds_write s len [0].

(** ** Parts of a string *)

(** [strchr] with a result other than NULL; the zero at the end is found too. *)
Fixpoint strchr (t : list byte) (c : Z) : option bool :=
  match t with
  | [] => None
  | x :: t' => if x =? c then Some true else if x =? 0 then Some false else strchr t' c
  end.

(** [while(sp <= end && strchr(cset, *sp)) sp++] *)
Fixpoint trim_left (fuel : nat) (s : sds) (cset : list byte) (sp end_ : Z) : option Z :=
  if sp <=? end_ then
    match fuel with
    | O => None
    | S fuel' =>
        c ← byte_at (blk s) (ptr s + sp);
        found ← strchr cset c;
        if (found : bool) then trim_left fuel' s cset (sp + 1) end_ else Some sp
    end
  else Some sp.

(** [while(ep > sp && strchr(cset, *ep)) ep--] *)
Fixpoint trim_right (fuel : nat) (s : sds) (cset : list byte) (sp ep : Z) : option Z :=
  if sp <? ep then
    match fuel with
    | O => None
    | S fuel' =>
        c ← byte_at (blk s) (ptr s + ep);
        found ← strchr cset c;
        if (found : bool) then trim_right fuel' s cset sp (ep - 1) else Some ep
    end
  else Some ep.

(** Pointers are offsets from [s]. *)
Definition sdstrim (s : sds) (cset : list byte) : option sds :=
  n ← sdslen s;
  sp ← trim_left (length (blk s)) s cset 0 (n - 1);
  ep ← trim_right (length (blk s)) s cset sp (n - 1);
  let len := if ep <? sp then 0 else ep - sp + 1 in
  s ← (if negb (sp =? 0) then bs ← sds_read s sp len; sds_write s 0 bs else Some s);
  s ← sds_write s len [0];
  sdssetlen s len.

Definition sdssubstr (s : sds) (start len : Z) : option sds :=
  oldlen ← sdslen s;
  let '(start, len) := if oldlen <=? start then (0, 0) else (start, len) in
  let len := if u64 (oldlen - start) <? len then u64 (oldlen - start) else len in
  s ← (if negb (len =? 0) then bs ← sds_read s start len; sds_write s 0 bs else Some s);
  s ← sds_write s len [0];
  sdssetlen s len.

(** The difference of the ends is computed in [ssize_t]. *)
Definition sdsrange (s : sds) (start end_ : Z) : option sds :=
  len ← sdslen s;
  if len =? 0 then Some s
  else
    let start := if start <? 0 then i64 (u64 (len + start)) else start in
    let end_ := if end_ <? 0 then i64 (u64 (len + end_)) else end_ in
    newlen ← (if end_ <? start then Some 0
              else if LLONG_MAX <? end_ - start + 1 then None
              else Some (end_ - start + 1));
    sdssubstr s (u64 start) newlen.

(** [for (j = 0; j < n; j++) s[j] = f(s[j])], from [j] on. *)
Fixpoint for_bytes (f : Z -> option Z) (n : nat) (s : sds) (j : Z) : option sds :=
  match n with
  | O => Some s
  | S n' =>
      c ← byte_at (blk s) (ptr s + j);
      c ← f c;
      s ← sds_write s j [c];
      for_bytes f n' s (j + 1)
  end.

Definition toupper (c : Z) : Z := if (97 <=? c) && (c <=? 122) then c - 32 else c.

Definition sdstolower (s : sds) : option sds :=
  len ← sdslen s; for_bytes (fun c => Some (tolower c)) (Z.to_nat len) s 0.
Definition sdstoupper (s : sds) : option sds :=
  len ← sdslen s; for_bytes (fun c => Some (toupper c)) (Z.to_nat len) s 0.

(** The inner loop of [sdsmapchars], with [setlen] characters left. *)
Fixpoint mapchar (from to : list byte) (setlen : nat) (c : Z) : option Z :=
  match setlen with
  | O => Some c
  | S n =>
      f ← head from;
      if c =? f then head to else mapchar (tail from) (tail to) n c
  end.

Definition sdsmapchars (s : sds) (from to : list byte) (setlen : Z) : option sds :=
  l ← sdslen s; for_bytes (mapchar from to (Z.to_nat setlen)) (Z.to_nat l) s 0.

(** ** Numbers *)

(** [do { *p++ = '0'+(v%10); v /= 10; } while(v)]: the buffer and [p]. *)
Fixpoint digits_loop (fuel : nat) (buf : list byte) (p v : Z) : option (list byte * Z) :=
  match fuel with
  | O => None
  | S fuel' =>
      buf ← buf_write buf p [c_0 + v mod 10];
      let v := v / 10 in
      if v =? 0 then Some (buf, p + 1) else digits_loop fuel' buf (p + 1) v
  end.

(** [while(s < p)]: exchange the bytes at both ends. *)
Fixpoint reverse_loop (fuel : nat) (buf : list byte) (s p : Z) : option (list byte) :=
  if s <? p then
    match fuel with
    | O => None
    | S fuel' =>
        aux ← byte_at buf s;
        b ← byte_at buf p;
        buf ← buf_write buf s [b];
        buf ← buf_write buf p [aux];
        reverse_loop fuel' buf (s + 1) (p - 1)
    end
  else Some buf.

(** The buffer and the length of the text in it. The negation of the least
    [long long] is undefined. *)
Definition sdsll2str (buf : list byte) (value : Z) : option (list byte * Z) :=
  v ← (if value <? 0 then if value =? LLONG_MIN then None else Some (- value) else Some value);
  '(buf, p) ← digits_loop 20 buf 0 v;
  '(buf, p) ← (if value <? 0 then buf ← buf_write buf p [c_minus]; Some (buf, p + 1) else Some (buf, p));
  let l := p in
  buf ← buf_write buf p [0];
  buf ← reverse_loop (length buf) buf 0 (p - 1);
  Some (buf, l).

Definition sdsull2str (buf : list byte) (v : Z) : option (list byte * Z) :=
  '(buf, p) ← digits_loop 20 buf 0 v;
  let l := p in
  buf ← buf_write buf p [0];
  buf ← reverse_loop (length buf) buf 0 (p - 1);
  Some (buf, l).

End Header.

(** ** Strings that are allocated

    Memory is the argument [fill], the contents of what an allocation adds,
    [usable old n], the usable size of a block of [n] bytes requested in place of
    one of [old] bytes, and [try_fails n], whether an allocation that may fail
    does. The other allocations end the process instead of failing. *)

Inductive sdsinit := SDS_NOINIT | INIT_NULL | INIT (t : list byte).

Section Sds.
Context `{Host} (fill : nat -> byte) (usable : Z -> Z -> Z) (try_fails : Z -> bool).

Definition s_realloc (l : list byte) (n : Z) : list byte := realloc fill l (usable (zlen l) n).
Definition s_malloc (n : Z) : list byte := s_realloc [] n.

(** [usable = usable-hdrlen-1], at most what the type can hold. *)
Definition usable_room (sh : list byte) (hdrlen type : Z) : Z :=
  let usable := u64 (zlen sh - hdrlen - 1) in
  if sdsTypeMaxSize type <? usable then sdsTypeMaxSize type else usable.

Definition _sdsnewlen (init : sdsinit) (initlen : Z) (trymalloc : bool) : option (option sds) :=
  let type := sdsReqType initlen in
  let type := if (type =? SDS_TYPE_5) && (initlen =? 0) then SDS_TYPE_8 else type in
  let hdrlen := sdsHdrSize type in
  if negb (initlen <? u64 (initlen + hdrlen + 1)) then None
  else
    let size := u64 (hdrlen + initlen + 1) in
    if trymalloc && try_fails size then Some None
    else
      let sh := s_malloc size in
      let usable := usable_room sh hdrlen type in
      sh ← (match init with
            | INIT_NULL => buf_write sh 0 (replicate (Z.to_nat size) 0)
            | _ => Some sh
            end);
      let s := mk_sds sh hdrlen in
      s ← (match hdr_case type with
           | HDR5 => sds_write s (-1) [u8 (Z.lor type (Z.shiftl initlen SDS_TYPE_BITS))]
           | HDR w => s ← set_hdr_len w s initlen; s ← set_hdr_alloc w s usable; sds_write s (-1) [type]
           | HDR_other => Some s
           end);
      s ← (match init with
           | INIT t => if negb (initlen =? 0) then bs ← buf_read t 0 initlen; sds_write s 0 bs else Some s
           | _ => Some s
           end);
      s ← sds_write s initlen [0];
      Some (Some s).

Definition sdsnewlen (init : sdsinit) (initlen : Z) : option sds := s ← _sdsnewlen init initlen false; s.
Definition sdstrynewlen (init : sdsinit) (initlen : Z) : option (option sds) := _sdsnewlen init initlen true.

Definition sdsempty : option sds := sdsnewlen (INIT [0]) 0.

(** [None] for NULL. *)
Definition sdsnew (init : option (list byte)) : option sds :=
  match init with
  | None => sdsnewlen INIT_NULL 0
  | Some t => initlen ← strlen t; sdsnewlen (INIT t) initlen
  end.

Definition sdsdup (s : sds) : option sds := n ← sdslen s; sdsnewlen (INIT (bytes_from s)) n.

(** Move the string and its zero into a new block with another header. *)
Definition move_block (s : sds) (len type size : Z) : option sds :=
  let hdrlen := sdsHdrSize type in
  bs ← sds_read s 0 (len + 1);
  newsh ← buf_write (s_malloc size) hdrlen bs;
  s ← sds_write (mk_sds newsh hdrlen) (-1) [type];
  sdssetlen s len.

(** Reallocation takes the start of a block. *)
Definition sdsMakeRoomFor (s : sds) (addlen : Z) : option sds :=
  avail ← sdsavail s;
  flags ← flags_of s;
  let oldtype := Z.land flags SDS_TYPE_MASK in
  if addlen <=? avail then Some s
  else
    len ← sdslen s;
    if negb (ptr s - sdsHdrSize oldtype =? 0) then None
    else
      let newlen := u64 (len + addlen) in
      if negb (len <? newlen) then None
      else
        let newlen := if newlen <? SDS_MAX_PREALLOC then u64 (newlen * 2) else u64 (newlen + SDS_MAX_PREALLOC) in
        let type := sdsReqType newlen in
        let type := if type =? SDS_TYPE_5 then SDS_TYPE_8 else type in
        let hdrlen := sdsHdrSize type in
        let size := u64 (hdrlen + newlen + 1) in
        if negb (len <? size) then None
        else
          s ← (if oldtype =? type then Some (mk_sds (s_realloc (blk s) size) hdrlen)
               else move_block s len type size);
          sdssetalloc s (usable_room (blk s) hdrlen type).

Definition sdsRemoveFreeSpace (s : sds) : option sds :=
  flags ← flags_of s;
  let oldtype := Z.land flags SDS_TYPE_MASK in
  let oldhdrlen := sdsHdrSize oldtype in
  len ← sdslen s;
  avail ← sdsavail s;
  if avail =? 0 then Some s
  else if negb (ptr s - oldhdrlen =? 0) then None
  else
    let type := sdsReqType len in
    let hdrlen := sdsHdrSize type in
    s ← (if (oldtype =? type) || (SDS_TYPE_8 <? type)
         then Some (mk_sds (s_realloc (blk s) (u64 (oldhdrlen + len + 1))) oldhdrlen)
         else move_block s len type (u64 (hdrlen + len + 1)));
    sdssetalloc s len.

Definition sdsgrowzero (s : sds) (len : Z) : option sds :=
  curlen ← sdslen s;
  if len <=? curlen then Some s
  else
    s ← sdsMakeRoomFor s (len - curlen);
    s ← sds_write s curlen (replicate (Z.to_nat (len - curlen + 1)) 0);
    sdssetlen s len.

Definition sdscatlen (s : sds) (t : list byte) (len : Z) : option sds :=
  curlen ← sdslen s;
  s ← sdsMakeRoomFor s len;
  bs ← buf_read t 0 len;
  s ← sds_write s curlen bs;
  s ← sdssetlen s (u64 (curlen + len));
  sds_write s (u64 (curlen + len)) [0].

Definition sdscat (s : sds) (t : list byte) : option sds := n ← strlen t; sdscatlen s t n.
Definition sdscatsds (s t : sds) : option sds := n ← sdslen t; sdscatlen s (bytes_from t) n.

Definition sdscpylen (s : sds) (t : list byte) (len : Z) : option sds :=
  alloc ← sdsalloc s;
  s ← (if alloc <? len then n ← sdslen s; sdsMakeRoomFor s (u64 (len - n)) else Some s);
  bs ← buf_read t 0 len;
  s ← sds_write s 0 bs;
  s ← sds_write s len [0];
  sdssetlen s len.

Definition sdscpy (s : sds) (t : list byte) : option sds := n ← strlen t; sdscpylen s t n.

(** The bytes of a local array. *)
Definition uninit (n : Z) : list byte := map fill (seq 0 (Z.to_nat n)).

Definition sdsfromlonglong (value : Z) : option sds :=
  '(buf, len) ← sdsll2str (uninit SDS_LLSTR_SIZE) value;
  sdsnewlen (INIT buf) len.

(** ** Formats *)

(** [vsnprintf] of a format that produces [text]: what fits, with a zero at the
    end; the result is the length of the text, negative if it is not an [int]. *)
Definition vsnprintf (buf text : list byte) : option (list byte * Z) :=
  if INT32_MAX <? zlen text then Some (buf, -1)
  else
    buf ← (if zlen buf =? 0 then Some buf else buf_write buf 0 (take (length buf - 1) text ++ [0]));
    Some (buf, zlen text).

(** [while(1)]: the buffer and the length of the text, or an error. *)
Fixpoint vprintf_loop (fuel : nat) (buf text : list byte) : option (option (list byte * Z)) :=
  match fuel with
  | O => None
  | S fuel' =>
      '(buf, bufstrlen) ← vsnprintf buf text;
      if bufstrlen <? 0 then Some None
      else if zlen buf <=? bufstrlen then vprintf_loop fuel' (uninit (bufstrlen + 1)) text
      else Some (Some (buf, bufstrlen))
  end.

(** The format is given by its length and the text it produces. *)
Definition sdscatvprintf (s : sds) (fmtlen : Z) (text : list byte) : option (option sds) :=
  let buflen := u64 (fmtlen * 2) in
  let buf := uninit (if 1024 <? buflen then buflen else 1024) in
  r ← vprintf_loop 2 buf text;
  match r with
  | None => Some None
  | Some (buf, bufstrlen) => t ← sdscatlen s buf bufstrlen; Some (Some t)
  end.

Definition sdscatprintf (s : sds) (fmtlen : Z) (text : list byte) : option (option sds) := sdscatvprintf s fmtlen text.

(** Arguments after the format. *)
Inductive fmtarg := ACstr (t : list byte) | ASds (t : sds) | AInt (v : Z) | ALongLong (v : Z) | AUint (v : Z) | AUlongLong (v : Z).

(** Copy [l] bytes of [str] to [s+i], with room made. *)
Definition fmt_append (s : sds) (i : Z) (str : list byte) (l : Z) : option (sds * Z) :=
  avail ← sdsavail s;
  s ← (if avail <? l then sdsMakeRoomFor s l else Some s);
  bs ← buf_read str 0 l;
  s ← sds_write s i bs;
  s ← sdsinclen s l;
  Some (s, i + l).

(** The specifier [next]; a wrong argument is undefined. *)
Definition fmt_spec (s : sds) (i : Z) (next : Z) (ap : list fmtarg) : option (sds * Z * list fmtarg) :=
  if (next =? 115) || (next =? 83) then
    '(str, l, ap) ← (match ap with
                     | ACstr t :: ap => if next =? 115 then l ← strlen t; Some (t, l, ap) else None
                     | ASds t :: ap => if next =? 83 then l ← sdslen t; Some (bytes_from t, l, ap) else None
                     | _ => None
                     end);
    '(s, i) ← fmt_append s i str l; Some (s, i, ap)
  else if (next =? 105) || (next =? 73) then
    '(num, ap) ← (match ap with
                  | AInt v :: ap => if next =? 105 then Some (v, ap) else None
                  | ALongLong v :: ap => if next =? 73 then Some (v, ap) else None
                  | _ => None
                  end);
    '(buf, l) ← sdsll2str (uninit SDS_LLSTR_SIZE) num;
    '(s, i) ← fmt_append s i buf l; Some (s, i, ap)
  else if (next =? 117) || (next =? 85) then
    '(unum, ap) ← (match ap with
                   | AUint v :: ap => if next =? 117 then Some (v, ap) else None
                   | AUlongLong v :: ap => if next =? 85 then Some (v, ap) else None
                   | _ => None
                   end);
    '(buf, l) ← sdsull2str (uninit SDS_LLSTR_SIZE) unum;
    '(s, i) ← fmt_append s i buf l; Some (s, i, ap)
  else
    s ← sds_write s i [next];
    s ← sdsinclen s 1;
    Some (s, i + 1, ap).

(** [while( *f)] *)
Fixpoint fmt_loop (fuel : nat) (s : sds) (f : list byte) (ap : list fmtarg) (i : Z) : option (sds * Z) :=
  c ← head f;
  if c =? 0 then Some (s, i)
  else
    match fuel with
    | O => None
    | S fuel' =>
        avail ← sdsavail s;
        s ← (if avail =? 0 then sdsMakeRoomFor s 1 else Some s);
        if c =? 37 then
          let f := tail f in
          next ← head f;
          '(s, i, ap) ← fmt_spec s i next ap;
          fmt_loop fuel' s (tail f) ap i
        else
          s ← sds_write s i [c];
          s ← sdsinclen s 1;
          fmt_loop fuel' s (tail f) ap (i + 1)
    end.

Definition sdscatfmt (s : sds) (fmt : list byte) (ap : list fmtarg) : option sds :=
  initlen ← sdslen s;
  n ← strlen fmt;
  s ← sdsMakeRoomFor s (u64 (n * 2));
  '(s, i) ← fmt_loop (length fmt) s fmt ap initlen;
  sds_write s i [0].

(** ** Splitting and joining *)

(** The [for] loop: the tokens, the number of slots and [start]. A token is
    stored at the index of their number, which must be one of the slots. *)
Fixpoint split_loop (fuel : nat) (s : list byte) (len : Z) (sep : list byte) (seplen slots : Z) (tokens : list sds) (start j : Z)
    : option (list sds * Z * Z) :=
  if j <? len - (seplen - 1) then
    match fuel with
    | O => None
    | S fuel' =>
        let elements := zlen tokens in
        slots ← (if slots <? elements + 2 then if INT32_MAX <? slots * 2 then None else Some (slots * 2) else Some slots);
        b ← byte_at s j;
        b0 ← byte_at sep 0;
        hit ← (if (seplen =? 1) && (b =? b0) then Some true
               else x ← buf_read s j seplen; y ← buf_read sep 0 seplen; Some (bool_decide (x = y)));
        if (hit : bool) then
          if slots <=? elements then None
          else
            token ← sdsnewlen (INIT (drop (Z.to_nat start) s)) (j - start);
            split_loop fuel' s len sep seplen slots (tokens ++ [token]) (j + seplen) (j + seplen - 1 + 1)
        else split_loop fuel' s len sep seplen slots tokens start (j + 1)
    end
  else Some (tokens, slots, start).

(** An inner [None] is the result NULL. *)
Definition sdssplitlen (s : list byte) (len : Z) (sep : list byte) (seplen : Z) : option (option (list sds)) :=
  if (seplen <? 1) || (len <? 0) then Some None
  else if len =? 0 then Some (Some [])
  else
    '(tokens, slots, start) ← split_loop (Z.to_nat len) s len sep seplen 5 [] 0 0;
    if slots <=? zlen tokens then None
    else
      token ← sdsnewlen (INIT (drop (Z.to_nat start) s)) (len - start);
      Some (Some (tokens ++ [token])).

(** [for (j = 0; j < argc; j++)], on the elements left. *)
Fixpoint join_loop (join : sds) (argv : list (list byte)) (sep : list byte) : option sds :=
  match argv with
  | [] => Some join
  | a :: argv' =>
      join ← sdscat join a;
      join ← (match argv' with [] => Some join | _ => sdscat join sep end);
      join_loop join argv' sep
  end.

Definition sdsjoin (argv : list (list byte)) (sep : list byte) : option sds :=
  join ← sdsempty; join_loop join argv sep.

Fixpoint joinsds_loop (join : sds) (argv : list sds) (sep : list byte) (seplen : Z) : option sds :=
  match argv with
  | [] => Some join
  | a :: argv' =>
      join ← sdscatsds join a;
      join ← (match argv' with [] => Some join | _ => sdscatlen join sep seplen end);
      joinsds_loop join argv' sep seplen
  end.

Definition sdsjoinsds (argv : list sds) (sep : list byte) (seplen : Z) : option sds :=
  join ← sdsempty; joinsds_loop join argv sep seplen.

(** ** Quoting *)

Definition isprint (c : Z) : bool := (32 <=? c) && (c <? 127).

(** A digit of [%x]. *)
Definition hexchar (d : Z) : Z := if d <? 10 then c_0 + d else 97 + (d - 10).

(** The result of [sdscatprintf], which is used without a check. *)
Definition catprintf (s : sds) (fmtlen : Z) (text : list byte) : option sds := r ← sdscatprintf s fmtlen text; r.

(** The body of the loop: the representation of one byte. *)
Definition repr_byte (s : sds) (c : Z) : option sds :=
  if (c =? 92) || (c =? 34) then catprintf s 3 [92; c]
  else if c =? 10 then sdscatlen s [92; 110; 0] 2
  else if c =? 13 then sdscatlen s [92; 114; 0] 2
  else if c =? 9 then sdscatlen s [92; 116; 0] 2
  else if c =? 7 then sdscatlen s [92; 97; 0] 2
  else if c =? 8 then sdscatlen s [92; 98; 0] 2
  else if isprint c then catprintf s 2 [c]
  else catprintf s 6 [92; 120; hexchar (c / 16); hexchar (c mod 16)].

(** [while(len--)] *)
Fixpoint repr_loop (s : sds) (p : list byte) (len : nat) : option sds :=
  match len with
  | O => Some s
  | S len' => c ← head p; s ← repr_byte s c; repr_loop s (tail p) len'
  end.

Definition sdscatrepr (s : sds) (p : list byte) (len : Z) : option sds :=
  s ← sdscatlen s [34; 0] 1;
  s ← repr_loop s p (Z.to_nat len);
  sdscatlen s [34; 0] 1.

Definition is_hex_digit (c : Z) : bool :=
  ((48 <=? c) && (c <=? 57)) || ((97 <=? c) && (c <=? 102)) || ((65 <=? c) && (c <=? 70)).

Definition hex_digit_to_int (c : Z) : Z :=
  if (48 <=? c) && (c <=? 57) then c - 48
  else if (97 <=? c) && (c <=? 102) then c - 97 + 10
  else if (65 <=? c) && (c <=? 70) then c - 65 + 10
  else 0.

(** Where the loop over the bytes of an argument is: outside quotes, in double
    or in single ones ([inq], [insq]). *)
Inductive quoting := Q_NONE | Q_DOUBLE | Q_SINGLE.

(** What one iteration leads to: the error exit, or the new [p] (before the
    increment at the end), state and argument, and whether it is [done]. *)
Inductive argstep := ARG_ERR | ARG_STEP (p : list byte) (q : quoting) (current : sds) (done : bool).

(** A closing quote must be followed by a space or nothing at all. *)
Definition close_quote (p : list byte) (q : quoting) (current : sds) : option argstep :=
  c1 ← p !! 1%nat;
  Some (if negb (c1 =? 0) && negb (isspace c1) then ARG_ERR else ARG_STEP p q current true).

(** [*p == '\\' && *(p+1) == 'x' && is_hex_digit( *(p+2)) && is_hex_digit( *(p+3))]:
    the byte, if so. *)
Definition hex_escape (p : list byte) : option (option Z) :=
  c ← p !! 0%nat;
  if negb (c =? 92) then Some None
  else
    c1 ← p !! 1%nat;
    if negb (c1 =? 120) then Some None
    else
      c2 ← p !! 2%nat;
      if negb (is_hex_digit c2) then Some None
      else
        c3 ← p !! 3%nat;
        if negb (is_hex_digit c3) then Some None
        else Some (Some (u8 (hex_digit_to_int c2 * 16 + hex_digit_to_int c3))).

Definition unescape (c : Z) : Z :=
  if c =? 110 then 10 else if c =? 114 then 13 else if c =? 116 then 9 else if c =? 98 then 8 else if c =? 97 then 7 else c.

(** [if (inq)] *)
Definition step_double (p : list byte) (current : sds) : option argstep :=
  c ← p !! 0%nat;
  hex ← hex_escape p;
  match hex with
  | Some byte => current ← sdscatlen current [byte] 1; Some (ARG_STEP (drop 3 p) Q_DOUBLE current false)
  | None =>
      escape ← (if c =? 92 then c1 ← p !! 1%nat; Some (negb (c1 =? 0)) else Some false);
      if (escape : bool) then
        let p := tail p in
        c ← p !! 0%nat;
        current ← sdscatlen current [unescape c] 1;
        Some (ARG_STEP p Q_DOUBLE current false)
      else if c =? 34 then close_quote p Q_DOUBLE current
      else if c =? 0 then Some ARG_ERR
      else current ← sdscatlen current p 1; Some (ARG_STEP p Q_DOUBLE current false)
  end.

(** [else if (insq)] *)
Definition step_single (p : list byte) (current : sds) : option argstep :=
  c ← p !! 0%nat;
  escape ← (if c =? 92 then c1 ← p !! 1%nat; Some (c1 =? 39) else Some false);
  if (escape : bool) then
    current ← sdscatlen current [39; 0] 1; Some (ARG_STEP (tail p) Q_SINGLE current false)
  else if c =? 39 then close_quote p Q_SINGLE current
  else if c =? 0 then Some ARG_ERR
  else current ← sdscatlen current p 1; Some (ARG_STEP p Q_SINGLE current false).

(** Outside quotes. *)
Definition step_plain (p : list byte) (current : sds) : option argstep :=
  c ← p !! 0%nat;
  if (c =? 32) || (c =? 10) || (c =? 13) || (c =? 9) || (c =? 0) then Some (ARG_STEP p Q_NONE current true)
  else if c =? 34 then Some (ARG_STEP p Q_DOUBLE current false)
  else if c =? 39 then Some (ARG_STEP p Q_SINGLE current false)
  else current ← sdscatlen current p 1; Some (ARG_STEP p Q_NONE current false).

(** [while(!done)]: [p] and the argument, or the error. *)
Fixpoint arg_loop (fuel : nat) (p : list byte) (q : quoting) (current : sds) : option (option (list byte * sds)) :=
  match fuel with
  | O => None
  | S fuel' =>
      r ← (match q with Q_DOUBLE => step_double p current | Q_SINGLE => step_single p current | Q_NONE => step_plain p current end);
      match r with
      | ARG_ERR => Some None
      | ARG_STEP p q current done =>
          c ← p !! 0%nat;
          let p := if negb (c =? 0) then tail p else p in
          if (done : bool) then Some (Some (p, current)) else arg_loop fuel' p q current
      end
  end.

(** [while( *p && isspace( *p)) p++] *)
Fixpoint skip_blanks (p : list byte) : option (list byte) :=
  match p with
  | [] => None
  | c :: p' => if negb (c =? 0) && isspace c then skip_blanks p' else Some p
  end.

(** [while(1)]: an inner [None] is the result NULL. *)
Fixpoint args_loop (fuel : nat) (p : list byte) (vector : list sds) : option (option (list sds)) :=
  match fuel with
  | O => None
  | S fuel' =>
      p ← skip_blanks p;
      c ← p !! 0%nat;
      if negb (c =? 0) then
        current ← sdsempty;
        r ← arg_loop (S (length p)) p Q_NONE current;
        match r with
        | None => Some None
        | Some (p, current) => args_loop fuel' p (vector ++ [current])
        end
      else Some (Some vector)
  end.

Definition sdssplitargs (line : list byte) : option (option (list sds)) := args_loop (S (length line)) line [].

(** ** Templates *)

(** The offset of the first [c], if there is one before the zero. *)
Fixpoint strchr_at (t : list byte) (c : Z) : option (option Z) :=
  match t with
  | [] => None
  | x :: t' =>
      if x =? c then Some (Some 0)
      else if x =? 0 then Some None
      else r ← strchr_at t' c; Some (match r with Some i => Some (1 + i) | None => None end)
  end.

(** [while ( *p)]: an inner [None] is the result NULL. [cb_func] gives the value
    of a variable, or NULL. *)
Fixpoint template_loop (fuel : nat) (cb_func : sds -> option (option sds)) (res : sds) (p : list byte) : option (option sds) :=
  c ← head p;
  if c =? 0 then Some (Some res)
  else
    match fuel with
    | O => None
    | S fuel' =>
        sv ← strchr_at p 123;
        match sv with
        | None => res ← sdscat res p; Some (Some res)
        | Some n =>
            res ← (if 0 <? n then sdscatlen res p n else Some res);
            let sv := drop (Z.to_nat (n + 1)) p in
            c ← head sv;
            if c =? 0 then Some None
            else if c =? 123 then res ← sdscat res [123; 0]; template_loop fuel' cb_func res (tail sv)
            else
              ev ← strchr_at sv 125;
              match ev with
              | None => Some None
              | Some m =>
                  varname ← sdsnewlen (INIT sv) m;
                  value ← cb_func varname;
                  match value with
                  | None => Some None
                  | Some value =>
                      res ← sdscat res (bytes_from value);
                      template_loop fuel' cb_func res (drop (Z.to_nat (m + 1)) sv)
                  end
              end
        end
    end.

Definition sdstemplate (template : list byte) (cb_func : sds -> option (option sds)) : option (option sds) :=
  res ← sdsempty; template_loop (length template) cb_func res template.

End Sds.
