(* ===== verification/SdsFacts.v ===== *)
(** * The memory of a dynamic string

    [sds_mem t n al s body]: the header of [s] has the type [t], the length [n]
    and the room [al], and [body] is the rest of the block. [sds_rep s x] says
    that [s] is the text [x]. Reading and changing the header and the body, and
    making room, are described on this view. *)

From stdpp Require Import base list option.
From Stdlib Require Import ZArith Lia Bool.
From S2P Require Import Prelude Endian Util Sds.

Local Open Scope Z_scope.

(** The width of the fields of a type. *)
Definition type_width (t : Z) : nat := if t =? 1 then 1 else if t =? 2 then 2 else if t =? 3 then 4 else 8.

Section Mem.
Context `{Host}.

Definition sds_hdr (t n al : Z) : list byte :=
  if t =? 0 then [Z.shiftl n 3] else native_store (type_width t) n ++ native_store (type_width t) al ++ [t].

(** What a header of type [t] can say. *)
Definition hdr_ok (t n al : Z) : Prop :=
  0 <= n <= al /\ ((t = 0 /\ n = al /\ al < 32) \/ (1 <= t <= 4 /\ al < 256 ^ Z.of_nat (type_width t))).

Record sds_mem (t n al : Z) (s : sds) (body : list byte) : Prop := {
  mem_hdr : hdr_ok t n al;
  mem_ptr : ptr s = sdsHdrSize t;
  mem_blk : blk s = sds_hdr t n al ++ body;
  mem_room : al + 1 <= zlen body;
}.

(** A string under construction: [c] is the byte after the text. *)
Definition sds_open (c : byte) (s : sds) (x : list byte) : Prop :=
  exists t al rest, sds_mem t (zlen x) al s (x ++ c :: rest).

Definition sds_rep (s : sds) (x : list byte) : Prop := sds_open 0 s x.

(** ** Types *)

Lemma type_cases t n al : hdr_ok t n al -> t = 0 \/ t = 1 \/ t = 2 \/ t = 3 \/ t = 4.
Proof. intros (_ & [(-> & _)|(? & _)]); lia. Qed.

Lemma hdr_case_wide t : 1 <= t <= 4 -> hdr_case t = HDR (type_width t) /\ sdsHdrSize t = 2 * Z.of_nat (type_width t) + 1 /\
  Z.land t SDS_TYPE_MASK = t /\ (t =? 0) = false /\ sdsTypeMaxSize t = 256 ^ Z.of_nat (type_width t) - 1.
Proof. intros Ht. assert (t = 1 \/ t = 2 \/ t = 3 \/ t = 4) as [->|[->|[->| ->]]] by lia; vm_compute; done. Qed.

Lemma hdr_case_5 n : 0 <= n < 32 -> hdr_case (Z.shiftl n 3) = HDR5 /\ Z.land (Z.shiftl n 3) SDS_TYPE_MASK = 0 /\ SDS_TYPE_5_LEN (Z.shiftl n 3) = n.
Proof.
  intros Hn. assert (Z.land (Z.shiftl n 3) SDS_TYPE_MASK = 0) as Hz.
  { change SDS_TYPE_MASK with (Z.ones 3). rewrite Z.land_ones, Z.shiftl_mul_pow2 by lia. by apply Z.mod_mul. }
  split_and!; [|done|].
  - unfold hdr_case. by rewrite Hz.
  - unfold SDS_TYPE_5_LEN, SDS_TYPE_BITS. rewrite Z.shiftr_shiftl_l by lia. apply Z.shiftl_0_r.
Qed.

Lemma sds_hdr_zlen t n al : hdr_ok t n al -> zlen (sds_hdr t n al) = sdsHdrSize t.
Proof.
  intros (_ & [(-> & _)|(Ht & _)]); [done|]. destruct (hdr_case_wide t Ht) as (_ & -> & _ & Hn & _). unfold sds_hdr. rewrite Hn.
  rewrite !zlen_app. unfold zlen. rewrite !native_store_length. cbn [length]. lia.
Qed.

Lemma hdr_size_pos t : 1 <= sdsHdrSize t \/ sdsHdrSize t = 0.
Proof. unfold sdsHdrSize. destruct (hdr_case t); lia. Qed.

Lemma sdsReqType_spec n : 0 <= n < 2 ^ 64 -> let t := sdsReqType n in 0 <= t <= 4 /\ n <= sdsTypeMaxSize t.
Proof. intros Hn. unfold sdsReqType. cbv [SDS_TYPE_5 SDS_TYPE_8 SDS_TYPE_16 SDS_TYPE_32 SDS_TYPE_64]. change (Z.shiftl 1 5) with 32. change (Z.shiftl 1 8) with 256. change (Z.shiftl 1 16) with 65536. change (Z.shiftl 1 32) with (2 ^ 32). repeat case_if; cbn zeta; split; try lia.
  all: match goal with |- _ <= ?m => let v := eval vm_compute in m in change m with v end; lia.
Qed.

(** ** Reading and writing *)

Lemma buf_read_skip h b k m bs : buf_read b k m = Some bs -> buf_read (h ++ b) (zlen h + k) m = Some bs.
Proof. intros (a & c & -> & -> & ->)%buf_read_Some. rewrite app_assoc. apply buf_read_app; [by rewrite zlen_app|done]. Qed.

Lemma buf_write_inv b k bs b' : buf_write b k bs = Some b' -> exists a m c, b = a ++ m ++ c /\ b' = a ++ bs ++ c /\ length m = length bs /\ k = zlen a.
Proof.
  unfold buf_write. intros E. case_if_in E; [|done]. injection E as <-. exists (take (Z.to_nat k) b), (take (length bs) (drop (Z.to_nat k) b)), (drop (Z.to_nat k + length bs) b).
  rewrite <- drop_drop, take_drop, take_drop. unfold zlen in *. rewrite !length_take, length_drop. split_and!; [done|done|lia..].
Qed.

Lemma buf_write_skip h b k bs b' : buf_write b k bs = Some b' -> buf_write (h ++ b) (zlen h + k) bs = Some (h ++ b').
Proof.
  intros (a & m & c & -> & -> & Hl & ->)%buf_write_inv. rewrite !(app_assoc h a). apply buf_write_app; [by rewrite zlen_app|done].
Qed.

Lemma buf_write_in b k bs : 0 <= k -> k + zlen bs <= zlen b -> exists b', buf_write b k bs = Some b' /\ zlen b' = zlen b.
Proof.
  intros Hk Hb. destruct (buf_write b k bs) as [b'|] eqn:E.
  - exists b'. split; [done|]. apply buf_write_length in E. unfold zlen. lia.
  - unfold buf_write in E. rewrite (proj2 (Z.leb_le 0 k)), (proj2 (Z.leb_le _ _)) in E by lia. done.
Qed.

Section Access.
Context t n al s body (Hm : sds_mem t n al s body).

Lemma mem_flags : exists f, flags_of s = Some f /\ Z.land f SDS_TYPE_MASK = t /\ sdsHdrSize f = sdsHdrSize t /\
  ((t = 0 /\ hdr_case f = HDR5 /\ SDS_TYPE_5_LEN f = n) \/ (1 <= t <= 4 /\ hdr_case f = HDR (type_width t))).
Proof.
  destruct Hm as [Hok Hp Hb _]. unfold flags_of. rewrite <- (sds_hdr_zlen t n al Hok) in Hp. rewrite Hp, Hb. destruct Hok as (Hn & [(-> & -> & H32)|(Ht & _)]).
  - exists (Z.shiftl al 3). destruct (hdr_case_5 al) as (H1 & H2 & H3); [lia|]. split_and!; [done|done| |by left].
    unfold sdsHdrSize. by rewrite H1.
  - destruct (hdr_case_wide t Ht) as (H1 & H2 & H3 & H4 & _). exists t. split_and!; [|exact H3|reflexivity|right; done].
    unfold sds_hdr. rewrite H4. rewrite app_assoc, zlen_app. change (zlen [t]) with 1. rewrite <- (app_assoc _ [t]).
    match goal with |- byte_at (?a ++ _) _ = _ => replace (zlen a + 1 - 1) with (zlen a) by lia end. apply byte_at_app.
Qed.

Lemma mem_read k m bs : buf_read body k m = Some bs -> sds_read s k m = Some bs.
Proof. destruct Hm as [Hok Hp Hb _]. intros E. unfold sds_read. rewrite Hp, Hb, <- (sds_hdr_zlen t n al Hok). by apply buf_read_skip. Qed.

Lemma mem_byte k c : byte_at body k = Some c -> byte_at (blk s) (ptr s + k) = Some c.
Proof.
  destruct Hm as [Hok Hp Hb _]. intros E. rewrite Hp, Hb, <- (sds_hdr_zlen t n al Hok), <- (app_nil_r body). by apply byte_at_local.
Qed.

Lemma mem_write k bs body' : buf_write body k bs = Some body' -> exists s', sds_write s k bs = Some s' /\ sds_mem t n al s' body'.
Proof.
  destruct Hm as [Hok Hp Hb Hr]. intros E. eexists. split.
  - unfold sds_write. rewrite Hp, Hb, <- (sds_hdr_zlen t n al Hok). rewrite (buf_write_skip _ _ _ _ _ E). done.
  - apply buf_write_length in E. split; cbn; [done|by apply sds_hdr_zlen|done|]. unfold zlen in *. lia.
Qed.

Lemma mem_from : bytes_from s = body.
Proof. destruct Hm as [Hok Hp Hb Hr]. unfold bytes_from. rewrite Hp, Hb, <- (sds_hdr_zlen t n al Hok), zlen_to_nat. apply drop_app_length. Qed.

Lemma mem_alloc_pos : 0 <= n <= al /\ al < 2 ^ 64.
Proof.
  destruct (mem_hdr _ _ _ _ _ Hm) as (Hn & [(-> & _ & H32)|(Ht & Hal)]); [lia|]. split; [done|]. eapply Z.lt_le_trans; [done|].
  change (2 ^ 64) with (256 ^ 8). apply Z.pow_le_mono_r; [lia|]. unfold type_width. repeat case_if; lia.
Qed.

End Access.

Lemma native_load_store_small w v : 0 <= v < 256 ^ Z.of_nat w -> native_load (native_store w v) = v.
Proof. intros. by rewrite native_load_store, Z.mod_small. Qed.

(** ** The header *)

Section Wide.
Context t n al s body (Hm : sds_mem t n al s body) (Ht : 1 <= t <= 4).

Lemma wide_blk : ptr s = 2 * Z.of_nat (type_width t) + 1 /\ blk s = native_store (type_width t) n ++ native_store (type_width t) al ++ [t] ++ body /\
  0 <= n <= al /\ al < 256 ^ Z.of_nat (type_width t) /\ al + 1 <= zlen body.
Proof.
  destruct Hm as [(Hn & Hok) Hp Hb Hr]. destruct (hdr_case_wide t Ht) as (_ & H2 & _ & H4 & _). rewrite Hp, Hb, H2. unfold sds_hdr. rewrite H4. rewrite <- !app_assoc.
  destruct Hok as [(-> & _)|(_ & Hal)]; [lia|]. done.
Qed.

Lemma wide_make n' al' : 0 <= n' <= al' -> al' < 256 ^ Z.of_nat (type_width t) -> al' + 1 <= zlen body ->
  sds_mem t n' al' (mk_sds (native_store (type_width t) n' ++ native_store (type_width t) al' ++ [t] ++ body) (ptr s)) body.
Proof.
  intros Hn Hal Hr. destruct wide_blk as (Hp & _). destruct (hdr_case_wide t Ht) as (_ & H2 & _ & H4 & _). split; cbn [blk ptr].
  - split; [done|]. by right.
  - by rewrite H2, Hp.
  - unfold sds_hdr. rewrite H4. by rewrite <- !app_assoc.
  - done.
Qed.

Lemma store_zlen w v : zlen (native_store w v) = Z.of_nat w.
Proof. unfold zlen. by rewrite native_store_length. Qed.

Lemma wide_len : hdr_len (type_width t) s = Some n.
Proof.
  destruct wide_blk as (Hp & Hb & Hn & Hal & _). unfold hdr_len, sds_read. rewrite Hp, Hb. rewrite Z.add_opp_diag_r. rewrite <- (app_nil_l (native_store _ n ++ _)).
  rewrite buf_read_app by (rewrite ?store_zlen; done). cbn [mbind option_bind]. rewrite native_load_store_small by lia. done.
Qed.

Lemma wide_alloc : hdr_alloc (type_width t) s = Some al.
Proof.
  destruct wide_blk as (Hp & Hb & Hn & Hal & _). unfold hdr_alloc, sds_read. rewrite Hp, Hb. rewrite buf_read_app by (rewrite ?store_zlen; lia).
  cbn [mbind option_bind]. rewrite native_load_store_small by lia. done.
Qed.

Lemma wide_set_len n' : 0 <= n' <= al -> exists s', set_hdr_len (type_width t) s n' = Some s' /\ sds_mem t n' al s' body.
Proof.
  destruct wide_blk as (Hp & Hb & Hn & Hal & Hr). intros Hn'. eexists. split; [|apply (wide_make n' al Hn' Hal Hr)]. unfold set_hdr_len, sds_write. rewrite Hb, Hp, Z.add_opp_diag_r.
  rewrite <- (app_nil_l (native_store _ n ++ _)), buf_write_app by (rewrite ?native_store_length; done). done.
Qed.

Lemma wide_set_alloc al' : n <= al' < 256 ^ Z.of_nat (type_width t) -> al' + 1 <= zlen body ->
  exists s', set_hdr_alloc (type_width t) s al' = Some s' /\ sds_mem t n al' s' body.
Proof.
  destruct wide_blk as (Hp & Hb & Hn & Hal & Hr). intros Hn' Hr'. eexists. split; [|apply (wide_make n al'); lia]. unfold set_hdr_alloc, sds_write. rewrite Hb, Hp.
  rewrite buf_write_app by (rewrite ?native_store_length, ?store_zlen; lia). done.
Qed.

End Wide.

Section Fields.
Context t n al s body (Hm : sds_mem t n al s body).

Ltac by_flags :=
  let f := fresh "f" in let Hf := fresh "Hf" in let E := fresh "E" in
  destruct (mem_flags t n al s body Hm) as (f & Hf & _ & _ & [(-> & E & ?)|(? & E)]); rewrite Hf; cbn [mbind option_bind]; rewrite E.

Lemma sdslen_mem : sdslen s = Some n.
Proof. unfold sdslen. by_flags; [congruence|]. eapply wide_len; eauto. Qed.

Lemma sdsalloc_mem : sdsalloc s = Some al.
Proof. unfold sdsalloc. by_flags; [|eapply wide_alloc; eauto]. destruct (mem_hdr _ _ _ _ _ Hm) as (_ & [(_ & -> & _)|?]); [congruence|lia]. Qed.

Lemma sdsavail_mem : sdsavail s = Some (al - n).
Proof.
  unfold sdsavail. by_flags.
  - destruct (mem_hdr _ _ _ _ _ Hm) as (_ & [(_ & -> & _)|?]); [|lia]. f_equal. lia.
  - erewrite wide_alloc, wide_len by eauto. cbn [mbind option_bind]. f_equal. destruct (wide_blk _ _ _ _ _ Hm ltac:(done)) as (_ & _ & Hn & Hal & _).
    destruct (mem_alloc_pos t n al s body Hm). unfold hdr_room. destruct (Nat.eqb_spec (type_width t) 4) as [E4|]; [|apply u64_small; lia]. rewrite E4 in Hal. change (256 ^ Z.of_nat 4) with (2 ^ 32) in Hal. apply u32_small. lia.
Qed.

Lemma sdssetlen_mem n' : 0 <= n' <= al -> exists s', sdssetlen s n' = Some s' /\ sds_mem t n' (if t =? 0 then n' else al) s' body.
Proof.
  intros Hn'. unfold sdssetlen. by_flags.
  - destruct Hm as [(Hn & [(_ & -> & H32)|?]) Hp Hb Hr]; [|lia]. unfold sds_write. rewrite Hb, Hp. change (sdsHdrSize 0 + -1) with 0. change (sds_hdr 0 al al) with [Z.shiftl al 3].
    rewrite <- (app_nil_l ([_] ++ body)), buf_write_app by done. eexists. split; [done|]. cbn [Z.eqb]. split; cbn [blk ptr]; [|done| |lia].
    + split; [lia|]. left. lia.
    + cbn [app]. unfold sds_hdr. cbn [Z.eqb app]. f_equal. unfold SDS_TYPE_5, SDS_TYPE_BITS. rewrite Z.lor_0_l. apply wrap_small. rewrite Z.shiftl_mul_pow2 by lia. lia.
  - assert ((t =? 0) = false) as -> by lia. eapply wide_set_len; eauto.
Qed.

Lemma sdssetalloc_mem al' : 1 <= t <= 4 -> n <= al' < 256 ^ Z.of_nat (type_width t) -> al' + 1 <= zlen body ->
  exists s', sdssetalloc s al' = Some s' /\ sds_mem t n al' s' body.
Proof. intros Ht Ha Hr. unfold sdssetalloc. by_flags; [lia|]. eapply wide_set_alloc; eauto. Qed.

Lemma sdsinclen_mem inc : 0 <= inc -> n + inc <= al -> exists s', sdsinclen s inc = Some s' /\ sds_mem t (n + inc) (if t =? 0 then n + inc else al) s' body.
Proof.
  intros Hi Hle. destruct (sdssetlen_mem (n + inc)) as (s' & Hs & Hm'); [destruct (mem_alloc_pos t n al s body Hm); lia|]. exists s'. split; [|done].
  revert Hs. unfold sdssetlen, sdsinclen. by_flags.
  - intros <-. destruct (mem_hdr _ _ _ _ _ Hm) as (Hn & [(_ & -> & H32)|?]); [|lia]. rewrite_if_true || idtac. assert (SDS_TYPE_5_LEN f = al) as -> by done. by rewrite (wrap_small 8 (al + inc)) by lia.
  - erewrite wide_len by eauto. done.
Qed.

End Fields.

(** ** Blocks *)

Lemma zlen_split {A} (l : list A) k : 0 <= k <= zlen l -> exists a c, l = a ++ c /\ zlen a = k.
Proof. intros Hk. exists (take (Z.to_nat k) l), (drop (Z.to_nat k) l). rewrite take_drop. split; [done|]. unfold zlen in *. rewrite length_take. lia. Qed.

Lemma zlen_same {A B} (l : list A) (k : list B) : zlen l = zlen k -> length l = length k.
Proof. unfold zlen. lia. Qed.

Lemma hdr_case_type t : 0 <= t <= 4 -> Z.land t SDS_TYPE_MASK = t /\ (t = 0 /\ hdr_case t = HDR5 /\ sdsHdrSize t = 1 \/ 1 <= t <= 4 /\ hdr_case t = HDR (type_width t)).
Proof. intros Ht. destruct (Z.eq_dec t 0) as [->|]; [split; [done|by left]|]. destruct (hdr_case_wide t) as (? & _ & ? & _); [lia|]. split; [done|]. right. split; [lia|done]. Qed.

(** A header whose room is not stored yet. *)
Definition sds_half (t n : Z) (s : sds) (body : list byte) : Prop :=
  0 <= t <= 4 /\ ptr s = sdsHdrSize t /\
  if t =? 0 then blk s = [Z.shiftl n 3] ++ body
  else exists j, zlen j = Z.of_nat (type_width t) /\ blk s = native_store (type_width t) n ++ j ++ [t] ++ body.

Lemma mem_half t n al s body : sds_mem t n al s body -> sds_half t n s body.
Proof.
  intros [Hok Hp Hb _]. assert (0 <= t <= 4) by (destruct Hok as (_ & [(-> & _)|[? _]]); lia). unfold sds_half, sds_hdr in *. split_and!; [lia..|done|].
  destruct (t =? 0); [done|]. exists (native_store (type_width t) al). split; [apply store_zlen|]. by rewrite Hb, <- !app_assoc.
Qed.

Lemma half_blk t n s body : sds_half t n s body -> zlen (blk s) = sdsHdrSize t + zlen body.
Proof.
  intros (Ht & _ & Hb). destruct (Z.eqb_spec t 0) as [->|].
  - rewrite Hb, zlen_app. done.
  - destruct Hb as (j & Hj & ->). destruct (hdr_case_wide t) as (_ & -> & _); [lia|]. rewrite !zlen_app, store_zlen, Hj. change (zlen [t]) with 1. lia.
Qed.

Lemma half_setalloc t n al s body : sds_half t n s body -> hdr_ok t n al -> al + 1 <= zlen body ->
  exists s', sdssetalloc s al = Some s' /\ sds_mem t n al s' body.
Proof.
  intros (Ht & Hp & Hb) Hok Hr. unfold sdssetalloc, flags_of. destruct (Z.eqb_spec t 0) as [->|].
  - destruct Hok as (Hn & [(_ & -> & H32)|?]); [|lia]. rewrite Hp, Hb. change (byte_at _ _) with (Some (Z.shiftl al 3)). cbn [mbind option_bind].
    destruct (hdr_case_5 al) as (-> & _); [lia|]. exists s. split; [done|]. split; [split; [lia|by left]|done|done|done].
  - destruct Hb as (j & Hj & Hb). destruct (hdr_case_wide t) as (H1 & H2 & _ & H4 & _); [lia|].
    assert (byte_at (blk s) (ptr s - 1) = Some t) as ->.
    { rewrite Hb, Hp, H2, app_assoc. replace (2 * Z.of_nat (type_width t) + 1 - 1) with (zlen (native_store (type_width t) n ++ j)) by (rewrite zlen_app, store_zlen; lia). apply byte_at_app. }
    cbn [mbind option_bind]. rewrite H1. unfold set_hdr_alloc, sds_write. rewrite Hp, H2, Hb. rewrite buf_write_app; [|rewrite store_zlen; lia|apply zlen_same; rewrite store_zlen; lia].
    eexists. split; [done|]. split; cbn [blk ptr]; [done|lia| |done]. unfold sds_hdr. rewrite H4. by rewrite <- !app_assoc.
Qed.

(** The flags and then the length, on a fresh block. *)
Lemma half_make t n j f0 body : 0 <= t <= 4 -> 1 + zlen j = sdsHdrSize t -> 0 <= n -> (t = 0 -> n < 32) ->
  exists s', (s ← sds_write (mk_sds (j ++ [f0] ++ body) (sdsHdrSize t)) (-1) [t]; sdssetlen s n) = Some s' /\ sds_half t n s' body.
Proof.
  intros Ht Hj Hn H5. unfold sds_write. cbn [blk ptr]. rewrite buf_write_app by (done || lia). cbn [mbind option_bind]. unfold sdssetlen, flags_of. cbn [blk ptr].
  replace (sdsHdrSize t - 1) with (zlen j) by lia. change ([t] ++ body) with (t :: body). rewrite (byte_at_app j t body). cbn [mbind option_bind].
  destruct (hdr_case_type t Ht) as (_ & [(-> & -> & Hs)|(Hw & ->)]).
  - unfold sds_write. cbn [blk ptr]. assert (j = []) as -> by (apply nil_length_inv; unfold zlen in *; lia). rewrite Hs. change (1 + -1) with 0. change ([] ++ 0 :: body) with ([] ++ [0] ++ body). rewrite buf_write_app by done.
    eexists. split; [done|]. unfold sds_half. cbn [Z.eqb blk ptr]. split_and!; [lia|lia|lia|]. cbn [app]. f_equal. unfold SDS_TYPE_5, SDS_TYPE_BITS. rewrite Z.lor_0_l. apply wrap_small. rewrite Z.shiftl_mul_pow2 by lia. specialize (H5 eq_refl). lia.
  - destruct (hdr_case_wide t Hw) as (_ & H2 & _ & H4 & _). destruct (zlen_split j (Z.of_nat (type_width t))) as (a & c & -> & Ha); [lia|]. rewrite zlen_app in Hj. unfold set_hdr_len, sds_write. cbn [blk ptr]. change (t :: body) with ([t] ++ body).
    rewrite <- app_assoc, <- (app_nil_l (a ++ _)), buf_write_app; [|rewrite H2; change (zlen []) with 0; lia|apply zlen_same; rewrite store_zlen; lia].
    eexists. split; [done|]. unfold sds_half. cbn [blk ptr]. rewrite H4. split_and!; [lia|lia|done|]. exists c. split; [lia|done].
Qed.

End Mem.

Section Alloc.
Context `{Host} (fill : nat -> byte) (usable : Z -> Z -> Z) (try_fails : Z -> bool).
Hypothesis usable_enough : forall old n, 0 <= n < 2 ^ 64 -> n <= usable old n < 2 ^ 64.

Lemma realloc_prefix p q m : zlen p <= m -> exists r, realloc fill (p ++ q) m = p ++ r /\ zlen r = m - zlen p.
Proof.
  intros Hm. assert (zlen (realloc fill (p ++ q) m) = m) as Hz by (apply realloc_length; pose proof (zlen_nonneg p); lia). revert Hz. unfold realloc.
  rewrite take_app, take_ge by (unfold zlen in *; lia). rewrite <- app_assoc, zlen_app. intros Hz. eexists. split; [done|]. lia.
Qed.

Lemma usable_room_spec sh t v : 1 <= t <= 4 -> zlen sh < 2 ^ 64 -> sdsHdrSize t + v + 1 <= zlen sh -> 0 <= v <= sdsTypeMaxSize t ->
  let r := usable_room sh (sdsHdrSize t) t in v <= r < 256 ^ Z.of_nat (type_width t) /\ r + 1 + sdsHdrSize t <= zlen sh.
Proof.
  intros Ht Hsh Hv Hmax r. unfold r, usable_room. destruct (hdr_case_wide t Ht) as (_ & H2 & _ & _ & H5). rewrite u64_small by lia. rewrite H5 in *. case_if; lia.
Qed.

(** Moving a string to a block with another header. *)
Lemma move_block_mem t' t n al s body size : sds_mem t' n al s body -> 0 <= t <= 4 -> (t = 0 -> n < 32) -> 0 <= size < 2 ^ 64 -> sdsHdrSize t + n + 1 <= size ->
  exists s' p r, move_block fill usable s n t size = Some s' /\ sds_half t n s' (p ++ r) /\ buf_read body 0 (n + 1) = Some p /\ zlen p = n + 1 /\
    zlen (blk s') = usable 0 size.
Proof.
  intros Hm Ht H5 Hs Hle. destruct (mem_alloc_pos _ _ _ _ _ Hm) as [Hn _]. pose proof (mem_room _ _ _ _ _ Hm) as Hr.
  destruct (zlen_split body (n + 1)) as (p & q & -> & Hp); [lia|]. assert (buf_read (p ++ q) 0 (n + 1) = Some p) as Hread by (rewrite <- (app_nil_l (p ++ q)); by apply buf_read_app).
  unfold move_block. rewrite (mem_read _ _ _ _ _ Hm _ _ _ Hread). cbn [mbind option_bind]. unfold s_malloc, s_realloc. change (zlen []) with 0. pose proof (usable_enough 0 size Hs) as HU.
  assert (zlen (realloc fill [] (usable 0 size)) = usable 0 size) as HM by (apply realloc_length; lia). set (M := realloc fill [] (usable 0 size)) in *. clearbody M.
  assert (1 <= sdsHdrSize t) as Hh. { destruct (hdr_case_type t Ht) as (_ & [(_ & _ & ->)|(Hw & _)]); [lia|]. destruct (hdr_case_wide t Hw) as (_ & -> & _). lia. }
  destruct (zlen_split M (sdsHdrSize t - 1)) as (j & M1 & -> & Hj); [lia|]. rewrite zlen_app in HM. destruct (zlen_split M1 1) as (f & M2 & -> & Hf); [lia|]. rewrite zlen_app in HM.
  destruct (zlen_split M2 (n + 1)) as (m & r & -> & Hmz); [lia|]. rewrite zlen_app in HM. destruct f as [|f0 [|]]; [done| |rewrite !zlen_cons in Hf; pose proof (zlen_nonneg l); lia].
  rewrite (app_assoc j), buf_write_app; [|rewrite zlen_app; lia|apply zlen_same; lia]. rewrite <- app_assoc. cbn [mbind option_bind].
  destruct (half_make t n j f0 (p ++ r) Ht ltac:(lia) ltac:(lia) H5) as (s' & Hs' & Hhalf). exists s', p, r. split_and!; [done..|]. rewrite (half_blk _ _ _ _ Hhalf), zlen_app. change (zlen [f0]) with 1 in *. lia.
Qed.

(** ** Making room *)

(** The type [sdsMakeRoomFor] chooses. *)
Definition room_type (v : Z) : Z := if sdsReqType v =? SDS_TYPE_5 then SDS_TYPE_8 else sdsReqType v.

Lemma room_type_spec v : 0 <= v < 2 ^ 64 -> 1 <= room_type v <= 4 /\ v <= sdsTypeMaxSize (room_type v) /\ sdsHdrSize (room_type v) <= 17.
Proof.
  intros Hv. destruct (sdsReqType_spec v Hv) as [Ht Hle]. cbn zeta in *. unfold room_type. destruct (Z.eqb_spec (sdsReqType v) SDS_TYPE_5) as [E|E].
  - rewrite E in Hle. change (sdsTypeMaxSize SDS_TYPE_5) with 31 in Hle. split_and!; [vm_compute; done..| |vm_compute; done]. change (sdsTypeMaxSize SDS_TYPE_8) with 255. lia.
  - unfold SDS_TYPE_5 in E. split_and!; [lia..|]. destruct (hdr_case_wide (sdsReqType v)) as (_ & -> & _); [lia|]. unfold type_width. repeat case_if; lia.
Qed.

(** Storing the room of a string in a block of which [v] bytes are known to be
    available. *)
Lemma finish_room t n v s p r : sds_half t n s (p ++ r) -> 1 <= t <= 4 -> 0 <= n <= v -> v <= sdsTypeMaxSize t -> sdsHdrSize t + v + 1 <= zlen (blk s) < 2 ^ 64 ->
  exists s' al, sdssetalloc s (usable_room (blk s) (sdsHdrSize t) t) = Some s' /\ sds_mem t n al s' (p ++ r) /\ v <= al.
Proof.
  intros Hh Ht Hn Hv Hb. destruct (usable_room_spec (blk s) t v Ht) as [Hal Hr]; [lia..|]. rewrite (half_blk _ _ _ _ Hh) in Hr.
  destruct (half_setalloc t n (usable_room (blk s) (sdsHdrSize t) t) s (p ++ r) Hh) as (s' & Hs & Hm); [split; [lia|right; split; lia]|lia|]. exists s', (usable_room (blk s) (sdsHdrSize t) t). split_and!; [done..|lia].
Qed.

(** Reallocation keeps the header and the string. *)
Lemma realloc_half t n al s body size : sds_mem t n al s body -> 0 <= size < 2 ^ 64 -> sdsHdrSize t + n + 1 <= size ->
  exists p q r, body = p ++ q /\ zlen p = n + 1 /\ sds_half t n (mk_sds (s_realloc fill usable (blk s) size) (sdsHdrSize t)) (p ++ r) /\
    zlen (s_realloc fill usable (blk s) size) = usable (zlen (blk s)) size.
Proof.
  intros Hm Hs Hle. pose proof (mem_room _ _ _ _ _ Hm) as Hr. destruct (mem_alloc_pos _ _ _ _ _ Hm) as [Hn _]. pose proof (mem_hdr _ _ _ _ _ Hm) as Hok.
  destruct (zlen_split body (n + 1)) as (p & q & -> & Hp); [lia|]. pose proof (usable_enough (zlen (blk s)) size Hs) as HU. unfold s_realloc. rewrite realloc_length by lia.
  pose proof (sds_hdr_zlen t n al Hok) as Hh. rewrite (mem_blk _ _ _ _ _ Hm) in *. rewrite (app_assoc _ p). destruct (realloc_prefix (sds_hdr t n al ++ p) q (usable (zlen ((sds_hdr t n al ++ p) ++ q)) size)) as (r & Hre & Hz).
  { rewrite <- app_assoc, zlen_app. lia. }
  exists p, q, r. split_and!; [done..| |done]. rewrite Hre, <- app_assoc. clear Hre.
  unfold sds_half, sds_hdr in *. cbn [blk ptr]. split_and!; [by destruct Hok as (_ & [(-> & _)|[? _]]); lia..|done|]. destruct (t =? 0); [done|].
  exists (native_store (type_width t) al). split; [apply store_zlen|]. by rewrite <- !app_assoc.
Qed.

Lemma room_step t n al s body add v : sds_mem t n al s body -> al - n < add -> n + add < 2 ^ 64 ->
  v = (if n + add <? SDS_MAX_PREALLOC then (n + add) * 2 else u64 (n + add + SDS_MAX_PREALLOC)) -> n <= v -> v + 18 < 2 ^ 64 ->
  exists al' s' p q r, sdsMakeRoomFor fill usable s add = Some s' /\ sds_mem (room_type v) n al' s' (p ++ r) /\ body = p ++ q /\ zlen p = n + 1 /\ v <= al'.
Proof.
  intros Hm Hadd H64 Hv Hnv Hv64. destruct (mem_flags _ _ _ _ _ Hm) as (f & Hf & Hty & Hsz & _). destruct (mem_alloc_pos _ _ _ _ _ Hm) as [Hn Hal]. pose proof (mem_ptr _ _ _ _ _ Hm) as Hp.
  destruct (room_type_spec v ltac:(lia)) as (Ht & Hmax & H17). unfold sdsMakeRoomFor. rewrite (sdsavail_mem _ _ _ _ _ Hm), Hf. cbn [mbind option_bind]. rewrite Hty. rewrite (sdslen_mem _ _ _ _ _ Hm). cbn [mbind option_bind]. rewrite Hp, Z.sub_diag.
  rewrite_if_false. cbn [negb Z.eqb]. rewrite (u64_small (n + add)) by lia. rewrite_if_false.
  assert ((if n + add <? SDS_MAX_PREALLOC then u64 ((n + add) * 2) else u64 (n + add + SDS_MAX_PREALLOC)) = v) as ->.
  { rewrite Hv. destruct (Z.ltb_spec (n + add) SDS_MAX_PREALLOC) as [Hl|]; [|done]. unfold SDS_MAX_PREALLOC in Hl. apply u64_small. lia. }
  fold (room_type v). assert (1 <= sdsHdrSize (room_type v)) by (destruct (hdr_case_wide (room_type v) Ht) as (_ & -> & _); lia). rewrite (u64_small (sdsHdrSize (room_type v) + v + 1)) by lia. rewrite_if_false.
  assert (exists s1 p q r, (if t =? room_type v then Some (mk_sds (s_realloc fill usable (blk s) (sdsHdrSize (room_type v) + v + 1)) (sdsHdrSize (room_type v)))
      else move_block fill usable s n (room_type v) (sdsHdrSize (room_type v) + v + 1)) = Some s1 /\ sds_half (room_type v) n s1 (p ++ r) /\ body = p ++ q /\ zlen p = n + 1 /\
      sdsHdrSize (room_type v) + v + 1 <= zlen (blk s1) < 2 ^ 64) as (s1 & p & q & r & -> & Hh & Hb & Hpz & Hlen).
  { destruct (Z.eqb_spec t (room_type v)) as [E|E].
    - rewrite <- E in *. destruct (realloc_half t n al s body (sdsHdrSize t + v + 1) Hm) as (p & q & r & Hb & Hpz & Hh & Hz); [lia..|]. eexists _, p, q, r. split_and!; [done..| |]; cbn [blk]; rewrite Hz; apply usable_enough; lia.
    - destruct (move_block_mem t (room_type v) n al s body (sdsHdrSize (room_type v) + v + 1) Hm) as (s1 & p & r & H1 & Hh & Hread & Hpz & Hz); [lia..|].
      apply buf_read_Some in Hread as (a & q & Hb & Ha & _). assert (a = []) as -> by (apply nil_length_inv; unfold zlen in Ha; lia). exists s1, p, q, r. split_and!; [done..| |]; rewrite Hz; apply usable_enough; lia. }
  cbn [mbind option_bind]. destruct (finish_room (room_type v) n v s1 p r Hh Ht) as (s' & al' & Hs' & Hm' & Hal'); [lia..|]. exists al', s', p, q, r. done.
Qed.

Lemma makeroom_mem t n al s body add : sds_mem t n al s body -> 0 <= add -> n + add + 2 ^ 20 + 18 < 2 ^ 64 ->
  exists t' al' s' p q r, sdsMakeRoomFor fill usable s add = Some s' /\ sds_mem t' n al' s' (p ++ r) /\ body = p ++ q /\ zlen p = n + 1 /\ n + add <= al'.
Proof.
  intros Hm Hadd H64. destruct (mem_alloc_pos _ _ _ _ _ Hm) as [Hn Hal]. destruct (Z.leb_spec add (al - n)) as [Hle|Hgt].
  - destruct (zlen_split body (n + 1)) as (p & q & -> & Hp); [pose proof (mem_room _ _ _ _ _ Hm); lia|]. exists t, al, s, p, q, q. split_and!; [|done..|lia].
    destruct (mem_flags _ _ _ _ _ Hm) as (f & Hf & _). unfold sdsMakeRoomFor. rewrite (sdsavail_mem _ _ _ _ _ Hm), Hf. cbn [mbind option_bind]. by rewrite_if_true.
  - destruct (room_step t n al s body add _ Hm Hgt ltac:(lia) eq_refl) as (al' & s' & p & q & r & H1 & H2 & H3 & H4 & H5).
    1,2: unfold SDS_MAX_PREALLOC; case_if; [lia|]; rewrite ?u64_small; lia.
    exists (room_type (if n + add <? SDS_MAX_PREALLOC then (n + add) * 2 else u64 (n + add + SDS_MAX_PREALLOC))), al', s', p, q, r. split_and!; [done..|]. revert H5. unfold SDS_MAX_PREALLOC. case_if; [lia|]. rewrite u64_small; lia.
Qed.

(** ** New strings *)

Lemma fresh_hdr t n al j f0 body : 0 <= t <= 4 -> 1 + zlen j = sdsHdrSize t -> hdr_ok t n al -> al + 1 <= zlen body ->
  exists s', (let s := mk_sds (j ++ [f0] ++ body) (sdsHdrSize t) in
    match hdr_case t with
    | HDR5 => sds_write s (-1) [u8 (Z.lor t (Z.shiftl n SDS_TYPE_BITS))]
    | HDR w => s ← set_hdr_len w s n; s ← set_hdr_alloc w s al; sds_write s (-1) [t]
    | HDR_other => Some s
    end) = Some s' /\ sds_mem t n al s' body.
Proof.
  intros Ht Hj Hok Hr. cbn zeta. destruct (hdr_case_type t Ht) as (_ & [(-> & -> & Hs)|(Hw & ->)]).
  - destruct Hok as (Hn & [(_ & -> & H32)|?]); [|lia]. unfold sds_write. cbn [blk ptr]. rewrite buf_write_app by (done || lia). eexists. split; [done|].
    assert (j = []) as -> by (apply nil_length_inv; unfold zlen in *; lia). split; cbn [blk ptr]; [split; [lia|by left]|done| |done]. unfold sds_hdr. cbn [Z.eqb app]. f_equal. unfold SDS_TYPE_BITS. rewrite Z.lor_0_l. apply wrap_small. rewrite Z.shiftl_mul_pow2 by lia. lia.
  - destruct (hdr_case_wide t Hw) as (_ & H2 & _ & H4 & _). destruct (zlen_split j (Z.of_nat (type_width t))) as (a & c & -> & Ha); [lia|]. rewrite zlen_app in Hj.
    unfold set_hdr_len, set_hdr_alloc, sds_write. cbn [blk ptr]. rewrite <- app_assoc, <- (app_nil_l (a ++ _)), buf_write_app; [|rewrite H2; change (zlen []) with 0; lia|apply zlen_same; rewrite store_zlen; lia].
    cbn [mbind option_bind app blk ptr]. rewrite (buf_write_app (native_store _ n) c _ (f0 :: body)); [|rewrite store_zlen; lia|apply zlen_same; rewrite store_zlen; lia]. cbn [mbind option_bind blk ptr].
    rewrite app_assoc. change (f0 :: body) with ([f0] ++ body). rewrite buf_write_app; [|rewrite zlen_app, !store_zlen; lia|done]. eexists. split; [done|]. split; cbn [blk ptr]; [done..| |done]. unfold sds_hdr. rewrite H4. by rewrite <- !app_assoc.
Qed.

(** The text a new string starts with. *)
Definition init_text (init : sdsinit) (n : Z) (x : list byte) : Prop :=
  match init with
  | SDS_NOINIT => zlen x = n
  | INIT_NULL => x = replicate (Z.to_nat n) 0
  | INIT t => buf_read t 0 n = Some x
  end.

Definition new_type (n : Z) : Z := if (sdsReqType n =? SDS_TYPE_5) && (n =? 0) then SDS_TYPE_8 else sdsReqType n.

Lemma new_type_spec n : 0 <= n < 2 ^ 64 -> 0 <= new_type n <= 4 /\ n <= sdsTypeMaxSize (new_type n) /\ 1 <= sdsHdrSize (new_type n) <= 17.
Proof.
  intros Hn. destruct (sdsReqType_spec n Hn) as [Ht Hle]. cbn zeta in *. assert (forall t, 0 <= t <= 4 -> 1 <= sdsHdrSize t <= 17) as Hsz.
  { intros t Htt. assert (t = 0 \/ t = 1 \/ t = 2 \/ t = 3 \/ t = 4) as [->|[->|[->|[->| ->]]]] by lia; by vm_compute. }
  unfold new_type. destruct (Z.eqb_spec n 0) as [->|]; [by vm_compute|]. rewrite andb_false_r. split; [lia|]. split; [lia|]. apply Hsz. lia.
Qed.

(** The room of a new string is one its type can hold. *)
Lemma new_room t n M : 0 <= t <= 4 -> 0 <= n <= sdsTypeMaxSize t -> sdsHdrSize t + n + 1 <= zlen M < 2 ^ 64 ->
  exists al, hdr_ok t n al /\ al + 1 + sdsHdrSize t <= zlen M /\ (t = 0 \/ al = usable_room M (sdsHdrSize t) t).
Proof.
  intros Ht Hn HM. destruct (Z.eq_dec t 0) as [->|Hne].
  - change (sdsTypeMaxSize 0) with 31 in Hn. exists n. split_and!; [|lia|by left]. split; [lia|]. left. lia.
  - destruct (usable_room_spec M t n) as [Ha Hb]; [lia..|]. exists (usable_room M (sdsHdrSize t) t). split_and!; [|lia|by right]. split; [lia|]. right. lia.
Qed.

Lemma fresh_room t n M j f0 body : 0 <= t <= 4 -> 1 + zlen j = sdsHdrSize t -> 0 <= n <= sdsTypeMaxSize t -> sdsHdrSize t + n + 1 <= zlen M < 2 ^ 64 ->
  zlen M = sdsHdrSize t + zlen body ->
  exists s' al, (let s := mk_sds (j ++ [f0] ++ body) (sdsHdrSize t) in
    match hdr_case t with
    | HDR5 => sds_write s (-1) [u8 (Z.lor t (Z.shiftl n SDS_TYPE_BITS))]
    | HDR w => s ← set_hdr_len w s n; s ← set_hdr_alloc w s (usable_room M (sdsHdrSize t) t); sds_write s (-1) [t]
    | HDR_other => Some s
    end) = Some s' /\ sds_mem t n al s' body.
Proof.
  intros Ht Hj Hn HM Hb. destruct (new_room t n M Ht Hn HM) as (al & Hok & Hal & Hor). destruct (fresh_hdr t n al j f0 body Ht Hj Hok ltac:(lia)) as (s' & Hs & Hm). exists s', al. split; [|done].
  destruct Hor as [->| ->]; exact Hs.
Qed.

End Alloc.
