(* ===== verification/SdsOps.v ===== *)
(** * Dynamic strings as texts

    Every operation of [Sds] on strings that represent texts: it has a result,
    which represents the text the operation should give. *)

From stdpp Require Import base list option.
From Stdlib Require Import ZArith Lia Bool.
From S2P Require Import Prelude Endian Util Sds SdsFacts.

Local Open Scope Z_scope.

(** Run the next step of an operation with the lemma that gives its result. *)
Ltac step H := let s := fresh "s" in let Hs := fresh "Hs" in let Hm := fresh "Hm" in destruct H as (s & Hs & Hm); rewrite Hs; clear Hs; cbn [mbind option_bind].

Section Texts.
Context `{Host}.

Lemma rep_len s x : sds_rep s x -> sdslen s = Some (zlen x).
Proof. intros (t & al & rest & Hm). eapply sdslen_mem; eauto. Qed.

Lemma rep_from s x : sds_rep s x -> exists rest, bytes_from s = x ++ 0 :: rest.
Proof. intros (t & al & rest & Hm). exists rest. eapply mem_from; eauto. Qed.

Lemma rep_read s x : sds_rep s x -> buf_read (bytes_from s) 0 (zlen x) = Some x.
Proof. intros (rest & ->)%rep_from. rewrite <- (app_nil_l (x ++ _)). by apply buf_read_app. Qed.

(** The text is determined. *)
Lemma rep_unique s x y : sds_rep s x -> sds_rep s y -> x = y.
Proof.
  intros Hx Hy. pose proof (rep_read s x Hx) as Ex. pose proof (rep_read s y Hy) as Ey. pose proof (rep_len s y Hy) as El. rewrite (rep_len s x Hx) in El. congruence.
Qed.

(** Ending a string after [y] and storing its length, in both orders. *)
Lemma end_then_len t n al s y c rest : sds_mem t n al s (y ++ c :: rest) -> zlen y <= al ->
  exists s', (s ← sds_write s (zlen y) [0]; sdssetlen s (zlen y)) = Some s' /\ sds_rep s' y.
Proof.
  intros Hm Hy. step (mem_write _ _ _ _ _ Hm (zlen y) [0] (y ++ [0] ++ rest) ltac:(change (c :: rest) with ([c] ++ rest); by apply buf_write_app)).
  destruct (sdssetlen_mem _ _ _ _ _ Hm0 (zlen y)) as (s' & Hs' & Hm'); [zlen|]. exists s'. split; [done|]. by eexists _, _, rest.
Qed.

Lemma len_then_end t n al s y c rest : sds_mem t n al s (y ++ c :: rest) -> zlen y <= al ->
  exists s', (s ← sdssetlen s (zlen y); sds_write s (zlen y) [0]) = Some s' /\ sds_rep s' y.
Proof.
  intros Hm Hy. step (sdssetlen_mem _ _ _ _ _ Hm (zlen y) ltac:(zlen)).
  destruct (mem_write _ _ _ _ _ Hm0 (zlen y) [0] (y ++ [0] ++ rest)) as (s' & Hs' & Hm'); [change (c :: rest) with ([c] ++ rest); by apply buf_write_app|]. exists s'. split; [done|]. by eexists _, _, rest.
Qed.

Lemma sdsclear_rep s x : sds_rep s x -> exists s', sdsclear s = Some s' /\ sds_rep s' [].
Proof.
  intros (t & al & rest & Hm). unfold sdsclear. destruct (x ++ 0 :: rest) as [|c r] eqn:E; [by destruct x|]. apply (len_then_end t (zlen x) al s [] c r Hm). destruct (mem_alloc_pos _ _ _ _ _ Hm). change (zlen []) with 0. lia.
Qed.

(** ** C strings *)

Lemma strlen_spec x rest : Forall (fun c => c <> 0) x -> strlen (x ++ 0 :: rest) = Some (zlen x).
Proof. induction 1 as [|c x Hc _ IH]; [done|]. cbn [strlen app]. rewrite (proj2 (Z.eqb_neq c 0)) by done. rewrite IH. cbn. by rewrite zlen_cons. Qed.

Lemma strlen_c_str t n : strlen t = Some n -> exists rest, t = c_str t ++ 0 :: rest /\ n = zlen (c_str t).
Proof.
  revert n. induction t as [|c t IH]; intros n E; [done|]. cbn [strlen c_str] in *. destruct (Z.eqb_spec c 0) as [->|]; [injection E as <-; by exists t|].
  destruct (strlen t) as [m|]; [|done]. injection E as <-. destruct (IH m eq_refl) as (rest & Hr & ->). exists rest. split; [cbn; by f_equal|by rewrite zlen_cons].
Qed.

Lemma strlen_app_zero x rest : strlen (x ++ 0 :: rest) = Some (zlen (c_str x)).
Proof. induction x as [|c x IH]; [done|]. cbn [strlen app c_str]. destruct (c =? 0); [done|]. rewrite IH. cbn. by rewrite zlen_cons. Qed.

Lemma c_str_prefix x : exists r, x = c_str x ++ r.
Proof. induction x as [|c x [r IH]]; [by exists []|]. cbn [c_str]. destruct (c =? 0); [by exists (c :: x)|]. exists r. cbn. by f_equal. Qed.

Lemma sdsupdatelen_rep s x : sds_rep s x -> exists s', sdsupdatelen s = Some s' /\ sds_rep s' (c_str x).
Proof.
  intros (t & al & rest & Hm). unfold sdsupdatelen. rewrite (mem_from _ _ _ _ _ Hm), strlen_app_zero. cbn [mbind option_bind]. destruct (mem_alloc_pos _ _ _ _ _ Hm). destruct (c_str_prefix x) as [r Hr].
  assert (zlen (c_str x) <= zlen x) by (rewrite Hr at 2; zlen). destruct (sdssetlen_mem _ _ _ _ _ Hm (zlen (c_str x))) as (s' & Hs' & Hm'); [zlen|]. exists s'. split; [done|].
  destruct (strlen_c_str (x ++ 0 :: rest) _ (strlen_app_zero x rest)) as (rest' & Hr' & Hz).
  assert (c_str (x ++ 0 :: rest) = c_str x) as Hc. { clear. induction x as [|c x IH]; [done|]. cbn [c_str app]. destruct (c =? 0); [done|]. by rewrite IH. }
  rewrite Hc in Hr'. eexists _, _, rest'. rewrite <- Hr'. exact Hm'.
Qed.

(** ** Parts *)

(** Moving a part to the start of the string. *)
Lemma move_front t n al s a z c : sds_mem t n al s (a ++ z ++ c) ->
  exists s' d, (bs ← sds_read s (zlen a) (zlen z); sds_write s 0 bs) = Some s' /\ sds_mem t n al s' (z ++ d).
Proof.
  intros Hm. rewrite (mem_read _ _ _ _ _ Hm (zlen a) (zlen z) z) by (by apply buf_read_app). cbn [mbind option_bind]. destruct (buf_write_in (a ++ z ++ c) 0 z) as (b' & Hw & _); [lia|zlen|].
  destruct (mem_write _ _ _ _ _ Hm 0 z b' Hw) as (s' & Hs' & Hm'). apply buf_write_inv in Hw as (a' & m' & c' & _ & -> & _ & H0). assert (a' = []) as -> by (apply nil_length_inv; unfold zlen in H0; lia). eauto.
Qed.

Lemma sdssubstr_rep s x start len : sds_rep s x -> 0 <= start -> 0 <= len ->
  exists s', sdssubstr s start len = Some s' /\ sds_rep s' (take (Z.to_nat len) (drop (Z.to_nat start) x)).
Proof.
  intros Hrep Hs Hl. unfold sdssubstr. rewrite (rep_len s x Hrep). cbn [mbind option_bind]. destruct Hrep as (t & al & rest & Hm). destruct (mem_alloc_pos _ _ _ _ _ Hm) as [Hn Hal].
  set (y := take (Z.to_nat len) (drop (Z.to_nat start) x)).
  assert (exists st ln, (if zlen x <=? start then (0, 0) else (start, len)) = (st, ln) /\ 0 <= st <= zlen x /\ 0 <= ln /\ y = take (Z.to_nat ln) (drop (Z.to_nat st) x)) as (st & ln & -> & Hst & Hln & Hy).
  { destruct (Z.leb_spec (zlen x) start); [exists 0, 0|exists start, len]; split_and!; try done; try lia. unfold y. rewrite drop_ge by (unfold zlen in *; lia). by rewrite take_nil. }
  rewrite (u64_small (zlen x - st)) by lia.
  assert ((if zlen x - st <? ln then zlen x - st else ln) = zlen y) as ->.
  { rewrite Hy. unfold zlen in *. rewrite length_take, length_drop. case_if; lia. }
  assert (exists a c, x = a ++ y ++ c /\ zlen a = st) as (a & c & Hx & Ha).
  { exists (take (Z.to_nat st) x), (drop (Z.to_nat ln) (drop (Z.to_nat st) x)). rewrite Hy, take_drop, take_drop. split; [done|]. unfold zlen in *. rewrite length_take. lia. }
  assert (exists s1 d, (if negb (zlen y =? 0) then bs ← sds_read s st (zlen y); sds_write s 0 bs else Some s) = Some s1 /\ sds_mem t (zlen x) al s1 (y ++ d)) as (s1 & d & -> & Hm1).
  { destruct (Z.eqb_spec (zlen y) 0) as [E|E]; cbn [negb].
    - assert (y = []) as -> by (apply nil_length_inv; unfold zlen in E; lia). eexists s, _. split; [done|]. exact Hm.
    - rewrite Hx, <- !app_assoc in Hm. rewrite <- Ha. destruct (move_front _ _ _ _ _ _ _ Hm) as (s1 & d & Hs1 & Hm1). exists s1, d. rewrite Hx at 1. rewrite zlen_app in *. eauto. }
  cbn [mbind option_bind]. pose proof (mem_room _ _ _ _ _ Hm1) as Hroom. assert (zlen y <= zlen x) by (rewrite Hx; zlen). destruct d as [|d0 d]; [rewrite app_nil_r in Hroom; lia|]. eapply end_then_len; [done|lia].
Qed.

(** The part of a text between two indexes, negative ones from the end. *)
Definition range_text (x : list byte) (start end_ : Z) : list byte :=
  let from := if start <? 0 then zlen x + start else start in
  let to := if end_ <? 0 then zlen x + end_ else end_ in
  if from <? 0 then [] else take (Z.to_nat (to - from + 1)) (drop (Z.to_nat from) x).

Lemma sdsrange_rep s x start end_ : sds_rep s x -> zlen x < 2 ^ 63 -> LLONG_MIN <= start -> LLONG_MIN <= end_ <= LLONG_MAX -> start <= LLONG_MAX ->
  (if end_ <? 0 then zlen x + end_ else end_) - (if start <? 0 then zlen x + start else start) < LLONG_MAX ->
  exists s', sdsrange s start end_ = Some s' /\ sds_rep s' (range_text x start end_).
Proof.
  unfold sdsrange, range_text, LLONG_MIN, LLONG_MAX. intros Hrep H63 Hs1 He Hs2. rewrite (rep_len s x Hrep). cbn [mbind option_bind]. pose proof (zlen_nonneg x).
  destruct (Z.eqb_spec (zlen x) 0) as [E0|E0].
  { intros _. assert (x = []) as -> by (apply nil_length_inv; unfold zlen in E0; lia). exists s. split; [done|]. case_if; [done|]. by rewrite drop_nil, take_nil. }
  assert (forall i, - 2 ^ 63 <= i < 0 -> i64 (u64 (zlen x + i)) = zlen x + i) as Hi. { intros i Hi. rewrite swrap_wrap by lia. apply swrap_small; lia. }
  set (from := if start <? 0 then zlen x + start else start). set (to := if end_ <? 0 then zlen x + end_ else end_).
  assert ((if start <? 0 then i64 (u64 (zlen x + start)) else start) = from) as -> by (unfold from; case_if; [apply Hi; lia|done]).
  assert ((if end_ <? 0 then i64 (u64 (zlen x + end_)) else end_) = to) as -> by (unfold to; case_if; [apply Hi; lia|done]).
  assert (- 2 ^ 63 <= from < 2 ^ 63 /\ - 2 ^ 63 <= to < 2 ^ 63) as [Hfr Hto] by (unfold from, to; repeat case_if; lia). clearbody from to. intros Hd.
  assert (exists nl, (if to <? from then Some 0 else if 2 ^ 63 - 1 <? to - from + 1 then None else Some (to - from + 1)) = Some nl /\ 0 <= nl /\ Z.to_nat nl = Z.to_nat (to - from + 1)) as (nl & -> & Hnl & Hnn).
  { destruct (Z.ltb_spec to from); [exists 0; split_and!; [done|lia|lia]|]. rewrite_if_false. eexists. split_and!; [done|lia|lia]. }
  cbn [mbind option_bind]. destruct (sdssubstr_rep s x (u64 from) nl Hrep) as (s' & Hs' & Hr'); [apply wrap_range; lia|done|]. exists s'. split; [done|].
  destruct (Z.ltb_spec from 0) as [Hneg|Hpos]; [|by rewrite u64_small, Hnn in Hr' by lia].
  assert (u64 from = from + 2 ^ 64) as Hu. { unfold wrap. rewrite <- (Z.mod_add from 1) by lia. apply Z.mod_small. lia. }
  rewrite Hu, drop_ge, take_nil in Hr' by (unfold zlen in *; lia). done.
Qed.

(** The bytes [sdstrim] removes: those of the set, and zero. *)
Definition trimmed (cs : list byte) (c : Z) : bool := (c =? 0) || existsb (Z.eqb c) cs.

Fixpoint drop_while (p : Z -> bool) (x : list byte) : list byte :=
  match x with
  | [] => []
  | c :: x' => if p c then drop_while p x' else x
  end.

Definition trim_text (p : Z -> bool) (x : list byte) : list byte := rev (drop_while p (rev (drop_while p x))).

Lemma strchr_spec cs rest c : Forall (fun d => d <> 0) cs -> strchr (cs ++ 0 :: rest) c = Some (trimmed cs c).
Proof.
  unfold trimmed. induction 1 as [|d cs Hd _ IH]; cbn [strchr app existsb].
  - rewrite (Z.eqb_sym 0 c). by destruct (c =? 0).
  - rewrite (proj2 (Z.eqb_neq d 0)) by done. rewrite IH, (Z.eqb_sym c d). destruct (d =? c); [by rewrite orb_true_r|done].
Qed.

Section Trim.
Context (s : sds) (cset cs : list byte) (x : list byte).
Hypothesis Hset : forall c, strchr cset c = Some (trimmed cs c).
Hypothesis Hbyte : forall a c b, x = a ++ c :: b -> byte_at (blk s) (ptr s + zlen a) = Some c.

Lemma trim_left_spec b a fuel : x = a ++ b -> (length b <= fuel)%nat ->
  trim_left fuel s cset (zlen a) (zlen x - 1) = Some (zlen x - zlen (drop_while (trimmed cs) b)).
Proof.
  revert a fuel. induction b as [|c b IH]; intros a fuel Hx Hf.
  - assert (zlen x = zlen a) as Hz by (rewrite Hx; by rewrite app_nil_r). destruct fuel; cbn [trim_left drop_while]; rewrite_if_false; f_equal; rewrite zlen_nil; lia.
  - destruct fuel as [|fuel]; [cbn in Hf; lia|]. assert (zlen x = zlen a + 1 + zlen b) by (rewrite Hx; zlen). cbn [trim_left drop_while]. pose proof (zlen_nonneg b). rewrite_if_true. rewrite (Hbyte a c b Hx). cbn [mbind option_bind]. rewrite Hset. cbn [mbind option_bind].
    destruct (trimmed cs c); [|f_equal; zlen]. replace (zlen a + 1) with (zlen (a ++ [c])) by zlen. apply IH; [by rewrite <- app_assoc|cbn in Hf; lia].
Qed.

Lemma trim_right_spec a c u w fuel : x = a ++ (c :: u) ++ w -> trimmed cs c = false -> (length u <= fuel)%nat ->
  trim_right fuel s cset (zlen a) (zlen a + zlen u) = Some (zlen a + zlen (rev (drop_while (trimmed cs) (rev (c :: u)))) - 1).
Proof.
  intros Hx Hc. revert w fuel Hx. induction u as [|d u IH] using rev_ind; intros w fuel Hx Hf.
  - cbn [rev app drop_while]. rewrite Hc, zlen_nil. cbn [rev app]. destruct fuel; cbn [trim_right]; (rewrite_if_false; f_equal; zlen).
  - rewrite length_app in Hf. destruct fuel as [|fuel]; [cbn in Hf; lia|]. cbn [trim_right]. rewrite zlen_app. change (zlen [d]) with 1. pose proof (zlen_nonneg u). rewrite_if_true.
    assert (x = a ++ (c :: u) ++ d :: w) as Hx2 by (rewrite Hx; cbn [app]; by rewrite <- app_assoc). assert (x = (a ++ c :: u) ++ d :: w) as Hx' by (rewrite Hx2; by rewrite <- app_assoc). pose proof (Hbyte _ _ _ Hx') as Hb. replace (zlen (a ++ c :: u)) with (zlen a + (zlen u + 1)) in Hb by zlen. rewrite Hb. cbn [mbind option_bind]. rewrite Hset. cbn [mbind option_bind].
    change (rev (c :: u ++ [d])) with (rev ((c :: u) ++ [d])). rewrite rev_app_distr. cbn [app drop_while rev]. destruct (trimmed cs d).
    + replace (zlen a + (zlen u + 1) - 1) with (zlen a + zlen u) by lia. apply (IH (d :: w)); [done|cbn in Hf; lia].
    + f_equal. cbn [rev]. rewrite !zlen_app, rev_app_distr, rev_involutive. cbn [rev app]. zlen.
Qed.

End Trim.

Lemma drop_while_suffix p x : exists a, x = a ++ drop_while p x.
Proof. induction x as [|c x [a IH]]; [by exists []|]. cbn [drop_while]. destruct (p c); [|by exists []]. exists (c :: a). cbn. by f_equal. Qed.

Lemma drop_while_head p x c y : drop_while p x = c :: y -> p c = false.
Proof. induction x as [|d x IH]; [done|]. cbn [drop_while]. destruct (p d) eqn:E; [done|]. by intros [= -> ->]. Qed.

Lemma sdstrim_rep s x cs rest : sds_rep s x -> Forall (fun c => c <> 0) cs ->
  exists s', sdstrim s (cs ++ 0 :: rest) = Some s' /\ sds_rep s' (trim_text (trimmed cs) x).
Proof.
  intros Hrep Hcs. unfold sdstrim. rewrite (rep_len s x Hrep). cbn [mbind option_bind]. destruct Hrep as (t & al & tl & Hm). pose proof (fun c => strchr_spec cs rest c Hcs) as Hset. set (cset := cs ++ 0 :: rest) in *.
  assert (Hbyte : forall a c b, x = a ++ c :: b -> byte_at (blk s) (ptr s + zlen a) = Some c).
  { intros a c b ->. eapply mem_byte; [done|]. rewrite <- app_assoc. apply byte_at_app. }
  destruct (mem_alloc_pos _ _ _ _ _ Hm) as [Hn _]. assert (length x <= length (blk s))%nat as Hfuel. { rewrite (mem_blk _ _ _ _ _ Hm), !length_app. lia. }
  pose proof (trim_left_spec s cset cs x Hset Hbyte x [] (length (blk s)) eq_refl Hfuel) as Hleft. change (zlen []) with 0 in Hleft. rewrite Hleft. cbn [mbind option_bind]. clear Hleft.
  destruct (drop_while_suffix (trimmed cs) x) as [a Ha]. set (y := drop_while (trimmed cs) x) in *. assert (zlen x - zlen y = zlen a) as -> by (rewrite Ha at 1; zlen).
  assert (trim_right (length (blk s)) s cset (zlen a) (zlen x - 1) = Some (zlen a + zlen (trim_text (trimmed cs) x) - 1)) as ->.
  { unfold trim_text. fold y. destruct y as [|c u] eqn:Ey.
    - rewrite app_nil_r in Ha. rewrite Ha. cbn [rev drop_while]. change (zlen []) with 0. destruct (length (blk s)); cbn [trim_right]; (rewrite_if_false; f_equal; lia).
    - replace (zlen x - 1) with (zlen a + zlen u) by (rewrite Ha; zlen). apply (trim_right_spec s cset cs x Hset Hbyte a c u []); [by rewrite app_nil_r|by eapply drop_while_head|]. rewrite Ha, length_app in Hfuel. cbn in Hfuel. lia. }
  cbn [mbind option_bind]. assert (exists w, y = trim_text (trimmed cs) x ++ w) as [w Hw].
  { unfold trim_text. fold y. destruct (drop_while_suffix (trimmed cs) (rev y)) as [b Hb]. exists (rev b). rewrite <- rev_app_distr, <- Hb. by rewrite rev_involutive. }
  set (z := trim_text (trimmed cs) x) in *. assert ((if zlen a + zlen z - 1 <? zlen a then 0 else zlen a + zlen z - 1 - zlen a + 1) = zlen z) as -> by (pose proof (zlen_nonneg z); case_if; lia).
  assert (exists s1 d, (if negb (zlen a =? 0) then bs ← sds_read s (zlen a) (zlen z); sds_write s 0 bs else Some s) = Some s1 /\ sds_mem t (zlen x) al s1 (z ++ d)) as (s1 & d & -> & Hm1).
  { rewrite Ha, Hw, <- !app_assoc in Hm. destruct (Z.eqb_spec (zlen a) 0) as [E|E]; cbn [negb].
    - assert (a = []) as -> by (apply nil_length_inv; unfold zlen in E; lia). eexists s, _. split; [done|]. rewrite Ha, Hw. exact Hm.
    - destruct (move_front _ _ _ _ _ _ _ Hm) as (s1 & d & Hs1 & Hm1). exists s1, d. rewrite Ha, Hw. done. }
  cbn [mbind option_bind]. pose proof (mem_room _ _ _ _ _ Hm1) as Hroom. assert (zlen z <= zlen x) by (rewrite Ha, Hw; zlen). destruct d as [|d0 d]; [rewrite app_nil_r in Hroom; lia|]. eapply end_then_len; [done|lia].
Qed.

(** ** Changes of bytes *)

Lemma for_bytes_mem f t n al s a x x' rest : sds_mem t n al s (a ++ x ++ rest) -> mapM f x = Some x' ->
  exists s', for_bytes f (length x) s (zlen a) = Some s' /\ sds_mem t n al s' (a ++ x' ++ rest).
Proof.
  revert s a x'. induction x as [|c x IH]; intros s a x' Hm Hf.
  - injection Hf as <-. by exists s.
  - cbn [mapM] in Hf. apply bind_Some in Hf as (c' & Hc & (y & Hy & [= <-])%bind_Some). cbn [for_bytes length]. rewrite (mem_byte _ _ _ _ _ Hm (zlen a) c) by (apply (byte_at_app a c)). cbn [mbind option_bind]. rewrite Hc. cbn [mbind option_bind].
    step (mem_write _ _ _ _ _ Hm (zlen a) [c'] (a ++ [c'] ++ x ++ rest) ltac:(change ((c :: x) ++ rest) with ([c] ++ x ++ rest); by apply buf_write_app)).
    rewrite app_assoc in Hm0. destruct (IH s0 (a ++ [c']) y Hm0 Hy) as (s' & Hs' & Hm'). exists s'. rewrite zlen_app in Hs'. split; [done|]. by rewrite <- app_assoc in Hm'.
Qed.

Lemma for_bytes_rep f s x x' : sds_rep s x -> mapM f x = Some x' ->
  exists s', (n ← sdslen s; for_bytes f (Z.to_nat n) s 0) = Some s' /\ sds_rep s' x'.
Proof.
  intros Hrep Hf. rewrite (rep_len s x Hrep). cbn [mbind option_bind]. rewrite zlen_to_nat. destruct Hrep as (t & al & rest & Hm). destruct (for_bytes_mem f t _ al s [] x x' _ Hm Hf) as (s' & Hs' & Hm'). exists s'. split; [done|].
  exists t, al, rest. replace (zlen x') with (zlen x); [done|]. unfold zlen. apply mapM_Some_1, Forall2_length in Hf. lia.
Qed.

Lemma sdstolower_rep s x : sds_rep s x -> exists s', sdstolower s = Some s' /\ sds_rep s' (map tolower x).
Proof. intros Hrep. apply for_bytes_rep with x; [done|]. clear. induction x as [|c x IH]; [done|]. cbn [mapM map]. by rewrite IH. Qed.

Lemma sdstoupper_rep s x : sds_rep s x -> exists s', sdstoupper s = Some s' /\ sds_rep s' (map toupper x).
Proof. intros Hrep. apply for_bytes_rep with x; [done|]. clear. induction x as [|c x IH]; [done|]. cbn [mapM map]. by rewrite IH. Qed.

Lemma mapchar_spec from to c : length from = length to -> mapchar from to (length from) c = Some (map_char c from to).
Proof. revert to. induction from as [|f from IH]; intros [|d to] Hl; [done..|]. cbn [mapchar length head tail map_char mbind option_bind]. destruct (c =? f); [done|]. apply IH. by injection Hl. Qed.

(** The map is that of [memmapchars]. *)
Lemma sdsmapchars_rep s x from to : sds_rep s x -> length from = length to ->
  exists s', sdsmapchars s from to (zlen from) = Some s' /\ sds_rep s' (memmapchars x from to).
Proof.
  intros Hrep Hl. unfold sdsmapchars. rewrite zlen_to_nat. apply for_bytes_rep with x; [done|]. clear Hrep. induction x as [|c x IH]; [done|]. cbn [mapM]. rewrite mapchar_spec by done. cbn [mbind option_bind]. by rewrite IH.
Qed.

(** ** Writing into the room *)

Lemma incr_mem t n al s y c r incr : sds_mem t n al s (y ++ c :: r) -> zlen y = n + incr -> zlen y <= al -> (t = 0 -> incr <> 0) -> LLONG_MIN < incr ->
  exists s', sdsIncrLen s incr = Some s' /\ sds_rep s' y.
Proof.
  unfold LLONG_MIN. intros Hm Hy Hal H5 Hmin. destruct (mem_alloc_pos _ _ _ _ _ Hm) as [Hn H64]. pose proof (zlen_nonneg y). destruct (len_then_end t n al s y c r Hm Hal) as (s' & Hs' & Hr'). exists s'. split; [|done]. revert Hs'.
  destruct (mem_flags _ _ _ _ _ Hm) as (f & Hf & _ & _ & Hc). unfold sdsIncrLen, sdssetlen. rewrite Hf. cbn [mbind option_bind]. pose proof (mem_hdr _ _ _ _ _ Hm) as (_ & Hok).
  destruct Hc as [(-> & -> & ->)|(Hw & ->)].
  - destruct Hok as [(_ & -> & H32)|?]; [|lia]. specialize (H5 eq_refl). assert (incr < 0) by lia. unfold LLONG_MIN. rewrite_if_false. rewrite (u32_small (- incr)) by lia. rewrite_if_true. rewrite <- Hy. intros <-. by destruct (sds_write s (-1) _).
  - destruct Hok as [(-> & _)|(_ & Hal')]; [lia|]. rewrite (wide_alloc _ _ _ _ _ Hm Hw), (wide_len _ _ _ _ _ Hm Hw). cbn [mbind option_bind].
    assert (incr_ok (type_width t) al n incr = Some true) as ->.
    { unfold incr_ok, LLONG_MIN. assert (t = 1 \/ t = 2 \/ t = 3 \/ t = 4) as [->|[->|[->| ->]]] by lia; cbn [type_width Z.eqb Pos.eqb] in *; change (256 ^ Z.of_nat 1) with 256 in *; change (256 ^ Z.of_nat 2) with 65536 in *; change (256 ^ Z.of_nat 4) with (2 ^ 32) in *;
        (destruct (Z.leb_spec 0 incr); [|rewrite_if_false]; f_equal; rewrite ?u32_small, ?u64_small by lia; lia). }
    cbn [mbind option_bind]. destruct (wide_set_len _ _ _ _ _ Hm Hw (n + incr)) as (s1 & Hs1 & Hm1); [lia|]. rewrite Hy, Hs1. cbn [mbind option_bind]. rewrite (wide_len _ _ _ _ _ Hm1 Hw). done.
Qed.

Lemma incr_negative s x k : sds_rep s x -> 0 < k <= zlen x -> k < 2 ^ 63 -> exists s', sdsIncrLen s (- k) = Some s' /\ sds_rep s' (take (Z.to_nat (zlen x - k)) x).
Proof.
  intros (t & al & rest & Hm) Hk H63. destruct (mem_alloc_pos _ _ _ _ _ Hm) as [Hn _]. set (y := take _ x). assert (zlen y = zlen x - k) as Hy by (unfold y, zlen in *; rewrite length_take; lia).
  destruct (drop (Z.to_nat (zlen x - k)) x ++ 0 :: rest) as [|c r] eqn:E; [by destruct (drop _ x)|].
  assert (x ++ 0 :: rest = y ++ c :: r) as Hb by (rewrite <- E, app_assoc; unfold y; by rewrite take_drop). rewrite Hb in Hm. eapply incr_mem; [exact Hm|lia|lia|lia|unfold LLONG_MIN; lia].
Qed.

End Texts.
