(* ===== verification/SdsCat.v ===== *)
(** * Dynamic strings that grow

    Creating, duplicating, appending, copying, growing and shrinking strings on
    an allocator that gives at least what is asked for. *)

From stdpp Require Import base list option.
From Stdlib Require Import ZArith Lia Bool.
From S2P Require Import Prelude Endian Util Sds SdsFacts SdsOps.

Local Open Scope Z_scope.

Section Alloc.
Context `{Host} (fill : nat -> byte) (usable : Z -> Z -> Z) (try_fails : Z -> bool).
Hypothesis usable_enough : forall old n, 0 <= n < 2 ^ 64 -> n <= usable old n < 2 ^ 64.

(** ** New strings *)

Lemma init_block init size M : 0 <= size <= zlen M ->
  exists M', match init with INIT_NULL => buf_write M 0 (replicate (Z.to_nat size) 0) | _ => Some M end = Some M' /\ zlen M' = zlen M /\
    (init = INIT_NULL -> exists r, M' = replicate (Z.to_nat size) 0 ++ r).
Proof.
  intros Hs. destruct init as [| |t]; [by exists M| |by exists M]. destruct (zlen_split M size) as (m & r & -> & Hm); [lia|]. exists (replicate (Z.to_nat size) 0 ++ r).
  assert (length (replicate (Z.to_nat size) 0) = length m) as Hl by (rewrite length_replicate; unfold zlen in Hm; lia). split_and!; [|rewrite !zlen_app; unfold zlen; by rewrite Hl|eauto].
  rewrite <- (app_nil_l (m ++ r)). by apply buf_write_app.
Qed.

(** A block cut into a header without its last byte, this byte, a text and the
    byte after it. *)
Lemma cut_block (M : list byte) h n : 1 <= h -> 0 <= n -> h + n + 1 <= zlen M ->
  exists j f0 x0 c rest, M = j ++ [f0] ++ x0 ++ c :: rest /\ 1 + zlen j = h /\ zlen x0 = n.
Proof.
  intros Hh Hn HM. destruct (zlen_split M (h - 1)) as (j & M1 & -> & Hj); [lia|]. rewrite zlen_app in HM. destruct M1 as [|f0 M1]; [rewrite zlen_nil in HM; lia|]. rewrite zlen_cons in HM.
  destruct (zlen_split M1 n) as (x0 & M2 & -> & Hx); [lia|]. rewrite zlen_app in HM. destruct M2 as [|c rest]; [rewrite zlen_nil in HM; lia|]. exists j, f0, x0, c, rest. split_and!; [done|lia|done].
Qed.

Lemma replicate_cut (j : list byte) f0 x0 c rest r size : replicate size 0 ++ r = j ++ [f0] ++ x0 ++ c :: rest -> (length j + 1 + length x0 <= size)%nat -> x0 = replicate (length x0) 0.
Proof.
  intros E Hl. assert (x0 = take (length x0) (drop (length j + 1) (replicate size 0 ++ r))) as Hx.
  { rewrite E, app_assoc. replace (length j + 1)%nat with (length (j ++ [f0])) by (rewrite length_app; done). by rewrite drop_app_length, take_app_length. }
  rewrite Hx at 1. rewrite drop_app_le by (rewrite length_replicate; lia). rewrite drop_replicate, take_app_le by (rewrite length_replicate; lia). rewrite take_replicate. f_equal. lia.
Qed.

Lemma newlen_spec init n tr : 0 <= n < 2 ^ 63 -> (forall t, init = INIT t -> n <= zlen t) ->
  (tr = true -> try_fails (sdsHdrSize (new_type n) + n + 1) = false) ->
  exists s x, _sdsnewlen fill usable try_fails init n tr = Some (Some s) /\ init_text init n x /\ sds_rep s x.
Proof.
  intros Hn Hinit Htry. destruct (new_type_spec n ltac:(lia)) as (Ht & Hmax & H17). unfold _sdsnewlen. fold (new_type n). set (t := new_type n) in *. rewrite (u64_small (n + sdsHdrSize t + 1)), (u64_small (sdsHdrSize t + n + 1)) by lia. rewrite_if_false.
  assert (tr && try_fails (sdsHdrSize t + n + 1) = false) as -> by (destruct tr; [by apply Htry|done]). unfold s_malloc, s_realloc. change (zlen []) with 0. pose proof (usable_enough 0 (sdsHdrSize t + n + 1) ltac:(lia)) as HU.
  assert (zlen (realloc fill [] (usable 0 (sdsHdrSize t + n + 1))) = usable 0 (sdsHdrSize t + n + 1)) as HM by (apply realloc_length; lia). set (M := realloc fill [] _) in *. clearbody M.
  destruct (init_block init (sdsHdrSize t + n + 1) M) as (M' & -> & HM' & Hnull); [lia|]. cbn [mbind option_bind].
  destruct (cut_block M' (sdsHdrSize t) n) as (j & f0 & x0 & c & rest & -> & Hj & Hx0); [lia..|].
  assert (zlen M = sdsHdrSize t + zlen (x0 ++ c :: rest)) as Hb by (rewrite <- HM', zlen_app; rewrite zlen_app; change (zlen [f0]) with 1; lia).
  destruct (fresh_room t n M j f0 (x0 ++ c :: rest) Ht Hj ltac:(lia) ltac:(lia) Hb) as (s1 & al & Hs1 & Hm1). cbn zeta in Hs1. rewrite Hs1. cbn [mbind option_bind].
  assert (exists s2 x, match init with INIT t => if negb (n =? 0) then bs ← buf_read t 0 n; sds_write s1 0 bs else Some s1 | _ => Some s1 end = Some s2 /\ init_text init n x /\ zlen x = n /\ sds_mem t n al s2 (x ++ c :: rest)) as (s2 & x & -> & Htext & Hx & Hm2).
  { destruct init as [| |tt]; [by exists s1, x0| |].
    - exists s1, x0. split_and!; [done| |done|done]. destruct (Hnull eq_refl) as [r Hr]. unfold init_text. replace (Z.to_nat n) with (length x0) by (unfold zlen in Hx0; lia). eapply replicate_cut; [symmetry; exact Hr|]. unfold zlen in *. lia.
    - specialize (Hinit tt eq_refl). destruct (zlen_split tt n) as (x & r & -> & Hx); [lia|]. assert (buf_read (x ++ r) 0 n = Some x) as Hread by (rewrite <- (app_nil_l (x ++ r)); by apply buf_read_app). destruct (Z.eqb_spec n 0) as [E|E]; cbn [negb].
      + exists s1, x0. assert (x = []) as -> by (apply nil_length_inv; unfold zlen in Hx; lia). assert (x0 = []) as -> by (apply nil_length_inv; unfold zlen in Hx0; lia). done.
      + rewrite Hread. cbn [mbind option_bind]. destruct (mem_write _ _ _ _ _ Hm1 0 x (x ++ c :: rest)) as (s2 & Hs2 & Hm2); [rewrite <- (app_nil_l (x0 ++ _)); rewrite buf_write_app; [done|done|unfold zlen in *; lia]|]. exists s2, x. done. }
  cbn [mbind option_bind]. step (mem_write _ _ _ _ _ Hm2 n [0] (x ++ [0] ++ rest) ltac:(change (c :: rest) with ([c] ++ rest); by apply buf_write_app)). exists s, x. split_and!; [done..|]. exists t, al, rest. by rewrite Hx.
Qed.

Lemma newlen_rep t n x : buf_read t 0 n = Some x -> n < 2 ^ 63 -> exists s, sdsnewlen fill usable try_fails (INIT t) n = Some s /\ sds_rep s x.
Proof.
  intros Hr H63. pose proof Hr as (a & c & -> & Ha & Hn)%buf_read_Some. destruct (newlen_spec (INIT (a ++ x ++ c)) n false) as (s & y & Hs & Ht & Hrep); [pose proof (zlen_nonneg x); lia|intros t [= <-]; zlen|done|].
  exists s. unfold sdsnewlen. rewrite Hs. split; [done|]. cbn [init_text] in Ht. congruence.
Qed.

Lemma empty_rep : exists s, sdsempty fill usable try_fails = Some s /\ sds_rep s [].
Proof. by apply newlen_rep. Qed.

Lemma dup_rep s x : sds_rep s x -> zlen x < 2 ^ 63 -> exists s', sdsdup fill usable try_fails s = Some s' /\ sds_rep s' x.
Proof. intros Hr Hx. unfold sdsdup. rewrite (rep_len s x Hr). cbn [mbind option_bind]. apply newlen_rep; [by apply rep_read|done]. Qed.

Lemma sdsnew_rep t n : strlen t = Some n -> n < 2 ^ 63 -> exists s, sdsnew fill usable try_fails (Some t) = Some s /\ sds_rep s (c_str t).
Proof.
  intros Hn Hz. unfold sdsnew. rewrite Hn. cbn [mbind option_bind]. apply newlen_rep; [|done]. destruct (strlen_c_str t n Hn) as (rest & Ht & ->). rewrite Ht at 1. rewrite <- (app_nil_l (c_str t ++ _)). by apply buf_read_app.
Qed.

(** ** Growing *)

Lemma room_open c s x add : sds_open c s x -> 0 <= add -> zlen x + add < 2 ^ 63 ->
  exists t al s' rest, sdsMakeRoomFor fill usable s add = Some s' /\ sds_mem t (zlen x) al s' (x ++ c :: rest) /\ zlen x + add <= al /\ (0 < add -> t <> 0).
Proof.
  intros (t & al & rest & Hm) Hadd H63. destruct (makeroom_mem fill usable usable_enough t (zlen x) al s _ add Hm) as (t' & al' & s' & p & q & r & Hs & Hm' & Hb & Hp & Hal); [lia..|].
  assert (p = x ++ [c]) as ->. { change (c :: rest) with ([c] ++ rest) in Hb. rewrite app_assoc in Hb. apply app_inj_1 in Hb as [-> _]; [done|]. rewrite length_app. unfold zlen in Hp. cbn. lia. }
  rewrite <- app_assoc in Hm'. exists t', al', s', r. split_and!; [done..|]. intros Hpos ->. destruct (mem_hdr _ _ _ _ _ Hm') as (_ & [(_ & Ha & _)|?]); lia.
Qed.

Lemma room_rep s x add : sds_rep s x -> 0 <= add -> zlen x + add < 2 ^ 63 ->
  exists t al s' rest, sdsMakeRoomFor fill usable s add = Some s' /\ sds_mem t (zlen x) al s' (x ++ 0 :: rest) /\ zlen x + add <= al /\ (0 < add -> t <> 0).
Proof. apply room_open. Qed.

(** The room for [y] and the byte after it. *)
Lemma split_room t n al s x (y : list byte) c0 rest : sds_mem t n al s (x ++ c0 :: rest) -> zlen x + zlen y <= al ->
  exists m c r, c0 :: rest = m ++ c :: r /\ length m = length y.
Proof.
  intros Hm Hal. pose proof (mem_room _ _ _ _ _ Hm) as Hr. rewrite zlen_app in Hr. destruct (zlen_split (c0 :: rest) (zlen y)) as (m & d & Hmd & Hz); [zlen|]. destruct d as [|c r].
  - rewrite app_nil_r in Hmd. rewrite Hmd in Hr. lia.
  - exists m, c, r. split; [done|]. unfold zlen in Hz. lia.
Qed.

Lemma catlen_rep s x t n y : sds_rep s x -> buf_read t 0 n = Some y -> zlen x + zlen y < 2 ^ 63 ->
  exists s', sdscatlen fill usable s t n = Some s' /\ sds_rep s' (x ++ y).
Proof.
  intros Hr Hy H63. pose proof Hy as (a & c & _ & _ & ->)%buf_read_Some. unfold sdscatlen. rewrite (rep_len s x Hr). cbn [mbind option_bind]. pose proof (zlen_nonneg x). pose proof (zlen_nonneg y).
  destruct (room_rep s x (zlen y) Hr) as (t' & al & s1 & rest & -> & Hm & Hal & _); [lia..|]. cbn [mbind option_bind]. rewrite Hy. cbn [mbind option_bind].
  destruct (split_room _ _ _ _ x y _ rest Hm Hal) as (m & d & r & Hmr & Hl). rewrite Hmr in Hm. step (mem_write _ _ _ _ _ Hm (zlen x) y (x ++ y ++ d :: r) ltac:(by apply buf_write_app)).
  rewrite u64_small by lia. rewrite app_assoc in Hm0. rewrite <- zlen_app. eapply len_then_end; [done|]. rewrite zlen_app. lia.
Qed.

Lemma cat_rep s x t n : sds_rep s x -> strlen t = Some n -> zlen x + n < 2 ^ 63 -> exists s', sdscat fill usable s t = Some s' /\ sds_rep s' (x ++ c_str t).
Proof.
  intros Hr Hn Hz. unfold sdscat. rewrite Hn. cbn [mbind option_bind]. destruct (strlen_c_str t n Hn) as (rest & Ht & Hc). apply catlen_rep; [done| |by rewrite <- Hc]. rewrite Ht at 1. rewrite <- (app_nil_l (c_str t ++ _)). by apply buf_read_app.
Qed.

Lemma catsds_rep s x t y : sds_rep s x -> sds_rep t y -> zlen x + zlen y < 2 ^ 63 -> exists s', sdscatsds fill usable s t = Some s' /\ sds_rep s' (x ++ y).
Proof. intros Hr Ht Hz. unfold sdscatsds. rewrite (rep_len t y Ht). cbn [mbind option_bind]. apply catlen_rep; [done|by apply rep_read|done]. Qed.

Lemma growzero_rep s x n : sds_rep s x -> n < 2 ^ 63 ->
  exists s', sdsgrowzero fill usable s n = Some s' /\ sds_rep s' (if n <=? zlen x then x else x ++ replicate (Z.to_nat (n - zlen x)) 0).
Proof.
  intros Hr Hn. unfold sdsgrowzero. rewrite (rep_len s x Hr). cbn [mbind option_bind]. case_if; [by exists s|]. pose proof (zlen_nonneg x).
  destruct (room_rep s x (n - zlen x) Hr) as (t' & al & s1 & rest & -> & Hm & Hal & _); [lia..|]. cbn [mbind option_bind]. set (y := replicate (Z.to_nat (n - zlen x)) 0).
  assert (zlen y = n - zlen x) as Hy by (unfold y, zlen in *; rewrite length_replicate; lia). replace (Z.to_nat (n - zlen x + 1)) with (Z.to_nat (n - zlen x) + 1)%nat by lia. rewrite replicate_add. fold y. change (replicate 1 0) with [0].
  destruct (split_room _ _ _ _ x y _ rest Hm ltac:(lia)) as (m & d & r & Hmr & Hl). rewrite Hmr in Hm.
  step (mem_write _ _ _ _ _ Hm (zlen x) (y ++ [0]) (x ++ (y ++ [0]) ++ r) ltac:(change (d :: r) with ([d] ++ r); rewrite (app_assoc m); apply buf_write_app; [done|rewrite !length_app; cbn; lia])).
  rewrite <- app_assoc in Hm0. rewrite app_assoc in Hm0. replace n with (zlen (x ++ y)) by zlen. destruct (sdssetlen_mem _ _ _ _ _ Hm0 (zlen (x ++ y))) as (s' & Hs' & Hm'); [zlen|]. exists s'. split; [done|]. by eexists _, _, r.
Qed.

Lemma cpylen_rep s x t n y : sds_rep s x -> buf_read t 0 n = Some y -> zlen x < 2 ^ 63 -> n < 2 ^ 62 ->
  exists s', sdscpylen fill usable s t n = Some s' /\ sds_rep s' y.
Proof.
  intros Hr Hy Hx63 H62. pose proof Hy as (a & c & _ & _ & ->)%buf_read_Some. pose proof (zlen_nonneg y). pose proof (zlen_nonneg x). unfold sdscpylen.
  assert (exists t al s1 rest n1, (alloc ← sdsalloc s; s ← (if alloc <? zlen y then n ← sdslen s; sdsMakeRoomFor fill usable s (u64 (zlen y - n)) else Some s); Some s) = Some s1 /\ sds_mem t n1 al s1 rest /\ zlen y <= al) as (t' & al & s1 & body & n1 & Hs1 & Hm & Hal).
  { pose proof Hr as (t1 & al1 & rest1 & Hm1). destruct (mem_alloc_pos _ _ _ _ _ Hm1) as [Hn1 Hal1]. rewrite (sdsalloc_mem _ _ _ _ _ Hm1), (rep_len s x Hr). cbn [mbind option_bind]. case_if.
    - rewrite u64_small by lia. destruct (room_rep s x (zlen y - zlen x) Hr) as (t' & al & s1 & rest & -> & Hm & Hal & _); [lia..|]. exists t', al, s1, (x ++ 0 :: rest), (zlen x). split_and!; [done..|lia].
    - exists t1, al1, s, (x ++ 0 :: rest1), (zlen x). split_and!; [done..|lia]. }
  destruct (sdsalloc s) as [al0|]; [|done]. cbn [mbind option_bind] in Hs1 |- *. apply bind_Some in Hs1 as (s1' & Hs1 & [= ->]). rewrite Hs1. cbn [mbind option_bind]. rewrite Hy. cbn [mbind option_bind].
  pose proof (mem_room _ _ _ _ _ Hm) as Hroom. destruct (zlen_split body (zlen y)) as (m & d & -> & Hmz); [lia|]. rewrite zlen_app in Hroom. destruct d as [|c0 d]; [rewrite zlen_nil in Hroom; lia|].
  step (mem_write _ _ _ _ _ Hm 0 y (y ++ c0 :: d) ltac:(rewrite <- (app_nil_l (m ++ _)); rewrite buf_write_app; [done|done|unfold zlen in *; lia])). eapply end_then_len; [done|lia].
Qed.

(** Reading into the room: the string is extended by the [y] written there. *)
Lemma incr_room s x add y : sds_rep s x -> 0 < add -> zlen x + add < 2 ^ 63 -> zlen y <= add ->
  exists s1 s2 s3, sdsMakeRoomFor fill usable s add = Some s1 /\ sds_write s1 (zlen x) y = Some s2 /\ sdsIncrLen s2 (zlen y) = Some s3 /\ sds_rep s3 (x ++ y).
Proof.
  intros Hr Hadd H63 Hy. destruct (room_rep s x add Hr) as (t & al & s1 & rest & Hs1 & Hm & Hal & Ht); [lia..|]. destruct (split_room _ _ _ _ x y _ rest Hm ltac:(lia)) as (m & d & r & Hmr & Hl). rewrite Hmr in Hm.
  destruct (mem_write _ _ _ _ _ Hm (zlen x) y (x ++ y ++ d :: r)) as (s2 & Hs2 & Hm2); [by apply buf_write_app|]. rewrite app_assoc in Hm2. pose proof (zlen_nonneg y).
  destruct (incr_mem _ _ _ _ _ _ _ (zlen y) Hm2) as (s3 & Hs3 & Hr3); [zlen|rewrite zlen_app; lia|intros E; by destruct (Ht Hadd)|unfold LLONG_MIN; lia|]. eauto 10.
Qed.

(** ** Shrinking *)

Lemma remove_rep s x : sds_rep s x -> zlen x < 2 ^ 63 ->
  exists s', sdsRemoveFreeSpace fill usable s = Some s' /\ sds_rep s' x /\ sdsavail s' = Some 0.
Proof.
  intros (t & al & rest & Hm) H63. destruct (mem_flags _ _ _ _ _ Hm) as (f & Hf & Hty & _ & _). destruct (mem_alloc_pos _ _ _ _ _ Hm) as [Hn Hal]. unfold sdsRemoveFreeSpace. rewrite Hf. cbn [mbind option_bind]. rewrite Hty, (sdslen_mem _ _ _ _ _ Hm), (sdsavail_mem _ _ _ _ _ Hm). cbn [mbind option_bind].
  case_if; [exists s; split_and!; [done|by exists t, al, rest|]; rewrite (sdsavail_mem _ _ _ _ _ Hm); f_equal; lia|]. rewrite (mem_ptr _ _ _ _ _ Hm), Z.sub_diag. cbn [negb Z.eqb].
  destruct (sdsReqType_spec (zlen x) ltac:(lia)) as [Ht Hmax]. cbn zeta in *. set (u := sdsReqType (zlen x)) in *.
  assert (forall v, 0 <= v <= 4 -> 1 <= sdsHdrSize v <= 17) as Hsz. { intros v Hv. assert (v = 0 \/ v = 1 \/ v = 2 \/ v = 3 \/ v = 4) as [->|[->|[->|[->| ->]]]] by lia; by vm_compute. }
  pose proof (mem_hdr _ _ _ _ _ Hm) as (_ & Hok). assert (1 <= t <= 4) as Htt by (destruct Hok as [(_ & ? & _)|[? _]]; lia).
  assert (exists s1 t1 p q r, (if (t =? u) || (SDS_TYPE_8 <? u) then Some (mk_sds (s_realloc fill usable (blk s) (u64 (sdsHdrSize t + zlen x + 1))) (sdsHdrSize t)) else move_block fill usable s (zlen x) u (u64 (sdsHdrSize u + zlen x + 1))) = Some s1 /\
     sds_half t1 (zlen x) s1 (p ++ r) /\ x ++ 0 :: rest = p ++ q /\ zlen p = zlen x + 1 /\ hdr_ok t1 (zlen x) (zlen x)) as (s1 & t1 & p & q & r & -> & Hh & Hb & Hp & Hok1).
  { pose proof (Hsz t ltac:(lia)). pose proof (Hsz u Ht). rewrite !u64_small by lia. destruct ((t =? u) || (SDS_TYPE_8 <? u)) eqn:Eu.
    - destruct (realloc_half fill usable usable_enough t (zlen x) al s _ (sdsHdrSize t + zlen x + 1) Hm) as (p & q & r & Hb & Hp & Hh & _); [lia..|]. eexists _, t, p, q, r. split_and!; [done..|]. split; [lia|]. right. destruct Hok as [(? & _)|[_ ?]]; [lia|]. split; [done|]. lia.
    - apply orb_false_iff in Eu as [_ Eu]. unfold SDS_TYPE_8 in Eu. destruct (move_block_mem fill usable usable_enough t u (zlen x) al s _ (sdsHdrSize u + zlen x + 1) Hm) as (s1 & p & r & Hmv & Hh & Hread & Hp & _); [lia| |lia..|].
      { intros E0. rewrite E0 in Hmax. change (sdsTypeMaxSize 0) with 31 in Hmax. lia. }
      apply buf_read_Some in Hread as (a & q & Hb & Ha & _). assert (a = []) as -> by (apply nil_length_inv; unfold zlen in Ha; lia). exists s1, u, p, q, r. split_and!; [done..|]. split; [lia|].
      assert (u = 0 \/ u = 1) as [E0|E0] by lia; rewrite E0 in *; [left; change (sdsTypeMaxSize 0) with 31 in Hmax; lia|right; change (sdsTypeMaxSize 1) with 255 in Hmax; split; [lia|]; change (256 ^ Z.of_nat (type_width 1)) with 256; lia]. }
  cbn [mbind option_bind]. destruct (half_setalloc t1 (zlen x) (zlen x) s1 (p ++ r) Hh Hok1 ltac:(zlen)) as (s' & Hs' & Hm'). exists s'. assert (p = x ++ [0]) as ->.
  { change (0 :: rest) with ([0] ++ rest) in Hb. rewrite app_assoc in Hb. apply app_inj_1 in Hb as [-> _]; [done|]. rewrite length_app. unfold zlen in Hp. cbn. lia. }
  rewrite <- app_assoc in Hm'. split_and!; [done|by eexists _, _, r|]. rewrite (sdsavail_mem _ _ _ _ _ Hm'). f_equal. lia.
Qed.

End Alloc.
