(* ===== verification/SdsFmt.v ===== *)
(** * Numbers and formats of dynamic strings

    The decimal texts of [sdsll2str] and [sdsull2str], and [sdscatfmt] against a
    description of the text a format gives. *)

From stdpp Require Import base list option.
From Stdlib Require Import ZArith Lia Bool.
From S2P Require Import Prelude Endian Util UtilFacts Sds SdsFacts SdsOps SdsCat.

Local Open Scope Z_scope.

(** ** Digits *)

Lemma dec_rec_len k fuel v : 0 <= v < 10 ^ Z.of_nat (S k) -> (k <= fuel)%nat -> 1 <= zlen (dec_rec fuel v) <= Z.of_nat (S k).
Proof.
  revert fuel v. induction k as [|k IH]; intros fuel v Hv Hf.
  - change (10 ^ Z.of_nat 1) with 10 in Hv. destruct fuel; cbn [dec_rec]; (rewrite_if_true; rewrite zlen_cons, zlen_nil; lia).
  - destruct fuel as [|fuel]; [lia|]. cbn [dec_rec]. case_if; [rewrite zlen_cons, zlen_nil; lia|]. rewrite zlen_app, zlen_cons, zlen_nil.
    replace (Z.of_nat (S (S k))) with (Z.succ (Z.of_nat (S k))) in Hv |- * by lia. rewrite Z.pow_succ_r in Hv by lia.
    destruct (IH fuel (v / 10)) as [H1 H2]; [split; [apply Z.div_pos; lia|apply Z.div_lt_upper_bound; lia]|lia|]. lia.
Qed.

Lemma digits_loop_S fuel buf p v : digits_loop (S fuel) buf p v =
  (buf ← buf_write buf p [c_0 + v mod 10]; if v / 10 =? 0 then Some (buf, p + 1) else digits_loop fuel buf (p + 1) (v / 10)).
Proof. done. Qed.

Lemma digits_loop_spec k a m v : 0 <= v < 10 ^ Z.of_nat (S k) -> Z.of_nat (S k) <= zlen m ->
  exists m', digits_loop (S k) (a ++ m) (zlen a) v = Some (a ++ rev (dec_rec k v) ++ m', zlen a + zlen (dec_rec k v)) /\ zlen m' = zlen m - zlen (dec_rec k v).
Proof.
  revert a m v. induction k as [|k IH]; intros a m v Hv Hm; (destruct m as [|m0 m]; [rewrite zlen_nil in Hm; lia|]); rewrite zlen_cons in Hm.
  all: change (m0 :: m) with ([m0] ++ m); rewrite digits_loop_S; rewrite buf_write_app by done; cbn [mbind option_bind].
  - change (10 ^ Z.of_nat 1) with 10 in Hv. rewrite Z.div_small, Z.mod_small by lia. cbn [Z.eqb dec_rec]. rewrite_if_true. exists m. cbn [rev app]. split; [done|]. zlen.
  - cbn [dec_rec]. destruct (Z.ltb_spec v 10) as [Hl|Hg].
    + rewrite Z.div_small, Z.mod_small by lia. cbn [Z.eqb]. exists m. split; [done|]. zlen.
    + assert (1 <= v / 10) by (apply Z.div_le_lower_bound; lia). rewrite_if_false. replace (zlen a + 1) with (zlen (a ++ [c_0 + v mod 10])) by zlen. rewrite app_assoc.
      replace (Z.of_nat (S (S k))) with (Z.succ (Z.of_nat (S k))) in * by lia. rewrite Z.pow_succ_r in Hv by lia.
      destruct (IH (a ++ [c_0 + v mod 10]) m (v / 10)) as (m' & -> & Hz); [split; [lia|apply Z.div_lt_upper_bound; lia]|lia|].
      exists m'. rewrite rev_app_distr, <- app_assoc. cbn [rev app]. split; [f_equal; f_equal; zlen|zlen].
Qed.

Lemma reverse_loop_spec n a m c fuel : (length m <= n)%nat -> (length m <= fuel)%nat ->
  reverse_loop fuel (a ++ m ++ c) (zlen a) (zlen a + zlen m - 1) = Some (a ++ rev m ++ c).
Proof.
  revert a m c fuel. induction n as [|n IH]; intros a m c fuel Hn Hf.
  - destruct m; [|cbn in Hn; lia]. destruct fuel; cbn [reverse_loop]; (rewrite zlen_nil; by rewrite_if_false).
  - destruct m as [|x m]; [destruct fuel; cbn [reverse_loop]; (rewrite zlen_nil; by rewrite_if_false)|]. destruct m as [|y m _] using rev_ind; [destruct fuel; cbn [reverse_loop]; (rewrite zlen_cons, zlen_nil; by rewrite_if_false)|].
    destruct fuel as [|fuel]; [cbn in Hf; lia|]. cbn [length] in Hn, Hf. rewrite length_app in Hn, Hf. cbn [length] in Hn, Hf. cbn [reverse_loop]. rewrite zlen_cons, zlen_app. change (zlen [y]) with 1. pose proof (zlen_nonneg m). rewrite_if_true.
    assert (zlen a + (1 + (zlen m + 1)) - 1 = zlen (a ++ x :: m)) as Hp by zlen. rewrite Hp.
    assert (a ++ (x :: m ++ [y]) ++ c = a ++ x :: m ++ [y] ++ c) as -> by (cbn [app]; by rewrite <- !app_assoc). rewrite byte_at_app. cbn [mbind option_bind].
    assert (byte_at (a ++ x :: m ++ [y] ++ c) (zlen (a ++ x :: m)) = Some y) as -> by (change (a ++ x :: m ++ [y] ++ c) with (a ++ (x :: m) ++ y :: c); rewrite app_assoc; apply byte_at_app). cbn [mbind option_bind].
    change (x :: m ++ [y] ++ c) with ([x] ++ m ++ [y] ++ c). rewrite buf_write_app by done. cbn [mbind option_bind].
    change (a ++ [y] ++ m ++ [y] ++ c) with (a ++ ([y] ++ m) ++ [y] ++ c). rewrite (app_assoc a ([y] ++ m)). rewrite buf_write_app; [|zlen|done]. cbn [mbind option_bind].
    replace (zlen a + 1) with (zlen (a ++ [y])) by zlen. replace (zlen (a ++ x :: m) - 1) with (zlen (a ++ [y]) + zlen m - 1) by zlen. replace ((a ++ [y] ++ m) ++ [x] ++ c) with ((a ++ [y]) ++ m ++ [x] ++ c) by (by rewrite <- !app_assoc).
    rewrite IH by lia. f_equal. cbn [rev]. rewrite rev_app_distr. cbn [rev app]. by rewrite <- !app_assoc.
Qed.

(** Ending and reversing the digits. *)
Lemma reverse_digits m r0 rest : exists buf, (buf ← buf_write (m ++ r0 :: rest) (zlen m) [0]; buf ← reverse_loop (length buf) buf 0 (zlen m - 1); Some (buf, zlen m)) = Some (buf, zlen m) /\ buf = rev m ++ 0 :: rest.
Proof.
  change (r0 :: rest) with ([r0] ++ rest). rewrite buf_write_app by done. cbn [mbind option_bind]. pose proof (reverse_loop_spec (length m) [] m ([0] ++ rest) (length (m ++ [0] ++ rest))) as Hr. change (zlen []) with 0 in Hr. rewrite Z.add_0_l in Hr. cbn [app] in Hr |- *. rewrite Hr; [|lia|rewrite length_app; lia]. eauto.
Qed.

Lemma sdsull2str_spec buf v : zlen buf = SDS_LLSTR_SIZE -> 0 <= v < 2 ^ 64 ->
  exists rest, sdsull2str buf v = Some (decimal v ++ 0 :: rest, zlen (decimal v)).
Proof.
  unfold SDS_LLSTR_SIZE. intros Hb Hv. unfold sdsull2str, decimal. rewrite_if_false. assert (2 ^ 64 < 10 ^ 20) by done. assert (0 <= v < 10 ^ Z.of_nat 20) as Hv20 by (change (10 ^ Z.of_nat 20) with (10 ^ 20); lia).
  destruct (digits_loop_spec 19 [] buf v Hv20 ltac:(lia)) as (m' & Hd & Hz). change (zlen []) with 0 in Hd. rewrite Z.add_0_l in Hd. cbn [app] in Hd. rewrite Hd. cbn [mbind option_bind]. destruct (dec_rec_len 19 19 v Hv20 ltac:(lia)) as [H1 H2]. destruct m' as [|r0 rest]; [rewrite zlen_nil in Hz; lia|].
  destruct (reverse_digits (rev (dec_rec 19 v)) r0 rest) as (b & Hr & Hbb). assert (zlen (rev (dec_rec 19 v)) = zlen (dec_rec 19 v)) as Hzr by (unfold zlen; by rewrite length_rev). rewrite Hzr in Hr. exists rest. cbn zeta. rewrite Hr, Hbb, rev_involutive. done.
Qed.

Lemma sdsll2str_spec buf v : zlen buf = SDS_LLSTR_SIZE -> LLONG_MIN < v <= LLONG_MAX ->
  exists rest, sdsll2str buf v = Some (decimal v ++ 0 :: rest, zlen (decimal v)).
Proof.
  unfold SDS_LLSTR_SIZE, LLONG_MIN, LLONG_MAX. intros Hb Hv. destruct (Z.ltb_spec v 0) as [Hneg|Hpos].
  - unfold sdsll2str, decimal, LLONG_MIN. assert ((v <? 0) = true) as -> by lia. rewrite_if_false. cbn [mbind option_bind]. assert (2 ^ 63 < 10 ^ 19) by done. assert (0 <= - v < 10 ^ Z.of_nat 19) as Hv19 by (change (10 ^ Z.of_nat 19) with (10 ^ 19); lia).
    destruct (digits_loop_spec 19 [] buf (- v)) as (m' & Hd & Hz); [change (10 ^ Z.of_nat 20) with (10 ^ 20); lia|lia|]. change (zlen []) with 0 in Hd. rewrite Z.add_0_l in Hd. cbn [app] in Hd. rewrite Hd. cbn [mbind option_bind]. destruct (dec_rec_len 18 19 (- v) Hv19 ltac:(lia)) as [H1 H2].
    destruct m' as [|r1 [|r0 rest]]; [rewrite zlen_nil in Hz; lia|rewrite zlen_cons, zlen_nil in Hz; lia|]. assert (zlen (rev (dec_rec 19 (- v))) = zlen (dec_rec 19 (- v))) as Hzr by (unfold zlen; by rewrite length_rev).
    change (r1 :: r0 :: rest) with ([r1] ++ r0 :: rest). rewrite buf_write_app by (done || lia). cbn [mbind option_bind]. rewrite app_assoc. destruct (reverse_digits (rev (dec_rec 19 (- v)) ++ [c_minus]) r0 rest) as (b & Hr & Hbb). rewrite zlen_app, Hzr in Hr. change (zlen [c_minus]) with 1 in Hr.
    cbn zeta. rewrite Hr, Hbb, rev_app_distr, rev_involutive. exists rest. cbn [rev app]. rewrite zlen_cons. do 2 f_equal. lia.
  - destruct (sdsull2str_spec buf v Hb ltac:(lia)) as (rest & Hr). exists rest. rewrite <- Hr. unfold sdsll2str, sdsull2str. assert ((v <? 0) = false) as -> by lia. cbn [mbind option_bind]. destruct (digits_loop 20 buf 0 v) as [[b p]|]; done.
Qed.

Lemma uninit_zlen fill n : 0 <= n -> zlen (uninit fill n) = n.
Proof. intros. unfold uninit, zlen. rewrite length_map, length_seq. lia. Qed.

(** ** The text of a format *)

Section Fmt.
Context `{Host} (fill : nat -> byte) (usable : Z -> Z -> Z) (try_fails : Z -> bool).
Hypothesis usable_enough : forall old n, 0 <= n < 2 ^ 64 -> n <= usable old n < 2 ^ 64.

Lemma fromlonglong_rep v : LLONG_MIN < v <= LLONG_MAX -> exists s, sdsfromlonglong fill usable try_fails v = Some s /\ sds_rep s (decimal v).
Proof.
  intros Hv. unfold sdsfromlonglong. destruct (sdsll2str_spec (uninit fill SDS_LLSTR_SIZE) v) as (rest & ->); [by apply uninit_zlen|done|]. cbn [mbind option_bind]. apply newlen_rep; [done| |].
  - rewrite <- (app_nil_l (decimal v ++ _)). by apply buf_read_app.
  - unfold LLONG_MIN, LLONG_MAX in Hv. unfold decimal. assert (2 ^ 63 < 10 ^ Z.of_nat 20) by done. case_if; rewrite ?zlen_cons; match goal with |- context [dec_rec 19 ?w] => pose proof (dec_rec_len 19 19 w ltac:(lia) ltac:(lia)) end; lia.
Qed.

(** The text a specifier gives for an argument. *)
Inductive arg_text : Z -> fmtarg -> list byte -> Prop :=
  | arg_s t n : strlen t = Some n -> arg_text 115 (ACstr t) (c_str t)
  | arg_S t x : sds_rep t x -> arg_text 83 (ASds t) x
  | arg_i v : INT32_MIN <= v <= INT32_MAX -> arg_text 105 (AInt v) (decimal v)
  | arg_I v : LLONG_MIN < v <= LLONG_MAX -> arg_text 73 (ALongLong v) (decimal v)
  | arg_u v : 0 <= v < 2 ^ 32 -> arg_text 117 (AUint v) (decimal v)
  | arg_U v : 0 <= v < 2 ^ 64 -> arg_text 85 (AUlongLong v) (decimal v).

Inductive fmt_text : list byte -> list fmtarg -> list byte -> Prop :=
  | fmt_nil ap : fmt_text [] ap []
  | fmt_char c f ap out : c <> 0 -> c <> 37 -> fmt_text f ap out -> fmt_text (c :: f) ap (c :: out)
  | fmt_arg d a f ap x out : arg_text d a x -> fmt_text f ap out -> fmt_text (37 :: d :: f) (a :: ap) (x ++ out)
  | fmt_other d f ap out : d <> 0 -> d ∉ [115; 83; 105; 73; 117; 85] -> fmt_text f ap out -> fmt_text (37 :: d :: f) ap (d :: out).

Definition is_open (s : sds) (x : list byte) : Prop := exists c, sds_open c s x.

(** Writing [y] at the end of a string that has the room. *)
Lemma append_open t al c s x y rest : sds_mem t (zlen x) al s (x ++ c :: rest) -> zlen x + zlen y <= al ->
  exists s', (s ← sds_write s (zlen x) y; sdsinclen s (zlen y)) = Some s' /\ is_open s' (x ++ y).
Proof.
  intros Hm Hal. destruct (split_room _ _ _ _ x y _ rest Hm Hal) as (m & d & r & Hmr & Hl). rewrite Hmr in Hm. step (mem_write _ _ _ _ _ Hm (zlen x) y (x ++ y ++ d :: r) ltac:(by apply buf_write_app)).
  destruct (sdsinclen_mem _ _ _ _ _ Hm0 (zlen y)) as (s' & Hs' & Hm'); [zlen|done|]. exists s'. split; [done|]. rewrite app_assoc in Hm'. rewrite <- zlen_app in Hm'. by eexists d, _, _, r.
Qed.

Lemma fmt_append_open s x str y : is_open s x -> buf_read str 0 (zlen y) = Some y -> zlen x + zlen y < 2 ^ 63 ->
  exists s', fmt_append fill usable s (zlen x) str (zlen y) = Some (s', zlen (x ++ y)) /\ is_open s' (x ++ y).
Proof.
  intros [c Ho] Hy Hz. unfold fmt_append. pose proof Ho as (t & al & rest & Hm). rewrite (sdsavail_mem _ _ _ _ _ Hm). cbn [mbind option_bind].
  assert (exists t1 al1 s1 rest1, (if al - zlen x <? zlen y then sdsMakeRoomFor fill usable s (zlen y) else Some s) = Some s1 /\ sds_mem t1 (zlen x) al1 s1 (x ++ c :: rest1) /\ zlen x + zlen y <= al1) as (t1 & al1 & s1 & rest1 & -> & Hm1 & Hal1).
  { case_if; [|exists t, al, s, rest; split_and!; [done..|lia]]. destruct (room_open fill usable usable_enough c s x (zlen y) Ho) as (t1 & al1 & s1 & rest1 & H1 & H2 & H3 & _); [zlen|lia|]. exists t1, al1, s1, rest1. done. }
  cbn [mbind option_bind]. rewrite Hy. cbn [mbind option_bind]. destruct (append_open t1 al1 c s1 x y rest1 Hm1 Hal1) as (s' & Hs' & Ho'). exists s'. split; [|done]. rewrite zlen_app. revert Hs'. destruct (sds_write s1 (zlen x) y) as [s2|]; [|done]. cbn [mbind option_bind]. by intros ->.
Qed.

Lemma read_front x (r : list byte) : buf_read (x ++ r) 0 (zlen x) = Some x.
Proof. rewrite <- (app_nil_l (x ++ r)). by apply buf_read_app. Qed.

(** A specifier with its argument. *)
Lemma fmt_spec_arg s x d a ap y : is_open s x -> arg_text d a y -> zlen x + zlen y < 2 ^ 63 ->
  exists s', fmt_spec fill usable s (zlen x) d (a :: ap) = Some (s', zlen (x ++ y), ap) /\ is_open s' (x ++ y).
Proof.
  intros Ho Ha Hz.
  assert (Hbuf : forall v, LLONG_MIN < v <= LLONG_MAX -> exists b, sdsll2str (uninit fill SDS_LLSTR_SIZE) v = Some (b, zlen (decimal v)) /\ buf_read b 0 (zlen (decimal v)) = Some (decimal v)).
  { intros v Hv. destruct (sdsll2str_spec (uninit fill SDS_LLSTR_SIZE) v) as (rest & Hr); [by apply uninit_zlen|done|]. eexists. split; [done|]. apply read_front. }
  assert (Hubuf : forall v, 0 <= v < 2 ^ 64 -> exists b, sdsull2str (uninit fill SDS_LLSTR_SIZE) v = Some (b, zlen (decimal v)) /\ buf_read b 0 (zlen (decimal v)) = Some (decimal v)).
  { intros v Hv. destruct (sdsull2str_spec (uninit fill SDS_LLSTR_SIZE) v) as (rest & Hr); [by apply uninit_zlen|done|]. eexists. split; [done|]. apply read_front. }
  destruct Ha as [t n Hn|t y Hy|v Hv|v Hv|v Hv|v Hv]; unfold fmt_spec; cbn [Z.eqb Pos.eqb orb].
  - rewrite Hn. cbn [mbind option_bind]. destruct (strlen_c_str t n Hn) as (rest & Ht & ->). destruct (fmt_append_open s x t (c_str t) Ho) as (s' & -> & Ho'); [rewrite Ht at 1; apply read_front|done|]. by exists s'.
  - rewrite (rep_len t y Hy). cbn [mbind option_bind]. destruct (fmt_append_open s x (bytes_from t) y Ho) as (s' & -> & Ho'); [by apply rep_read|done|]. by exists s'.
  - cbn [mbind option_bind]. destruct (Hbuf v) as (b & -> & Hb); [unfold INT32_MIN, INT32_MAX, LLONG_MIN, LLONG_MAX in *; lia|]. cbn [mbind option_bind]. destruct (fmt_append_open s x b _ Ho Hb Hz) as (s' & -> & Ho'). by exists s'.
  - cbn [mbind option_bind]. destruct (Hbuf v Hv) as (b & -> & Hb). cbn [mbind option_bind]. destruct (fmt_append_open s x b _ Ho Hb Hz) as (s' & -> & Ho'). by exists s'.
  - cbn [mbind option_bind]. destruct (Hubuf v) as (b & -> & Hb); [lia|]. cbn [mbind option_bind]. destruct (fmt_append_open s x b _ Ho Hb Hz) as (s' & -> & Ho'). by exists s'.
  - cbn [mbind option_bind]. destruct (Hubuf v Hv) as (b & -> & Hb). cbn [mbind option_bind]. destruct (fmt_append_open s x b _ Ho Hb Hz) as (s' & -> & Ho'). by exists s'.
Qed.

(** Room for at least one byte. *)
Lemma one_byte s x : is_open s x -> zlen x + 1 < 2 ^ 63 ->
  exists s' t al c rest, (avail ← sdsavail s; if avail =? 0 then sdsMakeRoomFor fill usable s 1 else Some s) = Some s' /\ sds_mem t (zlen x) al s' (x ++ c :: rest) /\ zlen x + 1 <= al.
Proof.
  intros [c Ho] Hz. pose proof Ho as (t & al & rest & Hm). destruct (mem_alloc_pos _ _ _ _ _ Hm) as [Hn _]. rewrite (sdsavail_mem _ _ _ _ _ Hm). cbn [mbind option_bind]. case_if.
  - destruct (room_open fill usable usable_enough c s x 1 Ho) as (t1 & al1 & s1 & rest1 & H1 & H2 & H3 & _); [lia..|]. exists s1, t1, al1, c, rest1. done.
  - exists s, t, al, c, rest. split_and!; [done..|lia].
Qed.

Lemma fmt_loop_S fuel s f ap i : fmt_loop fill usable (S fuel) s f ap i =
  (c ← head f;
   if c =? 0 then Some (s, i)
   else
     s ← (avail ← sdsavail s; if avail =? 0 then sdsMakeRoomFor fill usable s 1 else Some s);
     if c =? 37 then
       next ← head (tail f);
       '(s, i, ap) ← fmt_spec fill usable s i next ap;
       fmt_loop fill usable fuel s (tail (tail f)) ap i
     else
       s ← (s ← sds_write s i [c]; sdsinclen s 1);
       fmt_loop fill usable fuel s (tail f) ap (i + 1)).
Proof.
  cbn [fmt_loop]. destruct (head f) as [c|]; [|done]. cbn [mbind option_bind]. destruct (c =? 0); [done|]. destruct (sdsavail s) as [av|]; [|done]. cbn [mbind option_bind]. destruct (if av =? 0 then _ else _) as [s1|]; [|done]. cbn [mbind option_bind].
  destruct (c =? 37); [done|]. destruct (sds_write s1 i [c]); done.
Qed.

(** The loop on a format [f] and what follows it. *)
Lemma fmt_loop_text f ap out : fmt_text f ap out -> forall s x fuel tl, is_open s x -> zlen x + zlen out < 2 ^ 62 -> (length f < fuel)%nat ->
  exists s' ap' fuel', fmt_loop fill usable fuel s (f ++ tl) ap (zlen x) = fmt_loop fill usable (S fuel') s' tl ap' (zlen (x ++ out)) /\ is_open s' (x ++ out).
Proof.
  induction 1 as [ap|c f ap out Hc0 Hc37 _ IH|d a f ap y out Ha _ IH|d f ap out Hd0 Hd _ IH]; intros s x fuel tl Ho Hz Hf; (destruct fuel as [|fuel]; [cbn in Hf; lia|]).
  { rewrite app_nil_r. by exists s, ap, fuel. }
  all: rewrite fmt_loop_S; cbn [app head tail mbind option_bind Z.eqb Pos.eqb].
  - rewrite zlen_cons in Hz. pose proof (zlen_nonneg out). rewrite (proj2 (Z.eqb_neq c 0)), (proj2 (Z.eqb_neq c 37)) by done. destruct (one_byte s x Ho ltac:(lia)) as (s1 & t & al & c1 & rest1 & -> & Hm1 & Hal1). cbn [mbind option_bind].
    destruct (append_open t al c1 s1 x [c] rest1 Hm1 Hal1) as (s2 & Hs2 & Ho2). change (zlen [c]) with 1 in Hs2. rewrite Hs2. cbn [mbind option_bind]. replace (zlen x + 1) with (zlen (x ++ [c])) by zlen.
    destruct (IH s2 (x ++ [c]) fuel tl Ho2) as (s' & ap' & fuel' & -> & Ho'); [zlen|cbn in Hf; lia|]. exists s', ap', fuel'. by rewrite <- app_assoc in *.
  - rewrite zlen_app in Hz. pose proof (zlen_nonneg out). pose proof (zlen_nonneg y). destruct (one_byte s x Ho ltac:(lia)) as (s1 & t & al & c1 & rest1 & -> & Hm1 & Hal1). cbn [mbind option_bind].
    destruct (fmt_spec_arg s1 x d a ap y) as (s2 & -> & Ho2); [by eexists c1, _, _, rest1|done|lia|]. cbn [mbind option_bind]. destruct (IH s2 (x ++ y) fuel tl Ho2) as (s' & ap' & fuel' & -> & Ho'); [zlen|cbn in Hf; lia|]. exists s', ap', fuel'. by rewrite <- app_assoc in *.
  - rewrite zlen_cons in Hz. pose proof (zlen_nonneg out). destruct (one_byte s x Ho ltac:(lia)) as (s1 & t & al & c1 & rest1 & -> & Hm1 & Hal1). cbn [mbind option_bind].
    assert (forall k, In k [115; 83; 105; 73; 117; 85] -> (d =? k) = false) as Hk. { intros k Hk. apply Z.eqb_neq. intros ->. by apply Hd, list_elem_of_In. }
    unfold fmt_spec. rewrite !Hk by (cbn; tauto). cbn [orb]. destruct (append_open t al c1 s1 x [d] rest1 Hm1 Hal1) as (s2 & Hs2 & Ho2). change (zlen [d]) with 1 in Hs2. apply bind_Some in Hs2 as (s3 & -> & Hs3). cbn [mbind option_bind]. rewrite Hs3. cbn [mbind option_bind].
    replace (zlen x + 1) with (zlen (x ++ [d])) by zlen. destruct (IH s2 (x ++ [d]) fuel tl Ho2) as (s' & ap' & fuel' & -> & Ho'); [zlen|cbn in Hf; lia|]. exists s', ap', fuel'. by rewrite <- app_assoc in *.
Qed.

Lemma fmt_text_nonzero f ap out : fmt_text f ap out -> Forall (fun c => c <> 0) f.
Proof. induction 1 as [|c f ap out Hc0 _ _ IH|d a f ap y out Ha _ IH|d f ap out Hd0 _ _ IH]; [constructor|by constructor|constructor; [done|constructor; [by destruct Ha|done]]|by repeat constructor]. Qed.

Lemma catfmt_rep s x f ap out rest : sds_rep s x -> fmt_text f ap out -> zlen x + zlen out < 2 ^ 62 -> zlen x + 2 * zlen f < 2 ^ 62 ->
  exists s', sdscatfmt fill usable s (f ++ 0 :: rest) ap = Some s' /\ sds_rep s' (x ++ out).
Proof.
  intros Hr Hf Hz Hl. unfold sdscatfmt. rewrite (rep_len s x Hr). cbn [mbind option_bind]. rewrite strlen_spec by (by eapply fmt_text_nonzero). cbn [mbind option_bind]. pose proof (zlen_nonneg f). pose proof (zlen_nonneg x). rewrite u64_small by lia.
  destruct (room_rep fill usable usable_enough s x (zlen f * 2) Hr) as (t & al & s1 & rest1 & -> & Hm & _ & _); [lia..|]. cbn [mbind option_bind].
  destruct (fmt_loop_text f ap out Hf s1 x (length (f ++ 0 :: rest)) (0 :: rest)) as (s2 & ap' & fuel' & -> & (c & t2 & al2 & rest2 & Hm2)); [by eexists 0, _, _, rest1|done|rewrite length_app; cbn; lia|]. rewrite fmt_loop_S. cbn [head mbind option_bind Z.eqb].
  destruct (mem_write _ _ _ _ _ Hm2 (zlen (x ++ out)) [0] ((x ++ out) ++ [0] ++ rest2)) as (s' & Hs' & Hm'); [change (c :: rest2) with ([c] ++ rest2); by apply buf_write_app|]. exists s'. split; [done|]. by eexists _, _, rest2.
Qed.

(** A format that ends with a percent sign is read past its end. *)
Lemma catfmt_percent s x f ap out : sds_rep s x -> fmt_text f ap out -> zlen x + zlen out + 1 < 2 ^ 62 -> zlen x + 2 * (zlen f + 1) < 2 ^ 62 ->
  sdscatfmt fill usable s (f ++ [37; 0]) ap = None.
Proof.
  intros Hr Hf Hz Hl. unfold sdscatfmt. rewrite (rep_len s x Hr). cbn [mbind option_bind]. replace (f ++ [37; 0]) with ((f ++ [37]) ++ [0]) at 1 by (by rewrite <- app_assoc).
  rewrite strlen_spec by (apply Forall_app; split; [by eapply fmt_text_nonzero|by repeat constructor]). cbn [mbind option_bind]. pose proof (zlen_nonneg f). pose proof (zlen_nonneg x). rewrite zlen_app. change (zlen [37]) with 1. rewrite u64_small by lia.
  destruct (room_rep fill usable usable_enough s x ((zlen f + 1) * 2) Hr) as (t & al & s1 & rest1 & -> & Hm & _ & _); [lia..|]. cbn [mbind option_bind].
  destruct (fmt_loop_text f ap out Hf s1 x (length (f ++ [37; 0])) [37; 0]) as (s2 & ap' & fuel' & -> & Ho); [by eexists 0, _, _, rest1|lia|rewrite length_app; cbn; lia|]. rewrite fmt_loop_S. cbn [head tail mbind option_bind Z.eqb Pos.eqb].
  destruct (one_byte s2 (x ++ out) Ho) as (s3 & t2 & al2 & c2 & rest2 & -> & Hm2 & Hal2); [rewrite zlen_app; lia|]. cbn [mbind option_bind]. unfold fmt_spec. cbn [Z.eqb orb].
  destruct (append_open t2 al2 c2 s3 (x ++ out) [0] rest2 Hm2 Hal2) as (s4 & Hs4 & _). change (zlen [0]) with 1 in Hs4. apply bind_Some in Hs4 as (s5 & -> & Hs5). cbn [mbind option_bind]. rewrite Hs5. by destruct fuel'.
Qed.

End Fmt.
