(* ===== verification/SdsSplit.v ===== *)
(** * Splitting and joining dynamic strings

    [sdssplitlen] against a description of the parts between separators, and
    [sdsjoinsds], which puts them together again. *)

From stdpp Require Import base list option.
From Stdlib Require Import ZArith Lia Bool.
From S2P Require Import Prelude Endian Util Sds SdsFacts SdsOps SdsCat SdsFmt.

Local Open Scope Z_scope.

(** ** Parts of a text *)

(** [sep] is at the position [i] of [x]. *)
Definition occurs (sep x : list byte) (i : nat) : Prop := take (length sep) (drop i x) = sep.

(** The parts of a text: up to the first separator, and those of the rest. *)
Inductive split_of (sep : list byte) : list byte -> list (list byte) -> Prop :=
  | split_last x : (forall i, ~ occurs sep x i) -> split_of sep x [x]
  | split_cons a r ys : (forall i, (i < length a)%nat -> ~ occurs sep (a ++ sep ++ r) i) -> split_of sep r ys -> split_of sep (a ++ sep ++ r) (a :: ys).

Fixpoint join_text (sep : list byte) (ys : list (list byte)) : list byte :=
  match ys with
  | [] => []
  | [y] => y
  | y :: ys' => y ++ sep ++ join_text sep ys'
  end.

Lemma split_of_join sep x ys : split_of sep x ys -> join_text sep ys = x.
Proof. induction 1 as [x _|a r ys _ Hs IH]; [done|]. cbn [join_text]. destruct ys; [inversion Hs|]. by rewrite IH. Qed.

Lemma zlen_pos (l : list byte) : l <> [] -> 1 <= zlen l.
Proof. destruct l; [done|]. intros _. zlen. Qed.

Lemma occurs_bound sep x i : sep <> [] -> occurs sep x i -> (i + length sep <= length x)%nat.
Proof.
  unfold occurs. intros Hne E. apply (f_equal length) in E. rewrite length_take, length_drop in E. destruct sep; [done|]. cbn [length] in *. lia.
Qed.

Lemma occurs_split sep x i : occurs sep x i -> x = take i x ++ sep ++ drop (length sep) (drop i x).
Proof. unfold occurs. intros E. rewrite <- E at 1. by rewrite take_drop, take_drop. Qed.

Section Split.
Context `{Host} (fill : nat -> byte) (usable : Z -> Z -> Z) (try_fails : Z -> bool).
Hypothesis usable_enough : forall old n, 0 <= n < 2 ^ 64 -> n <= usable old n < 2 ^ 64.

Section Loop.
Context (x jx sep jsep : list byte).
Hypothesis sep_some : sep <> [].
Hypothesis x_small : zlen x < 2 ^ 29.

(** The comparison with the separator. *)
Lemma hit_spec j : 0 <= j < zlen x - (zlen sep - 1) ->
  exists b b0 hit, byte_at (x ++ jx) j = Some b /\ byte_at (sep ++ jsep) 0 = Some b0 /\
    (if (zlen sep =? 1) && (b =? b0) then Some true else y ← buf_read (x ++ jx) j (zlen sep); z ← buf_read (sep ++ jsep) 0 (zlen sep); Some (bool_decide (y = z))) = Some hit /\
    (hit = true <-> occurs sep x (Z.to_nat j)).
Proof.
  intros Hj. assert (1 <= zlen sep) as Hs by (by apply zlen_pos). destruct (zlen_split x j) as (a & x1 & Hx & Ha); [lia|].
  assert (zlen x1 = zlen x - j) as Hx1 by (rewrite Hx; zlen). destruct (zlen_split x1 (zlen sep)) as (m & r & Hm & Hmz); [lia|].
  assert (occurs sep x (Z.to_nat j) <-> m = sep) as Hocc. { unfold occurs. rewrite Hx, Hm. replace (Z.to_nat j) with (length a) by (unfold zlen in Ha; lia). rewrite drop_app_length. replace (length sep) with (length m) by (unfold zlen in Hmz; lia). by rewrite take_app_length. }
  assert (buf_read (x ++ jx) j (zlen sep) = Some m) as Hread by (rewrite Hx, Hm, <- !app_assoc; apply buf_read_app; lia).
  destruct m as [|b m]; [rewrite zlen_nil in Hmz; lia|]. destruct sep as [|b0 sp] eqn:Es; [done|]. exists b, b0.
  assert (byte_at (x ++ jx) j = Some b) as -> by (rewrite Hx, Hm, <- Ha; rewrite <- app_assoc; apply byte_at_app). rewrite Hread, read_front. cbn [mbind option_bind].
  destruct ((zlen (b0 :: sp) =? 1) && (b =? b0)) eqn:E; eexists; (split_and!; [done|done|done|]); rewrite Hocc.
  - bool_to_prop. subst b. split; [|done]. intros _. unfold zlen in *. cbn [length] in *. assert (sp = []) as -> by (apply nil_length_inv; lia). cbn [length] in *. assert (m = []) as -> by (apply nil_length_inv; lia). done.
  - by rewrite bool_decide_eq_true.
Qed.

Lemma split_loop_spec fuel P T k tokens ys slots : x = P ++ T -> (forall i, (i < k)%nat -> ~ occurs sep T i) -> Forall2 sds_rep tokens ys ->
  zlen tokens <= zlen P -> zlen tokens + 1 <= slots -> (length T <= fuel + k)%nat -> (k <= length T)%nat ->
  exists tokens' slots' ys' P' T', split_loop fill usable try_fails fuel (x ++ jx) (zlen x) (sep ++ jsep) (zlen sep) slots tokens (zlen P) (zlen P + Z.of_nat k) = Some (tokens', slots', zlen P') /\
    Forall2 sds_rep tokens' (ys ++ ys') /\ zlen tokens' < slots' /\ split_of sep T (ys' ++ [T']) /\ x = P' ++ T'.
Proof.
  revert P T k tokens ys slots. induction fuel as [|fuel IH]; intros P T k tokens ys slots Hx Hno Htok Hel Hsl Hfuel Hk; cbn [split_loop].
  all: assert (1 <= zlen sep) as Hs by (by apply zlen_pos); assert (zlen x = zlen P + Z.of_nat (length T)) as Hz by (rewrite Hx, zlen_app; done); pose proof (zlen_nonneg P).
  all: destruct (Z.ltb_spec (zlen P + Z.of_nat k) (zlen x - (zlen sep - 1))) as [Hlt|Hge]; [|exists tokens, slots, [], P, T; split_and!; [done|by rewrite app_nil_r|lia| |done]; apply split_last; intros i Hi; destruct (decide (i < k)%nat) as [|]; [by eapply Hno|]; apply occurs_bound in Hi; [|done]; unfold zlen in *; lia].
  - exfalso. lia.
  - assert (exists sl, (if slots <? zlen tokens + 2 then if INT32_MAX <? slots * 2 then None else Some (slots * 2) else Some slots) = Some sl /\ zlen tokens + 2 <= sl) as (sl & -> & Hsl2).
    { case_if; [|by exists slots]. unfold INT32_MAX. rewrite_if_false. eexists. split; [done|]. pose proof (zlen_nonneg tokens). lia. }
    cbn [mbind option_bind]. destruct (hit_spec (zlen P + Z.of_nat k)) as (b & b0 & hit & -> & -> & Hhit & Hocc); [lia|]. cbn [mbind option_bind]. rewrite Hhit. cbn [mbind option_bind].
    replace (Z.to_nat (zlen P + Z.of_nat k)) with (length P + k)%nat in Hocc by (unfold zlen; lia).
    assert (occurs sep x (length P + k) <-> occurs sep T k) as HoccT by (unfold occurs; rewrite Hx, drop_app_add; done).
    destruct hit.
    + assert (occurs sep T k) as Hhere by (by apply HoccT, Hocc). pose proof (occurs_split _ _ _ Hhere) as HT. set (a := take k T) in *. set (r := drop (length sep) (drop k T)) in *. assert (length a = k) as Ha by (unfold a; rewrite length_take; lia). clearbody a r.
      rewrite_if_false. assert (drop (Z.to_nat (zlen P)) (x ++ jx) = a ++ (sep ++ r) ++ jx) as ->. { rewrite zlen_to_nat, Hx, <- app_assoc, drop_app_length, HT. by rewrite <- !app_assoc. }
      replace (zlen P + Z.of_nat k - zlen P) with (zlen a) by (unfold zlen; lia). destruct (newlen_rep fill usable try_fails usable_enough (a ++ (sep ++ r) ++ jx) (zlen a) a) as (tok & -> & Hrep); [apply read_front|unfold zlen in *; lia|]. cbn [mbind option_bind].
      replace (zlen P + Z.of_nat k + zlen sep) with (zlen (P ++ a ++ sep)) by (rewrite !zlen_app; unfold zlen; lia). replace (zlen (P ++ a ++ sep) - 1 + 1) with (zlen (P ++ a ++ sep) + Z.of_nat 0) by lia.
      assert (zlen T = zlen a + zlen sep + zlen r) as HzT by (rewrite HT, !zlen_app; lia).
      destruct (IH (P ++ a ++ sep) r O (tokens ++ [tok]) (ys ++ [a]) sl) as (tokens' & slots' & ys' & P' & T' & Hl & Hreps & Hlast & Hsplit & Hx'); [rewrite Hx, HT; by rewrite <- !app_assoc|lia|by apply Forall2_app; [|constructor]|rewrite !zlen_app; change (zlen [tok]) with 1; pose proof (zlen_nonneg a); lia|rewrite zlen_app; change (zlen [tok]) with 1; lia|unfold zlen in *; lia|lia|].
      exists tokens', slots', (a :: ys'), P', T'. split_and!; [done|by rewrite <- app_assoc in Hreps|done| |done]. rewrite HT. cbn [app]. apply split_cons; [|done]. intros i Hi. rewrite <- HT. apply Hno. lia.
    + replace (zlen P + Z.of_nat k + 1) with (zlen P + Z.of_nat (S k)) by lia. apply IH; [done| |done|done|lia|lia|unfold zlen in *; lia].
      intros i Hi. destruct (decide (i = k)) as [->|]; [|apply Hno; lia]. intros Ho. apply HoccT, Hocc in Ho. done.
Qed.

End Loop.

Lemma splitlen_rep x jx sep jsep : sep <> [] -> x <> [] -> zlen x < 2 ^ 29 ->
  exists tokens ys, sdssplitlen fill usable try_fails (x ++ jx) (zlen x) (sep ++ jsep) (zlen sep) = Some (Some tokens) /\ Forall2 sds_rep tokens ys /\ split_of sep x ys.
Proof.
  intros Hsep Hx Hsmall. unfold sdssplitlen. assert (1 <= zlen sep) by (by apply zlen_pos). assert (1 <= zlen x) by (by apply zlen_pos).
  rewrite_if_false. rewrite_if_false. rewrite zlen_to_nat.
  destruct (split_loop_spec x jx sep jsep Hsep Hsmall (length x) [] x O [] [] 5) as (tokens & slots & ys & P & T & Hl & Hreps & Hlast & Hsplit & HxP); [done|lia|constructor|done|rewrite zlen_nil; lia|lia|lia|].
  change (zlen [] + Z.of_nat 0) with 0 in Hl. change (zlen []) with 0 in Hl. rewrite Hl. cbn [mbind option_bind]. rewrite_if_false.
  assert (drop (Z.to_nat (zlen P)) (x ++ jx) = T ++ jx) as -> by (rewrite zlen_to_nat, HxP, <- app_assoc; apply drop_app_length). replace (zlen x - zlen P) with (zlen T) by (rewrite HxP; zlen).
  destruct (newlen_rep fill usable try_fails usable_enough (T ++ jx) (zlen T) T) as (tok & -> & Hrep); [apply read_front|rewrite HxP, zlen_app in Hsmall; pose proof (zlen_nonneg P); lia|]. cbn [mbind option_bind].
  exists (tokens ++ [tok]), (ys ++ [T]). split_and!; [done| |done]. apply Forall2_app; [done|]. by constructor.
Qed.

(** ** Joining *)

Lemma join_text_cons sep y z ys : join_text sep (y :: z :: ys) = y ++ sep ++ join_text sep (z :: ys).
Proof. done. Qed.

Lemma join_text_head sep y ys : zlen y <= zlen (join_text sep (y :: ys)).
Proof. destruct ys as [|z ys]; [done|]. rewrite join_text_cons, zlen_app. pose proof (zlen_nonneg (sep ++ join_text sep (z :: ys))). lia. Qed.

Lemma joinsds_loop_rep argv ys sep jsep join x : Forall2 sds_rep argv ys -> sds_rep join x -> zlen x + zlen (join_text sep ys) < 2 ^ 63 ->
  exists s, joinsds_loop fill usable join argv (sep ++ jsep) (zlen sep) = Some s /\ sds_rep s (x ++ join_text sep ys).
Proof.
  intros Hall. revert join x. induction Hall as [|a y argv ys Ha Hall IH]; intros join x Hj Hz; cbn [joinsds_loop].
  - exists join. by rewrite app_nil_r.
  - pose proof (join_text_head sep y ys) as Hy. destruct (catsds_rep fill usable usable_enough join x a y Hj Ha) as (s1 & -> & Hr1); [lia|]. cbn [mbind option_bind].
    destruct Hall as [|b z argv ys Hb Hall].
    + cbn [mbind option_bind joinsds_loop join_text]. by exists s1.
    + rewrite join_text_cons, !zlen_app in Hz. pose proof (zlen_nonneg (join_text sep (z :: ys))).
      destruct (catlen_rep fill usable usable_enough s1 (x ++ y) (sep ++ jsep) (zlen sep) sep Hr1) as (s2 & -> & Hr2); [apply read_front|rewrite zlen_app; lia|]. cbn [mbind option_bind].
      destruct (IH s2 ((x ++ y) ++ sep) Hr2) as (s & -> & Hr); [rewrite !zlen_app; lia|]. exists s. split; [done|]. rewrite <- !app_assoc in Hr. exact Hr.
Qed.

Lemma joinsds_rep argv ys sep jsep : Forall2 sds_rep argv ys -> zlen (join_text sep ys) < 2 ^ 63 ->
  exists s, sdsjoinsds fill usable try_fails argv (sep ++ jsep) (zlen sep) = Some s /\ sds_rep s (join_text sep ys).
Proof.
  intros Hall Hz. unfold sdsjoinsds. destruct (empty_rep fill usable try_fails usable_enough) as (s0 & -> & Hr0). cbn [mbind option_bind]. by apply (joinsds_loop_rep argv ys sep jsep s0 [] Hall Hr0).
Qed.

(** Joining C strings. *)
Lemma join_loop_rep argv ys sep sepx join x : Forall2 (fun a y => strlen a = Some (zlen y) /\ c_str a = y) argv ys -> strlen sep = Some (zlen sepx) -> c_str sep = sepx ->
  sds_rep join x -> zlen x + zlen (join_text sepx ys) < 2 ^ 63 ->
  exists s, join_loop fill usable join argv sep = Some s /\ sds_rep s (x ++ join_text sepx ys).
Proof.
  intros Hall Hsl Hsc. revert join x. induction Hall as [|a y argv ys [Ha <-] Hall IH]; intros join x Hj Hz; cbn [join_loop].
  - exists join. by rewrite app_nil_r.
  - pose proof (join_text_head sepx (c_str a) ys) as Hy. destruct (cat_rep fill usable usable_enough join x a _ Hj Ha) as (s1 & -> & Hr1); [lia|]. cbn [mbind option_bind].
    destruct Hall as [|b z argv ys Hb Hall].
    + cbn [mbind option_bind join_loop join_text]. by exists s1.
    + rewrite join_text_cons, !zlen_app in Hz. pose proof (zlen_nonneg (join_text sepx (z :: ys))).
      destruct (cat_rep fill usable usable_enough s1 (x ++ c_str a) sep _ Hr1 Hsl) as (s2 & -> & Hr2); [rewrite zlen_app; lia|]. cbn [mbind option_bind].
      destruct (IH s2 ((x ++ c_str a) ++ sepx)) as (s & -> & Hr); [by rewrite <- Hsc|rewrite !zlen_app; lia|]. exists s. split; [done|]. rewrite <- !app_assoc in Hr. exact Hr.
Qed.

Lemma join_rep argv ys sep sepx : Forall2 (fun a y => strlen a = Some (zlen y) /\ c_str a = y) argv ys -> strlen sep = Some (zlen sepx) -> c_str sep = sepx ->
  zlen (join_text sepx ys) < 2 ^ 63 -> exists s, sdsjoin fill usable try_fails argv sep = Some s /\ sds_rep s (join_text sepx ys).
Proof.
  intros Hall Hsl Hsc Hz. unfold sdsjoin. destruct (empty_rep fill usable try_fails usable_enough) as (s0 & -> & Hr0). cbn [mbind option_bind]. by apply (join_loop_rep argv ys sep sepx s0 [] Hall Hsl Hsc Hr0).
Qed.

End Split.
