(* ===== verification/SdsQuote.v ===== *)
(** * Quoting of dynamic strings

    The text [sdscatrepr] writes, and [sdssplitargs] on lines of arguments that
    are written plainly, between double quotes or between single quotes. *)

From stdpp Require Import base list option.
From Stdlib Require Import ZArith Lia Bool.
From S2P Require Import Prelude Endian Util Sds SdsFacts SdsOps SdsCat SdsFmt SdsSplit.

Local Open Scope Z_scope.

(** ** Written arguments *)

(** The representation of a byte between double quotes. *)
Definition repr1 (c : Z) : list byte :=
  if (c =? 92) || (c =? 34) then [92; c]
  else if c =? 10 then [92; 110]
  else if c =? 13 then [92; 114]
  else if c =? 9 then [92; 116]
  else if c =? 7 then [92; 97]
  else if c =? 8 then [92; 98]
  else if isprint c then [c]
  else [92; 120; hexchar (c / 16); hexchar (c mod 16)].

Definition repr_text (x : list byte) : list byte := [34] ++ concat (map repr1 x) ++ [34].

(** Between single quotes only the quote is escaped. *)
Definition single1 (c : Z) : list byte := if c =? 39 then [92; 39] else [c].
Definition single_text (x : list byte) : list byte := [39] ++ concat (map single1 x) ++ [39].

Definition is_separator (c : Z) : Prop := c = 32 \/ c = 10 \/ c = 13 \/ c = 9.

(** A byte of an argument without quotes. *)
Definition plain (c : Z) : Prop := c <> 0 /\ ~ is_separator c /\ c <> 34 /\ c <> 39.

Inductive written : list byte -> list byte -> Prop :=
  | written_plain c x : isspace c = false -> Forall plain (c :: x) -> written (c :: x) (c :: x)
  | written_double x : Forall is_byte x -> written x (repr_text x)
  | written_single x : Forall (fun c => c <> 0) x -> (forall y, x <> y ++ [92]) -> written x (single_text x).

(** A line of arguments with blanks between them. *)
Inductive line_of : list (list byte) -> list byte -> Prop :=
  | line_nil b : Forall (fun c => isspace c = true) b -> line_of [] b
  | line_cons b x w args rest : Forall (fun c => isspace c = true) b -> written x w -> line_of args rest ->
      (rest = [] \/ exists c r, rest = c :: r /\ is_separator c) -> line_of (x :: args) (b ++ w ++ rest).

Section Quote.
Context `{Host} (fill : nat -> byte) (usable : Z -> Z -> Z) (try_fails : Z -> bool).
Hypothesis usable_enough : forall old n, 0 <= n < 2 ^ 64 -> n <= usable old n < 2 ^ 64.

(** ** [printf] *)

Lemma vsnprintf_fits buf text : zlen text < zlen buf -> zlen text <= INT32_MAX -> exists r, vsnprintf buf text = Some (text ++ 0 :: r, zlen text) /\ zlen (text ++ 0 :: r) = zlen buf.
Proof.
  intros Hl Hi. unfold vsnprintf. rewrite_if_false. pose proof (zlen_nonneg text). rewrite_if_false. rewrite take_ge by (unfold zlen in *; lia). destruct (zlen_split buf (zlen text + 1)) as (m & r & -> & Hm); [lia|].
  exists r. rewrite <- (app_nil_l (m ++ r)), buf_write_app; [|done|rewrite length_app; unfold zlen in *; cbn; lia]. cbn [mbind option_bind app]. rewrite <- app_assoc. split; [done|]. rewrite zlen_app in *. rewrite zlen_app, zlen_cons. lia.
Qed.

Lemma vsnprintf_cut buf text : zlen buf <= zlen text -> 0 < zlen buf -> zlen text <= INT32_MAX -> exists b, vsnprintf buf text = Some (b, zlen text) /\ zlen b = zlen buf.
Proof.
  intros Hl Hb Hi. unfold vsnprintf. rewrite_if_false. rewrite_if_false. destruct (buf_write_in buf 0 (take (length buf - 1) text ++ [0])) as (b & Hw & Hz); [lia|unfold zlen in *; rewrite length_app, length_take; cbn; lia|]. rewrite Hw. by exists b.
Qed.

(** Any text that has an [int] as its length is appended; a longer one is an
    error. *)
Lemma catvprintf_rep s x fmtlen text : sds_rep s x -> 0 <= fmtlen < 2 ^ 62 -> zlen x + zlen text < 2 ^ 63 ->
  if zlen text <=? INT32_MAX then exists s', sdscatvprintf fill usable s fmtlen text = Some (Some s') /\ sds_rep s' (x ++ text)
  else sdscatvprintf fill usable s fmtlen text = Some None.
Proof.
  intros Hr Hf Hz. unfold sdscatvprintf. rewrite u64_small by lia. set (n := if 1024 <? fmtlen * 2 then fmtlen * 2 else 1024). assert (1024 <= n) as Hn by (unfold n; case_if; lia). clearbody n. pose proof (uninit_zlen fill n ltac:(lia)) as Hb. pose proof (zlen_nonneg text).
  destruct (Z.leb_spec (zlen text) INT32_MAX) as [Hi|Hi]; [|assert (vsnprintf (uninit fill n) text = Some (uninit fill n, -1)) as E by (unfold vsnprintf; by rewrite_if_true); cbn [vprintf_loop]; by rewrite E].
  assert (exists r, vprintf_loop fill 2 (uninit fill n) text = Some (Some (text ++ 0 :: r, zlen text))) as (r & ->).
  { cbn [vprintf_loop]. destruct (Z.ltb_spec (zlen text) n) as [Hl|Hl].
    - destruct (vsnprintf_fits (uninit fill n) text) as (r & -> & Hrz); [lia..|]. cbn [mbind option_bind]. rewrite_if_false. rewrite Hrz, Hb. rewrite_if_false. eauto.
    - destruct (vsnprintf_cut (uninit fill n) text) as (b & -> & Hbz); [lia..|]. cbn [mbind option_bind]. rewrite_if_false. rewrite Hbz, Hb. rewrite_if_true. pose proof (uninit_zlen fill (zlen text + 1) ltac:(lia)) as Hb2.
      destruct (vsnprintf_fits (uninit fill (zlen text + 1)) text) as (r & -> & Hrz); [lia..|]. cbn [mbind option_bind]. rewrite_if_false. rewrite Hrz, Hb2. rewrite_if_false. eauto. }
  cbn [mbind option_bind]. destruct (catlen_rep fill usable usable_enough s x (text ++ 0 :: r) (zlen text) text Hr) as (s' & -> & Hr'); [apply read_front|done|]. by exists s'.
Qed.

Lemma catprintf_rep s x fmtlen text : sds_rep s x -> 0 <= fmtlen <= 6 -> zlen text <= 4 -> zlen x < 2 ^ 62 ->
  exists s', catprintf fill usable s fmtlen text = Some s' /\ sds_rep s' (x ++ text).
Proof.
  intros Hr Hf Ht Hx. unfold catprintf, sdscatprintf. pose proof (catvprintf_rep s x fmtlen text Hr ltac:(lia) ltac:(lia)) as Hc. assert ((zlen text <=? INT32_MAX) = true) as E by (unfold INT32_MAX; lia). rewrite E in Hc. destruct Hc as (s' & -> & Hr'). by exists s'.
Qed.

(** ** Writing *)

Lemma repr_byte_rep s x c : sds_rep s x -> zlen x < 2 ^ 62 -> exists s', repr_byte fill usable s c = Some s' /\ sds_rep s' (x ++ repr1 c).
Proof.
  intros Hr Hx. unfold repr_byte, repr1. assert (forall a b, exists s', sdscatlen fill usable s [a; b; 0] 2 = Some s' /\ sds_rep s' (x ++ [a; b])) as Hcat.
  { intros a b. apply catlen_rep; [done|done|done|]. rewrite !zlen_cons, zlen_nil. lia. }
  repeat (case_if; [first [apply Hcat | apply catprintf_rep; [done|lia|rewrite ?zlen_cons, ?zlen_nil; lia|done]]|]). apply catprintf_rep; [done|lia|rewrite ?zlen_cons, ?zlen_nil; lia|done].
Qed.

Lemma repr1_zlen c : 1 <= zlen (repr1 c) <= 4.
Proof. unfold repr1. repeat case_if; rewrite ?zlen_cons, ?zlen_nil; lia. Qed.

Lemma repr_loop_rep y r s x : sds_rep s x -> zlen x + 4 * zlen y < 2 ^ 62 ->
  exists s', repr_loop fill usable s (y ++ r) (length y) = Some s' /\ sds_rep s' (x ++ concat (map repr1 y)).
Proof.
  revert s x. induction y as [|c y IH]; intros s x Hr Hz; cbn [repr_loop length app].
  - exists s. cbn. by rewrite app_nil_r.
  - rewrite zlen_cons in Hz. pose proof (zlen_nonneg y). cbn [head mbind option_bind tail]. destruct (repr_byte_rep s x c Hr) as (s1 & -> & Hr1); [lia|]. cbn [mbind option_bind]. pose proof (repr1_zlen c).
    destruct (IH s1 (x ++ repr1 c) Hr1) as (s' & -> & Hr'); [rewrite zlen_app; lia|]. exists s'. split; [done|]. cbn [map concat]. by rewrite app_assoc.
Qed.

Lemma repr_text_zlen y : zlen (concat (map repr1 y)) <= 4 * zlen y.
Proof. induction y as [|c y IH]; [done|]. cbn [map concat]. rewrite zlen_app, zlen_cons. pose proof (repr1_zlen c). lia. Qed.

Lemma catrepr_rep s x y r : sds_rep s x -> zlen x + 4 * zlen y + 2 < 2 ^ 62 ->
  exists s', sdscatrepr fill usable s (y ++ r) (zlen y) = Some s' /\ sds_rep s' (x ++ repr_text y).
Proof.
  intros Hr Hz. pose proof (zlen_nonneg y). pose proof (zlen_nonneg x). unfold sdscatrepr. destruct (catlen_rep fill usable usable_enough s x [34; 0] 1 [34] Hr eq_refl) as (s1 & -> & Hr1); [change (zlen [34]) with 1; lia|]. cbn [mbind option_bind].
  rewrite zlen_to_nat. destruct (repr_loop_rep y r s1 (x ++ [34]) Hr1) as (s2 & -> & Hr2); [rewrite zlen_app; change (zlen [34]) with 1; lia|]. cbn [mbind option_bind]. pose proof (repr_text_zlen y).
  destruct (catlen_rep fill usable usable_enough s2 _ [34; 0] 1 [34] Hr2 eq_refl) as (s3 & -> & Hr3); [rewrite !zlen_app; change (zlen [34]) with 1; lia|]. exists s3. split; [done|]. unfold repr_text. by rewrite <- !app_assoc in Hr3.
Qed.

(** ** Reading an argument *)

Lemma cat1 cur y c r : sds_rep cur y -> zlen y < 2 ^ 62 -> exists cur', sdscatlen fill usable cur (c :: r) 1 = Some cur' /\ sds_rep cur' (y ++ [c]).
Proof. intros Hr Hz. apply catlen_rep; [done|done|apply (read_front [c] r)|]. change (zlen [c]) with 1. lia. Qed.

Lemma hexchar_spec d : 0 <= d < 16 -> is_hex_digit (hexchar d) = true /\ hex_digit_to_int (hexchar d) = d /\ hexchar d <> 0.
Proof. intros Hd. unfold is_hex_digit, hex_digit_to_int, hexchar. case_if; (split_and!; [lia| |lia]); repeat case_if; lia. Qed.

Lemma arg_plain x c r fuel cur y : Forall plain x -> is_separator c \/ c = 0 -> (length x < fuel)%nat -> sds_rep cur y -> zlen y + zlen x < 2 ^ 62 ->
  exists cur', arg_loop fill usable fuel (x ++ c :: r) Q_NONE cur = Some (Some (if c =? 0 then c :: r else r, cur')) /\ sds_rep cur' (y ++ x).
Proof.
  intros Hx Hc. revert fuel cur y. induction Hx as [|d x (Hd0 & Hds & Hd1 & Hd2) Hx IH]; intros fuel cur y Hf Hr Hz; (destruct fuel as [|fuel]; [cbn in Hf; lia|]); cbn [arg_loop app]; unfold step_plain; cbn [lookup list_lookup mbind option_bind].
  - assert ((c =? 32) || (c =? 10) || (c =? 13) || (c =? 9) || (c =? 0) = true) as -> by (unfold is_separator in Hc; lia). cbn [mbind option_bind lookup list_lookup]. exists cur. rewrite app_nil_r. split; [|done]. by destruct (c =? 0).
  - assert ((d =? 32) || (d =? 10) || (d =? 13) || (d =? 9) || (d =? 0) = false) as -> by (unfold is_separator in Hds; lia). assert ((d =? 34) = false) as -> by lia. assert ((d =? 39) = false) as -> by lia.
    rewrite zlen_cons in Hz. pose proof (zlen_nonneg x). destruct (cat1 cur y d (x ++ c :: r) Hr ltac:(lia)) as (cur1 & -> & Hr1). cbn [mbind option_bind lookup list_lookup]. assert ((d =? 0) = false) as -> by lia. cbn [negb tail].
    destruct (IH fuel cur1 (y ++ [d])) as (cur' & -> & Hr'); [cbn in Hf; lia|done|rewrite zlen_app; change (zlen [d]) with 1; lia|]. exists cur'. by rewrite <- app_assoc in Hr'.
Qed.

(** The representation of a byte is read back. *)
Lemma step_repr1 c r cur y : is_byte c -> sds_rep cur y -> zlen y < 2 ^ 62 ->
  exists d cur', step_double fill usable (repr1 c ++ r) cur = Some (ARG_STEP (d :: r) Q_DOUBLE cur' false) /\ d <> 0 /\ sds_rep cur' (y ++ [c]).
Proof.
  intros Hb Hr Hz. unfold repr1.
  assert (Hesc : forall e, e <> 0 -> e <> 120 -> unescape e = c -> exists d cur', step_double fill usable ([92; e] ++ r) cur = Some (ARG_STEP (d :: r) Q_DOUBLE cur' false) /\ d <> 0 /\ sds_rep cur' (y ++ [c])).
  { intros e He0 He1 Hu. unfold step_double, hex_escape. cbn [app lookup list_lookup mbind option_bind Z.eqb Pos.eqb negb]. rewrite (proj2 (Z.eqb_neq e 120)), (proj2 (Z.eqb_neq e 0)) by done. cbn [negb mbind option_bind tail lookup list_lookup].
    rewrite Hu. destruct (cat1 cur y c [] Hr Hz) as (cur' & -> & Hr'). by exists e, cur'. }
  destruct ((c =? 92) || (c =? 34)) eqn:E0; [apply Hesc; [lia|lia|unfold unescape; repeat case_if; lia]|]. destruct (Z.eqb_spec c 10) as [->|]; [by apply Hesc|]. destruct (Z.eqb_spec c 13) as [->|]; [by apply Hesc|].
  destruct (Z.eqb_spec c 9) as [->|]; [by apply Hesc|]. destruct (Z.eqb_spec c 7) as [->|]; [by apply Hesc|]. destruct (Z.eqb_spec c 8) as [->|]; [by apply Hesc|]. apply orb_false_iff in E0 as [E92 E34]. destruct (isprint c) eqn:Ep.
  - unfold step_double, hex_escape. cbn [app lookup list_lookup mbind option_bind]. rewrite E92, E34. cbn [negb mbind option_bind]. unfold isprint in Ep. assert ((c =? 0) = false) as -> by lia.
    destruct (cat1 cur y c r Hr Hz) as (cur' & -> & Hr'). exists c, cur'. split_and!; [done|lia|done].
  - unfold is_byte in Hb. destruct (hexchar_spec (c / 16)) as (H1 & H2 & _); [dlia|]. destruct (hexchar_spec (c mod 16)) as (H3 & H4 & H5); [dlia|]. unfold step_double, hex_escape. cbn [app lookup list_lookup mbind option_bind Z.eqb Pos.eqb negb]. rewrite H1, H3, H2, H4. cbn [negb mbind option_bind].
    replace (c / 16 * 16 + c mod 16) with c by dlia. rewrite (wrap_small 8 c) by (change (2 ^ 8) with 256; lia). destruct (cat1 cur y c [] Hr Hz) as (cur' & -> & Hr'). by exists (hexchar (c mod 16)), cur'.
Qed.

Lemma close_ok d c r q cur : c = 0 \/ isspace c = true -> close_quote (d :: c :: r) q cur = Some (ARG_STEP (d :: c :: r) q cur true).
Proof. intros Hc. unfold close_quote. cbn [lookup list_lookup mbind option_bind]. destruct Hc as [->| ->]; [done|]. by rewrite andb_false_r. Qed.

Lemma arg_double x c r fuel cur y : Forall is_byte x -> c = 0 \/ isspace c = true -> (length x < fuel)%nat -> sds_rep cur y -> zlen y + zlen x < 2 ^ 62 ->
  exists cur', arg_loop fill usable fuel (concat (map repr1 x) ++ 34 :: c :: r) Q_DOUBLE cur = Some (Some (c :: r, cur')) /\ sds_rep cur' (y ++ x).
Proof.
  intros Hx Hc. revert fuel cur y. induction Hx as [|d x Hd Hx IH]; intros fuel cur y Hf Hr Hz; (destruct fuel as [|fuel]; [cbn in Hf; lia|]); cbn [arg_loop map concat].
  - assert (step_double fill usable (34 :: c :: r) cur = close_quote (34 :: c :: r) Q_DOUBLE cur) as Hsd by done. cbn [app]. rewrite Hsd, close_ok by done. cbn. exists cur. by rewrite app_nil_r.
  - rewrite zlen_cons in Hz. pose proof (zlen_nonneg x). rewrite <- app_assoc. destruct (step_repr1 d (concat (map repr1 x) ++ 34 :: c :: r) cur y Hd Hr ltac:(lia)) as (e & cur1 & -> & He & Hr1). cbn [mbind option_bind lookup list_lookup]. rewrite (proj2 (Z.eqb_neq e 0)) by done. cbn [negb tail].
    destruct (IH fuel cur1 (y ++ [d])) as (cur' & -> & Hr'); [cbn in Hf; lia|done|rewrite zlen_app; change (zlen [d]) with 1; lia|]. exists cur'. by rewrite <- app_assoc in Hr'.
Qed.

Lemma single1_head d x r : exists e r', single1 d ++ x ++ r = e :: r' /\ e <> 39.
Proof. unfold single1. case_if; cbn [app]; eauto. Qed.

Lemma arg_single x c r fuel cur y : Forall (fun c => c <> 0) x -> (forall z, x <> z ++ [92]) -> c = 0 \/ isspace c = true -> (length x < fuel)%nat -> sds_rep cur y -> zlen y + zlen x < 2 ^ 62 ->
  exists cur', arg_loop fill usable fuel (concat (map single1 x) ++ 39 :: c :: r) Q_SINGLE cur = Some (Some (c :: r, cur')) /\ sds_rep cur' (y ++ x).
Proof.
  intros Hx Hlast Hc. revert fuel cur y. induction Hx as [|d x Hd Hx IH]; intros fuel cur y Hf Hr Hz; (destruct fuel as [|fuel]; [cbn in Hf; lia|]); cbn [arg_loop map concat].
  - assert (step_single fill usable (39 :: c :: r) cur = close_quote (39 :: c :: r) Q_SINGLE cur) as Hsd by done. cbn [app]. rewrite Hsd, close_ok by done. cbn. exists cur. by rewrite app_nil_r.
  - rewrite zlen_cons in Hz. pose proof (zlen_nonneg x). rewrite <- app_assoc. assert (exists e cur1, step_single fill usable (single1 d ++ concat (map single1 x) ++ 39 :: c :: r) cur = Some (ARG_STEP (e :: concat (map single1 x) ++ 39 :: c :: r) Q_SINGLE cur1 false) /\ e <> 0 /\ sds_rep cur1 (y ++ [d])) as (e & cur1 & -> & He & Hr1).
    { unfold single1 at 1. destruct (Z.eqb_spec d 39) as [->|Hd39].
      - unfold step_single. cbn [app lookup list_lookup mbind option_bind Z.eqb Pos.eqb]. destruct (cat1 cur y 39 [0] Hr ltac:(lia)) as (cur1 & -> & Hr1). exists 39, cur1. done.
      - unfold step_single. cbn [app lookup list_lookup mbind option_bind]. assert (exists b, (if d =? 92 then c1 ← (concat (map single1 x) ++ 39 :: c :: r) !! 0%nat; Some (c1 =? 39) else Some false) = Some b /\ b = false) as (b & Hb & ->).
        { destruct (Z.eqb_spec d 92) as [->|]; [|eauto]. destruct x as [|d' x]; [by destruct (Hlast [])|]. cbn [map concat]. rewrite <- app_assoc. destruct (single1_head d' (concat (map single1 x)) (39 :: c :: r)) as (e & r' & -> & He). cbn. exists (e =? 39). split; [done|lia]. }
        destruct (concat (map single1 x) ++ 39 :: c :: r) as [|c1 rr] eqn:Er; [by destruct (concat (map single1 x))|]. cbn [lookup list_lookup mbind option_bind] in Hb |- *. rewrite Hb. cbn [mbind option_bind]. rewrite (proj2 (Z.eqb_neq d 39)), (proj2 (Z.eqb_neq d 0)) by done.
        destruct (cat1 cur y d (c1 :: rr) Hr ltac:(lia)) as (cur1 & -> & Hr1). exists d, cur1. done. }
    cbn [mbind option_bind lookup list_lookup]. rewrite (proj2 (Z.eqb_neq e 0)) by done. cbn [negb tail].
    destruct (IH ltac:(intros z ->; by apply (Hlast (d :: z))) fuel cur1 (y ++ [d])) as (cur' & -> & Hr'); [cbn in Hf; lia|done|rewrite zlen_app; change (zlen [d]) with 1; lia|]. exists cur'. by rewrite <- app_assoc in Hr'.
Qed.

(** ** Lines *)

Lemma separator_space c : is_separator c -> isspace c = true /\ c <> 0.
Proof. unfold is_separator. intros [->|[->|[->| ->]]]; done. Qed.

Lemma skip_blanks_app b p : Forall (fun c => isspace c = true) b -> skip_blanks (b ++ p) = skip_blanks p.
Proof. induction 1 as [|c b Hc _ IH]; [done|]. cbn [skip_blanks app]. rewrite Hc. destruct (Z.eqb_spec c 0) as [->|]; [done|]. exact IH. Qed.

Lemma written_head x w r : written x w -> exists c v, w = c :: v /\ c <> 0 /\ skip_blanks (w ++ r) = Some (w ++ r).
Proof. intros [c v Hc Hp|v _|v _ _]; [|by exists 34, (concat (map repr1 v) ++ [34])|by exists 39, (concat (map single1 v) ++ [39])]. assert (plain c) as [Hc0 _] by (by inversion Hp). exists c, v. split_and!; [done|done|]. cbn [skip_blanks app]. by rewrite Hc, andb_false_r. Qed.

Lemma repr1_length x : (length x <= length (concat (map repr1 x)))%nat.
Proof. induction x as [|c x IH]; [done|]. cbn [map concat length]. rewrite length_app. pose proof (repr1_zlen c) as [Hl _]. unfold zlen in Hl. lia. Qed.

Lemma single1_length x : (length x <= length (concat (map single1 x)))%nat.
Proof. induction x as [|c x IH]; [done|]. cbn [map concat length]. rewrite length_app. assert (1 <= length (single1 c))%nat by (unfold single1; case_if; cbn; lia). lia. Qed.

Lemma written_arg x w c r fuel cur : written x w -> is_separator c \/ c = 0 -> (length w < fuel)%nat -> sds_rep cur [] -> zlen w < 2 ^ 61 ->
  exists p cur', arg_loop fill usable fuel (w ++ c :: r) Q_NONE cur = Some (Some (p, cur')) /\ sds_rep cur' x /\ skip_blanks p = skip_blanks (c :: r).
Proof.
  intros Hw Hc Hf Hr Hz. assert (c = 0 \/ isspace c = true) as Hc' by (destruct Hc as [Hs| ->]; [right; by apply separator_space|by left]). destruct Hw as [d x _ Hp|x Hb|x Hnz Hlast].
  - destruct (arg_plain (d :: x) c r fuel cur [] Hp Hc Hf Hr) as (cur' & -> & Hr'); [rewrite zlen_nil; lia|]. eexists _, cur'. split_and!; [done|done|]. destruct Hc as [Hs| ->]; [|done]. destruct (separator_space c Hs) as [H1 H2]. cbn [skip_blanks]. rewrite (proj2 (Z.eqb_neq c 0)), H1 by done. done.
  - unfold repr_text in *. cbn [app] in *. rewrite <- app_assoc. cbn [app]. destruct fuel as [|fuel]; [cbn in Hf; lia|]. cbn [arg_loop]. unfold step_plain. cbn. pose proof (repr1_length x). cbn [length] in Hf. rewrite length_app in Hf. rewrite zlen_cons, zlen_app in Hz.
    destruct (arg_double x c r fuel cur [] Hb Hc') as (cur' & -> & Hr'); [lia|done|unfold zlen in *; cbn [length]; lia|]. by exists (c :: r), cur'.
  - unfold single_text in *. cbn [app] in *. rewrite <- app_assoc. cbn [app]. destruct fuel as [|fuel]; [cbn in Hf; lia|]. cbn [arg_loop]. unfold step_plain. cbn. pose proof (single1_length x). cbn [length] in Hf. rewrite length_app in Hf. rewrite zlen_cons, zlen_app in Hz.
    destruct (arg_single x c r fuel cur [] Hnz Hlast Hc') as (cur' & -> & Hr'); [lia|done|unfold zlen in *; cbn [length]; lia|]. by exists (c :: r), cur'.
Qed.

Lemma args_loop_line args L : line_of args L -> forall p junk fuel vector, skip_blanks p = skip_blanks (L ++ 0 :: junk) -> (length args < fuel)%nat -> zlen L < 2 ^ 61 ->
  exists ss, args_loop fill usable try_fails fuel p vector = Some (Some (vector ++ ss)) /\ Forall2 sds_rep ss args.
Proof.
  induction 1 as [b Hb|b x w args rest Hb Hw Hl IH Hrest]; intros p junk fuel vector Hp Hf Hz; (destruct fuel as [|fuel]; [cbn in Hf; lia|]); cbn [args_loop]; rewrite Hp.
  - rewrite skip_blanks_app by done. cbn. exists []. rewrite app_nil_r. split; [done|constructor].
  - rewrite <- app_assoc, skip_blanks_app, <- app_assoc by done. destruct (written_head x w (rest ++ 0 :: junk) Hw) as (c0 & v & Hwv & Hc0 & ->). cbn [mbind option_bind]. assert ((w ++ rest ++ 0 :: junk) !! 0%nat = Some c0) as -> by (by rewrite Hwv). cbn [mbind option_bind]. rewrite (proj2 (Z.eqb_neq c0 0)) by done. cbn [negb].
    destruct (empty_rep fill usable try_fails usable_enough) as (cur & -> & Hcur). cbn [mbind option_bind]. rewrite !zlen_app in Hz. pose proof (zlen_nonneg b). pose proof (zlen_nonneg rest). pose proof (zlen_nonneg w).
    assert (exists c r, rest ++ 0 :: junk = c :: r /\ (is_separator c \/ c = 0)) as (c & r & Hcr & Hc) by (destruct Hrest as [->|(c & r & -> & Hs)]; [by exists 0, junk; auto|by eexists c, _; split; [done|left]]). rewrite Hcr.
    destruct (written_arg x w c r (S (length (w ++ c :: r))) cur Hw Hc) as (p' & cur' & -> & Hr' & Hp'); [rewrite length_app; lia|done|lia|]. cbn [mbind option_bind].
    destruct (IH p' junk fuel (vector ++ [cur'])) as (ss & -> & Hss); [by rewrite Hp', Hcr|cbn in Hf; lia|lia|]. exists (cur' :: ss). split; [by rewrite <- app_assoc|by constructor].
Qed.

Lemma line_length args L : line_of args L -> (length args <= length L)%nat.
Proof. induction 1 as [|b x w args rest Hb Hw _ IH _]; [cbn; lia|]. destruct (written_head x w [] Hw) as (c & v & -> & _). cbn [length]. rewrite length_app. cbn [length app]. rewrite length_app. lia. Qed.

Lemma splitargs_line args L junk : line_of args L -> zlen L < 2 ^ 61 -> exists ss, sdssplitargs fill usable try_fails (L ++ 0 :: junk) = Some (Some ss) /\ Forall2 sds_rep ss args.
Proof. intros Hl Hz. apply (args_loop_line args L Hl _ junk); [done| |done]. rewrite length_app. pose proof (line_length args L Hl). lia. Qed.

(** ** Any line *)

Definition nonzero (c : Z) : Prop := c <> 0.

(** What one iteration gives on the rest [u] of a line: an error, or a suffix of
    it, not empty if the argument goes on. *)
Definition step_safe (res : option argstep) (u r x : list byte) : Prop :=
  res = Some ARG_ERR \/ exists a u1 q cur done y, res = Some (ARG_STEP (u1 ++ 0 :: r) q cur done) /\ u = a ++ u1 /\ (done = false -> u1 <> []) /\ sds_rep cur y /\
    zlen y <= zlen x + (if u1 then 0 else 1).

Lemma safe_step a u1 q cur done y u r x : u = a ++ u1 -> (done = false -> u1 <> []) -> sds_rep cur y -> zlen y <= zlen x + (if u1 then 0 else 1) -> step_safe (Some (ARG_STEP (u1 ++ 0 :: r) q cur done)) u r x.
Proof. intros. right. by exists a, u1, q, cur, done, y. Qed.

(** A step that appends a byte and stays at the non-empty [u1]. *)
Lemma safe_cat a c u1 q cur x t d r : sds_rep cur x -> zlen x < 2 ^ 62 ->
  step_safe (cur ← sdscatlen fill usable cur (d :: t) 1; Some (ARG_STEP ((c :: u1) ++ 0 :: r) q cur false)) (a ++ c :: u1) r x.
Proof. intros Hr Hz. destruct (cat1 cur x d t Hr Hz) as (cur' & -> & Hr'). cbn [mbind option_bind]. apply (safe_step a (c :: u1) q cur' false (x ++ [d])); [done|done|done|rewrite zlen_app; change (zlen [d]) with 1; lia]. Qed.

Lemma step_plain_safe u r cur x : Forall nonzero u -> sds_rep cur x -> zlen x < 2 ^ 62 -> step_safe (step_plain fill usable (u ++ 0 :: r) cur) u r x.
Proof.
  intros Hu Hr Hz. unfold step_plain. destruct u as [|c u]; cbn [app lookup list_lookup mbind option_bind].
  - apply (safe_step [] [] Q_NONE cur true x); [done..|lia].
  - change (c :: u ++ 0 :: r) with ((c :: u) ++ 0 :: r). repeat case_if; [by apply (safe_step [] (c :: u) _ cur _ x); [..|lia]..|]. by apply (safe_cat []).
Qed.

Lemma close_safe a c u r q cur x : sds_rep cur x -> step_safe (close_quote ((c :: u) ++ 0 :: r) q cur) (a ++ c :: u) r x.
Proof.
  intros Hr. unfold close_quote. assert (exists c1, ((c :: u) ++ 0 :: r) !! 1%nat = Some c1) as (c1 & ->) by (destruct u; cbn; eauto). cbn [mbind option_bind]. case_if; [by left|]. apply (safe_step a (c :: u) q cur true x); [done..|lia].
Qed.

Lemma step_single_safe u r cur x : Forall nonzero u -> sds_rep cur x -> zlen x < 2 ^ 62 -> step_safe (step_single fill usable (u ++ 0 :: r) cur) u r x.
Proof.
  intros Hu Hr Hz. unfold step_single. destruct u as [|c u]; [by left|]. change (((c :: u) ++ 0 :: r) !! 0%nat) with (Some c). cbn [mbind option_bind]. assert (exists c1, ((c :: u) ++ 0 :: r) !! 1%nat = Some c1 /\ (c1 = 39 -> exists u', u = 39 :: u')) as (c1 & Hc1 & H39).
  { destruct u as [|d u]; [by exists 0|]. exists d. split; [done|]. intros ->. eauto. }
  destruct (Z.eqb_spec c 92) as [->|].
  - rewrite Hc1. cbn [mbind option_bind]. destruct (Z.eqb_spec c1 39) as [E|E].
    + destruct (H39 E) as (u' & ->). by apply (safe_cat [92] 39 u').
    + by apply (safe_cat [] 92 u).
  - cbn [mbind option_bind]. case_if; [by apply (close_safe [])|]. case_if; [by left|]. by apply (safe_cat []).
Qed.

Lemma hex_escape_safe u r : Forall nonzero u -> exists h, hex_escape (u ++ 0 :: r) = Some h /\ forall b, h = Some b -> exists c0 c1 c2 c3 u', u = c0 :: c1 :: c2 :: c3 :: u'.
Proof.
  intros Hu. unfold hex_escape. destruct u as [|c0 u]; [by exists None|]. cbn [app lookup list_lookup mbind option_bind]. case_if; [by exists None|]. destruct u as [|c1 u]; [by exists None|]. cbn [app lookup list_lookup mbind option_bind]. case_if; [by exists None|].
  destruct u as [|c2 u]; [by exists None|]. cbn [app lookup list_lookup mbind option_bind]. case_if; [by exists None|]. destruct u as [|c3 u]; [by exists None|]. cbn [app lookup list_lookup mbind option_bind]. case_if; [by exists None|]. eexists. split; [done|]. intros b _. by exists c0, c1, c2, c3, u.
Qed.

Lemma step_double_safe u r cur x : Forall nonzero u -> sds_rep cur x -> zlen x < 2 ^ 62 -> step_safe (step_double fill usable (u ++ 0 :: r) cur) u r x.
Proof.
  intros Hu Hr Hz. unfold step_double. destruct (hex_escape_safe u r Hu) as (h & Hh & Hlong). destruct u as [|c u]; [by rewrite Hh; destruct h as [b|]; [destruct (Hlong b eq_refl) as (? & ? & ? & ? & ? & ?)|left]|]. change (((c :: u) ++ 0 :: r) !! 0%nat) with (Some c). cbn [mbind option_bind]. rewrite Hh. cbn [mbind option_bind]. destruct h as [b|].
  { destruct (Hlong b eq_refl) as (c0 & c1 & c2 & c3 & u' & [= -> ->]). change (drop 3 ((c0 :: c1 :: c2 :: c3 :: u') ++ 0 :: r)) with ((c3 :: u') ++ 0 :: r). by apply (safe_cat [c0; c1; c2] c3 u'). }
  assert (forall e u', nonzero e -> u = e :: u' -> c = 92 -> step_safe (c0 ← tail ((c :: u) ++ 0 :: r) !! 0%nat; cur ← sdscatlen fill usable cur [unescape c0] 1; Some (ARG_STEP (tail ((c :: u) ++ 0 :: r)) Q_DOUBLE cur false)) (c :: u) r x) as Hesc.
  { intros e u' He -> ->. cbn [app tail lookup list_lookup mbind option_bind]. by apply (safe_cat [92] e u'). }
  destruct (Z.eqb_spec c 92) as [->|].
  - destruct u as [|e u]; cbn [app lookup list_lookup mbind option_bind Z.eqb Pos.eqb negb]; [by apply (safe_cat [] 92 [])|]. assert (nonzero e) as He by (by inversion Hu as [|? ? _ Hu']; inversion Hu'). rewrite (proj2 (Z.eqb_neq e 0)) by done. cbn [negb]. by apply (Hesc e u).
  - cbn [mbind option_bind]. case_if; [by apply (close_safe [])|]. case_if; [by left|]. by apply (safe_cat []).
Qed.

Lemma arg_total fuel u r q cur x : Forall nonzero u -> (length u < fuel)%nat -> sds_rep cur x -> zlen x + zlen u < 2 ^ 62 ->
  arg_loop fill usable fuel (u ++ 0 :: r) q cur = Some None \/
  exists u' cur' y, arg_loop fill usable fuel (u ++ 0 :: r) q cur = Some (Some (u' ++ 0 :: r, cur')) /\ Forall nonzero u' /\ (length u' <= length u - 1)%nat /\ sds_rep cur' y.
Proof.
  revert u q cur x. induction fuel as [|fuel IH]; intros u q cur x Hu Hf Hr Hz; [lia|]. cbn [arg_loop]. pose proof (zlen_nonneg u).
  assert (step_safe (match q with Q_DOUBLE => step_double fill usable (u ++ 0 :: r) cur | Q_SINGLE => step_single fill usable (u ++ 0 :: r) cur | Q_NONE => step_plain fill usable (u ++ 0 :: r) cur end) u r x) as Hs by (destruct q; [apply step_plain_safe|apply step_double_safe|apply step_single_safe]; done || lia).
  destruct Hs as [->|(a & u1 & q' & cur' & done_ & y & -> & Hua & Hne & Hr' & Hy)]; [by left|]. cbn [mbind option_bind]. rewrite Hua in Hu. apply Forall_app in Hu as [_ Hu1]. assert (length u = length a + length u1)%nat as Hlen by (rewrite Hua; apply length_app).
  destruct u1 as [|c u2]; cbn [app lookup list_lookup mbind option_bind Z.eqb negb].
  - destruct done_; [|by destruct Hne]. right. exists [], cur', y. split_and!; [done..|cbn; lia|done].
  - assert (nonzero c /\ Forall nonzero u2) as [Hc Hu2] by (by inversion Hu1). rewrite (proj2 (Z.eqb_neq c 0)) by done. cbn [negb tail]. cbn [length] in Hlen. destruct done_; [right; exists u2, cur', y; split_and!; [done..|lia|done]|].
    destruct (IH u2 q' cur' y Hu2) as [->|(u' & cur'' & y' & -> & Hu' & Hl' & Hr'')]; [lia|done|unfold zlen in *; lia|by left|]. right. exists u', cur'', y'. split_and!; [done..|lia|done].
Qed.

Lemma skip_blanks_total u r : Forall nonzero u -> exists u', skip_blanks (u ++ 0 :: r) = Some (u' ++ 0 :: r) /\ Forall nonzero u' /\ (length u' <= length u)%nat.
Proof. induction 1 as [|c u Hc Hu (u' & IH & Hu' & Hl)]; [by exists []|]. cbn [skip_blanks app]. rewrite (proj2 (Z.eqb_neq c 0)) by done. cbn [negb andb]. destruct (isspace c); [exists u'|exists (c :: u)]; split_and!; [done|done|cbn; lia|done|by constructor|done]. Qed.

Lemma args_total fuel u r vector : Forall nonzero u -> (length u < fuel)%nat -> zlen u < 2 ^ 61 -> Forall (fun s => exists x, sds_rep s x) vector ->
  exists res, args_loop fill usable try_fails fuel (u ++ 0 :: r) vector = Some res /\ forall ss, res = Some ss -> Forall (fun s => exists x, sds_rep s x) ss.
Proof.
  revert u vector. induction fuel as [|fuel IH]; intros u vector Hu Hf Hz Hv; [lia|]. cbn [args_loop]. destruct (skip_blanks_total u r Hu) as (u1 & -> & Hu1 & Hl1). cbn [mbind option_bind]. destruct u1 as [|c u2].
  - cbn. exists (Some vector). split; [done|]. by intros ss [= <-].
  - assert (nonzero c) by (by inversion Hu1). change (((c :: u2) ++ 0 :: r) !! 0%nat) with (Some c). cbn [mbind option_bind]. rewrite (proj2 (Z.eqb_neq c 0)) by done. cbn [negb]. destruct (empty_rep fill usable try_fails usable_enough) as (cur & -> & Hcur). cbn [mbind option_bind].
    destruct (arg_total (S (length ((c :: u2) ++ 0 :: r))) (c :: u2) r Q_NONE cur [] Hu1) as [->|(u' & cur' & y & -> & Hu' & Hl' & Hr')]; [rewrite length_app; lia|done|rewrite zlen_nil; unfold zlen in *; lia|by exists None|]. cbn [mbind option_bind].
    cbn [length] in *. apply IH; [done|lia|unfold zlen in *; lia|]. apply Forall_app. split; [done|]. constructor; [by exists y|constructor].
Qed.

Lemma splitargs_total u r : Forall nonzero u -> zlen u < 2 ^ 61 ->
  exists res, sdssplitargs fill usable try_fails (u ++ 0 :: r) = Some res /\ forall ss, res = Some ss -> Forall (fun s => exists x, sds_rep s x) ss.
Proof. intros Hu Hz. apply args_total; [done|rewrite length_app; cbn; lia|done|constructor]. Qed.

End Quote.
