(* ===== verification/SdsProps.v ===== *)
(** * What dynamic strings guarantee

    The claims about [Sds], and the expansion of templates. *)

From stdpp Require Import base list option.
From Stdlib Require Import ZArith Lia Bool.
From S2P Require Import Prelude Endian Util UtilFacts Cmd Sds SdsFacts SdsOps SdsCat SdsFmt SdsSplit SdsQuote.

Local Open Scope Z_scope.

Section Claims.
Context `{Host} (fill : nat -> byte) (usable : Z -> Z -> Z) (try_fails : Z -> bool).
Hypothesis usable_enough : forall old n, 0 <= n < 2 ^ 64 -> n <= usable old n < 2 ^ 64.

(** ** Templates *)

Section Template.
Context (vals : list byte -> option (list byte)) (cb_func : sds -> option (option sds)).
Hypothesis cb_vals : forall s name, sds_rep s name ->
  match vals name with Some v => exists s', cb_func s = Some (Some s') /\ sds_rep s' v | None => cb_func s = Some None end.
Hypothesis vals_small : forall name v, vals name = Some v -> zlen v < 2 ^ 31.

(** Text without an opening brace, and the name of a variable. *)
Definition literal (a : list byte) : Prop := Forall (fun c => c <> 0 /\ c <> 123) a.
Definition name_ok (name : list byte) : Prop := Forall (fun c => c <> 0 /\ c <> 125) name /\ head name <> Some 123.

(** The expansion of a template; [None] if it is not closed or a variable is not
    known. A value counts up to its first zero. *)
Inductive template_of : list byte -> option (list byte) -> Prop :=
  | tmpl_text a : literal a -> template_of a (Some a)
  | tmpl_brace a r o : literal a -> template_of r o -> template_of (a ++ 123 :: 123 :: r) (option_map (fun z => a ++ [123] ++ z) o)
  | tmpl_var a name r v o : literal a -> name_ok name -> vals name = Some v -> template_of r o -> template_of (a ++ 123 :: name ++ 125 :: r) (option_map (fun z => a ++ c_str v ++ z) o)
  | tmpl_unknown a name r : literal a -> name_ok name -> vals name = None -> template_of (a ++ 123 :: name ++ 125 :: r) None
  | tmpl_open a name : literal a -> name_ok name -> template_of (a ++ 123 :: name) None.

Lemma strchr_at_found a c r : Forall (fun d => d <> 0 /\ d <> c) a -> strchr_at (a ++ c :: r) c = Some (Some (zlen a)).
Proof. induction 1 as [|d a [Hd0 Hdc] _ IH]; cbn [strchr_at app]; [by rewrite Z.eqb_refl|]. rewrite (proj2 (Z.eqb_neq d c)), (proj2 (Z.eqb_neq d 0)), IH by done. cbn. by rewrite zlen_cons. Qed.

Lemma strchr_at_none a c r : c <> 0 -> Forall (fun d => d <> 0 /\ d <> c) a -> strchr_at (a ++ 0 :: r) c = Some None.
Proof. intros Hc. induction 1 as [|d a [Hd0 Hdc] _ IH]; cbn [strchr_at app]; [rewrite (proj2 (Z.eqb_neq 0 c)) by done; done|]. rewrite (proj2 (Z.eqb_neq d c)), (proj2 (Z.eqb_neq d 0)), IH by done. done. Qed.

Lemma literal_strlen a r : literal a -> strlen (a ++ 0 :: r) = Some (zlen a) /\ c_str (a ++ 0 :: r) = a.
Proof. intros Ha. split; [apply strlen_spec; eapply Forall_impl; [|exact Ha]; by intros c []|]. induction Ha as [|c a [Hc _] _ IH]; [done|]. cbn [c_str app]. rewrite (proj2 (Z.eqb_neq c 0)) by done. by rewrite IH. Qed.

(** The literal text before a brace is copied. *)
Lemma template_literal a p fuel res x : literal a -> sds_rep res x -> zlen x + zlen a < 2 ^ 63 ->
  exists res', sds_rep res' (x ++ a) /\ template_loop fill usable try_fails (S fuel) cb_func res (a ++ 123 :: p) =
    (c ← head p;
     if c =? 0 then Some None
     else if c =? 123 then res ← sdscat fill usable res' [123; 0]; template_loop fill usable try_fails fuel cb_func res (tail p)
     else
       ev ← strchr_at p 125;
       match ev with
       | None => Some None
       | Some m =>
           varname ← sdsnewlen fill usable try_fails (INIT p) m;
           value ← cb_func varname;
           match value with
           | None => Some None
           | Some value => res ← sdscat fill usable res' (bytes_from value); template_loop fill usable try_fails fuel cb_func res (drop (Z.to_nat (m + 1)) p)
           end
       end).
Proof.
  intros Ha Hr Hz. assert (exists c v, a ++ 123 :: p = c :: v /\ c <> 0) as (c & v & Hcv & Hc) by (destruct Ha as [|c a [Hc _] _]; [by eexists 123, _|by eexists c, _]).
  assert (exists res', (if 0 <? zlen a then sdscatlen fill usable res (a ++ 123 :: p) (zlen a) else Some res) = Some res' /\ sds_rep res' (x ++ a)) as (res' & Hres & Hr').
  { case_if; [apply catlen_rep; [done|done|apply read_front|done]|]. assert (a = []) as -> by (apply nil_length_inv; unfold zlen in *; lia). exists res. by rewrite app_nil_r. }
  exists res'. split; [done|]. cbn [template_loop]. assert (head (a ++ 123 :: p) = Some c) as -> by (by rewrite Hcv). cbn [mbind option_bind]. rewrite (proj2 (Z.eqb_neq c 0)) by done. rewrite strchr_at_found by done. cbn [mbind option_bind]. rewrite Hres. cbn [mbind option_bind].
  assert (drop (Z.to_nat (zlen a + 1)) (a ++ 123 :: p) = p) as ->. { replace (Z.to_nat (zlen a + 1)) with (length a + 1)%nat by (unfold zlen; lia). by rewrite drop_app_add. } done.
Qed.

(** The variable after it is looked up. *)
Lemma template_variable a name r fuel res x : literal a -> name_ok name -> sds_rep res x -> zlen x + zlen a < 2 ^ 63 -> zlen name < 2 ^ 63 ->
  exists res' varname, sds_rep res' (x ++ a) /\ sds_rep varname name /\ template_loop fill usable try_fails (S fuel) cb_func res (a ++ 123 :: name ++ 125 :: r) =
    (value ← cb_func varname;
     match value with
     | None => Some None
     | Some value => res ← sdscat fill usable res' (bytes_from value); template_loop fill usable try_fails fuel cb_func res r
     end).
Proof.
  intros Ha [Hn Hn1] Hr Hz Hnz. destruct (template_literal a (name ++ 125 :: r) fuel res x Ha Hr Hz) as (res' & Hr' & ->).
  assert (exists c w, name ++ 125 :: r = c :: w /\ c <> 0 /\ c <> 123) as (c & w & Hcw & Hc0 & Hc1). { clear Hnz. destruct Hn as [|c name [Hc _] Hn]; [by eexists 125, _|]. eexists c, _. split_and!; [done|done|]. intros ->. by apply Hn1. }
  assert (head (name ++ 125 :: r) = Some c) as -> by (by rewrite Hcw). cbn [mbind option_bind]. rewrite (proj2 (Z.eqb_neq c 0)), (proj2 (Z.eqb_neq c 123)) by done. rewrite strchr_at_found by done. cbn [mbind option_bind].
  destruct (newlen_rep fill usable try_fails usable_enough (name ++ 125 :: r) (zlen name) name) as (vn & -> & Hvn); [apply read_front|done|]. exists res', vn. split_and!; [done..|]. cbn [mbind option_bind].
  assert (drop (Z.to_nat (zlen name + 1)) (name ++ 125 :: r) = r) as ->; [|done]. replace (Z.to_nat (zlen name + 1)) with (length name + 1)%nat by (unfold zlen; lia). by rewrite drop_app_add.
Qed.

Lemma template_loop_spec T o : template_of T o -> forall junk fuel res x, sds_rep res x -> (length T < fuel)%nat -> zlen x + zlen T * 2 ^ 31 < 2 ^ 62 ->
  match o with
  | Some z => exists res', template_loop fill usable try_fails fuel cb_func res (T ++ 0 :: junk) = Some (Some res') /\ sds_rep res' (x ++ z)
  | None => template_loop fill usable try_fails fuel cb_func res (T ++ 0 :: junk) = Some None
  end.
Proof.
  induction 1 as [a Ha|a r o Ha _ IH|a name r v o Ha [Hn Hn1] Hv _ IH|a name r Ha [Hn Hn1] Hv|a name Ha [Hn Hn1]]; intros junk fuel res x Hr Hf Hz; (destruct fuel as [|fuel]; [cbn in Hf; lia|]); rewrite ?zlen_app, ?zlen_cons in Hz; pose proof (zlen_nonneg x).
  - pose proof (zlen_nonneg a). destruct (literal_strlen a junk Ha) as [Hsl Hcs]. destruct a as [|c a]; [exists res; rewrite app_nil_r; done|]. assert (c <> 0) by (by inversion Ha as [|? ? []]). cbn [template_loop]. change (head ((c :: a) ++ 0 :: junk)) with (Some c). cbn [mbind option_bind]. rewrite (proj2 (Z.eqb_neq c 0)) by done.
    rewrite strchr_at_none by done. cbn [mbind option_bind]. destruct (cat_rep fill usable usable_enough res x ((c :: a) ++ 0 :: junk) _ Hr Hsl) as (res' & -> & Hr'); [lia|]. rewrite Hcs in Hr'. by exists res'.
  - pose proof (zlen_nonneg a). pose proof (zlen_nonneg r). rewrite <- app_assoc. cbn [app]. destruct (template_literal a (123 :: r ++ 0 :: junk) fuel res x Ha Hr) as (res' & Hr' & ->); [lia|]. cbn [head mbind option_bind Z.eqb Pos.eqb tail].
    destruct (cat_rep fill usable usable_enough res' (x ++ a) [123; 0] 1 Hr' eq_refl) as (res2 & -> & Hr2); [rewrite zlen_app; lia|]. cbn [mbind option_bind]. change (c_str [123; 0]) with [123] in Hr2.
    specialize (IH junk fuel res2 ((x ++ a) ++ [123]) Hr2). rewrite length_app in Hf. cbn [length] in Hf. rewrite !zlen_app in IH. change (zlen [123]) with 1 in IH. specialize (IH ltac:(lia) ltac:(lia)). destruct o as [z|]; [|done]. cbn [option_map]. destruct IH as (res3 & -> & Hr3). exists res3. by rewrite <- !app_assoc in Hr3.
  - pose proof (zlen_nonneg a). pose proof (zlen_nonneg r). pose proof (zlen_nonneg name). rewrite zlen_app, zlen_cons in Hz. rewrite <- app_assoc. cbn [app]. rewrite <- app_assoc. cbn [app]. destruct (template_variable a name (r ++ 0 :: junk) fuel res x Ha (conj Hn Hn1) Hr) as (res' & vn & Hr' & Hvn & ->); [lia..|].
    pose proof (cb_vals vn name Hvn) as Hcb. rewrite Hv in Hcb. destruct Hcb as (value & -> & Hval). cbn [mbind option_bind].
    destruct (rep_from value v Hval) as (rest & Hfrom). pose proof (vals_small name v Hv). destruct (c_str_prefix v) as (vr & Hvr). assert (zlen (c_str v) <= zlen v) by (rewrite Hvr at 2; rewrite zlen_app; pose proof (zlen_nonneg vr); lia). pose proof (zlen_nonneg (c_str v)).
    assert (c_str (v ++ 0 :: rest) = c_str v) as Hcs. { clear. induction v as [|d v IH]; [done|]. cbn [c_str app]. destruct (d =? 0); [done|]. by rewrite IH. }
    destruct (cat_rep fill usable usable_enough res' (x ++ a) (bytes_from value) (zlen (c_str v)) Hr') as (res2 & -> & Hr2); [rewrite Hfrom; apply strlen_app_zero|rewrite zlen_app; lia|]. cbn [mbind option_bind]. rewrite Hfrom, Hcs in Hr2.
    specialize (IH junk fuel res2 _ Hr2). rewrite length_app in Hf. cbn [length] in Hf. rewrite length_app in Hf. cbn [length] in Hf. rewrite !zlen_app in IH. specialize (IH ltac:(lia) ltac:(lia)). destruct o as [z|]; [|done]. cbn [option_map]. destruct IH as (res3 & -> & Hr3). exists res3. by rewrite <- !app_assoc in Hr3.
  - pose proof (zlen_nonneg a). pose proof (zlen_nonneg r). pose proof (zlen_nonneg name). rewrite zlen_app, zlen_cons in Hz. rewrite <- app_assoc. cbn [app]. rewrite <- app_assoc. cbn [app]. destruct (template_variable a name (r ++ 0 :: junk) fuel res x Ha (conj Hn Hn1) Hr) as (res' & vn & Hr' & Hvn & ->); [lia..|].
    pose proof (cb_vals vn name Hvn) as Hcb. rewrite Hv in Hcb. by rewrite Hcb.
  - pose proof (zlen_nonneg a). pose proof (zlen_nonneg name). rewrite <- app_assoc. cbn [app]. destruct (template_literal a (name ++ 0 :: junk) fuel res x Ha Hr) as (res' & Hr' & ->); [lia|]. destruct Hn as [|c name [Hc Hc2] Hn]; [done|].
    cbn [app head mbind option_bind]. assert (c <> 123) by (intros ->; by apply Hn1). rewrite (proj2 (Z.eqb_neq c 0)), (proj2 (Z.eqb_neq c 123)) by done. change (c :: name ++ 0 :: junk) with ((c :: name) ++ 0 :: junk). rewrite strchr_at_none by (done || by constructor). done.
Qed.

Lemma template_rep T o junk : template_of T o -> zlen T < 2 ^ 30 ->
  match o with
  | Some z => exists s, sdstemplate fill usable try_fails (T ++ 0 :: junk) cb_func = Some (Some s) /\ sds_rep s z
  | None => sdstemplate fill usable try_fails (T ++ 0 :: junk) cb_func = Some None
  end.
Proof.
  intros HT Hz. unfold sdstemplate. destruct (empty_rep fill usable try_fails usable_enough) as (res & -> & Hr). cbn [mbind option_bind]. apply (template_loop_spec T o HT junk (length (T ++ 0 :: junk)) res [] Hr); [rewrite length_app; cbn; lia|rewrite zlen_nil; lia].
Qed.

End Template.

(** ** Claims *)

(** An operation has a result, which represents [z]. *)
Definition gives (o : option sds) (z : list byte) : Prop := exists s, o = Some s /\ sds_rep s z.

(** C4. Dynamic strings refine byte strings, whatever the allocator gives and on
    hosts of both byte orders: creating, duplicating, appending, copying, growing,
    shrinking the allocation, reading into room made before, clearing, cutting,
    trimming and mapping bytes represent the text they should. The headers change
    their type on the way. Every operation has a result: no assertion fails and no
    access is outside the block. Trimming removes zero bytes whatever the set. *)
Theorem sds_refines s x t y : sds_rep s x -> sds_rep t y -> zlen x + zlen y < 2 ^ 61 ->
  (forall init n, 0 <= n < 2 ^ 61 -> (forall b, init = INIT b -> n <= zlen b) -> exists z, init_text init n z /\ gives (sdsnewlen fill usable try_fails init n) z) /\
  sdslen s = Some (zlen x) /\
  gives (sdsdup fill usable try_fails s) x /\
  gives (sdscatsds fill usable s t) (x ++ y) /\
  gives (sdscpylen fill usable s (bytes_from t) (zlen y)) y /\
  (forall n, n < 2 ^ 61 -> gives (Sds.sdsgrowzero fill usable s n) (Cmd.sdsgrowzero x n)) /\
  (exists s', sdsRemoveFreeSpace fill usable s = Some s' /\ sds_rep s' x /\ sdsavail s' = Some 0) /\
  (forall add z, 0 < add < 2 ^ 61 -> zlen z <= add -> gives (s ← sdsMakeRoomFor fill usable s add; s ← sds_write s (zlen x) z; sdsIncrLen s (zlen z)) (x ++ z)) /\
  (forall k, 0 < k <= zlen x -> gives (sdsIncrLen s (- k)) (take (Z.to_nat (zlen x - k)) x)) /\
  gives (sdsclear s) [] /\ gives (sdsupdatelen s) (c_str x) /\
  (forall start len, 0 <= start -> 0 <= len -> gives (sdssubstr s start len) (take (Z.to_nat len) (drop (Z.to_nat start) x))) /\
  (forall start end_, - 2 ^ 61 <= start <= 2 ^ 61 -> - 2 ^ 61 <= end_ <= 2 ^ 61 -> gives (sdsrange s start end_) (range_text x start end_)) /\
  (forall cs rest, Forall (fun c => c <> 0) cs -> gives (sdstrim s (cs ++ 0 :: rest)) (trim_text (fun c => (c =? 0) || existsb (Z.eqb c) cs) x)) /\
  gives (sdstolower s) (map tolower x) /\ gives (sdstoupper s) (map toupper x) /\
  (forall from to, length from = length to -> gives (sdsmapchars s from to (zlen from)) (memmapchars x from to)).
Proof.
  intros Hs Ht Hz. pose proof (zlen_nonneg x). pose proof (zlen_nonneg y). split_and!.
  - intros init n Hn Hi. destruct (newlen_spec fill usable try_fails usable_enough init n false ltac:(lia) Hi ltac:(done)) as (s' & z & Hs' & Hz' & Hr'). exists z. split; [done|]. exists s'. unfold sdsnewlen. by rewrite Hs'.
  - by apply rep_len.
  - apply dup_rep; [done..|lia].
  - apply catsds_rep; [done..|lia].
  - apply (cpylen_rep fill usable usable_enough s x); [done|by apply rep_read|lia|lia].
  - intros n Hn. apply growzero_rep; [done..|lia].
  - apply remove_rep; [done..|lia].
  - intros add z Hadd Hza. destruct (incr_room fill usable usable_enough s x add z Hs) as (s1 & s2 & s3 & -> & H2 & H3 & Hr); [lia..|]. cbn [mbind option_bind]. rewrite H2. cbn [mbind option_bind]. by exists s3.
  - intros k Hk. apply incr_negative; [done|done|lia].
  - by apply (sdsclear_rep s x).
  - by apply sdsupdatelen_rep.
  - intros start len Hst Hl. by apply sdssubstr_rep.
  - intros start end_ Hst He. apply sdsrange_rep; unfold LLONG_MIN, LLONG_MAX; [done|lia..|]. repeat case_if; lia.
  - intros cs rest Hcs. by apply sdstrim_rep.
  - by apply sdstolower_rep.
  - by apply sdstoupper_rep.
  - intros from to Hl. by apply sdsmapchars_rep.
Qed.

(** C20. [sdsMakeRoomFor] checks the size it needs after it has wrapped around: a
    request for almost all of the address space is granted with a small block,
    so that a caller who then writes what it asked for writes outside of it. *)
Theorem sdsMakeRoomFor_overflow s x addlen : sds_rep s x -> zlen (blk s) < 2 ^ 63 -> 2 ^ 64 - 2 ^ 20 <= addlen -> zlen x + addlen < 2 ^ 64 ->
  exists s' room, sdsMakeRoomFor fill usable s addlen = Some s' /\ sds_rep s' x /\ sdsavail s' = Some room /\ room < 2 ^ 32.
Proof.
  intros (t & al & rest & Hm) Hb Hadd H64. pose proof (zlen_nonneg x). pose proof (mem_room _ _ _ _ _ Hm) as Hroom. assert (zlen (x ++ 0 :: rest) <= zlen (blk s)) as Hbody by (rewrite (mem_blk _ _ _ _ _ Hm), (zlen_app (sds_hdr _ _ _)); pose proof (zlen_nonneg (sds_hdr t (zlen x) al)); lia).
  set (v := zlen x + addlen + 2 ^ 20 - 2 ^ 64). assert (u64 (zlen x + addlen + SDS_MAX_PREALLOC) = v) as Hv. { unfold wrap, SDS_MAX_PREALLOC, v. rewrite <- (Z.mod_add _ (-1)) by lia. rewrite Z.mod_small by lia. lia. }
  destruct (room_step fill usable usable_enough t (zlen x) al s (x ++ 0 :: rest) addlen v Hm) as (al' & s' & p & q & r & Hs' & Hm' & Hpq & Hp & Hal); [lia|lia|rewrite Hv; unfold SDS_MAX_PREALLOC; by rewrite_if_false|unfold v; lia|unfold v; lia|].
  assert (p = x ++ [0]) as ->. { change (0 :: rest) with ([0] ++ rest) in Hpq. rewrite app_assoc in Hpq. apply app_inj_1 in Hpq as [-> _]; [done|]. rewrite length_app. unfold zlen in Hp. cbn. lia. }
  exists s', (al' - zlen x). split_and!; [done|rewrite <- app_assoc in Hm'; by eexists _, _, r|by rewrite (sdsavail_mem _ _ _ _ _ Hm')|].
  assert (al' < 2 ^ 32); [|lia]. destruct (mem_hdr _ _ _ _ _ Hm') as (_ & [(_ & _ & H32)|(_ & H32)]); [lia|]. eapply Z.lt_le_trans; [done|]. change (2 ^ 32) with (256 ^ 4). apply Z.pow_le_mono_r; [lia|].
  assert (room_type v = 1 \/ room_type v = 2 \/ room_type v = 3) as [->|[->| ->]]; [|by vm_compute..]. unfold room_type, sdsReqType. assert ((v <? Z.shiftl 1 32) = true) as -> by (apply Z.ltb_lt; unfold v; change (Z.shiftl 1 32) with (2 ^ 32); lia).
  destruct (v <? Z.shiftl 1 5), (v <? Z.shiftl 1 8), (v <? Z.shiftl 1 16); auto.
Qed.

(** C22. [sdssplitlen] returns the parts of a text between separators, the first
    separator being the leftmost one, in an array that always has a slot left;
    joining them with [sdsjoinsds] gives the text back. The empty text has no
    parts. *)
Theorem sdssplitlen_join x jx sep jsep : sep <> [] -> zlen x < 2 ^ 29 ->
  exists tokens ys, sdssplitlen fill usable try_fails (x ++ jx) (zlen x) (sep ++ jsep) (zlen sep) = Some (Some tokens) /\ Forall2 sds_rep tokens ys /\
    (x = [] -> ys = []) /\ (x <> [] -> split_of sep x ys) /\ gives (sdsjoinsds fill usable try_fails tokens (sep ++ jsep) (zlen sep)) x.
Proof.
  intros Hsep Hx. destruct x as [|c x].
  - exists [], []. pose proof (zlen_pos sep Hsep). unfold sdssplitlen. rewrite zlen_nil. rewrite_if_false. split_and!; [done|constructor|done|done|]. by apply (joinsds_rep fill usable try_fails usable_enough [] [] sep jsep).
  - destruct (splitlen_rep fill usable try_fails usable_enough (c :: x) jx sep jsep Hsep ltac:(done) Hx) as (tokens & ys & Ht & Hr & Hs). exists tokens, ys. split_and!; [done..|]. pose proof (split_of_join sep (c :: x) ys Hs) as Hj.
    destruct (joinsds_rep fill usable try_fails usable_enough tokens ys sep jsep Hr) as (s & H1 & H2); [rewrite Hj; lia|]. exists s. by rewrite Hj in H2.
Qed.

(** C14. [sdscatrepr] and [sdssplitargs]: the first appends the quoted form of any
    bytes; the second has a result on every line (it does not read past its end,
    and ends), and on a line of arguments with blanks between them, each written
    plainly, between single quotes, or as [sdscatrepr] writes it, it returns
    these arguments. *)
Theorem sdssplitargs_correct : 
  (forall s x y r, sds_rep s x -> zlen x + 4 * zlen y + 2 < 2 ^ 62 -> gives (sdscatrepr fill usable s (y ++ r) (zlen y)) (x ++ repr_text y)) /\
  (forall line r, Forall (fun c => c <> 0) line -> zlen line < 2 ^ 61 -> exists res, sdssplitargs fill usable try_fails (line ++ 0 :: r) = Some res /\ forall ss, res = Some ss -> Forall (fun s => exists x, sds_rep s x) ss) /\
  (forall args line r, line_of args line -> zlen line < 2 ^ 61 -> exists ss, sdssplitargs fill usable try_fails (line ++ 0 :: r) = Some (Some ss) /\ Forall2 sds_rep ss args).
Proof.
  split_and!.
  - intros s x y r Hr Hz. by apply catrepr_rep.
  - intros line r Hl Hz. by apply splitargs_total.
  - intros args line r Hl Hz. by apply splitargs_line.
Qed.

(** C21. The formatted texts: [sdscatfmt] appends what its format describes and
    [sdscatvprintf] any text [vsnprintf] produces, growing its buffer once if it
    has to; [sdsfromlonglong] gives the decimal text of every number but the
    least one, whose negation is undefined, and a format of [sdscatfmt] that ends
    with a percent sign is read past its end. [sdstemplate] expands templates and
    returns NULL on those that are not closed or name an unknown variable. *)
Theorem sds_formats s x : sds_rep s x -> zlen x < 2 ^ 61 ->
  (forall f ap out rest, fmt_text f ap out -> zlen out < 2 ^ 61 -> 2 * zlen f < 2 ^ 61 -> gives (sdscatfmt fill usable s (f ++ 0 :: rest) ap) (x ++ out)) /\
  (forall f ap out, fmt_text f ap out -> zlen out < 2 ^ 61 -> 2 * zlen f < 2 ^ 61 -> sdscatfmt fill usable s (f ++ [37; 0]) ap = None) /\
  (forall fmtlen text, 0 <= fmtlen < 2 ^ 61 -> zlen text <= INT32_MAX -> gives (r ← sdscatvprintf fill usable s fmtlen text; r) (x ++ text)) /\
  (forall v, LLONG_MIN < v <= LLONG_MAX -> gives (sdsfromlonglong fill usable try_fails v) (decimal v)) /\
  sdsfromlonglong fill usable try_fails LLONG_MIN = None /\
  (forall vals cb_func T o junk,
     (forall s name, sds_rep s name -> match vals name with Some v => gives (s' ← cb_func s; s') v | None => cb_func s = Some None end) ->
     (forall name v, vals name = Some v -> zlen v < 2 ^ 31) -> template_of vals T o -> zlen T < 2 ^ 30 ->
     match o with Some z => gives (s ← sdstemplate fill usable try_fails (T ++ 0 :: junk) cb_func; s) z | None => sdstemplate fill usable try_fails (T ++ 0 :: junk) cb_func = Some None end).
Proof.
  intros Hs Hx. split_and!.
  - intros f ap out rest Hf Ho Hl. apply catfmt_rep; [done..|lia|lia].
  - intros f ap out Hf Ho Hl. apply (catfmt_percent fill usable try_fails usable_enough s x f ap out Hs Hf); lia.
  - intros n text Hn Ht. pose proof (catvprintf_rep fill usable usable_enough s x n text Hs ltac:(lia)) as Hc. unfold INT32_MAX in *. specialize (Hc ltac:(lia)). rewrite (proj2 (Z.leb_le _ _)) in Hc by done. destruct Hc as (s' & -> & Hr'). by exists s'.
  - intros v Hv. by apply fromlonglong_rep.
  - done.
  - intros vals cb T o junk Hcb Hsm HT Hz. pose proof (template_rep vals cb) as Ht. specialize (Ht ltac:(intros s0 name Hn; specialize (Hcb s0 name Hn); destruct (vals name); [destruct Hcb as (s' & (so & H1 & ->)%bind_Some & Hr'); eauto|done]) Hsm T o junk HT Hz).
    destruct o; [|done]. destruct Ht as (s' & -> & Hr'). by exists s'.
Qed.

End Claims.

(** ** Instances *)

#[local] Instance demo_sds_host : Host := { big_endian := false }.

Definition exact_size (old n : Z) : Z := n.
Definition zero_fill (i : nat) : byte := 0.
Definition never_fails (n : Z) : bool := false.

Lemma exact_enough : forall old n, 0 <= n < 2 ^ 64 -> n <= exact_size old n < 2 ^ 64.
Proof. unfold exact_size. lia. Defined.

(** "ab" with the shortest header, and "c" with room for two bytes more. *)
Definition demo_ab : sds := mk_sds [16; 97; 98; 0] 1.
Definition demo_c : sds := mk_sds [1; 3; 1; 99; 0; 5; 5] 3.

Lemma demo_ab_rep : sds_rep demo_ab [97; 98].
Proof. exists 0, 2, []. split; [|done..]. split; [by vm_compute|]. left. by vm_compute. Defined.

Lemma demo_c_rep : sds_rep demo_c [99].
Proof. exists 1, 3, [5; 5]. split; [|done..]. split; [by vm_compute|]. right. by vm_compute. Defined.

Lemma sds_refines_witness : gives (sdscatsds zero_fill exact_size demo_ab demo_c) [97; 98; 99].
Proof. refine (proj1 (proj2 (proj2 (proj2 (sds_refines zero_fill exact_size never_fails exact_enough demo_ab [97; 98] demo_c [99] demo_ab_rep demo_c_rep _))))). by vm_compute. Defined.

Lemma sdsMakeRoomFor_overflow_witness : exists s' room,
  sdsMakeRoomFor zero_fill exact_size demo_ab (2 ^ 64 - 2 ^ 20) = Some s' /\ sds_rep s' [97; 98] /\ sdsavail s' = Some room /\ room < 2 ^ 32.
Proof. apply (sdsMakeRoomFor_overflow zero_fill exact_size exact_enough demo_ab [97; 98] (2 ^ 64 - 2 ^ 20) demo_ab_rep); by vm_compute. Defined.

(** "a,b" at commas. *)
Lemma sdssplitlen_join_witness : exists tokens ys, sdssplitlen zero_fill exact_size never_fails ([97; 44; 98] ++ [0]) 3 ([44] ++ [0]) 1 = Some (Some tokens) /\ Forall2 sds_rep tokens ys /\
  ([97; 44; 98] = [] -> ys = []) /\ ([97; 44; 98] <> [] -> split_of [44] [97; 44; 98] ys) /\ gives (sdsjoinsds zero_fill exact_size never_fails tokens ([44] ++ [0]) 1) [97; 44; 98].
Proof. apply (sdssplitlen_join zero_fill exact_size never_fails exact_enough [97; 44; 98] [0] [44] [0]); [done|by vm_compute]. Defined.

(** The plain "a" and the quoted line feed. *)
Lemma sdssplitargs_correct_witness : exists ss, sdssplitargs zero_fill exact_size never_fails ([97; 32; 34; 92; 110; 34] ++ 0 :: []) = Some (Some ss) /\ Forall2 sds_rep ss [[97]; [10]].
Proof.
  refine (proj2 (proj2 (sdssplitargs_correct zero_fill exact_size never_fails exact_enough)) [[97]; [10]] [97; 32; 34; 92; 110; 34] [] _ _); [|by vm_compute]. apply (line_cons [] [97] [97] [[10]] [32; 34; 92; 110; 34]).
  - constructor.
  - apply written_plain; [done|]. constructor; [|constructor]. unfold plain, is_separator. lia.
  - apply (line_cons [32] [10] (repr_text [10]) [] []); [by constructor| |apply line_nil; constructor|by left]. apply written_double. constructor; [by vm_compute|constructor].
  - right. exists 32, [34; 92; 110; 34]. unfold is_separator. auto.
Defined.

(** The format "%i" with -7. *)
Lemma sds_formats_witness : gives (sdscatfmt zero_fill exact_size demo_ab ([37; 105] ++ 0 :: []) [AInt (-7)]) [97; 98; 45; 55].
Proof.
  refine (proj1 (sds_formats zero_fill exact_size never_fails exact_enough demo_ab [97; 98] demo_ab_rep ltac:(by vm_compute)) [37; 105] [AInt (-7)] [45; 55] [] _ _ _); [|by vm_compute..].
  apply (fmt_arg 105 (AInt (-7)) [] [] (decimal (-7)) []); [|apply fmt_nil]. apply arg_i. by vm_compute.
Defined.
